(* ===== verification/_CoqProject ===== *)
-Q . S2P
Prelude.v
UtHash.v
Event.v
Fs.v
FsInode.v
FsTree.v
FsRefine.v
FsRemove.v
FsLife.v
FsCleanup.v
FsBoot.v
FsFuse.v
FsFuseSpec.v
FsDup.v
Sigproc.v
KldFs.v
FsProps.v
KoSpec.v
Bos.v
BosSpec.v
KldElf.v
KldElfSpec.v
Kallsyms.v
KallsymsSpec.v
KldMain.v
KldMainSpec.v
KldServe.v
SymHeap.v
KldProps.v
ElfTest.v
X86.v
Interposer.v
InterposerSpec.v
Idt.v
IntProps.v
Adaptor.v
AdaptorSpec.v
AdaptorProps.v
AdaptorAsm.v
AdaptorAsmSpec.v
EntryProps.v
ExceptionPath.v
PfDemo.v
TestHandler.v
Dpld.v
EchoServer.v
Double.v
EchoClient.v
ClientStats.v
Kcut.v
Evacuate.v
EvacuateSpec.v
EvacuateKill.v
EvacuateHold.v
KcutEvac.v
ShortcutProps.v
KcutThreads.v
KcutDriver.v
Cli.v
NewDriver.v
Kldso.v
FindLib.v
DriverProps.v
ListLibs.v
StackTest.v
CpuMigration.v
SigLoad.v
ReadSymTbl.v
PageSwap.v
BackLink.v
ModLoad.v
ModPrograms.v
CStrings.v
ToolProps.v
DemoProps.v
