(* ===== verification/Prelude.v ===== *)
(** * Symbi-OS: a verification of its tools and examples

    Symbi-OS lets an application thread run in supervisor mode (it is then
    _elevated_) and call kernel code directly. The kernel patch, the Symbiote
    library and the C library are git submodules and are not part of the
    repository; what is, under [src/examples], is the C and assembly code that makes
    the mechanism usable: a tool that generates libraries for the kernel's symbols,
    a loader, kernel extensions that change how exceptions are taken, shortcuts
    around system calls, and programs that use them. This development models that
    code, function by function, and proves what makes it correct.

    ** Method

    C code is a computation of the monad [M] below: it returns, exits, fails an
    assertion, has undefined behaviour ([Fault]) or exceeds the bound of the model
    ([NoFuel]). Proofs use the total-correctness predicates [wp] and [wpe], or
    equations with the [step] tactics. A theorem that code returns says that it
    does: the outcome is [Done], never only "if it returns". Integers are [Z] with
    the wrap-around of their width written out ([u32], [i32], ...). Libraries that are not in the
    repository are interfaces: uthash is the class [UtHash] with the laws of its
    documentation and a list instance that satisfies them, directory entries of
    libfuse are the class [FuseLib], libelf is the record of what is handed to it.
    What system calls and the kernel answer is data over which the theorems are
    universally quantified.

    ** The parts, and where they are modelled

    The tool [kld] ([src/examples/tools/src/kld]) reads kernel objects and
    [/proc/kallsyms] and writes one stub library per module:
    - [KoSpec]: [modnmfromfnm], [parsekospec] of [main.c], strings cut in place;
    - [Bos], [BosSpec]: [globals.h] and the options, search, table and descriptors of
      binary objects ([addbo], [deletebo], [GBLSInit], [cleanup]);
    - [KldElf], [KldElfSpec]: [elf.c], generation and reading of libraries;
    - [Kallsyms], [KallsymsSpec]: [prcKallsyms] with [sscanf] and [mkpath];
    - [KldMain], [KldMainSpec]: [writeso], [prcBO], [prcExec], [main]; [KldServe]: the
      branch of [main] that serves the file system;
    - [SymHeap]: the blocks of the heap behind the symbols of [prcKallsyms], and their
      release in [cleanupEntries];
    - [KldProps]: the theorems about them; [ElfTest]: the test program in [elf.c];
    - [ListLibs], [ReadSymTbl]: the stand-alone listings [listlibs.c], [readsymtbl.c].

    The file system [kld] can serve:
    - [UtHash], [Event]: the interfaces it is written against;
    - [Fs]: inode table, free list, file objects, directories, [fsCreatedir],
      [fsCreatefile], [fsRemoveitem]; [FsInode]: invariant of the allocator;
    - [FsTree]: the abstract tree and the relation [repr] between tree and state;
      [FsRefine], [FsRemove]: creation and removal refine it;
    - [FsLife], [FsCleanup], [FsBoot]: [fsInit], [fsCreate], [fsCleanup];
    - [FsFuse], [FsFuseSpec]: the callbacks, as the replies they send;
    - [Sigproc], [KldFs]: [sigproc.c] and the epoll loop of [kldfs.c];
    - [FsDup]: what a duplicate name does; [FsProps]: the theorems.

    Exceptions:
    - [X86]: registers, memory and the instructions the assembly uses;
    - [Interposer], [InterposerSpec]: [idtr_interposer/kmod/common.h], [interpos.c],
      handlers in front of those of the kernel; [Idt]: [kmod/main.c], the descriptor
      table that leads to them, and the program [main.c]; [IntProps]: the theorems;
    - [Adaptor], [AdaptorSpec], [AdaptorProps]: [kcuttest/idtadaptor.kc],
      [efadaptor.kc], [pfadaptor.kc], exception stacks and fault handlers;
    - [AdaptorAsm], [AdaptorAsmSpec], [EntryProps]: their entry code [efasm.kS],
      [pfasm.kS], with a small program logic ([here]);
    - [ExceptionPath]: the processor's entry through a gate, and tables and entry code
      put together, from the fault to the kernel's handler;
    - [PfDemo]: the first form of that code, [pfdemo/pftest.S]; [TestHandler]: the test
      handler of [efadaptor.kc] and its wrapper.

    Privilege and shortcuts:
    - [Dpld]: [tools/src/dpld.c], [idtr_interposer/load_mod.c], binding of symbols;
    - [Kcut]: [kcuttest/kcut.h], [kcut_tcpmsg.h], [kcut_tcpmsg.kc], [ktos.h];
    - [EchoServer], [EchoClient]: [kcuttcp/esrv.c], [eclnt.c], on system calls or on
      the shortcuts of [Kcut]; [Double]: the arithmetic of the client; [ClientStats]:
      its statistics, its connection and its [main];
    - [Evacuate], [EvacuateSpec], [EvacuateKill]: [kcuttest/evacuate.kc];
      [EvacuateHold]: what other tasks do between its calls (they fork, exit, change
      their masks, hold processors of their own) and who has a reference to whom;
      [KcutEvac]: [kcut_init] and [kcut_cleanup] of [kcut.h] with [evacuate.h], which
      put [Kcut] and [Evacuate] together; [ShortcutProps]: the theorems about all of these;
    - [KcutThreads], [KcutDriver]: [kcuttest/main.c], which puts the parts together;
      [Cli]: [getopt], [atol], [atoi]; [NewDriver]: [kcuttest/newmain.c];
    - [Kldso]: [tools/src/kldso/main.c]; [FindLib]: [misc/findlibkallsyms.c];
      [DriverProps]: the theorems;
    - [StackTest]: [kcuttest/mmap_stack_test.c]; [CpuMigration]:
      [cpu_migration/main.c]; [PageSwap]: [swap_phys_pages]; [BackLink]:
      [back_linkage/greeter.kc]; [SigLoad]: [src/tests/signals]; [ToolProps]: the
      theorems about them and [ListLibs];
    - [ModLoad]: [load_mod.c] of the programs that carry a kernel module;
      [ModPrograms]: those programs ([printk], [read_idtr], [swap_phys_pages],
      [tests/fork], [tests/ko_in_elf], [tests/ifuncs]); [CStrings]: the string functions
      of [tests/ifuncs]; [DemoProps]: the theorems about them, [ClientStats] and
      [NewDriver].

    ** What the theorems show

    - File system: from start through any granted sequence of creations to cleanup no
      assertion fails, no freed object is used and none is left ([fs_lifecycle]); the
      operations refine those on trees ([creations_refine_tree],
      [remove_refines_tree], [lookup_refines_tree]); a directory is listed completely
      ([readdir_complete]), every call is answered once ([one_reply_per_call]), the
      loop ends for the reasons it should ([loop_verdict]), and [kld] serves and
      releases it without a fault, leaving one descriptor open ([fs_service]).
    - [kld]: every run ends, and with its descriptors closed but for one on one path
      ([program_ends], [startup_cleanup]), a binary object is added wholly or not at
      all, though its library may be emptied ([addbo_all_or_nothing]), libraries hold exactly the symbols they should
      ([kallsyms_libraries], [generate_read_roundtrip]), string tables never overflow
      ([read_room_suffices]) and every block of the symbol arrays is freed once
      ([kallsyms_memory_run]).
    - Exceptions: interposers and adaptors hand on the interrupted context
      ([interposers_transparent], [exception_delivered], [interrupt_delivered],
      [page_fault_adjusted], [double_fault_adjusted]), so that the kernel's handler
      begins as it would without the extension ([extension_transparent]); tables change where they
      should and nowhere else ([interposition_setup], [exception_stacks],
      [fault_handlers_installed]), the debug handler changes the bits of DR7 it should
      ([debug_trap]), and a table is printed as
      the processor reads it ([idt_printed]).
    - Privilege: kernel code never runs without privilege ([kcut_schedule],
      [dpld_resolves], [driver_gives_back]); a processor is held, by the caller and
      those tasks that cannot or must not be moved, and every
      task is restored, whatever other tasks do meanwhile ([exclusive_cpu]), and no
      holder ever uses a task that was freed ([evacuation_safe]); the server echoes or is still in a
      call that does not end ([server_echoes],
      [server_answers]) and the client reports what it measured ([client_reports]);
      no increment of the threads is lost in any interleaving and every schedule is
      bounded ([threads_count]).
    - Stand-alone programs: what is listed, loaded, exchanged, counted and released on
      every path ([libraries_listed], [listing_agrees], [module_loading],
      [pages_exchanged], [migration_demo], [stack_test_releases], [new_driver_outcomes],
      [printk_program], [fork_processes], [strcpy_implementations_agree],
      [my_strcmp_order], [self_test_run]).
    - Where the code does something other than it means to, a theorem says what it
      does: [create_after_remove_aborts], [duplicate_create_breaks_cleanup],
      [getattr_free_inode], [adaptor_failures_fault],
      [create_failure_hangs], [interposition_unload], [adaptors_exclude],
      [underscore_left], [undefined_weak_is_U], [demo_err_clobbers],
      [test_handler_returns], [test_data_not_printed], [self_test_null],
      [release_ends_every_hold], [second_holder_unpinned], [unsaved_not_restored],
      [acquire_frees_twice], [long_line_missed]; also the double fault branch of
      [exception_delivered] and the count of needless lowerings in [kcut_schedule].

    ** Bounds

    Loops over data recurse on the data. Where there is fuel it is a bound the source
    gives: the length of the string scanned ([FindLib], [ListLibs]), the size of the
    inode table ([fsRemoveitem] climbs the tree, whose depth is at most that), the
    number of tasks ([is_ancestor]), the arguments of the command line
    ([KcutDriver]), the number of chunks ([SigLoad]), the root of the limit
    ([CpuMigration]), the length of the string copied or compared ([CStrings]). The
    theorems show that it is enough, and for the one loop that cannot end (the stability
    test of [NewDriver]) that no fuel is. The echo server and the event loop end when
    the data that stands for the system does; the outcome then says that they are still
    waiting.

    ** Not modelled

    - printing, except of the values the theorems are about;
    - failed allocations where the source does not test for them;
    - the debugging entries of [efasm.kS], and the RCU read sections of [evacuate.kc]
      (its mutex and its spin lock are part of the state);
    - the arithmetic flags that the [xor] instructions of the interposers leave, which
      no later instruction reads, and what [printf] writes on the moved stack in
      [mmap_stack_test.c];
    - the descriptor libfuse opens for the mount and closes with it;
    - [pfdemo/test_pfadaptor.c], which jumps into the entry code with its frame wherever
      the compiler puts a local array;
    - [stubtest.c], [kcuttest/greeter.kc], [tests/main.c], [tests/globDataVscopy], the
      BPF program and [hello.c] of [kldso], which only call and print;
    - [tests/signals/ifunc_example.c] and [tests/fork/kmod/greeter.c], which are copies of
      files that are modelled;
    - the kernel patch, the Symbiote library, the C library and libelf, which are not in
      the repository.

    ** Plan

    Done: the parts above, which are all that has logic of its own. Other tasks are
    interleaved with whole calls of [evacuate.kc]; what could be added is the scheduler
    inside its critical sections, which the locks leave to it in part.

    ** This file

    The monad of C outcomes with its predicates and tactics, machine integers,
    descriptors: what all components share. *)
From stdpp Require Export base tactics option list numbers strings gmap.
From Stdlib Require Export ZArith Lia.

(** ** Outcomes of a piece of C code

    [Done a s]   : the code returned [a] in state [s];
    [Exited c s] : it called [exit(c)] in state [s];
    [Aborted]    : an [assert] failed (or an [NYI] marker was reached);
    [Fault]      : undefined behaviour (null or dangling pointer, index out of
                   bounds, read of an uninitialised variable);
    [NoFuel]     : the bound given to a loop of the model was too small. *)
Inductive outcome (S A : Type) : Type :=
| Done (a : A) (s : S)
| Exited (code : Z) (s : S)
| Aborted
| Fault
| NoFuel.
Arguments Done {S A} _ _.
Arguments Exited {S A} _ _.
Arguments Aborted {S A}.
Arguments Fault {S A}.
Arguments NoFuel {S A}.

(** A computation over a mutable state [S]. *)
Definition M (S A : Type) : Type := S → outcome S A.

#[export] Instance M_ret {S} : MRet (M S) := λ A a s, Done a s.
#[export] Instance M_bind {S} : MBind (M S) := λ A B f m s,
  match m s with
  | Done a s' => f a s'
  | Exited c s' => Exited c s'
  | Aborted => Aborted
  | Fault => Fault
  | NoFuel => NoFuel
  end.

(** A first step that returns. *)
Lemma bind_done {S A B} (m : M S A) (f : A → M S B) s a s' :
  m s = Done a s' → (m ≫= f) s = f a s'.
Proof. unfold mbind, M_bind. by intros ->. Qed.

(** A first step that ends the computation. *)
Lemma bind_exited {S A B} (m : M S A) (f : A → M S B) s c s' :
  m s = Exited c s' → (m ≫= f) s = Exited c s'.
Proof. unfold mbind, M_bind. by intros ->. Qed.
Lemma bind_fault {S A B} (m : M S A) (f : A → M S B) s : m s = Fault → (m ≫= f) s = Fault.
Proof. unfold mbind, M_bind. by intros ->. Qed.
Lemma bind_nofuel {S A B} (m : M S A) (f : A → M S B) s : m s = NoFuel → (m ≫= f) s = NoFuel.
Proof. unfold mbind, M_bind. by intros ->. Qed.

(** [step] runs a first step that computes, [step_by H] one that [H] describes. *)
Ltac step := erewrite bind_done by reflexivity.
Tactic Notation "step_by" uconstr(H) := rewrite (bind_done _ _ _ _ _ H).

Section operations.
Context {S : Type}.

Definition getM : M S S := λ s, Done s s.
Definition getsM {A} (f : S → A) : M S A := λ s, Done (f s) s.
Definition modifyM (f : S → S) : M S unit := λ s, Done tt (f s).
Definition abortM {A} : M S A := λ _, Aborted.
Definition faultM {A} : M S A := λ _, Fault.
Definition nofuelM {A} : M S A := λ _, NoFuel.
Definition exitM {A} (c : Z) : M S A := λ s, Exited c s.

(** [assert(b)] *)
Definition assertM (b : bool) : M S unit := if b then mret tt else abortM.

(** Dereference of a pointer whose target is [o]. *)
Definition derefM {A} (o : option A) : M S A :=
  match o with Some a => mret a | None => faultM end.
End operations.

(** ** Total-correctness weakest precondition

    [wp m Q s] : run from [s], [m] returns (no assertion fails, no undefined
    behaviour, no exit, enough fuel) and the result satisfies [Q]. *)
Definition wp {S A} (m : M S A) (Q : A → S → Prop) (s : S) : Prop :=
  match m s with Done a s' => Q a s' | _ => False end.

Section wp.
Context {S : Type}.

Lemma wp_ret {A} (a : A) Q (s : S) : Q a s → wp (mret a) Q s.
Proof. done. Qed.

Lemma wp_bind {A B} (m : M S A) (f : A → M S B) Q s :
  wp m (λ a, wp (f a) Q) s → wp (m ≫= f) Q s.
Proof. unfold wp, mbind, M_bind. by destruct (m s). Qed.

Lemma wp_bind_inv {A B} (m : M S A) (f : A → M S B) Q s :
  wp (m ≫= f) Q s → wp m (λ a, wp (f a) Q) s.
Proof. unfold wp, mbind, M_bind. by destruct (m s). Qed.

Lemma wp_mono {A} (m : M S A) (P Q : A → S → Prop) s :
  wp m P s → (∀ a s', P a s' → Q a s') → wp m Q s.
Proof. unfold wp. destruct (m s); naive_solver. Qed.

Lemma wp_done {A} (m : M S A) Q s :
  wp m Q s ↔ ∃ a s', m s = Done a s' ∧ Q a s'.
Proof. unfold wp. destruct (m s); naive_solver. Qed.

(** Computations that agree on the state at hand. *)
Lemma wp_eq {A} (m m' : M S A) Q s : m s = m' s → wp m' Q s → wp m Q s.
Proof. unfold wp. by intros ->. Qed.

Lemma wp_get Q (s : S) : Q s s → wp getM Q s.
Proof. done. Qed.

Lemma wp_gets {A} (f : S → A) Q s : Q (f s) s → wp (getsM f) Q s.
Proof. done. Qed.

Lemma wp_modify f Q (s : S) : Q tt (f s) → wp (modifyM f) Q s.
Proof. done. Qed.

Lemma wp_assert b Q (s : S) : b = true → Q tt s → wp (assertM b) Q s.
Proof. by intros ->. Qed.

Lemma wp_deref {A} (o : option A) a Q (s : S) :
  o = Some a → Q a s → wp (derefM o) Q s.
Proof. by intros ->. Qed.
End wp.

(** ** Programs that may call [exit]

    [wpe m Q E s]: [m] returns and its result satisfies [Q], or it exits and
    status and state satisfy [E]. *)
Definition wpe {S A} (m : M S A) (Q : A → S → Prop) (E : Z → S → Prop) (s : S) : Prop :=
  match m s with Done a s' => Q a s' | Exited c s' => E c s' | _ => False end.

Section wpe.
Context {S : Type} (E : Z → S → Prop).

Lemma wpe_ret {A} (a : A) Q (s : S) : Q a s → wpe (mret a) Q E s.
Proof. done. Qed.

Lemma wpe_exit {A} c (Q : A → S → Prop) s : E c s → wpe (exitM c) Q E s.
Proof. done. Qed.

Lemma wpe_bind {A B} (m : M S A) (f : A → M S B) Q s :
  wpe m (λ a, wpe (f a) Q E) E s → wpe (m ≫= f) Q E s.
Proof. unfold wpe, mbind, M_bind. by destruct (m s). Qed.

Lemma wpe_wp {A} (m : M S A) Q s : wp m Q s → wpe m Q E s.
Proof. unfold wp, wpe. by destruct (m s). Qed.

Lemma wpe_done {A} (m : M S A) Q s :
  wpe m Q E s ↔ (∃ a s', m s = Done a s' ∧ Q a s') ∨ (∃ c s', m s = Exited c s' ∧ E c s').
Proof. unfold wpe. destruct (m s); naive_solver. Qed.
End wpe.

(** [wp_step] performs one step of symbolic execution on a [wp] goal. *)
Ltac wp_step :=
  match goal with
  | |- wp (mbind _ _) _ _ => apply wp_bind
  | |- wp (mret _) _ _ => apply wp_ret
  | |- wp getM _ _ => apply wp_get
  | |- wp (getsM _) _ _ => apply wp_gets
  | |- wp (modifyM _) _ _ => apply wp_modify
  | |- wp (derefM ?o) _ _ => eapply wp_deref; [eassumption || reflexivity |]
  | |- wp (assertM _) _ _ => apply wp_assert
  end.
Ltac wp_steps := repeat (wp_step; try done; simpl).

Create HintDb outcome discriminated.
#[export] Hint Resolve wp_ret wp_get wp_gets wp_modify : outcome.

(** ** Machine integers *)
Definition u8 (x : Z) : Z := x mod 2 ^ 8.
Definition u16 (x : Z) : Z := x mod 2 ^ 16.
Definition u32 (x : Z) : Z := x mod 2 ^ 32.
Definition u64 (x : Z) : Z := x mod 2 ^ 64.

(** Two's complement reading of the low [w] bits. *)
Definition swrap (w x : Z) : Z := (x + 2 ^ (w - 1)) mod 2 ^ w - 2 ^ (w - 1).
Definition i32 (x : Z) : Z := swrap 32 x.
Definition i64 (x : Z) : Z := swrap 64 x.

Lemma i32_id x : (- 2 ^ 31 <= x < 2 ^ 31)%Z → i32 x = x.
Proof. intros H. unfold i32, swrap. rewrite Z.mod_small; lia. Qed.

Lemma i32_i32 x : i32 (i32 x) = i32 x.
Proof.
  apply i32_id. unfold i32, swrap. change (32 - 1)%Z with 31%Z.
  pose proof (Z.mod_pos_bound (x + 2 ^ 31) (2 ^ 32) ltac:(lia)). lia.
Qed.

Create HintDb machine.
#[export] Hint Rewrite i32_i32 : machine.
#[export] Hint Rewrite i32_id using lia : machine.

(** ** Descriptors *)
(** The lowest descriptor not in use, as [open] returns it. *)
Definition lowest_fd (fds : gset Z) : Z :=
  default 0%Z (head (filter (λ fd, fd ∉ fds) (seqZ 0 (Z.of_nat (S (size fds)))))).

Lemma lowest_fd_spec fds : lowest_fd fds ∉ fds ∧ (0 <= lowest_fd fds)%Z.
Proof.
  unfold lowest_fd.
  destruct (filter (λ fd, fd ∉ fds) (seqZ 0 (Z.of_nat (S (size fds))))) as [|x l] eqn:E.
  - exfalso. assert (list_to_set (seqZ 0 (Z.of_nat (S (size fds)))) ⊆ fds) as Hsub.
    { intros x Hx%elem_of_list_to_set. destruct (decide (x ∈ fds)); [done|].
      assert (x ∈ filter (λ fd, fd ∉ fds) (seqZ 0 (Z.of_nat (S (size fds))))) as Hin.
      { by apply list_elem_of_filter. }
      rewrite E in Hin. by apply elem_of_nil in Hin. }
    apply subseteq_size in Hsub. rewrite size_list_to_set in Hsub by apply NoDup_seqZ.
    rewrite length_seqZ in Hsub. lia.
  - assert (x ∈ filter (λ fd, fd ∉ fds) (seqZ 0 (Z.of_nat (S (size fds))))) as Hin by (rewrite E; left).
    apply list_elem_of_filter in Hin as [Hx Hs]. simpl. split; [done|].
    apply elem_of_seqZ in Hs. lia.
Qed.
