(* ===== verification/UtHash.v ===== *)
(** * The hash table library the tools are written against

    [kld] keeps its tables (directory entries, binary objects, modules) in
    uthash tables.  uthash is fetched at build time and is not part of the
    repository, so it is an interface here: the operations the code uses, with
    the laws the uthash documentation states for tables whose keys are unique.
    [ht_items] is the application order of the table, the order in which
    [HASH_ITER] visits the elements. *)
From S2P Require Import Prelude.

Class UtHash := {
  htab : Type → Type → Type;
  ht_empty : ∀ {K V}, htab K V;
  ht_find : ∀ {K V} `{EqDecision K}, K → htab K V → option V;
  ht_add : ∀ {K V} `{EqDecision K}, K → V → htab K V → htab K V;
  ht_del : ∀ {K V} `{EqDecision K}, K → htab K V → htab K V;
  ht_items : ∀ {K V}, htab K V → list (K * V);
}.

(** [HASH_CNT] *)
Definition ht_cnt `{UtHash} {K V} (t : htab K V) : nat := length (ht_items t).

Definition ht_keys `{UtHash} {K V} (t : htab K V) : list K := (ht_items t).*1.

Class UtHashLaws `{UtHash} := {
  ht_items_empty : ∀ {K V}, ht_items (ht_empty : htab K V) = [];
  ht_items_add : ∀ {K V} `{EqDecision K} (k : K) (v : V) t,
    k ∉ ht_keys t → ht_items (ht_add k v t) = ht_items t ++ [(k, v)];
  ht_items_del : ∀ {K V} `{EqDecision K} (k : K) (t : htab K V),
    NoDup (ht_keys t) →
    ht_items (ht_del k t) = filter (λ kv, kv.1 ≠ k) (ht_items t);
  ht_find_spec : ∀ {K V} `{EqDecision K} (k : K) (v : V) t,
    NoDup (ht_keys t) → (ht_find k t = Some v ↔ (k, v) ∈ ht_items t);
}.

Section laws.
Context `{UtHashLaws} {K V : Type} `{EqDecision K}.
Implicit Types t : htab K V.

Lemma ht_keys_empty : ht_keys (ht_empty : htab K V) = [].
Proof. unfold ht_keys. by rewrite ht_items_empty. Qed.

Lemma ht_keys_add k v t : k ∉ ht_keys t → ht_keys (ht_add k v t) = ht_keys t ++ [k].
Proof. intros. unfold ht_keys. by rewrite ht_items_add, fmap_app. Qed.

Lemma ht_find_None k t : NoDup (ht_keys t) → (ht_find k t = None ↔ k ∉ ht_keys t).
Proof.
  intros Hnd. unfold ht_keys. rewrite list_elem_of_fmap. split.
  - intros Hn ([k' v] & -> & Hin). simpl in *.
    apply ht_find_spec in Hin; [congruence | done].
  - intros Hn. destruct (ht_find k t) as [v|] eqn:E; [|done].
    apply ht_find_spec in E; [|done]. destruct Hn. by exists (k, v).
Qed.

Lemma ht_nodup_empty : NoDup (ht_keys (ht_empty : htab K V)).
Proof. rewrite ht_keys_empty. constructor. Qed.

Lemma ht_nodup_add k v t :
  NoDup (ht_keys t) → k ∉ ht_keys t → NoDup (ht_keys (ht_add k v t)).
Proof.
  intros Hnd Hk. rewrite ht_keys_add by done. apply NoDup_app.
  split_and!; [done | set_solver | apply NoDup_singleton].
Qed.

Lemma ht_nodup_del k t : NoDup (ht_keys t) → NoDup (ht_keys (ht_del k t)).
Proof.
  intros Hnd. unfold ht_keys in *. rewrite ht_items_del by done.
  revert Hnd. induction (ht_items t) as [|[k' v] l IH]; simpl; intros Hnd; [constructor|].
  apply NoDup_cons in Hnd as [Hk Hnd].
  rewrite filter_cons. case_decide; simpl; [|by apply IH].
  apply NoDup_cons; split; [|by apply IH].
  intros Hin. apply Hk. apply list_elem_of_fmap in Hin as (x & -> & Hx).
  apply list_elem_of_filter in Hx as [_ Hx]. by apply list_elem_of_fmap_2.
Qed.

Lemma ht_items_del_elem k k' v t :
  NoDup (ht_keys t) →
  ((k', v) ∈ ht_items (ht_del k t) ↔ k' ≠ k ∧ (k', v) ∈ ht_items t).
Proof. intros Hnd. rewrite ht_items_del by done. by rewrite list_elem_of_filter. Qed.

Lemma ht_items_add_elem k v k' v' t :
  k ∉ ht_keys t →
  ((k', v') ∈ ht_items (ht_add k v t) ↔ (k', v') ∈ ht_items t ∨ (k' = k ∧ v' = v)).
Proof. intros. rewrite ht_items_add by done. set_solver. Qed.

Lemma ht_key_item k v t : (k, v) ∈ ht_items t → k ∈ ht_keys t.
Proof. intros Hin. unfold ht_keys. by apply (list_elem_of_fmap_2 fst) in Hin. Qed.

Lemma ht_keys_elem k t : k ∈ ht_keys t ↔ ∃ v, (k, v) ∈ ht_items t.
Proof.
  unfold ht_keys. rewrite list_elem_of_fmap. split.
  - intros ([k' v] & -> & Hin). by exists v.
  - intros [v Hin]. by exists (k, v).
Qed.

Lemma ht_cnt_add k v t : k ∉ ht_keys t → ht_cnt (ht_add k v t) = S (ht_cnt t).
Proof. intros. unfold ht_cnt. rewrite ht_items_add by done. rewrite length_app. simpl. lia. Qed.

(** Deleting a present key drops exactly one element. *)
Lemma ht_cnt_del k t :
  NoDup (ht_keys t) → k ∈ ht_keys t → S (ht_cnt (ht_del k t)) = ht_cnt t.
Proof.
  unfold ht_keys, ht_cnt. intros Hnd Hin. rewrite ht_items_del by done.
  revert Hnd Hin. induction (ht_items t) as [|[k' v] l IH]; simpl; [set_solver|].
  intros [Hk Hnd]%NoDup_cons Hin. rewrite filter_cons. case_decide as Hd; simpl in *.
  - f_equal. apply IH; [done|]. set_solver.
  - assert (k' = k) as -> by (destruct (decide (k' = k)); tauto). f_equal.
    clear IH Hin Hnd Hd. induction l as [|[k2 v2] l IH]; simpl in *; [done|].
    rewrite filter_cons_True by set_solver. simpl. f_equal. apply IH. set_solver.
Qed.

Lemma ht_cnt_nil t : ht_cnt t = 0 ↔ ht_items t = [].
Proof. unfold ht_cnt. apply length_zero_iff_nil. Qed.
End laws.

(** ** A reference implementation

    Association lists in insertion order satisfy the interface, so its laws are
    consistent; the witnesses of the development run on this instance. *)
Definition al_find {K V} `{EqDecision K} (k : K) (t : list (K * V)) : option V :=
  (λ p, p.2.2) <$> list_find (λ kv, kv.1 = k) t.

#[export] Instance al_uthash : UtHash := {|
  htab := λ K V, list (K * V);
  ht_empty := λ K V, [];
  ht_find := @al_find;
  ht_add := λ K V _ k v t, t ++ [(k, v)];
  ht_del := λ K V _ k t, filter (λ kv, kv.1 ≠ k) t;
  ht_items := λ K V t, t;
|}.

#[export] Instance al_uthash_laws : UtHashLaws.
Proof.
  split; try done. intros K V Heq k v t Hnd. unfold ht_find, al_uthash, al_find.
  simpl in *. revert Hnd. unfold ht_keys; simpl.
  induction t as [|[k' v'] t IH]; simpl; [set_solver|]. intros [Hk Hnd]%NoDup_cons.
  unfold list_find; simpl. case_decide as Hd; simpl in *.
  - subst. split; [set_solver|]. rewrite elem_of_cons. intros [?|Hin]; [naive_solver|].
    destruct Hk. by apply (list_elem_of_fmap_2 fst) in Hin.
  - rewrite elem_of_cons. specialize (IH Hnd). revert IH. fold (list_find (λ kv : K * V, kv.1 = k) t).
    destruct (list_find _ t) as [[]|]; simpl; naive_solver.
Qed.
