(* ===== verification/Event.v ===== *)
(** * Event descriptors ([kld/event.h])

    An event source of the epoll loop carries a descriptor: the handler to call
    and the object to hand to it. Two sources exist, the FUSE session ([fs.c])
    and the signal descriptor ([sigproc.c]). *)
From S2P Require Import Prelude.

(** [evnthdlrrc_t] *)
Inductive evnthdlrrc := EVNT_HDLR_SUCCESS | EVNT_HDLR_FAILED | EVNT_HDLR_EXIT_LOOP.

(** The handlers ([fsEvent], [sigEvent]) and the objects ([GBLS.fs],
    [GBLS.sigproc]) a descriptor can point to. *)
Inductive evnthdlr := fsEvent_ptr | sigEvent_ptr.
Inductive evntobj := obj_fs | obj_sigproc.

(** [evntdesc_t] *)
Record evntdesc := EvntDesc { hdlr : option evnthdlr; obj : option evntobj }.

#[export] Instance evnthdlrrc_eq_dec : EqDecision evnthdlrrc.
Proof. solve_decision. Defined.
#[export] Instance evnthdlr_eq_dec : EqDecision evnthdlr.
Proof. solve_decision. Defined.
#[export] Instance evntobj_eq_dec : EqDecision evntobj.
Proof. solve_decision. Defined.
#[export] Instance evntdesc_eq_dec : EqDecision evntdesc.
Proof. solve_decision. Defined.

(** ** The epoll event bits the handlers test ([sys/epoll.h]) *)
Definition EPOLLIN : Z := 0x1.
Definition EPOLLERR : Z := 0x8.
Definition EPOLLHUP : Z := 0x10.
Definition EPOLLRDHUP : Z := 0x2000.
Definition EPOLLET : Z := 0x80000000.

(** [evnts & bit] and [evnts & ~bit] *)
Definition has_evnt (evnts bit : Z) : bool := negb (Z.land evnts bit =? 0)%Z.
Definition clr_evnt (evnts bit : Z) : Z := Z.land evnts (Z.lnot bit).
