(* ===== verification/Fs.v ===== *)
(** * The synthetic file system: data and core operations ([kld/fs.h], [kld/fs.c])

    The FUSE file system [kld] can expose: a fixed table of inode descriptors
    threaded by a free list, heap allocated file objects, and two hash tables
    per directory (by inode and by name). Every operation is written in the
    state monad of the prelude over [fsw]: an [assert] is [assertM], a pointer
    dereference is [derefM], [malloc]ed file objects live in [heap] and are
    removed from it by [free]. [malloc] and [strdup] are taken to succeed, as
    the C code takes them to. *)
From S2P Require Import Prelude UtHash Event.

Definition INVALID_INO : nat := 0.
Definition ROOT_INO : nat := 1.

(** Errno values used by the callbacks. *)
Definition ENOENT : Z := 2.
Definition EACCES : Z := 13.
Definition EISDIR : Z := 21.
Definition ENOTSUP : Z := 95.

(** [fs_filetype_t] *)
Inductive fs_filetype := NONE | REGULAR | SYMLINK | DIRECTORY.
#[export] Instance fs_filetype_eq_dec : EqDecision fs_filetype.
Proof. solve_decision. Defined.

(** Addresses of [fs_file_t] objects and of static [fs_fileops_t] tables. *)
Abbreviation ptr := nat (only parsing).
Abbreviation opsptr := nat (only parsing).

Section fs.
Context `{UT : UtHash}.

(** [fs_dir_t] *)
Record fs_dir := FsDir {
  ino_files : htab nat ptr;
  nm_files : htab string ptr;
}.

(** What [data] points to: nothing, a symlink target or directory tables. *)
Inductive fs_data := DNull | DStr (s : string) | DDir (d : fs_dir).

(** [struct fs_filedesc] *)
Record fs_file := FsFile {
  f_ops : option opsptr;
  f_data : fs_data;
  f_name : option string;
  f_ino : nat;
  f_dir : nat;
  f_type : fs_filetype;
  f_malloced : bool;
}.

(** [fs_inodesc_t]: [id_next] points to another entry of the table. *)
Record fs_inodesc := Inodesc { id_file : option ptr; id_next : option nat }.

(** [fs_t]; the FUSE session and its receive buffer are recorded only as
    present or absent. *)
Record fs_t := FsT {
  fuse_args : list string;
  fuse_buf_mem : bool;
  ed : evntdesc;
  fuse_se : bool;
  mntpt : option string;
  ino_table : option (list fs_inodesc);
  ino_freelist : option nat;
  ino_num : Z;
  ino_numfree : Z;
  fuse_fd : Z;
  mkdir : bool;
}.

(** The state of the process the operations work on. *)
Record fsw := FsW { this : fs_t; heap : gmap nat fs_file; brk : nat }.

(** ** Field updates *)
Definition set_inotab (t : option (list fs_inodesc)) (fl : option nat) (num free : Z)
    (w : fsw) : fsw :=
  let f := this w in
  FsW (FsT (fuse_args f) (fuse_buf_mem f) (ed f) (fuse_se f) (mntpt f) t fl num free
           (fuse_fd f) (mkdir f)) (heap w) (brk w).
Definition set_table (t : list fs_inodesc) (w : fsw) : fsw :=
  set_inotab (Some t) (ino_freelist (this w)) (ino_num (this w)) (ino_numfree (this w)) w.
Definition set_freelist (fl : option nat) (w : fsw) : fsw :=
  set_inotab (ino_table (this w)) fl (ino_num (this w)) (ino_numfree (this w)) w.
Definition set_numfree (n : Z) (w : fsw) : fsw :=
  set_inotab (ino_table (this w)) (ino_freelist (this w)) (ino_num (this w)) n w.
Definition set_heap (h : gmap nat fs_file) (w : fsw) : fsw := FsW (this w) h (brk w).

Definition set_id_next (n : option nat) (e : fs_inodesc) : fs_inodesc := Inodesc (id_file e) n.
Definition set_id_file (f : option ptr) (e : fs_inodesc) : fs_inodesc := Inodesc f (id_next e).
Definition set_f_data (d : fs_data) (f : fs_file) : fs_file :=
  FsFile (f_ops f) d (f_name f) (f_ino f) (f_dir f) (f_type f) (f_malloced f).

(** ** Memory access *)
Definition tbl (w : fsw) : list fs_inodesc := default [] (ino_table (this w)).

(** [this->ino_table[i]]: read and in-place update of one entry. *)
Definition load_id (i : nat) : M fsw fs_inodesc :=
  w ← getM; derefM (tbl w !! i).
Definition update_id (i : nat) (f : fs_inodesc → fs_inodesc) : M fsw unit :=
  w ← getM; e ← derefM (tbl w !! i); modifyM (set_table (<[i := f e]> (tbl w))).

Definition load_file (p : ptr) : M fsw fs_file := w ← getM; derefM (heap w !! p).
Definition store_file (p : ptr) (f : fs_file) : M fsw unit :=
  w ← getM; _ ← derefM (heap w !! p); modifyM (set_heap (<[p := f]> (heap w))).

(** [malloc(sizeof(fs_file_t))] followed by its initialisation. *)
Definition alloc_file (f : fs_file) : M fsw ptr :=
  w ← getM;
  _ ← modifyM (λ w, FsW (this w) (<[brk w := f]> (heap w)) (S (brk w)));
  mret (brk w).
Definition free_file (p : ptr) : M fsw unit :=
  w ← getM; _ ← derefM (heap w !! p); modifyM (set_heap (delete p (heap w))).

(** ** Files and inodes *)
Definition file_init (ino dir : nat) (data : fs_data) (name : string)
    (type : fs_filetype) (malloced : bool) (ops : opsptr) : fs_file :=
  FsFile (Some ops) data (Some name) ino dir type malloced.

(** An inode descriptor pointer is the index of the entry. *)
Definition inodesc2ino (id : nat) : M fsw nat :=
  w ← getM;
  _ ← assertM (bool_decide (Z.of_nat id <= ino_num (this w) - 1)%Z);
  mret id.

Definition ino2inodesc (ino : nat) : M fsw nat :=
  w ← getM;
  _ ← assertM (bool_decide (Z.of_nat ino < ino_num (this w))%Z);
  mret ino.

(** [4096/sizeof(fs_inodesc_t)]: two 8 byte pointers per entry. *)
Definition INO_NUM : nat := 4096 / 16.

Definition init_table (n : nat) : list fs_inodesc :=
  (λ i, Inodesc None (if decide (i < n - 1) then Some (S i) else None)) <$> seq 0 n.

Definition init_inotable : M fsw unit :=
  w ← getM;
  _ ← assertM (bool_decide (ino_table (this w) = None) && (ino_num (this w) =? 0)%Z);
  modifyM (set_inotab (Some (init_table INO_NUM)) (Some 0) (Z.of_nat INO_NUM) (Z.of_nat INO_NUM)).

(** [NYI] *)
Definition grow_inotable : M fsw unit := abortM.

Definition inoalloc : M fsw nat :=
  w ← getM;
  _ ← (if decide (ino_table (this w) = None) then init_inotable else mret tt);
  w ← getM;
  _ ← (if decide (ino_freelist (this w) = None) then
         _ ← assertM (ino_numfree (this w) =? 0)%Z; grow_inotable
       else mret tt);
  w ← getM;
  id ← derefM (ino_freelist (this w));
  e ← load_id id;
  _ ← modifyM (set_freelist (id_next e));
  _ ← update_id id (set_id_next None);
  _ ← modifyM (λ w, set_numfree (ino_numfree (this w) - 1) w);
  w ← getM;
  _ ← assertM (0 <=? ino_numfree (this w))%Z;
  e ← load_id id;
  _ ← assertM (bool_decide (id_file e = None));
  inodesc2ino id.

Definition inofree (ino : nat) : M fsw bool :=
  id ← ino2inodesc ino;
  e ← load_id id;
  _ ← assertM (bool_decide (id_next e = None));
  w ← getM;
  _ ← update_id id (set_id_next (ino_freelist (this w)));
  _ ← modifyM (set_freelist (Some id));
  _ ← modifyM (λ w, set_numfree (ino_numfree (this w) + 1) w);
  mret true.

(** [dir->data] of a directory. *)
Definition dir_data (f : fs_file) : option fs_dir :=
  match f_data f with DDir d => Some d | _ => None end.

Definition dir_add (dir item : ptr) : M fsw bool :=
  df ← load_file dir;
  it ← load_file item;
  _ ← assertM (bool_decide (f_type df = DIRECTORY) &&
               match f_data df with DNull => false | _ => true end);
  dd ← derefM (dir_data df);
  match f_name it with
  | Some nm =>
    match ht_find (f_ino it) (ino_files dd) with
    | Some _ => mret false
    | None =>
      match ht_find nm (nm_files dd) with
      | Some _ => mret false
      | None =>
        _ ← store_file dir (set_f_data (DDir (FsDir (ht_add (f_ino it) item (ino_files dd))
                                                    (ht_add nm item (nm_files dd)))) df);
        mret true
      end
    end
  | None => mret false
  end.

(** The entry [ino] must describe a live directory; its file object. *)
Definition load_dir_of (ino : nat) : M fsw ptr :=
  pid ← ino2inodesc ino;
  pe ← load_id pid;
  _ ← assertM (bool_decide (id_next pe = None));
  parent ← derefM (id_file pe);
  pf ← load_file parent;
  _ ← assertM (bool_decide (f_type pf = DIRECTORY));
  mret parent.

Definition fsCreatedir (parentino : nat) (name : string) (ops : opsptr) : M fsw ptr :=
  ino ← inoalloc;
  id ← ino2inodesc ino;
  e ← load_id id;
  _ ← assertM (bool_decide (id_file e = None) && bool_decide (id_next e = None));
  parent ← (if decide (parentino = INVALID_INO) then mret None
            else p ← load_dir_of parentino; mret (Some p));
  dir ← alloc_file (file_init ino parentino (DDir (FsDir ht_empty ht_empty)) name
                              DIRECTORY true ops);
  _ ← match parent with Some p => dir_add p dir | None => mret true end;
  _ ← update_id id (set_id_file (Some dir));
  mret dir.

Definition fsCreatefile (dirino : nat) (name : string) (symlink : option string)
    (ops : opsptr) : M fsw ptr :=
  ino ← inoalloc;
  id ← ino2inodesc ino;
  e ← load_id id;
  _ ← assertM (bool_decide (id_file e = None) && bool_decide (id_next e = None));
  _ ← assertM (bool_decide (dirino ≠ INVALID_INO));
  dir ← load_dir_of dirino;
  file ← alloc_file
    match symlink with
    | Some s => file_init ino dirino (DStr s) name SYMLINK true ops
    | None => file_init ino dirino DNull name REGULAR true ops
    end;
  _ ← dir_add dir file;
  _ ← update_id id (set_id_file (Some file));
  mret file.

(** The containing directory of an item: a live entry whose file is a
    directory. *)
Definition containing_dir (dirino : nat) : M fsw ptr :=
  cid ← ino2inodesc dirino;
  ce ← load_id cid;
  _ ← assertM (bool_decide (id_next ce = None) && bool_decide (id_file ce ≠ None));
  cp ← derefM (id_file ce);
  cf ← load_file cp;
  _ ← assertM (bool_decide (f_type cf = DIRECTORY));
  mret cp.

Definition same_cnt (d : fs_dir) : bool := ht_cnt (ino_files d) =? ht_cnt (nm_files d).

(** Unlink [item] from both tables of [cp]; returns whether [cp] is now empty. *)
Definition unlink_item (cp item : ptr) : M fsw bool :=
  cf ← load_file cp;
  it ← load_file item;
  d ← derefM (dir_data cf);
  _ ← assertM (same_cnt d);
  _ ← assertM (0 <? ht_cnt (ino_files d));
  _ ← assertM (bool_decide (ht_find (f_ino it) (ino_files d) = Some item));
  let inos := ht_del (f_ino it) (ino_files d) in
  nm ← derefM (f_name it);
  _ ← assertM (bool_decide (ht_find nm (nm_files d) = Some item));
  let d' := FsDir inos (ht_del nm (nm_files d)) in
  _ ← store_file cp (set_f_data (DDir d') cf);
  _ ← assertM (same_cnt d');
  mret (bool_decide (ht_cnt (ino_files d') = 0)).

(** [None]: a directory that is not empty. [Some c]: the item can be removed
    from its containing directory [c] (the root has none). *)
Definition removable (it : fs_file) : M fsw (option (option ptr)) :=
  if decide (f_type it = DIRECTORY) then
    d ← derefM (dir_data it);
    _ ← assertM (same_cnt d);
    if decide (ht_cnt (ino_files d) ≠ 0) then mret None
    else if decide (f_ino it ≠ ROOT_INO) then
      cp ← containing_dir (f_dir it); mret (Some (Some cp))
    else
      _ ← assertM (bool_decide (f_dir it = INVALID_INO)); mret (Some None)
  else
    _ ← assertM (bool_decide (f_ino it ≠ ROOT_INO) && bool_decide (f_dir it ≠ INVALID_INO));
    cp ← containing_dir (f_dir it); mret (Some (Some cp)).

(** The fields [fsRemoveitem] leaves in an object it does not free. *)
Definition scrub (f : fs_file) : fs_file :=
  FsFile None DNull None INVALID_INO INVALID_INO NONE (f_malloced f).

Fixpoint fsRemoveitem_loop (fuel : nat) (item : ptr) (purgeemptydir : bool) : M fsw bool :=
  match fuel with
  | 0 => nofuelM
  | S fuel =>
    it ← load_file item;
    r ← removable it;
    match r with
    | None => mret false
    | Some containingdir =>
      empty ← match containingdir with
              | Some cp => unlink_item cp item
              | None => mret false
              end;
      _ ← inofree (f_ino it);
      _ ← store_file item (scrub it);
      _ ← (if f_malloced it then free_file item else mret tt);
      _ ← match containingdir with
          | Some cp => if empty && purgeemptydir
                       then _ ← fsRemoveitem_loop fuel cp purgeemptydir; mret tt
                       else mret tt
          | None => mret tt
          end;
      mret true
    end
  end.

(** The recursion climbs to the parent directory; a chain of directories has
    at most one entry per inode. *)
Definition fsRemoveitem (item : ptr) (purgeemptydir : bool) : M fsw bool :=
  w ← getM; fsRemoveitem_loop (S (Z.to_nat (ino_num (this w)))) item purgeemptydir.
End fs.

Arguments fs_dir {UT}.
Arguments fs_data {UT}.
Arguments fs_file {UT}.
Arguments fsw {UT}.
