(* ===== verification/FsInode.v ===== *)
(** * The inode table ([inoalloc], [inofree] of [kld/fs.c])

    Invariant of the table of inode descriptors and its free list, and the
    behaviour of the allocator on every branch. *)
From S2P Require Import Prelude UtHash Event Fs.

Lemma length_init_table n : length (init_table n) = n.
Proof. unfold init_table. by rewrite length_fmap, length_seq. Qed.

Lemma lookup_init_table n i :
  i < n → init_table n !! i = Some (Inodesc None (if decide (i < n - 1) then Some (S i) else None)).
Proof.
  intros Hi. unfold init_table. by rewrite list_lookup_fmap, lookup_seq_lt by done.
Qed.

Lemma INO_NUM_pos : 2 < INO_NUM.
Proof. apply Nat.ltb_lt. by vm_compute. Qed.

(** The table size stays symbolic in the proofs. *)
#[global] Opaque INO_NUM init_table.

Section inode.
Context `{UT : UtHash}.
Implicit Types (w : fsw) (fl : list nat) (i : nat).

(** [chain t h l]: following [next] from the head [h] visits exactly [l]. *)
Fixpoint chain (t : list fs_inodesc) (h : option nat) (l : list nat) : Prop :=
  match l with
  | [] => h = None
  | i :: l' => h = Some i ∧ ∃ e, t !! i = Some e ∧ chain t (id_next e) l'
  end.

(** The table is sound and its free list is [fl]. *)
Record itab_ok w fl : Prop := {
  it_tbl : ino_table (this w) = Some (tbl w);
  it_len : length (tbl w) = INO_NUM;
  it_num : ino_num (this w) = Z.of_nat INO_NUM;
  it_free : ino_numfree (this w) = Z.of_nat (length fl);
  it_chain : chain (tbl w) (ino_freelist (this w)) fl;
  it_nodup : NoDup fl;
  it_used : ∀ i e, tbl w !! i = Some e → i ∉ fl → id_next e = None;
}.

(** No free entry still holds a file pointer. *)
Definition clean w fl : Prop :=
  ∀ i e, i ∈ fl → tbl w !! i = Some e → id_file e = None.

(** The file pointers of the table, and the state with the table erased: what
    the allocator does not touch. *)
Definition files w : list (option ptr) := id_file <$> tbl w.
Definition nontab w : fsw := set_inotab None None 0 0 w.

Lemma nontab_heap w w' : nontab w' = nontab w → heap w' = heap w.
Proof. intros H. by apply (f_equal heap) in H. Qed.
Lemma nontab_brk w w' : nontab w' = nontab w → brk w' = brk w.
Proof. intros H. by apply (f_equal brk) in H. Qed.

Lemma chain_lookup t h l i : chain t h l → i ∈ l → is_Some (t !! i).
Proof.
  revert h. induction l as [|j l IH]; intros h; simpl; [set_solver|].
  intros (-> & e & He & Hc) [->|Hi]%elem_of_cons; eauto.
Qed.

Lemma chain_insert t h l i e : chain t h l → i ∉ l → chain (<[i := e]> t) h l.
Proof.
  revert h. induction l as [|j l IH]; intros h; simpl; [done|].
  intros (-> & e' & He & Hc) Hi. split; [done|]. exists e'. split.
  - rewrite list_lookup_insert_ne; set_solver.
  - apply IH; set_solver.
Qed.

Lemma files_insert_next w i e n :
  tbl w !! i = Some e →
  id_file <$> <[i := set_id_next n e]> (tbl w) = files w.
Proof.
  intros He. rewrite list_fmap_insert. simpl. unfold files.
  apply list_insert_id. by rewrite list_lookup_fmap, He.
Qed.

Lemma itab_lt w fl i : itab_ok w fl → i ∈ fl → i < INO_NUM.
Proof.
  intros Hok Hi. rewrite <- (it_len _ _ Hok).
  eapply lookup_lt_is_Some, chain_lookup; [apply Hok | done].
Qed.

Lemma itab_entry w fl i : itab_ok w fl → i < INO_NUM → ∃ e, tbl w !! i = Some e.
Proof. intros Hok Hi. apply lookup_lt_is_Some. by rewrite (it_len _ _ Hok). Qed.

(** The free list determines the links of the table. *)
Lemma chain_unique t t' h h' l :
  chain t h l → chain t' h' l →
  h = h' ∧ ∀ i, i ∈ l → id_next <$> t !! i = id_next <$> t' !! i.
Proof.
  revert h h'. induction l as [|j l IH]; intros h h'; simpl.
  - intros -> ->. split; [done|]. by intros i ?%elem_of_nil.
  - intros (-> & e & He & Hc) (-> & e' & He' & Hc'). destruct (IH _ _ Hc Hc') as [Hn Hl].
    split; [done|]. intros i [->|Hi]%elem_of_cons; [|by apply Hl].
    rewrite He, He'. simpl. by rewrite Hn.
Qed.

Lemma itab_unique w w' fl :
  itab_ok w fl → itab_ok w' fl → files w' = files w → nontab w' = nontab w → w' = w.
Proof.
  intros Hok Hok' Hf Hnt.
  destruct (chain_unique _ _ _ _ _ (it_chain _ _ Hok') (it_chain _ _ Hok)) as [Hh Hc].
  assert (tbl w' = tbl w) as Ht.
  { apply list_eq. intros i. pose proof (f_equal (.!! i) Hf) as Hfi. unfold files in Hfi.
    rewrite !list_lookup_fmap in Hfi.
    destruct (tbl w' !! i) as [[f n]|] eqn:E', (tbl w !! i) as [[g m]|] eqn:E; simplify_eq/=;
      [|done]. do 2 f_equal. destruct (decide (i ∈ fl)) as [Hi|Hi].
    - specialize (Hc i Hi). rewrite E, E' in Hc. by simplify_eq/=.
    - pose proof (it_used _ _ Hok _ _ E Hi). pose proof (it_used _ _ Hok' _ _ E' Hi).
      simpl in *. congruence. }
  pose proof (it_tbl _ _ Hok) as H1. pose proof (it_tbl _ _ Hok') as H1'. rewrite Ht in H1'.
  pose proof (it_num _ _ Hok) as H2. pose proof (it_num _ _ Hok') as H2'.
  pose proof (it_free _ _ Hok) as H3. pose proof (it_free _ _ Hok') as H3'.
  destruct w as [[] h b], w' as [[] h' b']. unfold nontab, set_inotab in Hnt. simpl in *.
  simplify_eq. congruence.
Qed.

(** On the free list only the last entry has no successor. *)
Lemma chain_next t h l i e :
  chain t h l → NoDup l → i ∈ l → t !! i = Some e → (id_next e = None ↔ last l = Some i).
Proof.
  revert h. induction l as [|j l IH]; intros h; simpl; [by intros _ _ ?%elem_of_nil|].
  intros (-> & e' & He' & Hc) [Hj Hnd]%NoDup_cons [->|Hi]%elem_of_cons He.
  - simplify_eq. destruct l as [|k l]; simpl in *; [by rewrite Hc|].
    destruct Hc as [-> _]. split; [done|]. intros Hl. destruct Hj.
    change (last (k :: l) = Some j) in Hl. by apply last_Some_elem_of in Hl.
  - rewrite (IH _ Hc Hnd Hi He). destruct l; [by apply elem_of_nil in Hi|done].
Qed.

(** ** Reading the table *)
Lemma wp_ino2inodesc w fl i Q :
  itab_ok w fl → i < INO_NUM → Q i w → wp (ino2inodesc i) Q w.
Proof.
  intros Hok Hi HQ. unfold ino2inodesc. wp_steps.
  apply bool_decide_eq_true. rewrite (it_num _ _ Hok). lia.
Qed.

Lemma wp_load_id w i e Q : tbl w !! i = Some e → Q e w → wp (load_id i) Q w.
Proof. intros He HQ. unfold load_id. wp_steps. Qed.

Lemma wp_update_id w i e f Q :
  tbl w !! i = Some e → Q tt (set_table (<[i := f e]> (tbl w)) w) → wp (update_id i f) Q w.
Proof. intros He HQ. unfold update_id. wp_steps. Qed.

(** ** The allocator *)

(** What [inoalloc] does once a table exists and its list is not empty. *)
Lemma inoalloc_spec w i fl :
  itab_ok w (i :: fl) → files w !! i = Some None →
  wp inoalloc (λ r w', r = i ∧ itab_ok w' fl ∧ files w' = files w ∧ nontab w' = nontab w) w.
Proof.
  intros Hok Hfile. pose proof (it_tbl _ _ Hok) as Htbl.
  pose proof (it_chain _ _ Hok) as (Hhd & e & He & Hc).
  assert (i < INO_NUM) as Hi by (eapply itab_lt; [done | set_solver]).
  unfold files in Hfile. rewrite list_lookup_fmap, He in Hfile.
  destruct e as [ef en]; simpl in *; simplify_eq.
  unfold inoalloc. wp_step; wp_steps. rewrite decide_False by (by rewrite Htbl).
  wp_steps. rewrite decide_False by (by rewrite Hhd). wp_steps.
  eapply wp_load_id; [done|]. wp_steps. simpl.
  eapply wp_update_id; [done|]. wp_steps.
  { pose proof (it_free _ _ Hok) as Hf. simpl in *. apply Z.leb_le. lia. }
  assert (i < length (tbl w)) as Hlen by (by rewrite (it_len _ _ Hok)).
  eapply wp_load_id. { simpl. unfold tbl; simpl. by apply list_lookup_insert_eq. }
  wp_steps. unfold inodesc2ino. wp_steps.
  { apply bool_decide_eq_true. simpl. rewrite (it_num _ _ Hok). lia. }
  split_and!; [done| |by apply (files_insert_next w i (Inodesc None en))|done].
  destruct Hok as [_ H2 H3 H4 H5 H6 H7]. apply NoDup_cons in H6 as [Hni Hnd].
  split; unfold tbl in *; simpl in *; try done.
  - by rewrite length_insert.
  - lia.
  - by apply chain_insert.
  - intros j e' Hj Hjn. destruct (decide (j = i)) as [->|Hne].
    + rewrite list_lookup_insert_eq in Hj by done. by simplify_eq.
    + rewrite list_lookup_insert_ne in Hj by done. eapply H7; [done | set_solver].
Qed.

Lemma inofree_spec w i fl :
  itab_ok w fl → i < INO_NUM → i ∉ fl →
  wp (inofree i) (λ r w', r = true ∧ itab_ok w' (i :: fl) ∧ files w' = files w ∧
                          nontab w' = nontab w) w.
Proof.
  intros Hok Hi Hni. destruct (itab_entry _ _ _ Hok Hi) as [e He].
  unfold inofree. wp_step. eapply wp_ino2inodesc; [done..|]. wp_step.
  eapply wp_load_id; [done|]. wp_steps.
  { apply bool_decide_eq_true. by eapply it_used. }
  eapply wp_update_id; [done|]. wp_steps.
  split_and!; [done| |by apply (files_insert_next w i e)|done].
  destruct Hok as [_ H2 H3 H4 H5 H6 H7].
  split; unfold tbl in *; simpl in *; try done.
  - by rewrite length_insert.
  - lia.
  - split; [done|]. eexists. split; [apply list_lookup_insert_eq; lia|].
    simpl. by apply chain_insert.
  - by apply NoDup_cons.
  - intros j e' Hj Hjn. rewrite list_lookup_insert_ne in Hj by set_solver.
    eapply H7; [done | set_solver].
Qed.

(** No free entry: the table would have to grow, which is not implemented. *)
Lemma inoalloc_full w : itab_ok w [] → inoalloc w = Aborted.
Proof.
  intros Hok. pose proof (it_tbl _ _ Hok) as Htbl. pose proof (it_chain _ _ Hok) as Hc.
  pose proof (it_free _ _ Hok) as Hf. simpl in *.
  unfold inoalloc, mbind, M_bind, getM. rewrite decide_False by (by rewrite Htbl).
  simpl. rewrite decide_True by done. by rewrite Hf.
Qed.

(** A free entry that still holds a file pointer makes [inoalloc] abort. *)
Lemma inoalloc_dirty w i p fl :
  itab_ok w (i :: fl) → files w !! i = Some (Some p) → inoalloc w = Aborted.
Proof.
  intros Hok Hfile. pose proof (it_tbl _ _ Hok) as Htbl.
  pose proof (it_chain _ _ Hok) as (Hhd & e & He & Hc).
  pose proof (it_free _ _ Hok) as Hf.
  assert (i < length (tbl w)) as Hlen by (by eapply lookup_lt_Some).
  unfold files in Hfile. rewrite list_lookup_fmap, He in Hfile.
  destruct e as [ef en]; simpl in *; simplify_eq.
  unfold inoalloc, mbind, M_bind, getM, load_id, update_id, modifyM, derefM, mbind, M_bind, getM.
  rewrite decide_False by (by rewrite Htbl). simpl.
  rewrite decide_False by (by rewrite Hhd). simpl. rewrite Hhd. simpl. rewrite He. simpl.
  unfold tbl in *; simpl. rewrite He; simpl.
  rewrite Hf. replace (0 <=? _)%Z with true by (symmetry; apply Z.leb_le; simpl; lia).
  simpl. rewrite list_lookup_insert_eq by done. done.
Qed.

(** ** The initial table *)
Lemma init_chain n k i :
  i + k = n →
  chain (init_table n) (if decide (i < n) then Some i else None) (seq i k).
Proof.
  revert i. induction k as [|k IH]; intros i Hik; simpl.
  - by rewrite decide_False by lia.
  - rewrite decide_True by lia. split; [done|]. eexists.
    split; [apply lookup_init_table; lia|]. simpl.
    specialize (IH (S i) ltac:(lia)). destruct (decide (i < n - 1)).
    + by rewrite decide_True in IH by lia.
    + by rewrite decide_False in IH by lia.
Qed.

Lemma init_itab_ok w n :
  n = INO_NUM →
  itab_ok (set_inotab (Some (init_table n)) (Some 0) (Z.of_nat n) (Z.of_nat n) w) (seq 0 n).
Proof.
  intros Hn. split; unfold tbl; simpl.
  - done.
  - by rewrite length_init_table.
  - by rewrite Hn.
  - by rewrite length_seq.
  - pose proof (init_chain n n 0 eq_refl) as Hc. rewrite decide_True in Hc; [done|].
    pose proof INO_NUM_pos. lia.
  - apply NoDup_ListNoDup, seq_NoDup.
  - intros i e Hi Hni. destruct Hni. apply elem_of_seq.
    apply lookup_lt_Some in Hi. rewrite length_init_table in Hi. lia.
Qed.

(** The first call builds the table, then allocates from it. *)
Lemma inoalloc_first w :
  ino_table (this w) = None → ino_num (this w) = 0%Z →
  inoalloc w = inoalloc (set_inotab (Some (init_table INO_NUM)) (Some 0)
                           (Z.of_nat INO_NUM) (Z.of_nat INO_NUM) w).
Proof.
  intros Ht Hn. unfold inoalloc, init_inotable, mbind, M_bind, getM, assertM, modifyM.
  rewrite decide_True by done.
  rewrite Hn, bool_decide_eq_true_2 by done. simpl.
  reflexivity.
Qed.

Lemma files_init w n :
  files (set_inotab (Some (init_table n)) (Some 0) (Z.of_nat n) (Z.of_nat n) w)
  = replicate n None.
Proof.
  unfold files, tbl; simpl. apply list_eq. intros i. rewrite list_lookup_fmap.
  destruct (decide (i < n)).
  - by rewrite lookup_init_table, lookup_replicate_2.
  - rewrite (lookup_ge_None_2 (init_table n)) by (rewrite length_init_table; lia).
    simpl. symmetry. apply lookup_replicate_None. lia.
Qed.

Lemma clean_files w fl :
  clean w fl ↔ ∀ i x, i ∈ fl → files w !! i = Some x → x = None.
Proof.
  unfold clean, files. setoid_rewrite list_lookup_fmap. split.
  - intros H i x Hi Hx. destruct (tbl w !! i) eqn:E; simpl in *; simplify_eq. eauto.
  - intros H i e Hi He. apply (H i); [done|]. by rewrite He.
Qed.
End inode.
