(* ===== verification/FsTree.v ===== *)
(** * The file system as a tree: abstract state and representation

    The abstract state of the file system is a finite map from inodes to nodes
    (parent, name, type). [repr a fl w] says that the concrete state [w] of
    [fs.c] represents the tree [a] with free list [fl]: the inode table points
    to the file objects, every directory's two hash tables list exactly the
    nodes below it. The core operations are shown to preserve it. *)
From S2P Require Import Prelude UtHash Event Fs FsInode.

Record anode := ANode {
  an_parent : nat;
  an_name : string;
  an_type : fs_filetype;
  an_ops : nat;
  an_link : option string;
}.
Abbreviation atree := (gmap nat anode).

(** No node of [a] has [i] as its parent. *)
Definition childless (a : atree) (i : nat) : bool :=
  bool_decide (map_Forall (λ _ n, an_parent n ≠ i) a).

(** A tree rooted at inode 1, every node below a directory with a smaller
    inode, no two entries of a directory with the same name. *)
Record tree_ok (a : atree) : Prop := {
  t_root : ∀ n, a !! ROOT_INO = Some n → an_parent n = INVALID_INO ∧ an_type n = DIRECTORY;
  t_node : ∀ i n, a !! i = Some n → i ≠ ROOT_INO →
    ∃ pn, a !! an_parent n = Some pn ∧ an_type pn = DIRECTORY ∧ an_parent n < i;
  t_names : ∀ i j n m, a !! i = Some n → a !! j = Some m →
    an_parent n = an_parent m → an_name n = an_name m → i = j;
  t_bound : ∀ i, i ∈ dom a → 1 ≤ i < INO_NUM;
}.

(** Removal of a node, and, with [purge], of the directories this empties. *)
Fixpoint a_remove (fuel : nat) (purge : bool) (i : nat) (a : atree) : atree :=
  match fuel, a !! i with
  | S fuel, Some n =>
    if childless a i then
      let a' := delete i a in
      if decide (i ≠ ROOT_INO) then
        if purge && childless a' (an_parent n)
        then a_remove fuel purge (an_parent n) a' else a'
      else a'
    else a
  | _, _ => a
  end.

Section repr.
Context `{UL : UtHashLaws}.
Implicit Types (a : atree) (w : fsw) (fl : list nat) (fs : list (option nat)).

(** The two tables of directory [i] list its children. *)
Record dir_repr a fs (i : nat) (d : fs_dir) : Prop := {
  d_nodup_ino : NoDup (ht_keys (ino_files d));
  d_nodup_nm : NoDup (ht_keys (nm_files d));
  d_cnt : ht_cnt (ino_files d) = ht_cnt (nm_files d);
  d_ino : ∀ j p, (j, p) ∈ ht_items (ino_files d) ↔
    ∃ m, a !! j = Some m ∧ an_parent m = i ∧ fs !! j = Some (Some p);
  d_nm : ∀ nm p, (nm, p) ∈ ht_items (nm_files d) ↔
    ∃ j m, a !! j = Some m ∧ an_parent m = i ∧ an_name m = nm ∧ fs !! j = Some (Some p);
}.

Definition data_repr a fs (i : nat) (n : anode) (d : fs_data) : Prop :=
  match an_type n with
  | DIRECTORY => ∃ dd, d = DDir dd ∧ dir_repr a fs i dd
  | SYMLINK => ∃ s, d = DStr s ∧ an_link n = Some s
  | REGULAR => d = DNull ∧ an_link n = None
  | NONE => False
  end.

Record file_repr a fs (i : nat) (n : anode) (f : fs_file) : Prop := {
  fr_ops : f_ops f = Some (an_ops n);
  fr_data : data_repr a fs i n (f_data f);
  fr_name : f_name f = Some (an_name n);
  fr_ino : f_ino f = i;
  fr_dir : f_dir f = an_parent n;
  fr_type : f_type f = an_type n;
  fr_malloced : f_malloced f = true;
}.

Record repr a fl w : Prop := {
  r_itab : itab_ok w fl;
  r_tree : tree_ok a;
  r_cover : ∀ i, i < INO_NUM → i = INVALID_INO ∨ i ∈ fl ∨ i ∈ dom a;
  r_zero : INVALID_INO ∉ fl;
  r_live : ∀ i, i ∈ fl → i ∉ dom a;
  r_file : ∀ i n, a !! i = Some n →
    ∃ p f, files w !! i = Some (Some p) ∧ heap w !! p = Some f ∧ file_repr a (files w) i n f;
  r_heap : ∀ p f, heap w !! p = Some f →
    f_ino f ∈ dom a ∧ files w !! f_ino f = Some (Some p);
  r_brk : ∀ p, p ∈ dom (heap w) → p < brk w;
  r_file0 : files w !! INVALID_INO = Some None;
}.

(** ** Facts about trees *)
Lemma childless_spec a i : childless a i = true ↔ ∀ j m, a !! j = Some m → an_parent m ≠ i.
Proof. unfold childless. rewrite bool_decide_eq_true. done. Qed.

Lemma childless_false a i :
  childless a i = false ↔ ∃ j m, a !! j = Some m ∧ an_parent m = i.
Proof.
  unfold childless. rewrite bool_decide_eq_false.
  rewrite (map_not_Forall (λ _ n, an_parent n ≠ i)). split.
  - intros (j & m & Hm & Hn). exists j, m. split; [done|]. by apply dec_stable.
  - intros (j & m & Hm & Hn). exists j, m. split; [done|]. naive_solver.
Qed.

Lemma tree_parent_bound a i n :
  tree_ok a → a !! i = Some n → i ≠ ROOT_INO → 1 ≤ an_parent n < INO_NUM.
Proof.
  intros Ht Hn Hr. destruct (t_node _ Ht i n Hn Hr) as (pn & Hp & _).
  apply (t_bound _ Ht). by eapply elem_of_dom_2.
Qed.

(** Adding a node with a fresh name below a directory. *)
Lemma tree_insert a i n pn :
  tree_ok a → a !! i = None → i < INO_NUM → i ≠ ROOT_INO →
  a !! an_parent n = Some pn → an_type pn = DIRECTORY → an_parent n < i →
  (∀ j m, a !! j = Some m → an_parent m = an_parent n → an_name m ≠ an_name n) →
  tree_ok (<[i := n]> a).
Proof.
  intros Ht Hi Hlt Hr Hp Hd Hord Hfresh. split.
  - intros m. rewrite lookup_insert_ne by done. apply Ht.
  - intros j m [[<- <-]|[Hne Hm]]%lookup_insert_Some Hj.
    + exists pn. rewrite lookup_insert_ne by congruence. done.
    + destruct (t_node _ Ht j m Hm Hj) as (pm & Hpm & Hd' & Hlt').
      exists pm. rewrite lookup_insert_ne by congruence. done.
  - intros j k m o [[<- <-]|[Hne Hm]]%lookup_insert_Some
      [[<- <-]|[Hne' Ho]]%lookup_insert_Some Hpar Hnm; try done.
    + destruct (Hfresh _ _ Ho); done.
    + destruct (Hfresh _ _ Hm); done.
    + by eapply (t_names _ Ht).
  - intros j. rewrite dom_insert, elem_of_union, elem_of_singleton.
    intros [->|Hj]; [lia | by apply Ht].
Qed.

Lemma tree_delete a i : tree_ok a → childless a i = true → tree_ok (delete i a).
Proof.
  intros Ht Hc. rewrite childless_spec in Hc. split.
  - intros n [_ Hn]%lookup_delete_Some. by apply Ht.
  - intros j m [Hne Hm]%lookup_delete_Some Hj.
    destruct (t_node _ Ht j m Hm Hj) as (pm & Hpm & Hd & Hlt).
    exists pm. rewrite lookup_delete_ne by (intros ->; by apply (Hc j m Hm)). done.
  - intros j k m o [_ Hm]%lookup_delete_Some [_ Ho]%lookup_delete_Some.
    by eapply (t_names _ Ht).
  - intros j. rewrite dom_delete. intros [Hj _]%elem_of_difference. by apply Ht.
Qed.

(** ** Counting *)
Lemma repr_count a fl w : repr a fl w → length fl + size a + 1 = INO_NUM.
Proof.
  intros Hr. assert (Permutation (seq 0 INO_NUM) (0 :: fl ++ elements (dom a))) as HP.
  { apply NoDup_Permutation.
    - apply NoDup_ListNoDup, seq_NoDup.
    - constructor; [|apply NoDup_app; split_and!].
      + rewrite elem_of_app, elem_of_elements. intros [Hz|Hz].
        * by apply (r_zero _ _ _ Hr).
        * apply (t_bound _ (r_tree _ _ _ Hr)) in Hz. lia.
      + apply (r_itab _ _ _ Hr).
      + intros j Hj. rewrite elem_of_elements. by apply (r_live _ _ _ Hr).
      + apply NoDup_elements.
    - intros j. rewrite elem_of_seq, elem_of_cons, elem_of_app, elem_of_elements. split.
      + intros Hj. apply (r_cover _ _ _ Hr). lia.
      + intros [->|[Hj|Hj]].
        * pose proof INO_NUM_pos. lia.
        * pose proof (itab_lt _ _ _ (r_itab _ _ _ Hr) Hj). lia.
        * apply (t_bound _ (r_tree _ _ _ Hr)) in Hj. lia. }
  apply Permutation_length in HP. rewrite length_seq in HP. simpl in HP.
  rewrite length_app in HP. change (length (elements (dom a))) with (size (dom a)) in HP.
  rewrite size_dom in HP. lia.
Qed.
End repr.
