(* ===== verification/FsRefine.v ===== *)
(** * Refinement of the tree operations ([fsCreatedir], [fsCreatefile],
    [fsRemoveitem] of [kld/fs.c])

    Each operation of [fs.c] is shown to implement the corresponding operation
    on trees: it runs without failing an assertion or touching memory it does
    not own, and takes a representation of a tree to a representation of the
    updated tree. *)
From S2P Require Import Prelude UtHash Event Fs FsInode FsTree.

Section refine.
Context `{UL : UtHashLaws}.
Implicit Types (a : atree) (w : fsw) (fl : list nat) (fs : list (option nat)).

(** ** Symbolic execution of memory accesses *)
Lemma wp_load_file w p f Q : heap w !! p = Some f → Q f w → wp (load_file p) Q w.
Proof. intros Hf HQ. unfold load_file. wp_steps. Qed.

Lemma wp_store_file w p f f' Q :
  heap w !! p = Some f → Q tt (set_heap (<[p := f']> (heap w)) w) → wp (store_file p f') Q w.
Proof. intros Hf HQ. unfold store_file. wp_steps. Qed.

Lemma wp_free_file w p f Q :
  heap w !! p = Some f → Q tt (set_heap (delete p (heap w)) w) → wp (free_file p) Q w.
Proof. intros Hf HQ. unfold free_file. wp_steps. Qed.

Lemma wp_alloc_file w f Q :
  Q (brk w) (FsW (this w) (<[brk w := f]> (heap w)) (S (brk w))) → wp (alloc_file f) Q w.
Proof. intros HQ. unfold alloc_file. wp_steps. Qed.

(** The table invariant does not depend on the heap. *)
Lemma itab_same_this w w' fl : this w' = this w → itab_ok w fl → itab_ok w' fl.
Proof.
  intros Heq [H1 H2 H3 H4 H5 H6 H7]. split; unfold tbl in *; by rewrite ?Heq.
Qed.

Lemma files_same_this w w' : this w' = this w → files w' = files w.
Proof. intros Heq. unfold files, tbl. by rewrite Heq. Qed.

Lemma itab_set_file w fl i e x :
  itab_ok w fl → tbl w !! i = Some e → i ∉ fl →
  itab_ok (set_table (<[i := set_id_file x e]> (tbl w)) w) fl.
Proof.
  intros [H1 H2 H3 H4 H5 H6 H7] He Hi. split; unfold tbl in *; simpl; try done.
  - by rewrite length_insert.
  - by apply chain_insert.
  - intros j e' [(-> & <- & _)|[Hne Hj]]%list_lookup_insert_Some Hn; simpl; eauto.
Qed.

Lemma files_set_file w i e x :
  files (set_table (<[i := set_id_file x e]> (tbl w)) w) = <[i := x]> (files w).
Proof. unfold files. unfold tbl at 1; simpl. by rewrite list_fmap_insert. Qed.

Lemma files_entry w i x : files w !! i = Some x → ∃ e, tbl w !! i = Some e ∧ id_file e = x.
Proof. unfold files. rewrite list_lookup_fmap, fmap_Some. naive_solver. Qed.

(** ** Directory tables under insertion and removal of a node *)
Lemma dir_repr_insert_other a fs k d i n p :
  dir_repr a fs k d → a !! i = None → an_parent n ≠ k →
  dir_repr (<[i := n]> a) (<[i := Some p]> fs) k d.
Proof.
  intros [H1 H2 H3 H4 H5] Hi Hk. split; try done.
  - intros j q. rewrite H4. split.
    + intros (m & Hm & ? & Hq). exists m.
      rewrite lookup_insert_ne, list_lookup_insert_ne by congruence. done.
    + intros (m & [[<- <-]|[Hne Hm]]%lookup_insert_Some & ? & Hq); [done|].
      exists m. by rewrite list_lookup_insert_ne in Hq.
  - intros nm q. rewrite H5. split.
    + intros (j & m & Hm & ? & ? & Hq). exists j, m.
      rewrite lookup_insert_ne, list_lookup_insert_ne by congruence. done.
    + intros (j & m & [[<- <-]|[Hne Hm]]%lookup_insert_Some & ? & ? & Hq); [done|].
      exists j, m. by rewrite list_lookup_insert_ne in Hq.
Qed.

Lemma dir_repr_fresh a fs d i n :
  dir_repr a fs (an_parent n) d → a !! i = None →
  (∀ j m, a !! j = Some m → an_parent m = an_parent n → an_name m ≠ an_name n) →
  i ∉ ht_keys (ino_files d) ∧ an_name n ∉ ht_keys (nm_files d).
Proof.
  intros Hd Hi Hfresh. split; intros [q Hq]%ht_keys_elem.
  - apply (d_ino _ _ _ _ Hd) in Hq. naive_solver.
  - apply (d_nm _ _ _ _ Hd) in Hq. naive_solver.
Qed.

Lemma dir_repr_insert_same a fs d i n p :
  dir_repr a fs (an_parent n) d → a !! i = None → i < length fs →
  (∀ j m, a !! j = Some m → an_parent m = an_parent n → an_name m ≠ an_name n) →
  dir_repr (<[i := n]> a) (<[i := Some p]> fs) (an_parent n)
           (FsDir (ht_add i p (ino_files d)) (ht_add (an_name n) p (nm_files d))).
Proof.
  intros Hd Hi Hlen Hfresh. destruct (dir_repr_fresh _ _ _ _ _ Hd Hi Hfresh) as [Hki Hkn].
  destruct Hd as [H1 H2 H3 H4 H5]. split; simpl.
  - by apply ht_nodup_add.
  - by apply ht_nodup_add.
  - rewrite !ht_cnt_add by done. by f_equal.
  - intros j q. rewrite ht_items_add_elem by done. rewrite H4. split.
    + intros [(m & Hm & ? & Hq)|[-> ->]].
      * exists m. rewrite lookup_insert_ne, list_lookup_insert_ne by congruence. done.
      * exists n. rewrite lookup_insert_eq, list_lookup_insert_eq by done. done.
    + intros (m & [[<- <-]|[Hne Hm]]%lookup_insert_Some & ? & Hq).
      * rewrite list_lookup_insert_eq in Hq by done. naive_solver.
      * left. exists m. by rewrite list_lookup_insert_ne in Hq.
  - intros nm q. rewrite ht_items_add_elem by done. rewrite H5. split.
    + intros [(j & m & Hm & ? & ? & Hq)|[-> ->]].
      * exists j, m. rewrite lookup_insert_ne, list_lookup_insert_ne by congruence. done.
      * exists i, n. rewrite lookup_insert_eq, list_lookup_insert_eq by done. done.
    + intros (j & m & [[<- <-]|[Hne Hm]]%lookup_insert_Some & ? & ? & Hq).
      * rewrite list_lookup_insert_eq in Hq by done. naive_solver.
      * left. exists j, m. by rewrite list_lookup_insert_ne in Hq.
Qed.

Lemma dir_repr_empty a fs i :
  childless a i = true → dir_repr a fs i (FsDir ht_empty ht_empty).
Proof.
  rewrite childless_spec. intros Hc. split; simpl; try apply ht_nodup_empty.
  - unfold ht_cnt. by rewrite !ht_items_empty.
  - intros j p. rewrite ht_items_empty. split; [set_solver|].
    intros (m & Hm & Hp & _). by destruct (Hc _ _ Hm).
  - intros nm p. rewrite ht_items_empty. split; [set_solver|].
    intros (j & m & Hm & Hp & _). by destruct (Hc _ _ Hm).
Qed.

Lemma dir_repr_delete_other a fs k d i n :
  dir_repr a fs k d → a !! i = Some n → an_parent n ≠ k → dir_repr (delete i a) fs k d.
Proof.
  intros [H1 H2 H3 H4 H5] Hi Hk. split; try done.
  - intros j q. rewrite H4. setoid_rewrite lookup_delete_Some. split; [|naive_solver].
    intros (m & Hm & ? & Hq). exists m. split_and!; try done. congruence.
  - intros nm q. rewrite H5. setoid_rewrite lookup_delete_Some. split; [|naive_solver].
    intros (j & m & Hm & ? & ? & Hq). exists j, m. split_and!; try done. congruence.
Qed.

Lemma dir_repr_find a fs d i n p :
  dir_repr a fs (an_parent n) d → a !! i = Some n → fs !! i = Some (Some p) →
  ht_find i (ino_files d) = Some p ∧ ht_find (an_name n) (nm_files d) = Some p.
Proof.
  intros [H1 H2 H3 H4 H5] Hi Hp. split; apply ht_find_spec; try done.
  - apply H4. eauto.
  - apply H5. eauto 6.
Qed.

Lemma dir_repr_delete_same a fs d i n p :
  tree_ok a → dir_repr a fs (an_parent n) d → a !! i = Some n → fs !! i = Some (Some p) →
  dir_repr (delete i a) fs (an_parent n)
           (FsDir (ht_del i (ino_files d)) (ht_del (an_name n) (nm_files d))).
Proof.
  intros Ht Hd Hi Hp. destruct (dir_repr_find _ _ _ _ _ _ Hd Hi Hp) as [Hfi Hfn].
  destruct Hd as [H1 H2 H3 H4 H5]. split; simpl.
  - by apply ht_nodup_del.
  - by apply ht_nodup_del.
  - apply ht_find_spec in Hfi, Hfn; try done.
    apply ht_key_item in Hfi, Hfn. apply (inj S). by rewrite !ht_cnt_del.
  - intros j q. rewrite ht_items_del_elem, H4 by done.
    setoid_rewrite lookup_delete_Some. naive_solver.
  - intros nm q. rewrite ht_items_del_elem, H5 by done.
    setoid_rewrite lookup_delete_Some. split.
    + intros (Hne & j & m & Hm & ? & <- & Hq). exists j, m. split_and!; try done.
      intros <-. congruence.
    + intros (j & m & [Hne Hm] & Hpar & <- & Hq). split; [|eauto 6].
      intros Heq. apply Hne. symmetry. eapply (t_names _ Ht); eauto.
Qed.

Lemma dir_repr_empty_iff a fs i d :
  dir_repr a fs i d → (∀ j m, a !! j = Some m → ∃ p, fs !! j = Some (Some p)) →
  (ht_cnt (ino_files d) = 0 ↔ childless a i = true).
Proof.
  intros Hd Hlive. rewrite childless_spec, ht_cnt_nil. split.
  - intros Hnil j m Hm Hpar. destruct (Hlive _ _ Hm) as [p Hp].
    assert ((j, p) ∈ ht_items (ino_files d)) as Hin by (apply (d_ino _ _ _ _ Hd); eauto).
    rewrite Hnil in Hin. set_solver.
  - intros Hc. destruct (ht_items (ino_files d)) as [|[j p] l] eqn:E; [done|].
    assert ((j, p) ∈ ht_items (ino_files d)) as Hin by (rewrite E; set_solver).
    apply (d_ino _ _ _ _ Hd) in Hin as (m & Hm & Hpar & _). by destruct (Hc _ _ Hm).
Qed.

(** ** Consequences of the representation *)
Lemma repr_fresh a i fl w : repr a (i :: fl) w → a !! i = None ∧ i < INO_NUM ∧ i ∉ fl.
Proof.
  intros Hr. split_and!.
  - apply not_elem_of_dom. apply (r_live _ _ _ Hr). set_solver.
  - eapply itab_lt; [apply Hr | set_solver].
  - pose proof (it_nodup _ _ (r_itab _ _ _ Hr)) as [? _]%NoDup_cons. done.
Qed.

Lemma repr_alive a fl w i n :
  repr a fl w → a !! i = Some n → i < INO_NUM ∧ (i ∉ fl) ∧ i ≠ INVALID_INO.
Proof.
  intros Hr Hn. apply elem_of_dom_2 in Hn as Hd.
  pose proof (t_bound _ (r_tree _ _ _ Hr) _ Hd). unfold INVALID_INO. split_and!; try lia.
  intros Hi. by apply (r_live _ _ _ Hr) in Hi.
Qed.

Lemma repr_ptr_inj a fl w i j p n m :
  repr a fl w → a !! i = Some n → a !! j = Some m →
  files w !! i = Some (Some p) → files w !! j = Some (Some p) → i = j.
Proof.
  intros Hr Hi Hj Hpi Hpj.
  destruct (r_file _ _ _ Hr _ _ Hi) as (p1 & f1 & Hp1 & Hf1 & Hr1).
  destruct (r_file _ _ _ Hr _ _ Hj) as (p2 & f2 & Hp2 & Hf2 & Hr2).
  simplify_eq. by rewrite <- (fr_ino _ _ _ _ _ Hr1), <- (fr_ino _ _ _ _ _ Hr2).
Qed.

Lemma repr_brk_fresh a fl w : repr a fl w → heap w !! brk w = None.
Proof.
  intros Hr. apply not_elem_of_dom. intros Hin. apply (r_brk _ _ _ Hr) in Hin. lia.
Qed.

Lemma repr_dir a fl w k kn :
  repr a fl w → a !! k = Some kn → an_type kn = DIRECTORY →
  ∃ p f d, files w !! k = Some (Some p) ∧ heap w !! p = Some f ∧ f_type f = DIRECTORY ∧
           f_data f = DDir d ∧ dir_repr a (files w) k d ∧ file_repr a (files w) k kn f.
Proof.
  intros Hr Hk Hty. destruct (r_file _ _ _ Hr _ _ Hk) as (p & f & Hp & Hf & Hfr).
  pose proof (fr_data _ _ _ _ _ Hfr) as Hd. unfold data_repr in Hd. rewrite Hty in Hd.
  destruct Hd as (d & Hd & Hdr). exists p, f, d. split_and!; try done.
  by rewrite (fr_type _ _ _ _ _ Hfr).
Qed.

(** ** Inserting a node *)
Lemma file_repr_insert_other a fs i n p j m f :
  file_repr a fs j m f → a !! i = None → an_parent n ≠ j →
  file_repr (<[i := n]> a) (<[i := Some p]> fs) j m f.
Proof.
  intros [H1 H2 H3 H4 H5 H6 H7] Hi Hj. split; try done.
  unfold data_repr in *. destruct (an_type m); try done.
  destruct H2 as (d & Hd & Hdr). exists d. split; [done|]. by apply dir_repr_insert_other.
Qed.

(** The tables of the parent after the new entry was added. *)
Definition dir_plus (i : nat) (nm : string) (p : nat) (d : fs_dir) : fs_data :=
  DDir (FsDir (ht_add i p (ino_files d)) (ht_add nm p (nm_files d))).

Lemma repr_insert a i fl w w' n pn pp pf dd newf :
  repr a (i :: fl) w → a !! an_parent n = Some pn → an_type pn = DIRECTORY → an_parent n < i →
  (∀ j m, a !! j = Some m → an_parent m = an_parent n → an_name m ≠ an_name n) →
  files w !! an_parent n = Some (Some pp) → heap w !! pp = Some pf → f_data pf = DDir dd →
  file_repr (<[i := n]> a) (<[i := Some (brk w)]> (files w)) i n newf →
  itab_ok w' fl → files w' = <[i := Some (brk w)]> (files w) →
  heap w' = <[pp := set_f_data (dir_plus i (an_name n) (brk w) dd) pf]>
              (<[brk w := newf]> (heap w)) →
  brk w' = S (brk w) →
  repr (<[i := n]> a) fl w'.
Proof.
  intros Hr Hp Hty Hord Hfresh Hpp Hpf Hdd Hnew Hit Hfiles Hheap Hbrk.
  destruct (repr_fresh _ _ _ _ Hr) as (Hai & Hlt & Hni).
  pose proof (r_tree _ _ _ Hr) as Ht. pose proof (repr_brk_fresh _ _ _ Hr) as Hbf.
  assert (pp ≠ brk w) as Hpb by congruence.
  assert (1 ≤ an_parent n) by (apply (t_bound _ Ht); by eapply elem_of_dom_2).
  assert (i < length (files w)) as Hlen.
  { unfold files. rewrite length_fmap. by rewrite (it_len _ _ (r_itab _ _ _ Hr)). }
  destruct (r_file _ _ _ Hr _ _ Hp) as (pp' & pf' & Hpp' & Hpf' & Hpfr). simplify_eq.
  pose proof (fr_data _ _ _ _ _ Hpfr) as Hpd. unfold data_repr in Hpd.
  rewrite Hty, Hdd in Hpd. destruct Hpd as (? & [= <-] & Hdr).
  split; try done.
  - eapply tree_insert; eauto. unfold ROOT_INO. lia.
  - intros j Hj. rewrite dom_insert.
    destruct (r_cover _ _ _ Hr j Hj) as [?|[[->|?]%elem_of_cons|?]]; set_solver.
  - pose proof (r_zero _ _ _ Hr). set_solver.
  - intros j Hj. pose proof (r_live _ _ _ Hr j). rewrite dom_insert. set_solver.
  - intros j m [[<- <-]|[Hne Hm]]%lookup_insert_Some; rewrite Hfiles, Hheap.
    { exists (brk w), newf. split_and!; [by apply list_lookup_insert_eq| |done].
      by rewrite lookup_insert_ne, lookup_insert_eq. }
    destruct (r_file _ _ _ Hr _ _ Hm) as (q & f & Hq & Hf & Hfr).
    assert (q ≠ brk w) as Hqb by congruence. exists q.
    rewrite list_lookup_insert_ne by done.
    destruct (decide (j = an_parent n)) as [->|Hjp]; simplify_eq.
    + rewrite lookup_insert_eq. eexists. split_and!; [done..|].
      destruct Hfr as [F1 F2 F3 F4 F5 F6 F7]. split; simpl; try done.
      unfold data_repr. rewrite Hty. eexists. split; [done|]. by apply dir_repr_insert_same.
    + rewrite lookup_insert_ne by (intros ->; destruct Hjp; by eapply (repr_ptr_inj a)).
      rewrite lookup_insert_ne by done. exists f. split_and!; try done.
      by apply file_repr_insert_other.
  - intros q f. rewrite Hheap, Hfiles, dom_insert.
    intros [[<- <-]|[Hne [[<- <-]|[Hne' Hf]]%lookup_insert_Some]]%lookup_insert_Some; simpl.
    + destruct (r_heap _ _ _ Hr _ _ Hpf) as [? Hfi].
      rewrite (fr_ino _ _ _ _ _ Hpfr) in *. rewrite list_lookup_insert_ne by lia. set_solver.
    + rewrite (fr_ino _ _ _ _ _ Hnew). rewrite list_lookup_insert_eq by done. set_solver.
    + destruct (r_heap _ _ _ Hr _ _ Hf) as [Hd Hfi]. rewrite list_lookup_insert_ne; [set_solver|].
      intros ->. apply elem_of_dom in Hd as [? ?]. congruence.
  - intros q. rewrite Hheap, Hbrk, !dom_insert, !elem_of_union, !elem_of_singleton.
    pose proof (r_brk _ _ _ Hr pp (elem_of_dom_2 _ _ _ Hpf)).
    intros [->|[->|Hq%(r_brk _ _ _ Hr)]]; lia.
  - rewrite Hfiles. rewrite list_lookup_insert_ne; [apply Hr|]. unfold INVALID_INO. lia.
Qed.

Lemma clean_head w i fl : itab_ok w (i :: fl) → clean w (i :: fl) → files w !! i = Some None.
Proof.
  intros Hit Hcl. assert (i < INO_NUM) as Hlt by (eapply itab_lt; [done|set_solver]).
  destruct (itab_entry w (i :: fl) i Hit Hlt) as [e He].
  unfold files. rewrite list_lookup_fmap, He. simpl. f_equal.
  apply (Hcl i); [set_solver|done].
Qed.

(** ** Creating files and directories *)
Lemma wp_load_dir_of w fl k p f Q :
  itab_ok w fl → k < INO_NUM → k ∉ fl → files w !! k = Some (Some p) →
  heap w !! p = Some f → f_type f = DIRECTORY → Q p w → wp (load_dir_of k) Q w.
Proof.
  intros Hit Hk Hn (e & He & Hid)%files_entry Hf Hty HQ. unfold load_dir_of.
  wp_step. eapply wp_ino2inodesc; [done..|]. wp_step. eapply wp_load_id; [done|].
  wp_steps. { apply bool_decide_eq_true. by eapply it_used. }
  eapply wp_load_file; [done|]. wp_steps. by apply bool_decide_eq_true.
Qed.

(** A new entry goes into both tables of a directory that has neither its
    inode nor its name. *)
Lemma wp_dir_add w pp pf dd p f nm Q :
  heap w !! pp = Some pf → f_type pf = DIRECTORY → f_data pf = DDir dd →
  heap w !! p = Some f → f_name f = Some nm →
  ht_find (f_ino f) (ino_files dd) = None → ht_find nm (nm_files dd) = None →
  Q true (set_heap (<[pp := set_f_data (dir_plus (f_ino f) nm p dd) pf]> (heap w)) w) →
  wp (dir_add pp p) Q w.
Proof.
  intros Hpp Hty Hd Hp Hnm Hi Hn HQ. unfold dir_add. wp_step.
  eapply wp_load_file; [done|]. wp_step. eapply wp_load_file; [done|]. wp_steps.
  { by rewrite Hty, Hd. }
  eapply wp_deref; [unfold dir_data; by rewrite Hd|].
  rewrite Hnm, Hi, Hn. wp_step. eapply wp_store_file; [done|]. by wp_steps.
Qed.

(** A name or inode already listed: the tables are left alone. *)
Lemma wp_dir_add_dup w pp pf dd p f nm q Q :
  heap w !! pp = Some pf → f_type pf = DIRECTORY → f_data pf = DDir dd →
  heap w !! p = Some f → f_name f = Some nm →
  ht_find nm (nm_files dd) = Some q → Q false w → wp (dir_add pp p) Q w.
Proof.
  intros Hpp Hty Hd Hp Hnm Hn HQ. unfold dir_add. wp_step.
  eapply wp_load_file; [done|]. wp_step. eapply wp_load_file; [done|]. wp_steps.
  { by rewrite Hty, Hd. }
  eapply wp_deref; [unfold dir_data; by rewrite Hd|].
  rewrite Hnm, Hn. by destruct (ht_find (f_ino f) (ino_files dd)).
Qed.

(** The fields of [fs_t] outside the inode table. *)
Definition mount_part w : fs_t := this (nontab w).

Lemma nontab_mount w w' : nontab w' = nontab w → mount_part w' = mount_part w.
Proof. intros Heq. exact (f_equal this Heq). Qed.

(** The common end of both creation functions: allocate the object, link it
    into its directory, publish it in the inode table. *)
Lemma create_tail a i fl w w1 n pn pp newf :
  repr a (i :: fl) w → clean w (i :: fl) →
  a !! an_parent n = Some pn → an_type pn = DIRECTORY → an_parent n < i →
  (∀ j m, a !! j = Some m → an_parent m = an_parent n → an_name m ≠ an_name n) →
  files w !! an_parent n = Some (Some pp) →
  file_repr (<[i := n]> a) (<[i := Some (brk w)]> (files w)) i n newf →
  itab_ok w1 fl → files w1 = files w → nontab w1 = nontab w →
  wp (file ← alloc_file newf; _ ← dir_add pp file; _ ← update_id i (set_id_file (Some file));
      mret file)
     (λ p w', p = brk w ∧ repr (<[i := n]> a) fl w' ∧ clean w' fl ∧
              files w' = <[i := Some p]> (files w) ∧ mount_part w' = mount_part w) w1.
Proof.
  intros Hr Hcl Hp Hty Hord Hfresh Hpp Hnew Hit Hfiles Hnt.
  pose proof (nontab_heap _ _ Hnt) as Hh. pose proof (nontab_brk _ _ Hnt) as Hb.
  pose proof (nontab_mount _ _ Hnt) as Hmt. clear Hnt.
  destruct (repr_dir _ _ _ _ _ Hr Hp Hty) as (pp' & pf & dd & Hpp' & Hpf & Hpt & Hpd & Hdr & Hpfr).
  assert (pp' = pp) as -> by congruence.
  destruct (repr_fresh _ _ _ _ Hr) as (Hai & Hlt & Hni).
  pose proof (repr_brk_fresh _ _ _ Hr) as Hbf. assert (pp ≠ brk w) by congruence.
  destruct (dir_repr_fresh _ _ _ _ _ Hdr Hai Hfresh) as [Hki Hkn].
  wp_step. apply wp_alloc_file. wp_step. rewrite Hb, Hh.
  eapply wp_dir_add; simpl; [by rewrite lookup_insert_ne|done|done|by rewrite lookup_insert_eq|
    apply Hnew| | |].
  { rewrite (fr_ino _ _ _ _ _ Hnew). apply ht_find_None; [apply Hdr|done]. }
  { apply ht_find_None; [apply Hdr|done]. }
  rewrite (fr_ino _ _ _ _ _ Hnew). destruct (itab_entry w1 fl i Hit Hlt) as [e He].
  wp_step. eapply wp_update_id; [done|]. wp_steps. rewrite files_set_file.
  match goal with |- context [files ?x] => change (files x) with (files w1) end.
  rewrite Hfiles. split_and!; [done| | |done|exact Hmt].
  - eapply (repr_insert a i fl w _ n); try done; simpl.
    + eapply itab_set_file; [|done|done]. by apply (itab_same_this w1).
    + rewrite files_set_file. by rewrite <- Hfiles.
  - apply clean_files. intros j x Hj. rewrite files_set_file.
    match goal with |- context [files ?x] => change (files x) with (files w1) end.
    rewrite Hfiles, list_lookup_insert_ne by congruence.
    apply (proj1 (clean_files w _) Hcl j). set_solver.
Qed.

Definition file_node (dirino : nat) (name : string) (symlink : option string) (ops : nat) : anode :=
  ANode dirino name (match symlink with Some _ => SYMLINK | None => REGULAR end) ops symlink.
Definition dir_node (dirino : nat) (name : string) (ops : nat) : anode :=
  ANode dirino name DIRECTORY ops None.

Lemma fsCreatefile_refines a i fl w dirino dn name symlink ops :
  repr a (i :: fl) w → clean w (i :: fl) → a !! dirino = Some dn → an_type dn = DIRECTORY →
  dirino < i → (∀ j m, a !! j = Some m → an_parent m = dirino → an_name m ≠ name) →
  wp (fsCreatefile dirino name symlink ops)
     (λ p w', p = brk w ∧ repr (<[i := file_node dirino name symlink ops]> a) fl w' ∧
              clean w' fl ∧ files w' = <[i := Some p]> (files w) ∧
              mount_part w' = mount_part w) w.
Proof.
  intros Hr Hcl Hd Hty Hord Hfresh. destruct (repr_fresh _ _ _ _ Hr) as (Hai & Hlt & Hni).
  destruct (repr_alive _ _ _ _ _ Hr Hd) as (Hdl & Hdn & Hd0).
  destruct (repr_dir _ _ _ _ _ Hr Hd Hty) as (pp & pf & dd & Hpp & Hpf & Hpt & _ & _ & _).
  pose proof (clean_head _ _ _ (r_itab _ _ _ Hr) Hcl) as Hnone.
  unfold fsCreatefile. wp_step. eapply wp_mono; [by apply inoalloc_spec; [apply Hr|]|].
  intros r w1 (-> & Hit & Hfiles & Hnt). simpl. wp_step.
  eapply wp_ino2inodesc; [done..|]. wp_step.
  destruct (files_entry w1 i None) as (e & He & Hef); [by rewrite Hfiles|].
  eapply wp_load_id; [done|]. wp_steps.
  { rewrite !bool_decide_eq_true_2; [done| |done]. by eapply it_used. }
  { by apply bool_decide_eq_true. }
  eapply (wp_load_dir_of w1 fl dirino pp pf); try done; [set_solver|by rewrite Hfiles|
    by rewrite (nontab_heap _ _ Hnt)|].
  wp_step. eapply (create_tail a i fl w w1 (file_node dirino name symlink ops)); try done.
  destruct symlink; split; try done; simpl; unfold data_repr; simpl; eauto.
Qed.

(** A node cannot have children before it exists. *)
Lemma childless_fresh a i n :
  tree_ok a → a !! i = None → i ≠ INVALID_INO → an_parent n ≠ i →
  childless (<[i := n]> a) i = true.
Proof.
  intros Ht Hi Hi0 Hp. apply childless_spec. intros j m [[<- <-]|[Hne Hm]]%lookup_insert_Some; [done|].
  intros <-. destruct (decide (j = ROOT_INO)) as [->|Hj].
  - by destruct (t_root _ Ht _ Hm).
  - destruct (t_node _ Ht _ _ Hm Hj) as (pn & Hpn & _). congruence.
Qed.

Lemma fsCreatedir_refines a i fl w dirino dn name ops :
  repr a (i :: fl) w → clean w (i :: fl) → a !! dirino = Some dn → an_type dn = DIRECTORY →
  dirino < i → (∀ j m, a !! j = Some m → an_parent m = dirino → an_name m ≠ name) →
  wp (fsCreatedir dirino name ops)
     (λ p w', p = brk w ∧ repr (<[i := dir_node dirino name ops]> a) fl w' ∧
              clean w' fl ∧ files w' = <[i := Some p]> (files w) ∧
              mount_part w' = mount_part w) w.
Proof.
  intros Hr Hcl Hd Hty Hord Hfresh. destruct (repr_fresh _ _ _ _ Hr) as (Hai & Hlt & Hni).
  destruct (repr_alive _ _ _ _ _ Hr Hd) as (Hdl & Hdn & Hd0).
  destruct (repr_dir _ _ _ _ _ Hr Hd Hty) as (pp & pf & dd & Hpp & Hpf & Hpt & _ & _ & _).
  pose proof (clean_head _ _ _ (r_itab _ _ _ Hr) Hcl) as Hnone.
  unfold fsCreatedir. wp_step. eapply wp_mono; [by apply inoalloc_spec; [apply Hr|]|].
  intros r w1 (-> & Hit & Hfiles & Hnt). simpl. wp_step.
  eapply wp_ino2inodesc; [done..|]. wp_step.
  destruct (files_entry w1 i None) as (e & He & Hef); [by rewrite Hfiles|].
  eapply wp_load_id; [done|]. wp_steps.
  { rewrite !bool_decide_eq_true_2; [done| |done]. by eapply it_used. }
  rewrite decide_False by done. wp_step.
  eapply (wp_load_dir_of w1 fl dirino pp pf); try done; [set_solver|by rewrite Hfiles|
    by rewrite (nontab_heap _ _ Hnt)|].
  wp_steps. eapply (create_tail a i fl w w1 (dir_node dirino name ops)); try done.
  split; try done. unfold data_repr; simpl. eexists. split; [done|].
  apply dir_repr_empty, childless_fresh; [apply Hr|done| |simpl; lia].
  intros ->. unfold INVALID_INO in *. lia.
Qed.
End refine.
