(* ===== verification/FsRemove.v ===== *)
(** * Refinement of removal ([fsRemoveitem] of [kld/fs.c]) *)
From S2P Require Import Prelude UtHash Event Fs FsInode FsTree FsRefine.

Section remove.
Context `{UL : UtHashLaws}.
Implicit Types (a : atree) (w : fsw) (fl : list nat).

Lemma nondir_childless a i n :
  tree_ok a → a !! i = Some n → an_type n ≠ DIRECTORY → childless a i = true.
Proof.
  intros Ht Hi Hty. apply childless_spec. intros j m Hm <-.
  destruct (decide (j = ROOT_INO)) as [->|Hj].
  - destruct (t_root _ Ht _ Hm) as [Hp _]. rewrite Hp in Hi.
    apply elem_of_dom_2, (t_bound _ Ht) in Hi. unfold INVALID_INO in *. lia.
  - destruct (t_node _ Ht _ _ Hm Hj) as (pn & Hpn & ? & _). congruence.
Qed.

Lemma file_repr_delete_other a fs i n j m f :
  file_repr a fs j m f → a !! i = Some n → an_parent n ≠ j →
  file_repr (delete i a) fs j m f.
Proof.
  intros [H1 H2 H3 H4 H5 H6 H7] Hi Hj. split; try done.
  unfold data_repr in *. destruct (an_type m); try done.
  destruct H2 as (d & Hd & Hdr). exists d. split; [done|]. by eapply dir_repr_delete_other.
Qed.

(** The tables of the parent after the entry was dropped. *)
Definition dir_minus (i : nat) (nm : string) (d : fs_dir) : fs_data :=
  DDir (FsDir (ht_del i (ino_files d)) (ht_del nm (nm_files d))).

(** Dropping node [i]: [h] is the heap with the parent's tables updated. *)
Lemma repr_delete a fl w w' i n p h :
  repr a fl w → a !! i = Some n → childless a i = true → files w !! i = Some (Some p) →
  (∀ j m, delete i a !! j = Some m → ∃ q f, files w !! j = Some (Some q) ∧
     h !! q = Some f ∧ file_repr (delete i a) (files w) j m f) →
  (∀ q f, h !! q = Some f → ∃ f0, heap w !! q = Some f0 ∧ f_ino f = f_ino f0) →
  itab_ok w' (i :: fl) → files w' = files w → heap w' = delete p h → brk w' = brk w →
  repr (delete i a) (i :: fl) w'.
Proof.
  intros Hr Hi Hc Hp Hh Hdom Hit Hfiles Hheap Hbrk.
  destruct (repr_alive _ _ _ _ _ Hr Hi) as (Hlt & Hni & Hi0).
  split; try done.
  - apply tree_delete; [apply Hr | done].
  - intros j Hj. rewrite dom_delete, elem_of_cons, elem_of_difference, elem_of_singleton.
    destruct (decide (j = i)) as [->|Hne]; [by auto|].
    destruct (r_cover _ _ _ Hr j Hj) as [?|[?|?]]; auto.
  - rewrite not_elem_of_cons. split; [done | apply Hr].
  - intros j [->|Hj]%elem_of_cons; rewrite dom_delete; [set_solver|].
    intros [Hd _]%elem_of_difference. by apply (r_live _ _ _ Hr) in Hj.
  - intros j m Hm. destruct (Hh _ _ Hm) as (q & f & Hq & Hf & Hfr).
    exists q, f. rewrite Hfiles, Hheap. split_and!; [done| |done].
    rewrite lookup_delete_ne; [done|]. intros ->.
    apply lookup_delete_Some in Hm as [Hne Hm]. by eapply Hne, (repr_ptr_inj a).
  - intros q f. rewrite Hheap, Hfiles, dom_delete. intros [Hne Hf]%lookup_delete_Some.
    destruct (Hdom _ _ Hf) as (f0 & Hf0 & ->).
    destruct (r_heap _ _ _ Hr _ _ Hf0) as [Hd Hfi]. split; [|done].
    apply elem_of_difference. split; [done|]. rewrite elem_of_singleton. intros Heq. congruence.
  - intros q. rewrite Hheap, Hbrk, dom_delete. intros [[f Hf]%elem_of_dom _]%elem_of_difference.
    destruct (Hdom _ _ Hf) as (f0 & Hf0 & _). apply (r_brk _ _ _ Hr). by eapply elem_of_dom_2.
  - rewrite Hfiles. apply Hr.
Qed.

(** The heap after unlinking represents the smaller tree away from [i]. *)
Lemma unlink_heap a fl w i n cp cf d :
  repr a fl w → a !! i = Some n → files w !! an_parent n = Some (Some cp) →
  heap w !! cp = Some cf → f_data cf = DDir d → dir_repr a (files w) (an_parent n) d →
  let h := <[cp := set_f_data (dir_minus i (an_name n) d) cf]> (heap w) in
  i ≠ ROOT_INO →
  (∀ j m, delete i a !! j = Some m → ∃ q f, files w !! j = Some (Some q) ∧
     h !! q = Some f ∧ file_repr (delete i a) (files w) j m f) ∧
  (∀ q f, h !! q = Some f → ∃ f0, heap w !! q = Some f0 ∧ f_ino f = f_ino f0).
Proof.
  intros Hr Hi Hcp Hcf Hd Hdr h Hroot. pose proof (r_tree _ _ _ Hr) as Ht. split.
  - intros j m [Hne Hm]%lookup_delete_Some.
    destruct (r_file _ _ _ Hr _ _ Hm) as (q & f & Hq & Hf & Hfr).
    destruct (r_file _ _ _ Hr _ _ Hi) as (p & f0 & Hp & Hf0 & Hfr0).
    exists q. destruct (decide (j = an_parent n)) as [->|Hjp].
    + assert (q = cp) as -> by congruence. assert (f = cf) as -> by congruence.
      eexists. split_and!; [done|apply lookup_insert_eq|].
      destruct Hfr as [F1 F2 F3 F4 F5 F6 F7]. split; simpl; try done.
      unfold data_repr in *. rewrite Hd in F2. destruct (an_type m); try naive_solver.
      eexists. split; [done|]. by eapply dir_repr_delete_same.
    + exists f. split_and!; [done| |by eapply file_repr_delete_other].
      unfold h. rewrite lookup_insert_ne; [done|]. intros <-.
      destruct (t_node _ Ht _ _ Hi Hroot) as (pn & Hpn & _).
      by eapply Hjp, (repr_ptr_inj a).
  - intros q f. unfold h. intros [[<- <-]|[Hne Hf]]%lookup_insert_Some; eauto.
Qed.

(** ** Symbolic execution of the pieces of [fsRemoveitem] *)
Lemma wp_containing_dir w fl k p f Q :
  itab_ok w fl → k < INO_NUM → k ∉ fl → files w !! k = Some (Some p) →
  heap w !! p = Some f → f_type f = DIRECTORY → Q p w → wp (containing_dir k) Q w.
Proof.
  intros Hit Hk Hn (e & He & Hid)%files_entry Hf Hty HQ. unfold containing_dir.
  wp_step. eapply wp_ino2inodesc; [done..|]. wp_step. eapply wp_load_id; [done|].
  wp_steps. { rewrite Hid, bool_decide_eq_true_2; [done|]. by eapply it_used. }
  eapply wp_load_file; [done|]. wp_steps. by apply bool_decide_eq_true.
Qed.

Lemma wp_removable a fl w i n p f Q :
  repr a fl w → a !! i = Some n → files w !! i = Some (Some p) → heap w !! p = Some f →
  (childless a i = false → Q None w) →
  (childless a i = true → i ≠ ROOT_INO → ∀ cp, files w !! an_parent n = Some (Some cp) →
     Q (Some (Some cp)) w) →
  (childless a i = true → i = ROOT_INO → Q (Some None) w) →
  wp (removable f) Q w.
Proof.
  intros Hr Hi Hp Hf Q1 Q2 Q3. pose proof (r_tree _ _ _ Hr) as Ht.
  destruct (r_file _ _ _ Hr _ _ Hi) as (p' & f' & Hp' & Hf' & Hfr). simplify_eq.
  assert (i ≠ ROOT_INO → childless a i = true →
          wp (containing_dir (f_dir f)) (λ cp, wp (mret (Some (Some cp))) Q) w) as Hcd.
  { intros Hroot Hc. destruct (t_node _ Ht _ _ Hi Hroot) as (pn & Hpn & Hty & _).
    destruct (repr_dir _ _ _ _ _ Hr Hpn Hty) as (cp & cf & d & Hcp & Hcf & Hct & _).
    destruct (repr_alive _ _ _ _ _ Hr Hpn) as (? & ? & ?). rewrite (fr_dir _ _ _ _ _ Hfr).
    eapply wp_containing_dir; try done; [apply Hr|]. apply wp_ret. by apply Q2. }
  unfold removable. rewrite (fr_type _ _ _ _ _ Hfr), (fr_ino _ _ _ _ _ Hfr).
  case_decide as Hty.
  - destruct (repr_dir _ _ _ _ _ Hr Hi Hty) as (p2 & f2 & d & ? & ? & ? & Hd & Hdr & _).
    simplify_eq. wp_step. eapply wp_deref; [unfold dir_data; by rewrite Hd|]. wp_steps.
    { apply Nat.eqb_eq, Hdr. }
    assert (ht_cnt (ino_files d) = 0 ↔ childless a i = true) as Hiff.
    { eapply dir_repr_empty_iff; [done|]. intros j m Hm.
      destruct (r_file _ _ _ Hr _ _ Hm) as (q & g & Hq & _). eauto. }
    case_decide as Hcnt.
    { wp_steps. apply Q1. destruct (childless a i); naive_solver. }
    apply Hiff in Hcnt. case_decide as Hroot; [wp_step; auto|].
    subst i. wp_steps; [|by apply Q3].
    apply bool_decide_eq_true. rewrite (fr_dir _ _ _ _ _ Hfr). by eapply t_root.
  - assert (i ≠ ROOT_INO) as Hroot by (intros ->; by destruct (t_root _ Ht _ Hi)).
    pose proof (tree_parent_bound _ _ _ Ht Hi Hroot). wp_steps.
    { rewrite (fr_dir _ _ _ _ _ Hfr), !bool_decide_eq_true_2; [done| |done].
      unfold INVALID_INO. lia. }
    apply Hcd; [done|]. by eapply nondir_childless.
Qed.

Lemma wp_unlink_item w cp cf d p f nm Q :
  heap w !! cp = Some cf → heap w !! p = Some f → f_data cf = DDir d →
  NoDup (ht_keys (ino_files d)) → NoDup (ht_keys (nm_files d)) →
  ht_cnt (ino_files d) = ht_cnt (nm_files d) → f_name f = Some nm →
  ht_find (f_ino f) (ino_files d) = Some p → ht_find nm (nm_files d) = Some p →
  Q (bool_decide (ht_cnt (ht_del (f_ino f) (ino_files d)) = 0))
    (set_heap (<[cp := set_f_data (dir_minus (f_ino f) nm d) cf]> (heap w)) w) →
  wp (unlink_item cp p) Q w.
Proof.
  intros Hcf Hf Hd Hn1 Hn2 Hcnt Hnm Hi Hn HQ.
  pose proof (proj1 (ht_find_spec _ _ _ Hn1) Hi) as Hii%ht_key_item.
  pose proof (proj1 (ht_find_spec _ _ _ Hn2) Hn) as Hin%ht_key_item.
  pose proof (ht_cnt_del _ _ Hn1 Hii). pose proof (ht_cnt_del _ _ Hn2 Hin).
  unfold unlink_item. wp_step. eapply wp_load_file; [done|]. wp_step.
  eapply wp_load_file; [done|]. wp_step.
  eapply wp_deref; [unfold dir_data; by rewrite Hd|]. wp_steps.
  - by apply Nat.eqb_eq.
  - apply Nat.ltb_lt. lia.
  - by rewrite bool_decide_eq_true_2.
  - by rewrite bool_decide_eq_true_2.
  - eapply wp_store_file; [done|]. wp_steps. apply Nat.eqb_eq. simpl. lia.
Qed.

(** The inode goes back on the free list and the object is freed. *)
Lemma wp_drop_item {A} w fl i p f (k : M fsw A) Q :
  itab_ok w fl → i < INO_NUM → i ∉ fl → heap w !! p = Some f → f_malloced f = true →
  (∀ w', itab_ok w' (i :: fl) → files w' = files w → heap w' = delete p (heap w) →
         brk w' = brk w → mount_part w' = mount_part w → wp k Q w') →
  wp (_ ← inofree i; _ ← store_file p (scrub f);
      _ ← (if f_malloced f then free_file p else mret tt); k) Q w.
Proof.
  intros Hit Hi Hni Hf Hm Hk. wp_step.
  eapply wp_mono; [by apply inofree_spec|]. intros r w1 (-> & Hit1 & Hfiles & Hnt). simpl.
  pose proof (nontab_heap _ _ Hnt) as Hh. wp_step.
  eapply wp_store_file; [by rewrite Hh|]. wp_step. rewrite Hm.
  eapply wp_free_file; [apply lookup_insert_eq|]. apply Hk; simpl.
  - by apply (itab_same_this w1).
  - rewrite <- Hfiles. by apply files_same_this.
  - by rewrite delete_insert_eq, Hh.
  - by rewrite <- (nontab_brk _ _ Hnt).
  - by rewrite <- (nontab_mount _ _ Hnt).
Qed.

(** Every removal leaves at the head of the free list an inode whose table
    entry still points to the freed object. *)
Definition dirty_head w fl : Prop :=
  ∃ j q fl', fl = j :: fl' ∧ files w !! j = Some (Some q).

(** The directory an item was taken out of counts no entry exactly when the tree has
    no other node below it. *)
Lemma unlinked_empty a fl w i n p d :
  repr a fl w → a !! i = Some n → files w !! i = Some (Some p) → dir_repr a (files w) (an_parent n) d →
  bool_decide (ht_cnt (ht_del i (ino_files d)) = 0) = childless (delete i a) (an_parent n).
Proof.
  intros Hr Hi Hp Hdr.
  pose proof (dir_repr_delete_same _ _ _ _ _ _ (r_tree _ _ _ Hr) Hdr Hi Hp) as Hdr'.
  apply dir_repr_empty_iff in Hdr'; simpl in Hdr'.
  - case_bool_decide; destruct (childless (delete i a) (an_parent n)); naive_solver.
  - intros j m [_ Hm]%lookup_delete_Some.
    destruct (r_file _ _ _ Hr _ _ Hm) as (q & g & Hq & _). eauto.
Qed.

(** The root is in no directory: taking it out changes no table. *)
Lemma repr_delete_root a fl w w' n p :
  repr a fl w → a !! ROOT_INO = Some n → childless a ROOT_INO = true →
  files w !! ROOT_INO = Some (Some p) → itab_ok w' (ROOT_INO :: fl) → files w' = files w →
  heap w' = delete p (heap w) → brk w' = brk w → repr (delete ROOT_INO a) (ROOT_INO :: fl) w'.
Proof.
  intros Hr Hi Hc Hp Hit Hfiles Hheap Hbrk.
  eapply (repr_delete _ _ _ _ _ _ _ (heap w)); try done; [|by eauto].
  intros j m Hm. apply lookup_delete_Some in Hm as [Hne Hm].
  destruct (r_file _ _ _ Hr _ _ Hm) as (q & g & Hq & Hg & Hgr). exists q, g.
  split_and!; try done. eapply file_repr_delete_other; try done.
  destruct (t_root _ (r_tree _ _ _ Hr) _ Hi) as [-> _].
  pose proof (repr_alive _ _ _ _ _ Hr Hm). naive_solver.
Qed.

Lemma dirty_head_freed w i fl p : files w !! i = Some (Some p) → dirty_head w (i :: fl).
Proof. intros Hp. by exists i, p, fl. Qed.

Lemma fsRemoveitem_loop_spec fuel purge i a fl w n p :
  i < fuel → repr a fl w → a !! i = Some n → files w !! i = Some (Some p) →
  wp (fsRemoveitem_loop fuel p purge)
     (λ r w', r = childless a i ∧ files w' = files w ∧ mount_part w' = mount_part w ∧
        ∃ fl', repr (a_remove fuel purge i a) fl' w' ∧
               (childless a i = true → dirty_head w' fl') ∧
               (purge = false → fl' = if childless a i then i :: fl else fl)) w.
Proof.
  revert i a fl w n p. induction fuel as [|fuel IH]; intros i a fl w n p Hlt Hr Hi Hp; [lia|].
  destruct (r_file _ _ _ Hr _ _ Hi) as (p' & f & Hp' & Hf & Hfr).
  assert (p' = p) as -> by congruence. clear Hp'.
  destruct (repr_alive _ _ _ _ _ Hr Hi) as (Hil & Hini & _).
  simpl. rewrite Hi. wp_step. eapply wp_load_file; [done|]. wp_step.
  eapply (wp_removable a fl w i n p); try done.
  - (* a directory that is not empty *)
    intros Hc. rewrite Hc. apply wp_ret. split_and!; try done. exists fl. by split_and!.
  - (* an item of a directory *)
    intros Hc Hroot cp Hcp. rewrite Hc, decide_True by done.
    destruct (t_node _ (r_tree _ _ _ Hr) _ _ Hi Hroot) as (pn & Hpn & Hty & Hord).
    destruct (repr_dir _ _ _ _ _ Hr Hpn Hty) as (cp' & cf & d & Hcp' & Hcf & _ & Hd & Hdr & _).
    assert (cp' = cp) as -> by congruence. clear Hcp'.
    destruct (dir_repr_find _ _ _ _ _ _ Hdr Hi Hp) as [Hfi Hfn].
    destruct (unlink_heap _ _ _ _ _ _ _ _ Hr Hi Hcp Hcf Hd Hdr Hroot) as [Hh1 Hh2].
    assert (cp ≠ p) as Hcpp.
    { intros ->. assert (i = an_parent n) by (by eapply (repr_ptr_inj a)). lia. }
    rewrite <- (fr_ino _ _ _ _ _ Hfr) in Hfi.
    wp_step. eapply (wp_unlink_item w cp cf d p f (an_name n)); try done; try apply Hdr;
      [apply Hfr|].
    rewrite (fr_ino _ _ _ _ _ Hfr).
    eapply (wp_drop_item _ fl i p f); [by apply (itab_same_this w); [|apply Hr]|done|done| | |].
    { simpl. by rewrite lookup_insert_ne. }
    { apply Hfr. }
    intros w1 Hit1 Hfiles Hheap Hbrk Hmt.
    assert (repr (delete i a) (i :: fl) w1) as Hr1.
    { eapply repr_delete; try done. }
    rewrite (unlinked_empty _ _ _ _ _ _ _ Hr Hi Hp Hdr).
    rewrite andb_comm. destruct purge; simpl; [destruct (childless (delete i a) (an_parent n)) eqn:Hce|].
    + wp_step. wp_step. eapply wp_mono.
      { eapply (IH (an_parent n) (delete i a) (i :: fl) w1 pn cp); [lia|done| |by rewrite Hfiles].
        rewrite lookup_delete_ne; [done|lia]. }
      intros r w2 (-> & Hf2 & Hm2 & fl' & Hr2 & Hdh & _). wp_steps.
      split_and!; [done|by rewrite Hf2|by rewrite Hm2|]. exists fl'. split_and!; auto; done.
    + wp_steps. split_and!; [done|done|done|]. exists (i :: fl). split_and!; [done| |done].
      intros _. apply (dirty_head_freed _ _ _ p). by rewrite Hfiles.
    + wp_steps. split_and!; [done|done|done|]. exists (i :: fl). split_and!; [done| |done].
      intros _. apply (dirty_head_freed _ _ _ p). by rewrite Hfiles.
  - (* the root *)
    intros Hc ->. rewrite Hc, decide_False by (intros Hn; by apply Hn). wp_step. wp_step.
    rewrite (fr_ino _ _ _ _ _ Hfr).
    eapply (wp_drop_item _ fl ROOT_INO p f); [apply Hr|done|done|done|apply Hfr|].
    intros w1 Hit1 Hfiles Hheap Hbrk Hmt. wp_steps. split_and!; [done|done|done|].
    exists (ROOT_INO :: fl). split_and!; [| |done].
    + by eapply repr_delete_root.
    + intros _. apply (dirty_head_freed _ _ _ p). by rewrite Hfiles.
Qed.
End remove.
