(* ===== verification/FsLife.v ===== *)
(** * Life cycle of the file system object ([fsInit], [fsCreate], [fsCleanup] of
    [kld/fs.c], [kldfsCreate] of [kld/kldfs.c]) *)
From S2P Require Import Prelude UtHash Event Fs FsInode FsTree FsRefine FsRemove.

(** Addresses of the static operation tables. *)
Definition fs_dir_ops : nat := 1.
Definition fs_libkernel_ops : nat := 2.

(** What the system answers to [fsCreate]: whether [mkdir] succeeds, whether
    [fuse_session_new] returns a session, whether [fuse_session_mount] returns
    0, the descriptor [fuse_session_fd] returns, and the verbosity level. *)
Record fs_env := FsEnv {
  env_mkdir : bool;
  env_session : bool;
  env_mount : bool;
  env_fd : Z;
  env_verbose : Z;
}.

(** A creation request, as issued through [fsCreatedir] and [fsCreatefile]. *)
Inductive creq :=
| CDir (parent : nat) (name : string) (ops : nat)
| CFile (parent : nat) (name : string) (symlink : option string) (ops : nat).

Section life.
Context `{UT : UtHash}.

(** ** Field updates *)
Definition set_mount (args : list string) (e : evntdesc) (se : bool) (mp : option string)
    (fd : Z) (mk : bool) (w : fsw) : fsw :=
  let f := this w in
  FsW (FsT args (fuse_buf_mem f) e se mp (ino_table f) (ino_freelist f) (ino_num f)
           (ino_numfree f) fd mk) (heap w) (brk w).
Definition set_args (args : list string) (w : fsw) : fsw :=
  let f := this w in set_mount args (ed f) (fuse_se f) (mntpt f) (fuse_fd f) (mkdir f) w.
Definition set_ed (e : evntdesc) (w : fsw) : fsw :=
  let f := this w in set_mount (fuse_args f) e (fuse_se f) (mntpt f) (fuse_fd f) (mkdir f) w.
Definition set_se (se : bool) (w : fsw) : fsw :=
  let f := this w in set_mount (fuse_args f) (ed f) se (mntpt f) (fuse_fd f) (mkdir f) w.
Definition set_mntpt (mp : option string) (w : fsw) : fsw :=
  let f := this w in set_mount (fuse_args f) (ed f) (fuse_se f) mp (fuse_fd f) (mkdir f) w.
Definition set_fd (fd : Z) (w : fsw) : fsw :=
  let f := this w in set_mount (fuse_args f) (ed f) (fuse_se f) (mntpt f) fd (mkdir f) w.
Definition set_mkdir (mk : bool) (w : fsw) : fsw :=
  let f := this w in set_mount (fuse_args f) (ed f) (fuse_se f) (mntpt f) (fuse_fd f) mk w.

(** ** Initialisation *)

(** [snprintf] into a buffer of [n] bytes: [None] when the text and its
    terminator do not fit. *)
Definition snprintf_fits (n : Z) (s : string) : option string :=
  if (Z.of_nat (String.length s) <? n)%Z then Some s else None.

Definition fsMountPoint (n : Z) (fsname : string) (dir : option string) : option string :=
  snprintf_fits n
    match dir with
    | Some d => d +:+ "/" +:+ fsname
    | None => fsname
    end.

Definition fsSetMntPt (mp : option string) : M fsw bool :=
  w ← getM;
  _ ← assertM (bool_decide (mntpt (this w) = None));
  match mp with
  | None => _ ← modifyM (set_mntpt None); mret true
  | Some s => _ ← modifyM (set_mntpt (Some s)); mret true
  end.

(** [(fs_t){ .fuse_args = FUSE_ARGS_INIT(0, NULL), .fuse_fd = -1 }] *)
Definition fs_blank : fs_t :=
  FsT [] false (EvntDesc None None) false None None None 0 0 (-1) false.

(** [sizeof(tmp)] where [tmp] is declared [char *]. *)
Definition sizeof_tmp : Z := 8.

Definition EXIT_FAILURE : Z := 1.

Definition fsInit (fsname : string) (initmntpt : bool) (mntptdir : option string) : M fsw bool :=
  _ ← modifyM (λ w, FsW fs_blank (heap w) (brk w));
  _ ← (if initmntpt then
         match fsMountPoint sizeof_tmp fsname mntptdir with
         | None => exitM EXIT_FAILURE
         | Some tmp =>
           ok ← fsSetMntPt (Some tmp);
           if ok : bool then mret tt else exitM EXIT_FAILURE
         end
       else mret tt);
  _ ← modifyM (set_ed (EvntDesc (Some fsEvent_ptr) (Some obj_fs)));
  mret true.

(** ** Creation *)
Definition fsCreate (env : fs_env) (name : string)
    (createfsfunc : option (nat → M fsw unit)) : M fsw bool :=
  if negb (env_mkdir env) then mret false else
  _ ← modifyM (set_mkdir true);
  ino ← inoalloc;
  _ ← assertM (bool_decide (ino = 0) && bool_decide (ino = INVALID_INO));
  root ← fsCreatedir INVALID_INO "." fs_dir_ops;
  rf ← load_file root;
  _ ← assertM (bool_decide (f_ino rf = ROOT_INO));
  _ ← match createfsfunc with Some cf => cf (f_ino rf) | None => mret tt end;
  _ ← modifyM (λ w, set_args (fuse_args (this w) ++ [name; "-o"; "default_permissions"] ++
                              (if (2 <=? env_verbose env)%Z then ["--debug"] else [])) w);
  _ ← modifyM (set_se (env_session env));
  _ ← assertM (env_session env);
  if negb (env_mount env) then mret false else
  _ ← modifyM (set_fd (env_fd env));
  _ ← assertM (negb (env_fd env =? -1)%Z);
  w ← getM;
  _ ← assertM (bool_decide (ed (this w) = EvntDesc (Some fsEvent_ptr) (Some obj_fs)));
  mret true.

(** [kldfsCreate]: the one file the tool exposes. *)
Definition kldfsCreate (rootino : nat) : M fsw unit :=
  _ ← fsCreatefile rootino "libkernel.so" None fs_libkernel_ops;
  mret tt.

(** ** Cleanup *)
Fixpoint cleanup_loop (ids : list nat) (removed : Z) : M fsw Z :=
  match ids with
  | [] => mret removed
  | i :: ids =>
    id ← load_id i;
    match id_file id with
    | Some file =>
      _ ← assertM (bool_decide (id_next id = None));
      _ ← fsRemoveitem file true;
      cleanup_loop ids (removed + 1)
    | None => cleanup_loop ids removed
    end
  end.

Definition fsCleanup : M fsw bool :=
  w ← getM;
  if bool_decide (mntpt (this w) ≠ None) && mkdir (this w) then
    _ ← (if fuse_se (this w) then
           _ ← modifyM (set_se false); modifyM (set_args [])
         else mret tt);
    _ ← modifyM (set_mntpt None);
    w ← getM;
    if decide (ino_table (this w) = None) then mret true
    else
      let allocated := (ino_num (this w) - ino_numfree (this w))%Z in
      _ ← assertM (negb (ino_num (this w) =? 0)%Z);
      removed ← cleanup_loop (seq 0 (Z.to_nat (ino_num (this w)))) 0;
      _ ← inofree INVALID_INO;
      let removed := (removed + 1)%Z in
      _ ← assertM (removed =? allocated)%Z;
      w ← getM;
      _ ← assertM (ino_num (this w) =? ino_numfree (this w))%Z;
      _ ← modifyM (set_inotab None None 0 0);
      mret true
  else mret true.

(** ** Sequences of creations *)
Definition run_creq (r : creq) : M fsw ptr :=
  match r with
  | CDir parent name ops => fsCreatedir parent name ops
  | CFile parent name symlink ops => fsCreatefile parent name symlink ops
  end.

Fixpoint run_creqs (rs : list creq) : M fsw unit :=
  match rs with
  | [] => mret tt
  | r :: rs => _ ← run_creq r; run_creqs rs
  end.
End life.

(** ** The same requests on trees

    Inodes are handed out in order: the next one is [k]. A request is granted
    when an inode is left, the parent is a directory of the tree and the name is
    new there. *)
Definition creq_node (r : creq) : anode :=
  match r with
  | CDir parent name ops => dir_node parent name ops
  | CFile parent name symlink ops => file_node parent name symlink ops
  end.

Definition fresh_name (a : atree) (dirino : nat) (name : string) : bool :=
  bool_decide (map_Forall (λ _ m, ¬ (an_parent m = dirino ∧ an_name m = name)) a).

Definition a_create (k : nat) (a : atree) (r : creq) : option atree :=
  let n := creq_node r in
  match a !! an_parent n with
  | Some pn =>
    if bool_decide (an_type pn = DIRECTORY) && fresh_name a (an_parent n) (an_name n)
       && (k <? INO_NUM)
    then Some (<[k := n]> a) else None
  | None => None
  end.

Fixpoint a_creates (k : nat) (a : atree) (rs : list creq) : option atree :=
  match rs with
  | [] => Some a
  | r :: rs => a' ← a_create k a r; a_creates (S k) a' rs
  end.
