(* ===== verification/FsCleanup.v ===== *)
(** * Correctness of creation sequences and of cleanup

    Any sequence of granted creation requests builds the tree it describes, and
    [fsCleanup] then takes every node down again: its scan over the inode table
    removes each item, purging the directories this empties, no assertion fails
    and no file object is leaked. *)
From S2P Require Import Prelude UtHash Event Fs FsInode FsTree FsRefine FsRemove FsLife.

(** ** Removal on trees *)
Lemma a_remove_above fuel purge i a j : tree_ok a → i < j → a_remove fuel purge i a !! j = a !! j.
Proof.
  revert i a. induction fuel as [|fuel IH]; intros i a Ht Hj; simpl; [done|].
  destruct (a !! i) as [n|] eqn:Hi; [|done]. destruct (childless a i) eqn:Hc; [|done].
  case_decide as Hr; [|by rewrite lookup_delete_ne by lia].
  destruct (t_node _ Ht _ _ Hi Hr) as (pn & _ & _ & Hlt).
  destruct (purge && _); [|by rewrite lookup_delete_ne by lia].
  rewrite IH; [|by apply tree_delete|lia]. by rewrite lookup_delete_ne by lia.
Qed.

Lemma a_remove_sub fuel purge i a j n : a_remove fuel purge i a !! j = Some n → a !! j = Some n.
Proof.
  revert i a. induction fuel as [|fuel IH]; intros i a; simpl; [done|].
  destruct (a !! i) as [m|] eqn:Hi; [|done]. destruct (childless a i) eqn:Hc; [|done].
  repeat case_match; intros Hn; try apply IH in Hn; by apply lookup_delete_Some in Hn as [_ ?].
Qed.

(** Every directory below [i] that was not empty still has a child or is gone. *)
Definition filled_below (a : atree) (i : nat) : Prop :=
  ∀ j, j < i → j ∈ dom a → childless a j = false.

Lemma childless_delete_ne a i n j :
  a !! i = Some n → an_parent n ≠ j → childless a j = false → childless (delete i a) j = false.
Proof.
  rewrite !childless_false. intros Hi Hne (k & m & Hk & <-). exists k, m.
  split; [|done]. rewrite lookup_delete_ne; [done|]. intros ->. congruence.
Qed.

Lemma a_remove_filled fuel i a :
  tree_ok a → i < fuel → i ∈ dom a → filled_below a i →
  filled_below (a_remove fuel true i a) (S i).
Proof.
  revert i a. induction fuel as [|fuel IH]; intros i a Ht Hf Hd Hfill; [lia|].
  apply elem_of_dom in Hd as [n Hi]. simpl. rewrite Hi.
  destruct (childless a i) eqn:Hc.
  2:{ intros j Hj Hjd. destruct (decide (j = i)) as [->|]; [done|]. apply Hfill; [lia|done]. }
  assert (∀ j, j < i → j ∈ dom (delete i a) → an_parent n ≠ j → childless (delete i a) j = false)
    as Hother.
  { intros j Hj Hjd Hne. eapply childless_delete_ne; [done..|]. apply Hfill; [done|].
    rewrite dom_delete in Hjd. set_solver. }
  assert (i ∉ dom (delete i a)) as Hgone by (rewrite dom_delete; set_solver).
  case_decide as Hr.
  2:{ intros j Hj Hjd. rewrite dom_delete in Hjd. apply elem_of_difference in Hjd as [Hjd Hne].
      apply (t_bound _ Ht) in Hjd. rewrite elem_of_singleton in Hne. unfold ROOT_INO in *. lia. }
  destruct (t_node _ Ht _ _ Hi Hr) as (pn & Hpn & Hty & Hlt). simpl.
  destruct (childless (delete i a) (an_parent n)) eqn:Hpc.
  2:{ intros j Hj Hjd. destruct (decide (an_parent n = j)) as [<-|Hne]; [done|].
      apply Hother; [|done..]. assert (j ≠ i) by congruence. lia. }
  assert (tree_ok (delete i a)) as Ht' by (by apply tree_delete).
  intros j Hj Hjd. destruct (decide (j ≤ an_parent n)) as [Hle|Hgt].
  - eapply (IH (an_parent n) (delete i a)); try done; [lia| | |lia].
    + apply elem_of_dom. exists pn. rewrite lookup_delete_ne by lia. done.
    + intros k Hk Hkd. apply Hother; [lia|done|lia].
  - assert (j ∈ dom (delete i a)) as Hjd'.
    { apply elem_of_dom in Hjd as [m Hm]. apply a_remove_sub in Hm. by eapply elem_of_dom_2. }
    assert (j ≠ i) by congruence.
    pose proof (Hother j ltac:(lia) Hjd' ltac:(lia)) as (k & m & Hk & Hpar)%childless_false.
    apply childless_false. exists k, m. split; [|done].
    assert (j < k).
    { destruct (decide (k = ROOT_INO)) as [->|Hkr].
      - destruct (t_root _ Ht' _ Hk) as [Hp0 _]. rewrite Hpar in Hp0.
        apply (t_bound _ Ht') in Hjd'. unfold INVALID_INO in *. lia.
      - destruct (t_node _ Ht' _ _ Hk Hkr) as (? & _ & _ & ?). lia. }
    rewrite a_remove_above; [done|done|lia].
Qed.

(** A finite tree in which every node has a child is empty. *)
Lemma filled_empty a : tree_ok a → filled_below a INO_NUM → a = ∅.
Proof.
  intros Ht Hf. apply map_empty. intros i. apply not_elem_of_dom. remember (INO_NUM - i) as k eqn:Hk.
  revert i Hk. induction (lt_wf k) as [k _ IH]. intros i -> Hd.
  pose proof (t_bound _ Ht _ Hd) as Hb. destruct Hb as [Hb1 Hb2].
  pose proof (Hf i Hb2 Hd) as (j & m & Hj & Hpar)%childless_false.
  apply elem_of_dom_2 in Hj as Hjd. pose proof (t_bound _ Ht _ Hjd).
  assert (i < j).
  { destruct (decide (j = ROOT_INO)) as [->|Hjr].
    - destruct (t_root _ Ht _ Hj) as [Hp0 _]. rewrite Hpar in Hp0. unfold INVALID_INO in *. lia.
    - destruct (t_node _ Ht _ _ Hj Hjr) as (? & _ & _ & ?). lia. }
  eapply (IH (INO_NUM - j)); [lia|done|done].
Qed.

Section cleanup.
Context `{UL : UtHashLaws}.
Implicit Types (a : atree) (w : fsw) (fl : list nat).

(** Entries of the table that hold a file pointer. *)
Definition occupied w (ids : list nat) : list nat :=
  filter (λ i, is_Some (mjoin (files w !! i))) ids.

Lemma occupied_same w w' ids : files w' = files w → occupied w' ids = occupied w ids.
Proof. intros Heq. unfold occupied. by rewrite Heq. Qed.

Lemma occupied_count a fl w :
  repr a fl w → clean w fl → length (occupied w (seq 0 INO_NUM)) = size a.
Proof.
  intros Hr Hcl. rewrite <- size_dom. unfold size, set_size. simpl. apply Permutation_length.
  apply NoDup_Permutation.
  - apply NoDup_filter, NoDup_ListNoDup, seq_NoDup.
  - apply NoDup_elements.
  - intros i. unfold occupied. rewrite list_elem_of_filter, elem_of_elements, elem_of_seq. split.
    + intros [Hoc Hlt]. destruct (files w !! i) as [[p|]|] eqn:Hf; [|by destruct Hoc..].
      destruct (r_cover _ _ _ Hr i ltac:(lia)) as [->|[Hfl|Hd]]; [|exfalso|done].
      * rewrite (r_file0 _ _ _ Hr) in Hf. done.
      * pose proof (proj1 (clean_files w fl) Hcl i _ Hfl Hf). done.
    + intros Hd. pose proof (t_bound _ (r_tree _ _ _ Hr) _ Hd). split; [|lia].
      apply elem_of_dom in Hd as [n Hn].
      destruct (r_file _ _ _ Hr _ _ Hn) as (p & f & -> & _). done.
Qed.

Lemma wp_fsRemoveitem a fl w i n p purge :
  repr a fl w → a !! i = Some n → files w !! i = Some (Some p) →
  wp (fsRemoveitem p purge)
     (λ r w', r = childless a i ∧ files w' = files w ∧ mount_part w' = mount_part w ∧
        ∃ fl', repr (a_remove (S INO_NUM) purge i a) fl' w' ∧
               (childless a i = true → dirty_head w' fl') ∧
               (purge = false → fl' = if childless a i then i :: fl else fl)) w.
Proof.
  intros Hr Hi Hp. unfold fsRemoveitem. wp_step. wp_step.
  rewrite (it_num _ _ (r_itab _ _ _ Hr)), Nat2Z.id.
  eapply fsRemoveitem_loop_spec; try done.
  pose proof (repr_alive _ _ _ _ _ Hr Hi). lia.
Qed.

(** The scan of the table: [a] is what is left when entry [i] is reached; no
    entry from [i] on has been touched yet. *)
Lemma cleanup_loop_spec k i a fl w removed :
  i + k = INO_NUM → repr a fl w → filled_below a i →
  (∀ j p, i ≤ j → files w !! j = Some (Some p) → j ∈ dom a) →
  wp (cleanup_loop (seq i k) removed)
     (λ r w', r = (removed + Z.of_nat (length (occupied w (seq i k))))%Z ∧
              files w' = files w ∧ mount_part w' = mount_part w ∧
              ∃ fl', repr ∅ fl' w') w.
Proof.
  revert i a fl w removed. induction k as [|k IH]; intros i a fl w removed Hik Hr Hfill Hocc; simpl.
  - apply wp_ret. split_and!; [unfold occupied; simpl; lia|done|done|].
    assert (i = INO_NUM) as -> by lia.
    pose proof (filled_empty _ (r_tree _ _ _ Hr) Hfill) as ->. eauto.
  - destruct (itab_entry w fl i (r_itab _ _ _ Hr) ltac:(lia)) as [e He].
    assert (files w !! i = Some (id_file e)) as Hfi by (unfold files; by rewrite list_lookup_fmap, He).
    wp_step. eapply wp_load_id; [done|]. unfold occupied at 1. rewrite filter_cons, Hfi.
    fold (occupied w (seq (S i) k)). destruct (id_file e) as [p|].
    + pose proof (Hocc i p ltac:(lia) Hfi) as Hd. pose proof Hd as [n Hn]%elem_of_dom.
      destruct (repr_alive _ _ _ _ _ Hr Hn) as (_ & Hni & _).
      rewrite decide_True by done. wp_step. apply wp_assert.
      { apply bool_decide_eq_true. by eapply it_used; [apply Hr|..]. }
      wp_step. eapply wp_mono; [by eapply wp_fsRemoveitem|].
      intros r w1 (_ & Hf1 & Hm1 & fl1 & Hr1 & _). eapply wp_mono.
      { eapply (IH (S i) _ fl1); [lia|done| |].
        - eapply a_remove_filled; [apply Hr|lia|done|done].
        - intros j q Hj. rewrite Hf1. intros Hq. rewrite elem_of_dom, a_remove_above; [|apply Hr|lia].
          apply elem_of_dom. eapply Hocc; [lia|done]. }
      intros r2 w2 (-> & Hf2 & Hm2 & Hr2). rewrite (occupied_same _ _ _ Hf1).
      split_and!; [simpl; lia|by rewrite Hf2|by rewrite Hm2|done].
    + rewrite decide_False by naive_solver. eapply wp_mono.
      { eapply (IH (S i) a fl); [lia|done| |].
        - intros j Hj Hjd. destruct (decide (j = i)) as [->|]; [|apply Hfill; [lia|done]].
          apply elem_of_dom in Hjd as [n Hn].
          destruct (r_file _ _ _ Hr _ _ Hn) as (q & f & Hq & _). congruence.
        - intros j q Hj. apply Hocc. lia. }
      intros r2 w2 H2. exact H2.
Qed.

(** Fields outside the table and the heap are irrelevant to the representation. *)
Lemma repr_same_inotab a fl w w' :
  ino_table (this w') = ino_table (this w) → ino_freelist (this w') = ino_freelist (this w) →
  ino_num (this w') = ino_num (this w) → ino_numfree (this w') = ino_numfree (this w) →
  heap w' = heap w → brk w' = brk w → repr a fl w → repr a fl w'.
Proof.
  intros E1 E2 E3 E4 E5 E6 [R1 R2 R3 R4 R5 R6 R7 R8 R9].
  assert (files w' = files w) as Ef by (unfold files, tbl; by rewrite E1).
  split; rewrite ?Ef, ?E5, ?E6; try done.
  destruct R1 as [H1 H2 H3 H4 H5 H6 H7]. split; unfold tbl in *; by rewrite ?E1, ?E2, ?E3, ?E4.
Qed.

Lemma clean_same w w' fl : files w' = files w → clean w fl → clean w' fl.
Proof. intros Hf. rewrite !clean_files. by rewrite Hf. Qed.

(** The state a successful cleanup leaves. *)
Definition cleaned w : Prop :=
  heap w = ∅ ∧ ino_table (this w) = None ∧ ino_freelist (this w) = None ∧
  ino_num (this w) = 0%Z ∧ ino_numfree (this w) = 0%Z ∧ mntpt (this w) = None ∧
  fuse_se (this w) = false.

(** Every file object that is still in the table belongs to the tree. *)
Lemma occupied_in_tree a fl w j p : repr a fl w → clean w fl → files w !! j = Some (Some p) → j ∈ dom a.
Proof.
  intros Hr Hcl Hj. destruct (r_cover _ _ _ Hr j) as [->|[Hfl|Hd]].
  - apply lookup_lt_Some in Hj. unfold files in Hj.
    rewrite length_fmap, (it_len _ _ (r_itab _ _ _ Hr)) in Hj. lia.
  - by rewrite (r_file0 _ _ _ Hr) in Hj.
  - pose proof (proj1 (clean_files w fl) Hcl j _ Hfl Hj). done.
  - done.
Qed.

Lemma repr_empty_heap fl w : repr ∅ fl w → heap w = ∅.
Proof.
  intros Hr. apply map_empty. intros p. destruct (heap w !! p) as [f|] eqn:Hp; [|done].
  destruct (r_heap _ _ _ Hr _ _ Hp) as [Hd _]. rewrite dom_empty in Hd. by apply not_elem_of_empty in Hd.
Qed.

Lemma fsCleanup_spec a fl w :
  repr a fl w → clean w fl → mntpt (this w) ≠ None → mkdir (this w) = true →
  wp fsCleanup (λ r w', r = true ∧ cleaned w') w.
Proof.
  intros Hr Hcl Hmp Hmk. unfold fsCleanup. wp_step. wp_step.
  rewrite bool_decide_eq_true_2, Hmk by done. simpl. wp_step.
  set (w1 := if fuse_se (this w) then set_args [] (set_se false w) else w).
  assert (wp (if fuse_se (this w) then _ ← modifyM (set_se false); modifyM (set_args [])
              else mret tt) (λ _ w', w' = w1) w) as Hse.
  { unfold w1. by destruct (fuse_se (this w)). }
  eapply wp_mono; [exact Hse|]. intros _ ? ->. wp_step. wp_step.
  set (w2 := set_mntpt None w1). wp_step. wp_step.
  assert (repr a fl w2) as Hr2.
  { eapply repr_same_inotab; [..|exact Hr]; unfold w2, w1; by destruct (fuse_se (this w)). }
  assert (clean w2 fl) as Hcl2.
  { eapply clean_same; [|exact Hcl]. unfold w2, w1. by destruct (fuse_se (this w)). }
  assert (fuse_se (this w2) = false) as Hse2.
  { unfold w2, w1. destruct (fuse_se (this w)) eqn:E; done. }
  assert (mntpt (this w2) = None) as Hmp2 by done. clearbody w2. clear w1 Hse Hr Hcl Hmp Hmk.
  rewrite decide_False by (rewrite (it_tbl _ _ (r_itab _ _ _ Hr2)); done).
  pose proof (it_num _ _ (r_itab _ _ _ Hr2)) as Hnum.
  pose proof (it_free _ _ (r_itab _ _ _ Hr2)) as Hfree. pose proof INO_NUM_pos.
  wp_step. apply wp_assert. { rewrite Hnum. apply negb_true_iff, Z.eqb_neq. lia. }
  wp_step. rewrite Hnum, Nat2Z.id, Hfree. eapply wp_mono.
  { eapply (cleanup_loop_spec INO_NUM 0 a fl); [done|done| |].
    - intros j Hj. lia.
    - intros j p _. by eapply occupied_in_tree. }
  intros r w3 (-> & Hf3 & Hm3 & fl3 & Hr3). rewrite (occupied_count _ _ _ Hr2 Hcl2).
  pose proof (repr_count _ _ _ Hr2). pose proof (repr_count _ _ _ Hr3) as Hc3.
  rewrite map_size_empty in Hc3.
  wp_step. eapply wp_mono.
  { apply (inofree_spec w3 INVALID_INO fl3); [apply Hr3|unfold INVALID_INO; lia|apply Hr3]. }
  intros _ w4 (_ & Hit4 & _ & Hnt4). wp_step. apply wp_assert.
  { apply Z.eqb_eq. lia. }
  wp_step. wp_step. wp_step. apply wp_assert.
  { rewrite (it_num _ _ Hit4), (it_free _ _ Hit4). apply Z.eqb_eq. simpl. lia. }
  wp_step. wp_step. wp_step. split; [reflexivity|]. split; [|split_and!; try reflexivity].
  - change (heap w4 = ∅). rewrite (nontab_heap _ _ Hnt4). by eapply repr_empty_heap.
  - change (mntpt (mount_part w4) = None). rewrite (nontab_mount _ _ Hnt4), Hm3. done.
  - change (fuse_se (mount_part w4) = false). rewrite (nontab_mount _ _ Hnt4), Hm3. done.
Qed.
End cleanup.
