(* ===== verification/FsBoot.v ===== *)
(** * From an empty process to a populated file system

    [pristine k a w]: [k] inodes have been handed out in order, nothing has been
    removed yet, and [w] represents the tree [a]. [fsCreate] establishes it with
    the root directory alone and every granted creation request preserves it. *)
From S2P Require Import Prelude UtHash Event Fs FsInode FsTree FsRefine FsRemove FsLife FsCleanup.

(** The tree right after [fsCreate] made the root directory. *)
Definition root_tree : atree := {[ ROOT_INO := dir_node INVALID_INO "." fs_dir_ops ]}.

Section boot.
Context `{UL : UtHashLaws}.
Implicit Types (a : atree) (w : fsw) (fl : list nat).

Record pristine (k : nat) a w : Prop := {
  pr_repr : repr a (seq k (INO_NUM - k)) w;
  pr_clean : clean w (seq k (INO_NUM - k));
}.

Lemma pristine_next k a w :
  pristine k a w → k < INO_NUM →
  repr a (k :: seq (S k) (INO_NUM - S k)) w ∧ clean w (k :: seq (S k) (INO_NUM - S k)).
Proof.
  intros [Hr Hc] Hk. destruct (INO_NUM - k) as [|m] eqn:E; [lia|].
  replace (INO_NUM - S k) with m by lia. done.
Qed.

Lemma pristine_lt k a w i : pristine k a w → i ∈ dom a → i < k.
Proof.
  intros [Hr _] Hi. destruct (decide (i < k)); [done|].
  pose proof (t_bound _ (r_tree _ _ _ Hr) _ Hi). destruct (r_live _ _ _ Hr i); [|done].
  apply elem_of_seq. lia.
Qed.

Lemma fresh_name_spec a d nm :
  fresh_name a d nm = true → ∀ j m, a !! j = Some m → an_parent m = d → an_name m ≠ nm.
Proof.
  unfold fresh_name. intros Hf%bool_decide_eq_true j m Hm Hp Hn.
  by destruct (Hf j m Hm).
Qed.

(** One granted request. *)
Lemma run_creq_refines k a a' w r :
  pristine k a w → a_create k a r = Some a' →
  wp (run_creq r) (λ p w', p = brk w ∧ pristine (S k) a' w' ∧
                           files w' = <[k := Some p]> (files w) ∧
                           mount_part w' = mount_part w) w.
Proof.
  intros Hp Hc. unfold a_create in Hc.
  destruct (a !! an_parent (creq_node r)) as [pn|] eqn:Hpn; [|done].
  destruct (bool_decide _ && _ && _) eqn:Hg; [|done]. simplify_eq.
  apply andb_true_iff in Hg as [[Hty%bool_decide_eq_true Hfr]%andb_true_iff Hk%Nat.ltb_lt].
  pose proof (fresh_name_spec _ _ _ Hfr) as Hfresh.
  destruct (pristine_next _ _ _ Hp Hk) as [Hr Hcl].
  assert (an_parent (creq_node r) < k) as Hlt by (by eapply pristine_lt, elem_of_dom_2).
  destruct r as [parent name ops|parent name sl ops]; simpl in *; eapply wp_mono;
    [by eapply fsCreatedir_refines| |by eapply fsCreatefile_refines|];
    intros p w' (-> & ? & ? & ? & ?); (split_and!; [done|by split|done|done]).
Qed.

Lemma run_creqs_refines rs k a a' w :
  pristine k a w → a_creates k a rs = Some a' →
  wp (run_creqs rs) (λ _ w', pristine (k + length rs) a' w' ∧ mount_part w' = mount_part w) w.
Proof.
  revert k a w. induction rs as [|r rs IH]; intros k a w Hp Hc; simpl in *.
  - simplify_eq. apply wp_ret. by rewrite Nat.add_0_r.
  - apply bind_Some in Hc as (a1 & Ha1 & Hc). wp_step.
    eapply wp_mono; [by eapply run_creq_refines|]. intros p w1 (_ & Hp1 & _ & Hm1).
    eapply wp_mono; [by eapply IH|]. intros _ w2 [Hp2 Hm2].
    rewrite Nat.add_succ_r. split; [done|by rewrite Hm2].
Qed.

(** ** Reserving inode 0 *)
Lemma reserve_invalid w :
  ino_table (this w) = None → ino_num (this w) = 0%Z → heap w = ∅ →
  wp inoalloc (λ r w', r = INVALID_INO ∧ pristine 1 ∅ w' ∧ heap w' = ∅ ∧
                       mount_part w' = mount_part w ∧ brk w' = brk w) w.
Proof.
  intros Ht Hn Hh. pose proof INO_NUM_pos as Hpos.
  set (w0 := set_inotab (Some (init_table INO_NUM)) (Some 0) (Z.of_nat INO_NUM)
                        (Z.of_nat INO_NUM) w).
  assert (wp inoalloc (λ r w', r = INVALID_INO ∧ pristine 1 ∅ w' ∧ heap w' = ∅ ∧
                       mount_part w' = mount_part w0 ∧ brk w' = brk w0) w0) as H0.
  2:{ unfold wp in *. rewrite (inoalloc_first w Ht Hn). exact H0. }
  assert (itab_ok w0 (0 :: seq 1 (INO_NUM - 1))) as Hit.
  { replace (0 :: seq 1 (INO_NUM - 1)) with (seq 0 INO_NUM)
      by (destruct INO_NUM; [lia|simpl; by rewrite Nat.sub_0_r]).
    by apply init_itab_ok. }
  assert (files w0 = replicate INO_NUM None) as Hf0 by apply files_init.
  eapply wp_mono.
  { apply (inoalloc_spec w0 0); [done|]. rewrite Hf0. apply lookup_replicate_2. lia. }
  intros r w' (-> & Hit' & Hf & Hnt). rewrite Hf0 in Hf.
  pose proof (nontab_heap _ _ Hnt) as Hh'. change (heap w0) with (heap w) in Hh'.
  rewrite Hh in Hh'.
  split_and!; [done| |done|by apply nontab_mount|by apply nontab_brk].
  split.
  - split; rewrite ?Hh', ?Hf; try done.
    + intros i Hi. destruct i; [by left|]. right; left. apply elem_of_seq. lia.
    + intros H1%elem_of_seq. unfold INVALID_INO in *. lia.
  - apply clean_files. intros i x _. rewrite Hf. by intros [-> _]%lookup_replicate.
Qed.

(** ** The root directory *)
Lemma root_tree_ok : tree_ok root_tree.
Proof.
  pose proof INO_NUM_pos. unfold root_tree. split.
  - intros n Hn. rewrite lookup_singleton_eq in Hn. by simplify_eq.
  - intros i n [<- <-]%lookup_singleton_Some Hi. done.
  - intros i j n m [<- _]%lookup_singleton_Some [<- _]%lookup_singleton_Some. done.
  - intros i. rewrite dom_singleton, elem_of_singleton. intros ->. unfold ROOT_INO. lia.
Qed.

Lemma root_repr fl w w' newf :
  repr ∅ (ROOT_INO :: fl) w → heap w = ∅ →
  newf = file_init ROOT_INO INVALID_INO (DDir (FsDir ht_empty ht_empty)) "." DIRECTORY true
                   fs_dir_ops →
  itab_ok w' fl → files w' = <[ROOT_INO := Some (brk w)]> (files w) →
  heap w' = <[brk w := newf]> ∅ → brk w' = S (brk w) →
  repr root_tree fl w'.
Proof.
  intros Hr Hh -> Hit Hf Hh' Hb. destruct (repr_fresh _ _ _ _ Hr) as (_ & Hlt & Hni).
  assert (files w' !! ROOT_INO = Some (Some (brk w))) as Hroot.
  { rewrite Hf. apply list_lookup_insert_eq. unfold files. rewrite length_fmap.
    by rewrite (it_len _ _ (r_itab _ _ _ Hr)). }
  split; [done|apply root_tree_ok|..].
  - intros i Hi. unfold root_tree. rewrite dom_singleton, elem_of_singleton.
    destruct (r_cover _ _ _ Hr i Hi) as [?|[[?|?]%elem_of_cons|Hd]]; [tauto..|].
    by rewrite dom_empty in Hd.
  - intros H0. apply (r_zero _ _ _ Hr). by right.
  - intros i Hi. unfold root_tree. rewrite dom_singleton, elem_of_singleton. congruence.
  - intros i n. unfold root_tree at 1. intros [<- <-]%lookup_singleton_Some. eexists _, _. split; [done|].
    rewrite Hh'. split; [apply lookup_insert_eq|]. split; try done.
    unfold data_repr; simpl. eexists. split; [done|]. apply dir_repr_empty.
    apply childless_spec. unfold root_tree. by intros j m [<- <-]%lookup_singleton_Some.
  - intros p f. rewrite Hh'. intros [[<- <-]|[_ Hp]]%lookup_insert_Some; [|done].
    simpl. split; [|done]. unfold root_tree. by rewrite dom_singleton, elem_of_singleton.
  - intros p. rewrite Hh', dom_insert, dom_empty, elem_of_union, elem_of_singleton.
    intros [->|Hp]; [lia|]. by apply not_elem_of_empty in Hp.
  - rewrite Hf, list_lookup_insert_ne by done. apply Hr.
Qed.

Lemma create_root w :
  pristine 1 ∅ w → heap w = ∅ →
  wp (fsCreatedir INVALID_INO "." fs_dir_ops)
     (λ p w', pristine 2 root_tree w' ∧ mount_part w' = mount_part w ∧
              ∃ f, heap w' !! p = Some f ∧ f_ino f = ROOT_INO) w.
Proof.
  intros Hp Hh. pose proof INO_NUM_pos as Hpos.
  destruct (pristine_next _ _ _ Hp ltac:(lia)) as [Hr Hcl].
  destruct (repr_fresh _ _ _ _ Hr) as (_ & Hlt & Hni).
  pose proof (clean_head _ _ _ (r_itab _ _ _ Hr) Hcl) as Hnone.
  unfold fsCreatedir. wp_step. eapply wp_mono; [by apply inoalloc_spec; [apply Hr|]|].
  intros r w1 (-> & Hit & Hfiles & Hnt). wp_step.
  eapply wp_ino2inodesc; [done..|]. wp_step.
  destruct (files_entry w1 1 None) as (e & He & Hef); [by rewrite Hfiles|].
  eapply wp_load_id; [done|]. wp_step. apply wp_assert.
  { rewrite !bool_decide_eq_true_2; [done| |done]. by eapply it_used. }
  wp_step. rewrite decide_True by done. wp_step. wp_step. apply wp_alloc_file.
  rewrite (nontab_brk _ _ Hnt), (nontab_heap _ _ Hnt), Hh. wp_step. wp_step. wp_step.
  eapply wp_update_id; [done|]. wp_step. split_and!.
  - split.
    + eapply root_repr; [exact Hr|done|done| | |done|done].
      * eapply itab_set_file; [|done|done]. by apply (itab_same_this w1).
      * rewrite files_set_file. by rewrite <- Hfiles.
    + apply clean_files. intros j x Hj. rewrite files_set_file.
      match goal with |- context [files ?x] => change (files x) with (files w1) end.
      rewrite Hfiles, list_lookup_insert_ne by (intros <-; apply elem_of_seq in Hj; lia).
      apply (proj1 (clean_files w _) Hcl j). by right.
  - exact (nontab_mount _ _ Hnt).
  - eexists. split; [apply lookup_insert_eq|done].
Qed.

(** ** [fsCreate] *)
Lemma pristine_set_mount k a w args e se mp fd mk :
  pristine k a w → pristine k a (set_mount args e se mp fd mk w).
Proof.
  intros [Hr Hc]. split; [by eapply repr_same_inotab; [..|exact Hr]|].
  by eapply clean_same; [|exact Hc].
Qed.

(** The state [fsInit] leaves, as far as [fsCreate] needs it. *)
Record inited w : Prop := {
  in_tab : ino_table (this w) = None;
  in_num : ino_num (this w) = 0%Z;
  in_heap : heap w = ∅;
  in_ed : ed (this w) = EvntDesc (Some fsEvent_ptr) (Some obj_fs);
}.

(** What the system must grant; the mount itself may still be refused. *)
Definition env_ok (env : fs_env) : Prop :=
  env_mkdir env = true ∧ env_session env = true ∧ env_fd env ≠ (-1)%Z.

(** [populates cf k a]: called with the root inode on a file system that has
    the root alone, [cf] builds the tree [a], using the first [k] inodes. *)
Definition populates (cf : nat → M fsw unit) (k : nat) (a : atree) : Prop :=
  ∀ w, pristine 2 root_tree w →
    wp (cf ROOT_INO) (λ _ w', pristine k a w' ∧ mount_part w' = mount_part w) w.

Lemma run_creqs_populates rs a :
  a_creates 2 root_tree rs = Some a → populates (λ _, run_creqs rs) (2 + length rs) a.
Proof. intros Hc w Hp. by apply (run_creqs_refines rs 2 root_tree). Qed.

Lemma fsCreate_spec env name cf k a w :
  inited w → env_ok env → populates cf k a →
  wp (fsCreate env name (Some cf))
     (λ r w', r = env_mount env ∧ pristine k a w' ∧ mkdir (this w') = true ∧
              mntpt (this w') = mntpt (this w) ∧ fuse_se (this w') = true ∧
              (r = true → fuse_fd (this w') = env_fd env)) w.
Proof.
  intros [Ht Hn Hh He] (Hmk & Hse & Hfd) Hcf. unfold fsCreate. rewrite Hmk. simpl.
  wp_step. wp_step. wp_step. eapply wp_mono; [by apply reserve_invalid|].
  intros r w1 (-> & Hp1 & Hh1 & Hm1 & _). wp_step. apply wp_assert; [done|].
  wp_step. eapply wp_mono; [by apply create_root|].
  intros p w2 (Hp2 & Hm2 & f & Hf & Hino). wp_step. eapply wp_load_file; [done|].
  wp_step. apply wp_assert; [by apply bool_decide_eq_true|]. wp_step. rewrite Hino.
  eapply wp_mono; [by apply Hcf|]. intros _ w3 [Hp3 Hm3]. rewrite Hm2, Hm1 in Hm3.
  assert (mkdir (this w3) = true) as Hmk3 by (change (mkdir (mount_part w3) = true); by rewrite Hm3).
  assert (mntpt (this w3) = mntpt (this w)) as Hmp3
    by (change (mntpt (mount_part w3) = mntpt (this w)); by rewrite Hm3).
  assert (ed (this w3) = ed (this w)) as Hed3
    by (change (ed (mount_part w3) = ed (this w)); by rewrite Hm3).
  wp_step. wp_step. wp_step. wp_step. rewrite Hse. wp_step. apply wp_assert; [done|].
  unfold set_args, set_se. simpl.
  destruct (env_mount env); simpl; [wp_step; wp_step; wp_step; apply wp_assert|apply wp_ret].
  - by apply negb_true_iff, Z.eqb_neq.
  - wp_step. wp_step. wp_step. apply wp_assert.
    { apply bool_decide_eq_true. by rewrite <- He, <- Hed3. }
    apply wp_ret. unfold set_fd. split_and!; try done. by do 3 apply pristine_set_mount.
  - split_and!; try done. by do 2 apply pristine_set_mount.
Qed.

(** ** [fsInit] *)
Lemma fsInit_spec fsname dir mp w :
  heap w = ∅ → fsMountPoint sizeof_tmp fsname dir = Some mp →
  wp (fsInit fsname true dir) (λ r w', r = true ∧ inited w' ∧ mntpt (this w') = Some mp ∧
                                       mkdir (this w') = false) w.
Proof. intros Hh Hmp. unfold fsInit. rewrite Hmp. unfold wp. simpl. done. Qed.
End boot.
