(* ===== verification/FsFuse.v ===== *)
(** * The FUSE side of the file system ([kld/fs.c] callbacks, file operations of
    [kld/kldfs.c])

    libfuse is not part of the repository. A callback is a computation over the
    file system state that yields the replies it sent, in order; encoding of a
    directory entry is the class [FuseLib]. Table pointers ([&fs_dir_ops],
    [&fs_libkernel_ops]) are resolved by [fileops]. *)
From stdpp Require Import pretty.
From S2P Require Import Prelude UtHash Event Fs FsLife.

(** [fuse_add_direntry]: the size of an entry depends on its name alone; the
    entry is written when the space given for it suffices. *)
Class FuseLib := {
  de_size : string → nat;
  de_bytes : string → nat → Z → list Ascii.ascii;
  de_length : ∀ nm ino off, length (de_bytes nm ino off) = de_size nm;
}.

(** The fields of [struct stat] the tools fill in; the others stay zero. *)
Record stat := Stat { st_ino : nat; st_mode : Z; st_nlink : Z; st_size : Z }.
Definition stat0 : stat := Stat 0 0 0 0.

(** [fuse_entry_param] and the replies. *)
Inductive reply :=
| ReplyErr (e : Z)
| ReplyEntry (ino : nat) (attr : stat)
| ReplyAttr (attr : stat)
| ReplyOpen
| ReplyBuf (buf : list Ascii.ascii).

Definition S_IFDIR : Z := 0x4000.
Definition S_IFREG : Z := 0x8000.
(** [0755] and [0444] below are written in hexadecimal. *)
Definition O_ACCMODE : Z := 3.
Definition O_RDONLY : Z := 0.

(** ** Sending part of a buffer *)

(** [off] is an [off_t] compared with a [size_t]: it is converted to unsigned. *)
Definition fsFuseReplyBufLimited (buf : list Ascii.ascii) (bufsize off maxsize : Z) : reply :=
  if (u64 off <? bufsize)%Z
  then ReplyBuf (take (Z.to_nat (Z.min (u64 (bufsize - off)) maxsize)) (drop (Z.to_nat (u64 off)) buf))
  else ReplyBuf [].

Section fuse.
Context `{UT : UtHash} `{FL : FuseLib}.
(** [GBLS.pid] *)
Context (pid : Z).

(** ** Directory operations *)

(** The buffer grows by the size of the entry, which is then filled in with
    the new size of the buffer as the offset of the next entry. *)
Definition dirbuf_add (b : list Ascii.ascii) (name : string) (ino : nat) : list Ascii.ascii :=
  let oldsize := length b in
  let size := oldsize + de_size name in
  let room := size - oldsize in
  b ++ (if de_size name <=? room then de_bytes name ino (Z.of_nat size)
        else replicate room Ascii.zero).

Definition fs_dir_stat (dir : fs_file) (st : stat) : stat :=
  Stat (st_ino st) (Z.lor S_IFDIR 0x1ed) 2 (st_size st).

Fixpoint add_items (b : list Ascii.ascii) (items : list (nat * ptr)) : M fsw (list Ascii.ascii) :=
  match items with
  | [] => mret b
  | (_, p) :: items =>
    it ← load_file p;
    nm ← derefM (f_name it);
    add_items (dirbuf_add b nm (f_ino it)) items
  end.

Definition fs_dir_readdir (dir : fs_file) (size off : Z) : M fsw (bool * list reply) :=
  let b := dirbuf_add [] "." (f_ino dir) in
  let b := dirbuf_add b ".." (f_dir dir) in
  dd ← derefM (dir_data dir);
  b ← add_items b (ht_items (ino_files dd));
  mret (true, [fsFuseReplyBufLimited b (Z.of_nat (length b)) off size]).

(** ** The pid file *)
Definition pidstr : string := pretty pid.
Definition pidSize : Z := Z.of_nat (String.length pidstr).

Definition fs_libkernel_stat (file : fs_file) (st : stat) : stat :=
  Stat (f_ino file) (Z.lor S_IFREG 0x124) 1 pidSize.

Definition fs_libkernel_read (file : fs_file) (size off : Z) : M fsw (bool * list reply) :=
  let n := pidSize in
  let buf := String.list_ascii_of_string pidstr in
  mret (true, [fsFuseReplyBufLimited buf n off size]).

(** [fs_fileops_t]; no table of the program has an [open] or a [write]. *)
Record fs_fileops := FileOps {
  op_stat : fs_file → stat → stat;
  op_open : option (fs_file → M fsw (list reply));
  op_read : option (fs_file → Z → Z → M fsw (bool * list reply));
  op_readdir : option (fs_file → Z → Z → M fsw (bool * list reply));
}.

Definition dir_fileops : fs_fileops := FileOps fs_dir_stat None None (Some fs_dir_readdir).
Definition libkernel_fileops : fs_fileops :=
  FileOps fs_libkernel_stat None (Some fs_libkernel_read) None.

(** [file->ops->...] *)
Definition fileops (p : option opsptr) : option fs_fileops :=
  match p with
  | Some p => if decide (p = fs_dir_ops) then Some dir_fileops
              else if decide (p = fs_libkernel_ops) then Some libkernel_fileops else None
  | None => None
  end.

(** ** Callbacks *)

(** [id->next != NULL || id->file->type != DIRECTORY]: the file is looked at
    only when the entry is not on the free list. *)
Definition not_live_dir (ino : nat) : M fsw (option ptr) :=
  did ← ino2inodesc ino;
  e ← load_id did;
  match id_next e with
  | Some _ => mret None
  | None =>
    p ← derefM (id_file e);
    f ← load_file p;
    mret (if decide (f_type f = DIRECTORY) then Some p else None)
  end.

(** [conn->want] after the callback. *)
Definition fs_fuse_init (want : Z) : Z :=
  let FUSE_CAP_ASYNC_READ := 1%Z in
  let want := FUSE_CAP_ASYNC_READ in
  Z.land want (Z.lnot FUSE_CAP_ASYNC_READ).

Definition fs_fuse_lookup (dirino : nat) (name : string) : M fsw (list reply) :=
  d ← not_live_dir dirino;
  match d with
  | None => mret [ReplyErr ENOENT]
  | Some p =>
    df ← load_file p;
    dir ← derefM (dir_data df);
    match ht_find name (nm_files dir) with
    | None => mret [ReplyErr ENOENT]
    | Some q =>
      file ← load_file q;
      ops ← derefM (fileops (f_ops file));
      mret [ReplyEntry (f_ino file) (op_stat ops file stat0)]
    end
  end.

Definition fs_fuse_getattr (ino : nat) : M fsw (list reply) :=
  id ← ino2inodesc ino;
  e ← load_id id;
  match id_next e with
  | Some _ => mret [ReplyErr ENOENT]
  | None =>
    _ ← assertM (bool_decide (id_file e ≠ None));
    p ← derefM (id_file e);
    file ← load_file p;
    ops ← derefM (fileops (f_ops file));
    mret [ReplyAttr (op_stat ops file stat0)]
  end.

Definition fs_fuse_readlink (ino : nat) : M fsw (list reply) := abortM.

(** [assert(id->file != NULL && id->next == NULL)], then the file. *)
Definition live_file (ino : nat) : M fsw fs_file :=
  id ← ino2inodesc ino;
  e ← load_id id;
  _ ← assertM (bool_decide (id_file e ≠ None) && bool_decide (id_next e = None));
  p ← derefM (id_file e);
  load_file p.

Definition fs_fuse_open (ino : nat) (flags : Z) : M fsw (list reply) :=
  file ← live_file ino;
  ops ← derefM (fileops (f_ops file));
  match op_open ops with
  | Some open => open file
  | None =>
    if decide (f_type file = DIRECTORY) then mret [ReplyErr EISDIR]
    else if negb (Z.land flags O_ACCMODE =? O_RDONLY)%Z then mret [ReplyErr EACCES]
    else mret [ReplyOpen]
  end.

Definition fs_fuse_read (ino : nat) (size off : Z) : M fsw (list reply) :=
  file ← live_file ino;
  ops ← derefM (fileops (f_ops file));
  _ ← assertM (bool_decide (is_Some (op_read ops)));
  read ← derefM (op_read ops);
  r ← read file size off;
  mret (if r.1 : bool then r.2 else r.2 ++ [ReplyErr EACCES]).

Definition fs_fuse_write (ino : nat) (buf : string) (size off : Z) : M fsw (list reply) := abortM.

Definition fs_fuse_readdir (dirino : nat) (size off : Z) : M fsw (list reply) :=
  d ← not_live_dir dirino;
  match d with
  | None => mret [ReplyErr ENOENT]
  | Some p =>
    dir ← load_file p;
    ops ← derefM (fileops (f_ops dir));
    _ ← assertM (bool_decide (is_Some (op_readdir ops)));
    readdir ← derefM (op_readdir ops);
    r ← readdir dir size off;
    mret (if r.1 : bool then r.2 else r.2 ++ [ReplyErr ENOENT])
  end.

(** The extended attribute callbacks look at the entry only to assert that
    it is in use. [strncmp(value, exp_val, size)] reads at most [size] bytes. *)
Definition live_id (ino : nat) : M fsw unit :=
  id ← ino2inodesc ino;
  e ← load_id id;
  assertM (bool_decide (id_file e ≠ None) && bool_decide (id_next e = None)).

Definition fs_fuse_setxattr (ino : nat) (name value : string) (size : Z) : M fsw (list reply) :=
  _ ← live_id ino;
  let exp_val := "fs_ll_setxattr_value" in
  if bool_decide (name = "fs_ll_setxattr_name") && (Z.of_nat (String.length exp_val) =? size)%Z
     && bool_decide (String.substring 0 (Z.to_nat size) value = exp_val)
  then mret [ReplyErr 0] else mret [ReplyErr ENOTSUP].

Definition fs_fuse_getxattr (ino : nat) (name : string) (size : Z) : M fsw (list reply) :=
  _ ← live_id ino;
  if decide (name = "fs_ll_getxattr_name")
  then mret [ReplyBuf (String.list_ascii_of_string "fs_ll_getxattr_value")]
  else mret [ReplyErr ENOTSUP].

Definition fs_fuse_removexattr (ino : nat) (name : string) : M fsw (list reply) :=
  _ ← live_id ino;
  if decide (name = "fs_ll_removexattr_name") then mret [ReplyErr 0] else mret [ReplyErr ENOTSUP].

(** ** The callback table *)
Inductive fuse_call :=
| CLookup (dirino : nat) (name : string)
| CGetattr (ino : nat)
| CReadlink (ino : nat)
| COpen (ino : nat) (flags : Z)
| CRead (ino : nat) (size off : Z)
| CWrite (ino : nat) (buf : string) (size off : Z)
| CReaddir (dirino : nat) (size off : Z)
| CSetxattr (ino : nat) (name value : string) (size : Z)
| CGetxattr (ino : nat) (name : string) (size : Z)
| CRemovexattr (ino : nat) (name : string).

Definition fs_fuse_ops (c : fuse_call) : M fsw (list reply) :=
  match c with
  | CLookup dirino name => fs_fuse_lookup dirino name
  | CGetattr ino => fs_fuse_getattr ino
  | CReadlink ino => fs_fuse_readlink ino
  | COpen ino flags => fs_fuse_open ino flags
  | CRead ino size off => fs_fuse_read ino size off
  | CWrite ino buf size off => fs_fuse_write ino buf size off
  | CReaddir dirino size off => fs_fuse_readdir dirino size off
  | CSetxattr ino name value size => fs_fuse_setxattr ino name value size
  | CGetxattr ino name size => fs_fuse_getxattr ino name size
  | CRemovexattr ino name => fs_fuse_removexattr ino name
  end.

(** ** The event handler of the session

    [receive] and [process] are libfuse's [fuse_session_receive_buf] and
    [fuse_session_process_buf], over the state of whoever runs the session.
    The result pairs the return code with the event bits left at the end. *)
Definition fsEvent {S} (receive : M S Z) (process : M S unit) (evnts : Z)
  : M S (evnthdlrrc * Z) :=
  evnts ← (if has_evnt evnts EPOLLIN then
             n ← receive;
             _ ← (if (0 <? n)%Z then process else mret tt);
             mret (clr_evnt evnts EPOLLIN)
           else mret evnts);
  let drop_evnt (bit mask : Z) (e : Z) :=
    if negb (e =? 0)%Z && has_evnt e bit then clr_evnt e mask else e in
  let evnts := drop_evnt EPOLLHUP EPOLLHUP evnts in
  let evnts := drop_evnt EPOLLRDHUP EPOLLRDHUP evnts in
  let evnts := drop_evnt EPOLLERR EPOLLRDHUP evnts in
  mret (EVNT_HDLR_SUCCESS, evnts).

(** The events the session is registered for; [epoll_ctl] is the answer of
    the system. *)
Definition fsRegisterEvents (epoll_ctl : Z → Z → evntdesc → bool) : M fsw bool :=
  w ← getM;
  _ ← assertM (fuse_se (this w) && negb (fuse_fd (this w) =? -1)%Z);
  let events := Z.lor (Z.lor (Z.lor EPOLLIN EPOLLHUP) EPOLLRDHUP) EPOLLERR in
  mret (epoll_ctl (fuse_fd (this w)) events (ed (this w))).
End fuse.
