(* ===== verification/FsFuseSpec.v ===== *)
(** * The callbacks on a represented file system

    What each FUSE callback replies when the state represents a tree: lemmas
    about directory buffers, partial replies and the callbacks themselves. *)
From stdpp Require Import pretty.
From S2P Require Import Prelude UtHash Event Fs FsInode FsTree FsRefine FsLife FsFuse.

(** ** Partial replies *)
Lemma reply_limited buf (off size : Z) :
  (0 <= off)%Z → (Z.of_nat (length buf) < 2 ^ 63)%Z → (off < 2 ^ 63)%Z → (0 <= size)%Z →
  fsFuseReplyBufLimited buf (Z.of_nat (length buf)) off size
  = ReplyBuf (take (Z.to_nat size) (drop (Z.to_nat off) buf)).
Proof.
  intros H0 Hl Hoff Hs. unfold fsFuseReplyBufLimited, u64.
  rewrite (Z.mod_small off) by lia. destruct (Z.ltb_spec off (Z.of_nat (length buf))).
  - rewrite (Z.mod_small (_ - _)) by lia. f_equal.
    destruct (Z.min_spec (Z.of_nat (length buf) - off) size) as [[? ->]|[? ->]]; [|done].
    rewrite !take_ge; [done|rewrite length_drop; lia..].
  - rewrite drop_ge by lia. by rewrite take_nil.
Qed.

(** An offset read as unsigned past the end of the buffer gets nothing; every
    negative [off_t] is one. *)
Lemma reply_limited_neg buf (off size : Z) :
  (- 2 ^ 63 <= off < 0)%Z → (Z.of_nat (length buf) < 2 ^ 63)%Z →
  fsFuseReplyBufLimited buf (Z.of_nat (length buf)) off size = ReplyBuf [].
Proof.
  intros Hoff Hl. unfold fsFuseReplyBufLimited, u64.
  replace (off mod 2 ^ 64)%Z with (off + 2 ^ 64)%Z.
  - destruct (Z.ltb_spec (off + 2 ^ 64) (Z.of_nat (length buf))); [lia|done].
  - apply (Z.mod_unique_pos _ _ (-1)); lia.
Qed.

(** ** Directory buffers *)
Section dirbuf.
Context `{FL : FuseLib}.

(** The entries [l] laid out from offset [off]; each carries the offset at
    which the next one starts. *)
Fixpoint dir_bytes (off : nat) (l : list (string * nat)) : list Ascii.ascii :=
  match l with
  | [] => []
  | (nm, ino) :: l =>
    de_bytes nm ino (Z.of_nat (off + de_size nm)) ++ dir_bytes (off + de_size nm) l
  end.

Definition dir_size (l : list (string * nat)) : nat := sum_list (de_size ∘ fst <$> l).

Lemma dirbuf_add_bytes b nm ino : dirbuf_add b nm ino = b ++ dir_bytes (length b) [(nm, ino)].
Proof.
  unfold dirbuf_add. simpl. rewrite app_nil_r.
  destruct (Nat.leb_spec (de_size nm) (length b + de_size nm - length b)); [done|lia].
Qed.

Lemma dir_bytes_app off l k :
  dir_bytes off (l ++ k) = dir_bytes off l ++ dir_bytes (off + dir_size l) k.
Proof.
  revert off. induction l as [|[nm ino] l IH]; intros off; simpl.
  - by rewrite Nat.add_0_r.
  - change (dir_size ((nm, ino) :: l)) with (de_size nm + dir_size l).
    by rewrite IH, (assoc_L (++)), Nat.add_assoc.
Qed.

Lemma dir_bytes_length off l : length (dir_bytes off l) = dir_size l.
Proof.
  revert off. induction l as [|[nm ino] l IH]; intros off; simpl; [done|].
  by rewrite length_app, de_length, IH.
Qed.

Lemma dir_size_app l k : dir_size (l ++ k) = dir_size l + dir_size k.
Proof. rewrite <- (dir_bytes_length 0), dir_bytes_app, length_app. by rewrite !dir_bytes_length. Qed.

Lemma dirbuf_add_layout l nm ino :
  dirbuf_add (dir_bytes 0 l) nm ino = dir_bytes 0 (l ++ [(nm, ino)]).
Proof. by rewrite dirbuf_add_bytes, dir_bytes_app, dir_bytes_length. Qed.

(** Resuming at the offset recorded in entry [n] gives the entries after it. *)
Lemma dir_bytes_resume l n :
  drop (dir_size (take n l)) (dir_bytes 0 l) = dir_bytes (dir_size (take n l)) (drop n l).
Proof.
  rewrite <- (take_drop n l) at 2. rewrite dir_bytes_app.
  rewrite drop_app_ge; rewrite dir_bytes_length; [|done].
  by rewrite Nat.sub_diag, drop_0.
Qed.
End dirbuf.

(** ** Lookup in the tree *)
Definition a_child (a : atree) (k : nat) (nm : string) : option (nat * anode) :=
  head (filter (λ jm, an_parent jm.2 = k ∧ an_name jm.2 = nm) (map_to_list a)).

Lemma a_child_spec a k nm j m :
  tree_ok a →
  (a_child a k nm = Some (j, m) ↔ a !! j = Some m ∧ an_parent m = k ∧ an_name m = nm).
Proof.
  intros Ht. unfold a_child.
  assert (∀ j m, (j, m) ∈ filter (λ jm : nat * anode, an_parent jm.2 = k ∧ an_name jm.2 = nm)
                   (map_to_list a) ↔ a !! j = Some m ∧ an_parent m = k ∧ an_name m = nm) as Hin.
  { intros j' m'. rewrite list_elem_of_filter, elem_of_map_to_list. simpl. tauto. }
  destruct (filter _ _) as [|[j0 m0] l] eqn:E; simpl.
  - split; [done|]. intros Hj. apply Hin in Hj. by apply elem_of_nil in Hj.
  - destruct (proj1 (Hin j0 m0) ltac:(left)) as (H1 & H2 & H3). split.
    + intros [= <- <-]. done.
    + intros (H4 & H5 & H6). assert (j0 = j) as -> by (eapply (t_names _ Ht); [done..| |]; congruence).
      congruence.
Qed.

(** The table a node names decides what [stat] reports. *)
Definition node_stat (pid : Z) (i : nat) (n : anode) : stat :=
  if decide (an_ops n = fs_dir_ops) then Stat 0 (Z.lor S_IFDIR 0x1ed) 2 0
  else Stat i (Z.lor S_IFREG 0x124) 1 (pidSize pid).

(** Directories use [fs_dir_ops] and the other nodes [fs_libkernel_ops]. *)
Definition ops_ok (a : atree) : Prop :=
  map_Forall (λ _ n, an_ops n = if decide (an_type n = DIRECTORY) then fs_dir_ops
                                else fs_libkernel_ops) a.

Section calls.
Context `{UL : UtHashLaws} `{FL : FuseLib} (pid : Z).
Implicit Types (a : atree) (w : fsw) (fl : list nat).

Lemma ops_ok_fileops a fs i n f :
  ops_ok a → a !! i = Some n → file_repr a fs i n f →
  fileops pid (f_ops f) = Some (if decide (an_type n = DIRECTORY) then dir_fileops
                                else libkernel_fileops pid) ∧
  ∀ o, fileops pid (f_ops f) = Some o → op_stat o f stat0 = node_stat pid i n.
Proof.
  intros Hops Hi Hfr. rewrite (fr_ops _ _ _ _ _ Hfr). pose proof (Hops _ _ Hi) as Ho. simpl in Ho.
  unfold node_stat. rewrite Ho. destruct (decide (an_type n = DIRECTORY)); simpl.
  - split; [done|]. by intros o [= <-].
  - split; [done|]. intros o [= <-]. simpl. unfold fs_libkernel_stat.
    by rewrite (fr_ino _ _ _ _ _ Hfr).
Qed.

(** The entry and the object of a live inode. *)
Lemma repr_entry a fl w i n :
  repr a fl w → a !! i = Some n →
  ∃ p f, tbl w !! i = Some (Inodesc (Some p) None) ∧ files w !! i = Some (Some p) ∧
         heap w !! p = Some f ∧ file_repr a (files w) i n f.
Proof.
  intros Hr Hi. destruct (r_file _ _ _ Hr _ _ Hi) as (p & f & Hp & Hf & Hfr).
  destruct (repr_alive _ _ _ _ _ Hr Hi) as (_ & Hni & _).
  destruct (files_entry _ _ _ Hp) as ([ef en] & He & Hef). simpl in Hef. subst ef.
  pose proof (it_used _ _ (r_itab _ _ _ Hr) _ _ He Hni) as Hn. simpl in Hn. subst en. eauto 6.
Qed.

Lemma wp_live_file a fl w i n Q :
  repr a fl w → a !! i = Some n →
  (∀ p f, files w !! i = Some (Some p) → heap w !! p = Some f → file_repr a (files w) i n f → Q f w) →
  wp (live_file i) Q w.
Proof.
  intros Hr Hi HQ. destruct (repr_entry _ _ _ _ _ Hr Hi) as (p & f & He & Hp & Hf & Hfr).
  destruct (repr_alive _ _ _ _ _ Hr Hi) as (Hlt & _).
  unfold live_file. wp_step. eapply wp_ino2inodesc; [apply Hr|done|].
  wp_step. eapply wp_load_id; [done|]. wp_step. apply wp_assert; [done|].
  wp_step. wp_step. eapply wp_load_file; [done|]. eauto.
Qed.

Lemma wp_live_id a fl w i n Q :
  repr a fl w → a !! i = Some n → Q tt w → wp (live_id i) Q w.
Proof.
  intros Hr Hi HQ. destruct (repr_entry _ _ _ _ _ Hr Hi) as (p & f & He & _).
  destruct (repr_alive _ _ _ _ _ Hr Hi) as (Hlt & _).
  unfold live_id. wp_step. eapply wp_ino2inodesc; [apply Hr|done|].
  wp_step. eapply wp_load_id; [done|]. by apply wp_assert.
Qed.

Lemma wp_not_live_dir a fl w i n Q :
  repr a fl w → a !! i = Some n →
  (∀ p f, files w !! i = Some (Some p) → heap w !! p = Some f → file_repr a (files w) i n f →
     Q (if decide (an_type n = DIRECTORY) then Some p else None) w) →
  wp (not_live_dir i) Q w.
Proof.
  intros Hr Hi HQ. destruct (repr_entry _ _ _ _ _ Hr Hi) as (p & f & He & Hp & Hf & Hfr).
  destruct (repr_alive _ _ _ _ _ Hr Hi) as (Hlt & _).
  unfold not_live_dir. wp_step. eapply wp_ino2inodesc; [apply Hr|done|].
  wp_step. eapply wp_load_id; [done|]. simpl. wp_step. wp_step. wp_step.
  eapply wp_load_file; [done|]. apply wp_ret. rewrite (fr_type _ _ _ _ _ Hfr). eauto.
Qed.

(** [lookup] answers from the tree. *)
Lemma lookup_spec a fl w k kn nm :
  repr a fl w → ops_ok a → a !! k = Some kn →
  wp (fs_fuse_lookup pid k nm)
     (λ rs w', w' = w ∧
        rs = match a_child a k nm with
             | Some (j, m) => if decide (an_type kn = DIRECTORY)
                              then [ReplyEntry j (node_stat pid j m)] else [ReplyErr ENOENT]
             | None => [ReplyErr ENOENT]
             end) w.
Proof.
  intros Hr Hops Hk. pose proof (r_tree _ _ _ Hr) as Ht.
  unfold fs_fuse_lookup. wp_step. eapply wp_not_live_dir; [done..|].
  intros p f Hp Hf Hfr. destruct (decide (an_type kn = DIRECTORY)) as [Hty|Hty].
  2:{ apply wp_ret. split; [done|]. by destruct (a_child a k nm) as [[j m]|]. }
  destruct (repr_dir _ _ _ _ _ Hr Hk Hty) as (p' & f' & d & Hp' & Hf' & _ & Hd & Hdr & _).
  simplify_eq. wp_step. eapply wp_load_file; [done|]. wp_step.
  eapply wp_deref; [unfold dir_data; by rewrite Hd|].
  destruct (ht_find nm (nm_files d)) as [q|] eqn:Hq.
  - apply ht_find_spec in Hq; [|apply Hdr].
    apply (d_nm _ _ _ _ Hdr) in Hq as (j & m & Hm & Hpar & Hnm & Hfq).
    rewrite (proj2 (a_child_spec a k nm j m Ht) (conj Hm (conj Hpar Hnm))).
    destruct (r_file _ _ _ Hr _ _ Hm) as (q' & g & Hq' & Hg & Hgr). simplify_eq.
    destruct (ops_ok_fileops _ _ _ _ _ Hops Hm Hgr) as [Ho Hst].
    wp_step. eapply wp_load_file; [done|]. wp_step. eapply wp_deref; [done|].
    apply wp_ret. rewrite (Hst _ Ho), (fr_ino _ _ _ _ _ Hgr). done.
  - apply ht_find_None in Hq; [|apply Hdr]. destruct (a_child a k nm) as [[j m]|] eqn:E; [|done].
    apply a_child_spec in E as (Hm & Hpar & Hnm); [|done].
    destruct (r_file _ _ _ Hr _ _ Hm) as (q' & g & Hq' & _).
    destruct Hq. apply ht_keys_elem. exists q'. apply (d_nm _ _ _ _ Hdr). eauto 6.
Qed.

Lemma getattr_spec a fl w i n :
  repr a fl w → ops_ok a → a !! i = Some n →
  wp (fs_fuse_getattr pid i) (λ rs w', w' = w ∧ rs = [ReplyAttr (node_stat pid i n)]) w.
Proof.
  intros Hr Hops Hi. destruct (repr_entry _ _ _ _ _ Hr Hi) as (p & f & He & Hp & Hf & Hfr).
  destruct (repr_alive _ _ _ _ _ Hr Hi) as (Hlt & _).
  destruct (ops_ok_fileops _ _ _ _ _ Hops Hi Hfr) as [Ho Hst].
  unfold fs_fuse_getattr. wp_step. eapply wp_ino2inodesc; [apply Hr|done|].
  wp_step. eapply wp_load_id; [done|]. cbn [id_next id_file]. wp_step. apply wp_assert; [done|].
  wp_step. wp_step. wp_step. eapply wp_load_file; [done|]. wp_step. eapply wp_deref; [done|].
  apply wp_ret. by rewrite (Hst _ Ho).
Qed.

Lemma open_spec a fl w i n flags :
  repr a fl w → ops_ok a → a !! i = Some n →
  wp (fs_fuse_open pid i flags)
     (λ rs w', w' = w ∧
        rs = [if decide (an_type n = DIRECTORY) then ReplyErr EISDIR
              else if (Z.land flags O_ACCMODE =? O_RDONLY)%Z then ReplyOpen
              else ReplyErr EACCES]) w.
Proof.
  intros Hr Hops Hi. unfold fs_fuse_open. wp_step. eapply wp_live_file; [done..|].
  intros p f Hp Hf Hfr. destruct (ops_ok_fileops _ _ _ _ _ Hops Hi Hfr) as [Ho _].
  wp_step. eapply wp_deref; [done|]. rewrite (fr_type _ _ _ _ _ Hfr).
  destruct (decide (an_type n = DIRECTORY)); simpl; [done|].
  by destruct (Z.land flags O_ACCMODE =? O_RDONLY)%Z.
Qed.

Lemma read_spec a fl w i n (size off : Z) :
  repr a fl w → ops_ok a → a !! i = Some n → an_type n ≠ DIRECTORY →
  wp (fs_fuse_read pid i size off)
     (λ rs w', w' = w ∧
        rs = [fsFuseReplyBufLimited (String.list_ascii_of_string (pidstr pid)) (pidSize pid)
                                    off size]) w.
Proof.
  intros Hr Hops Hi Hty. unfold fs_fuse_read. wp_step. eapply wp_live_file; [done..|].
  intros p f Hp Hf Hfr. destruct (ops_ok_fileops _ _ _ _ _ Hops Hi Hfr) as [Ho _].
  rewrite decide_False in Ho by done.
  wp_step. eapply wp_deref; [done|]. done.
Qed.

(** [named a l es]: [es] gives the inodes of the table entries [l] with the
    names they have in [a]. *)
Definition named a (l : list (nat * ptr)) (es : list (string * nat)) : Prop :=
  es.*2 = l.*1 ∧ ∀ nm j, (nm, j) ∈ es → ∃ m, a !! j = Some m ∧ an_name m = nm.

Lemma add_items_run a fl w l :
  repr a fl w →
  (∀ j p, (j, p) ∈ l → ∃ m, a !! j = Some m ∧ files w !! j = Some (Some p)) →
  ∃ es, named a l es ∧ ∀ b, add_items (dir_bytes 0 b) l w = Done (dir_bytes 0 (b ++ es)) w.
Proof.
  intros Hr. induction l as [|[j p] l IH]; intros Hl.
  - exists []. split; [split; [done|]; by intros nm j ?%elem_of_nil|].
    intros b. by rewrite app_nil_r.
  - destruct IH as (es & [He Hn] & Hrun); [intros; apply Hl; by right|].
    destruct (Hl j p ltac:(left)) as (m & Hm & Hp).
    destruct (r_file _ _ _ Hr _ _ Hm) as (p' & f & Hp' & Hf & Hfr). simplify_eq.
    exists ((an_name m, j) :: es). split.
    + split; [by rewrite !fmap_cons, He|].
      intros nm j' [[= -> ->]|Hin]%elem_of_cons; eauto.
    + intros b. simpl. unfold load_file, mbind, M_bind, getM. simpl. rewrite Hf. simpl.
      rewrite (fr_name _ _ _ _ _ Hfr). simpl. rewrite dirbuf_add_layout, Hrun.
      by rewrite (fr_ino _ _ _ _ _ Hfr), <- (assoc_L (++)).
Qed.

(** The children of directory [k], each exactly once. *)
Definition lists a (k : nat) (es : list (string * nat)) : Prop :=
  NoDup es.*2 ∧
  ∀ nm j, (nm, j) ∈ es ↔ ∃ m, a !! j = Some m ∧ an_parent m = k ∧ an_name m = nm.

Lemma named_lists a fl w k d es :
  repr a fl w → dir_repr a (files w) k d → named a (ht_items (ino_files d)) es → lists a k es.
Proof.
  intros Hr Hdr [He Hn]. split; [rewrite He; apply Hdr|]. intros nm j. split.
  - intros Hin. destruct (Hn _ _ Hin) as (m & Hm & Hnm). exists m. split_and!; try done.
    apply (list_elem_of_fmap_2 snd) in Hin. rewrite He in Hin. simpl in Hin.
    apply list_elem_of_fmap in Hin as ([j' q] & -> & Hq).
    apply (d_ino _ _ _ _ Hdr) in Hq as (m' & Hm' & Hpar & _). simpl in *. congruence.
  - intros (m & Hm & Hpar & Hnm).
    destruct (r_file _ _ _ Hr _ _ Hm) as (q & g & Hq & _).
    assert (j ∈ es.*2) as Hj.
    { rewrite He. apply (list_elem_of_fmap_2 fst _ (j, q)). apply (d_ino _ _ _ _ Hdr). eauto. }
    apply list_elem_of_fmap in Hj as ([nm' j'] & -> & Hin). simpl in *.
    destruct (Hn _ _ Hin) as (m' & Hm' & Hnm'). congruence.
Qed.

(** The whole listing of a directory: itself, its parent and its children. *)
Definition listing (k parent : nat) (es : list (string * nat)) : list (string * nat) :=
  (".", k) :: ("..", parent) :: es.

Lemma readdir_spec a fl w k kn :
  repr a fl w → ops_ok a → a !! k = Some kn → an_type kn = DIRECTORY →
  ∃ es, lists a k es ∧
    ∀ size off, wp (fs_fuse_readdir pid k size off)
      (λ rs w', w' = w ∧
         let b := dir_bytes 0 (listing k (an_parent kn) es) in
         rs = [fsFuseReplyBufLimited b (Z.of_nat (length b)) off size]) w.
Proof.
  intros Hr Hops Hk Hty.
  destruct (repr_dir _ _ _ _ _ Hr Hk Hty) as (p & f & d & Hp & Hf & _ & Hd & Hdr & Hfr).
  destruct (add_items_run a fl w (ht_items (ino_files d)) Hr) as (es & Hes & Hadd).
  { intros j q Hq. apply (d_ino _ _ _ _ Hdr) in Hq as (m & ? & ? & ?). eauto. }
  exists es. split; [by eapply named_lists|].
  intros size off. unfold fs_fuse_readdir. wp_step. eapply wp_not_live_dir; [done..|].
  intros p' f' Hp' Hf' _. simplify_eq. rewrite decide_True by done.
  wp_step. eapply wp_load_file; [done|].
  destruct (ops_ok_fileops _ _ _ _ _ Hops Hk Hfr) as [Ho _]. rewrite decide_True in Ho by done.
  wp_step. eapply wp_deref; [done|]. wp_step. apply wp_assert; [done|]. wp_step.
  eapply wp_deref; [reflexivity|].
  wp_step. unfold fs_dir_readdir. wp_step. eapply wp_deref; [unfold dir_data; by rewrite Hd|].
  change (@nil Ascii.ascii) with (dir_bytes 0 []). rewrite !dirbuf_add_layout.
  wp_step. apply wp_done. eexists _, _. split; [apply Hadd|].
  wp_step. wp_step. rewrite (fr_ino _ _ _ _ _ Hfr), (fr_dir _ _ _ _ _ Hfr). done.
Qed.

(** The calls the callbacks are written for: [readlink] and [write] are not
    implemented, and only a file that is not a directory is read. *)
Definition call_ok a (c : fuse_call) : bool :=
  match c with
  | CLookup i _ | CGetattr i | COpen i _ | CReaddir i _ _ | CSetxattr i _ _ _
  | CGetxattr i _ _ | CRemovexattr i _ => bool_decide (is_Some (a !! i))
  | CRead i _ _ =>
    match a !! i with Some n => bool_decide (an_type n ≠ DIRECTORY) | None => false end
  | CReadlink _ | CWrite _ _ _ _ => false
  end.

Lemma readdir_nodir a fl w i n size off :
  repr a fl w → a !! i = Some n → an_type n ≠ DIRECTORY →
  wp (fs_fuse_readdir pid i size off) (λ rs w', w' = w ∧ rs = [ReplyErr ENOENT]) w.
Proof.
  intros Hr Hi Hty. unfold fs_fuse_readdir. wp_step. eapply wp_not_live_dir; [done..|].
  intros p f _ _ _. by rewrite decide_False by done.
Qed.

(** Every such call sends one reply and leaves the file system alone. *)
Lemma call_once a fl w c :
  repr a fl w → ops_ok a → call_ok a c = true →
  wp (fs_fuse_ops pid c) (λ rs w', w' = w ∧ ∃ r, rs = [r]) w.
Proof.
  intros Hr Hops Hc. destruct c as [i nm|i|i|i flags|i sz off|i b sz off|i sz off|i nm v sz|
    i nm sz|i nm]; simpl in Hc; try done.
  4: destruct (a !! i) as [n|] eqn:Hi; [|done]; apply bool_decide_eq_true in Hc.
  all: try (apply bool_decide_eq_true in Hc as [n Hi]); simpl.
  - eapply wp_mono; [by eapply lookup_spec|]. intros rs w' [-> ->]. split; [done|].
    repeat case_match; eauto.
  - eapply wp_mono; [by eapply getattr_spec|]. intros rs w' [-> ->]. eauto.
  - eapply wp_mono; [by eapply open_spec|]. intros rs w' [-> ->]. eauto.
  - eapply wp_mono; [by eapply read_spec|]. intros rs w' [-> ->]. eauto.
  - destruct (decide (an_type n = DIRECTORY)) as [Hty|Hty].
    + destruct (readdir_spec _ _ _ _ _ Hr Hops Hi Hty) as (es & _ & Hrd).
      eapply wp_mono; [apply Hrd|]. intros rs w' [-> ->]. eauto.
    + eapply wp_mono; [by eapply readdir_nodir|]. intros rs w' [-> ->]. eauto.
  - unfold fs_fuse_setxattr. wp_step. eapply wp_live_id; [done..|]. case_match; apply wp_ret; eauto.
  - unfold fs_fuse_getxattr. wp_step. eapply wp_live_id; [done..|]. case_match; apply wp_ret; eauto.
  - unfold fs_fuse_removexattr. wp_step. eapply wp_live_id; [done..|]. case_match; apply wp_ret; eauto.
Qed.
End calls.

(** ** Reading the pid file piece by piece *)
Section chunks.
(** A reader that asks for [size] bytes at a time from offset [off] until a
    reply is empty. *)
Fixpoint read_chunks (fuel : nat) (pid : Z) (size off : Z) : list Ascii.ascii :=
  match fuel with
  | 0 => []
  | S fuel =>
    match fsFuseReplyBufLimited (String.list_ascii_of_string (pidstr pid)) (pidSize pid) off size with
    | ReplyBuf [] => []
    | ReplyBuf b => b ++ read_chunks fuel pid size (off + Z.of_nat (length b))
    | _ => []
    end
  end.

Lemma length_list_ascii s : length (String.list_ascii_of_string s) = String.length s.
Proof. induction s; simpl; congruence. Qed.

Lemma read_chunks_spec fuel pid size off :
  (0 < size)%Z → (Z.of_nat (String.length (pidstr pid)) < 2 ^ 63)%Z →
  off ≤ String.length (pidstr pid) → String.length (pidstr pid) - off < fuel →
  read_chunks fuel pid size (Z.of_nat off)
  = drop off (String.list_ascii_of_string (pidstr pid)).
Proof.
  intros Hs Hl. set (buf := String.list_ascii_of_string (pidstr pid)).
  assert (length buf = String.length (pidstr pid)) as Hlen by apply length_list_ascii.
  rewrite <- Hlen in *. revert off. induction fuel as [|fuel IH]; intros off Ho Hf; [lia|].
  simpl. unfold pidSize. rewrite <- Hlen. fold buf.
  rewrite reply_limited by lia. rewrite Nat2Z.id.
  destruct (take (Z.to_nat size) (drop off buf)) as [|c b] eqn:E.
  - apply (f_equal length) in E. rewrite length_take, length_drop in E. simpl in E.
    rewrite drop_ge; [done|lia].
  - rewrite <- E. assert (length (take (Z.to_nat size) (drop off buf)) > 0) by (rewrite E; simpl; lia).
    rewrite <- Nat2Z.inj_add, IH; rewrite ?length_take, ?length_drop in *; [|lia..].
    rewrite <- (take_drop (Z.to_nat size) (drop off buf)) at 2. f_equal.
    rewrite drop_drop. destruct (decide (Z.to_nat size ≤ length buf - off)).
    + by rewrite Nat.min_l by lia.
    + rewrite !drop_ge; [done|lia..].
Qed.
End chunks.
