(* ===== verification/FsDup.v ===== *)
(** * Creating a name that already exists

    [dir_add] refuses a second entry with the same name, but neither creation
    function looks at its result: the new object is published in the inode table
    without being in any directory. *)
From S2P Require Import Prelude UtHash Event Fs FsInode FsTree FsRefine FsLife FsFuse FsFuseSpec.

Section dup.
Context `{UL : UtHashLaws} `{FL : FuseLib} (pid : Z).
Implicit Types (a : atree) (w : fsw) (fl : list nat).

(** [w'] is [w] plus objects and table entries of other inodes. *)
Definition extends (k : nat) w w' : Prop :=
  tbl w' !! k = tbl w !! k ∧ ino_num (this w') = ino_num (this w) ∧
  (∀ p f, heap w !! p = Some f → heap w' !! p = Some f).

(** Lookups in directory [k] read nothing else. *)
Lemma lookup_frame k nm w w' rs :
  extends k w w' → fs_fuse_lookup pid k nm w = Done rs w → fs_fuse_lookup pid k nm w' = Done rs w'.
Proof.
  intros (Ht & Hn & Hh).
  unfold fs_fuse_lookup, not_live_dir, ino2inodesc, load_id, load_file, mbind, M_bind, getM. simpl.
  rewrite Hn. unfold assertM. destruct (bool_decide _); simpl; [|done].
  rewrite Ht. destruct (tbl w !! k) as [e|]; simpl; [|done].
  destruct (id_next e); simpl; [by intros [= ->]|].
  destruct (id_file e) as [p|]; simpl; [|done].
  destruct (heap w !! p) as [f|] eqn:Hf; [|done]. rewrite (Hh _ _ Hf). simpl.
  destruct (decide (f_type f = DIRECTORY)); simpl; [|by intros [= ->]].
  rewrite Hf, (Hh _ _ Hf). simpl. destruct (dir_data f) as [d|]; simpl; [|done].
  destruct (ht_find nm (nm_files d)) as [q|]; simpl; [|by intros [= ->]].
  destruct (heap w !! q) as [g|] eqn:Hg; [|done]. rewrite (Hh _ _ Hg). simpl.
  destruct (fileops pid (f_ops g)); simpl; [|done]. by intros [= ->].
Qed.

Lemma create_dup a i fl w dirino dn name symlink ops j m :
  repr a (i :: fl) w → clean w (i :: fl) → a !! dirino = Some dn → an_type dn = DIRECTORY →
  a !! j = Some m → an_parent m = dirino → an_name m = name →
  wp (fsCreatefile dirino name symlink ops)
     (λ p w', p = brk w ∧ extends dirino w w' ∧ files w' !! i = Some (Some p) ∧
              ∃ f, heap w' = <[p := f]> (heap w) ∧ f_ino f = i ∧ f_name f = Some name) w.
Proof.
  intros Hr Hcl Hd Hty Hj Hpar Hnm. destruct (repr_fresh _ _ _ _ Hr) as (Hai & Hlt & Hni).
  destruct (repr_alive _ _ _ _ _ Hr Hd) as (Hdl & Hdn & Hd0).
  destruct (repr_dir _ _ _ _ _ Hr Hd Hty) as (pp & pf & dd & Hpp & Hpf & Hpt & Hpd & Hdr & _).
  destruct (r_file _ _ _ Hr _ _ Hj) as (q & g & Hq & _).
  assert (dirino ≠ i) as Hdi by (intros ->; apply Hdn; by left).
  assert (ht_find name (nm_files dd) = Some q) as Hfind.
  { apply ht_find_spec; [apply Hdr|]. apply (d_nm _ _ _ _ Hdr). eauto 6. }
  pose proof (clean_head _ _ _ (r_itab _ _ _ Hr) Hcl) as Hnone.
  pose proof (repr_brk_fresh _ _ _ Hr) as Hbf.
  unfold fsCreatefile. wp_step. eapply wp_mono; [by apply inoalloc_spec; [apply Hr|]|].
  intros r w1 (-> & Hit & Hfiles & Hnt). wp_step.
  eapply wp_ino2inodesc; [done..|]. wp_step.
  destruct (files_entry w1 i None) as (e & He & Hef); [by rewrite Hfiles|].
  eapply wp_load_id; [done|]. wp_step. apply wp_assert.
  { rewrite !bool_decide_eq_true_2; [done| |done]. by eapply it_used. }
  wp_step. apply wp_assert; [by apply bool_decide_eq_true|]. wp_step.
  assert (dirino ∉ fl) as Hdf by (intros ?; apply Hdn; by right).
  eapply (wp_load_dir_of w1 fl dirino pp pf); try done; [by rewrite Hfiles|
    by rewrite (nontab_heap _ _ Hnt)|].
  wp_step. apply wp_alloc_file. wp_step. rewrite (nontab_brk _ _ Hnt), (nontab_heap _ _ Hnt).
  eapply (wp_dir_add_dup _ pp pf dd); simpl;
    [by rewrite lookup_insert_ne by congruence|done|done|by rewrite lookup_insert_eq| |done|].
  { by destruct symlink. }
  wp_step. eapply wp_update_id; [done|]. apply wp_ret. split; [done|]. split_and!.
  - unfold extends. split_and!.
    + change (<[i := set_id_file (Some (brk w)) e]> (tbl w1) !! dirino = tbl w !! dirino).
      rewrite list_lookup_insert_ne by done.
      destruct (files_entry _ _ _ Hpp) as (e1 & He1 & Hf1).
      destruct (files_entry w1 dirino (Some pp)) as (e2 & He2 & Hf2); [by rewrite Hfiles|].
      pose proof (it_used _ _ Hit _ _ He2 Hdf). pose proof (it_used _ _ (r_itab _ _ _ Hr) _ _ He1 Hdn).
      rewrite He1, He2. destruct e1, e2; simpl in *; congruence.
    + simpl. rewrite (it_num _ _ Hit). symmetry. apply Hr.
    + simpl. intros p f Hf. rewrite lookup_insert_ne; [done|congruence].
  - rewrite files_set_file. apply list_lookup_insert_eq.
    match goal with |- context [files ?x] => change (files x) with (files w1) end.
    rewrite Hfiles. by eapply lookup_lt_Some.
  - eexists. split; [done|]. by destruct symlink.
Qed.
End dup.
