(* ===== verification/Sigproc.v ===== *)
(** * Signals as events ([kld/sigproc.h], [kld/sigproc.c])

    The signals that end the program are blocked and read from a signal
    descriptor by the epoll loop. *)
From S2P Require Import Prelude Event.

(** Signal numbers (Linux, x86-64). *)
Definition SIGHUP : Z := 1.
Definition SIGINT : Z := 2.
Definition SIGQUIT : Z := 3.
Definition SIGKILL : Z := 9.
Definition SIGUSR1 : Z := 10.
Definition SIGUSR2 : Z := 12.
Definition SIGPIPE : Z := 13.
Definition SIGALRM : Z := 14.
Definition SIGTERM : Z := 15.
Definition SIGVTALRM : Z := 26.
Definition SIGIO : Z := 29.

Definition sigaddset (mask : gset Z) (signo : Z) : gset Z := {[ signo ]} ∪ mask.

Definition sigAddTermSignals (mask : gset Z) : gset Z :=
  foldl sigaddset mask
    [SIGALRM; SIGTERM; SIGINT; SIGHUP; SIGQUIT; SIGUSR1; SIGVTALRM; SIGUSR2; SIGPIPE; SIGIO].

(** [sigproc_t] *)
Record sigproc := Sigproc { sp_ed : evntdesc; sp_mask : gset Z; sp_sfd : Z }.

Definition sigprocReset (p : sigproc) (iszeroed : bool) : sigproc :=
  let mask := if iszeroed then sp_mask p else ∅ in
  Sigproc (EvntDesc (Some sigEvent_ptr) (Some obj_sigproc)) mask (-1).

(** [blocked] and [sfd] are what [sigprocmask] and [signalfd] return. *)
Definition sigprocInit (iszeroed : bool) (blocked sfd : Z) : M sigproc unit :=
  _ ← modifyM (λ p, sigprocReset p iszeroed);
  _ ← modifyM (λ p, Sigproc (sp_ed p) (sigAddTermSignals ∅) (sp_sfd p));
  _ ← assertM (negb (blocked =? -1)%Z);
  _ ← modifyM (λ p, Sigproc (sp_ed p) (sp_mask p) sfd);
  assertM (negb (sfd =? -1)%Z).

(** The events registered; [epoll_ctl] is the answer of the system. *)
Definition sigprocRegisterEvents (epollfd : Z) (epoll_ctl : Z → Z → evntdesc → bool)
  : M sigproc unit :=
  p ← getM;
  _ ← assertM (negb (epollfd =? -1)%Z);
  _ ← assertM (negb (sp_sfd p =? -1)%Z &&
               bool_decide (sp_ed p = EvntDesc (Some sigEvent_ptr) (Some obj_sigproc)));
  assertM (epoll_ctl (sp_sfd p) (Z.lor EPOLLIN EPOLLET) (sp_ed p)).

(** The [switch] of [sigEvent]. *)
Definition exit_signal (signo : Z) : bool :=
  bool_decide (signo ∈ [SIGALRM; SIGTERM; SIGINT; SIGHUP; SIGKILL; SIGUSR1; SIGVTALRM; SIGUSR2;
                        SIGPIPE; SIGIO]).

(** [fdsi] is what [read] on the signal descriptor yields: a whole
    [signalfd_siginfo] with this signal number, or anything shorter. The result
    pairs the return code with the event bits left. *)
Definition sigEvent (fdsi : option Z) (evnts : Z) : M sigproc (evnthdlrrc * Z) :=
  r ← (if has_evnt evnts EPOLLIN then
         _ ← assertM (bool_decide (is_Some fdsi));
         signo ← derefM fdsi;
         mret (if exit_signal signo then EVNT_HDLR_EXIT_LOOP else EVNT_HDLR_SUCCESS,
               clr_evnt evnts EPOLLIN)
       else mret (EVNT_HDLR_SUCCESS, evnts));
  let drop_evnt (bit mask : Z) (e : Z) :=
    if negb (e =? 0)%Z && has_evnt e bit then clr_evnt e mask else e in
  let evnts := drop_evnt EPOLLHUP EPOLLHUP r.2 in
  let evnts := drop_evnt EPOLLRDHUP EPOLLRDHUP evnts in
  let evnts := drop_evnt EPOLLERR EPOLLRDHUP evnts in
  mret (r.1, evnts).

(** ** Lemmas *)
Lemma term_signals_spec mask s :
  s ∈ sigAddTermSignals mask ↔
  s ∈ [SIGALRM; SIGTERM; SIGINT; SIGHUP; SIGQUIT; SIGUSR1; SIGVTALRM; SIGUSR2; SIGPIPE; SIGIO] ∨
  s ∈ mask.
Proof. unfold sigAddTermSignals, sigaddset. simpl. set_solver. Qed.

Lemma wp_sigEvent fdsi evnts p :
  (has_evnt evnts EPOLLIN = true → is_Some fdsi) →
  wp (sigEvent fdsi evnts)
     (λ r p', p' = p ∧
        r.1 = if has_evnt evnts EPOLLIN && default false (exit_signal <$> fdsi)
              then EVNT_HDLR_EXIT_LOOP else EVNT_HDLR_SUCCESS) p.
Proof.
  intros Hs. unfold sigEvent. wp_step. destruct (has_evnt evnts EPOLLIN) eqn:E; simpl.
  - destruct (Hs eq_refl) as [s ->]. wp_step. apply wp_assert; [done|]. wp_step.
    eapply wp_deref; [reflexivity|]. apply wp_ret. apply wp_ret. simpl. by destruct (exit_signal s).
  - apply wp_ret. by apply wp_ret.
Qed.
