(* ===== verification/KldFs.v ===== *)
(** * The event loop of the tool ([kld/kldfs.c])

    [kldfsLoop] registers the two event sources and dispatches what [epoll_wait]
    returns. The system's side is data: the list of answers [epoll_wait] gives,
    each event with what its handler will read. A run that consumes the whole
    list without a reason to stop yields [None]: the loop is still waiting. *)
From S2P Require Import Prelude UtHash Event Fs FsInode FsTree FsLife FsFuse FsFuseSpec Sigproc.

Definition EINTR : Z := 4.
Definition EINVAL : Z := 22.

Section loop.
Context `{UT : UtHash} `{FL : FuseLib} (pid : Z).

(** The state the handlers share; [kreplies] logs the replies sent, [kfds] are the
    descriptors the process has open. *)
Record kldw := KldW { kfs : fsw; ksp : sigproc; kreplies : list reply; kfds : gset Z }.

(** One ready event: its descriptor, its bits, what
    [fuse_session_receive_buf] returns and the request it holds, and what the
    signal descriptor yields. *)
Record epoll_event := EpollEvent {
  ee_ed : option evntdesc;
  ee_events : Z;
  ee_recv : Z;
  ee_call : fuse_call;
  ee_fdsi : option Z;
}.

Inductive wait := WFail (errno : Z) | WReady (evs : list epoll_event).

(** Computations of the two components inside the shared state. *)
Definition on_sp {A} (m : M sigproc A) : M kldw A := λ k,
  match m (ksp k) with
  | Done a p => Done a (KldW (kfs k) p (kreplies k) (kfds k))
  | Exited c p => Exited c (KldW (kfs k) p (kreplies k) (kfds k))
  | Aborted => Aborted | Fault => Fault | NoFuel => NoFuel
  end.
Definition on_fs {A} (m : M fsw (A * list reply)) : M kldw A := λ k,
  match m (kfs k) with
  | Done (a, rs) w => Done a (KldW w (ksp k) (kreplies k ++ rs) (kfds k))
  | Exited c w => Exited c (KldW w (ksp k) (kreplies k) (kfds k))
  | Aborted => Aborted | Fault => Fault | NoFuel => NoFuel
  end.

(** [fuse_session_process_buf] hands the request to its callback. *)
Definition run_fsEvent (e : epoll_event) : M kldw evnthdlrrc :=
  r ← fsEvent (mret (ee_recv e)) (on_fs (rs ← fs_fuse_ops pid (ee_call e); mret (tt, rs)))
              (ee_events e);
  mret r.1.

(** [ed->hdlr(ed->obj, evnts, epollfd)] *)
Definition call_hdlr (h : evnthdlr) (o : option evntobj) (e : epoll_event) : M kldw evnthdlrrc :=
  match h, o with
  | fsEvent_ptr, Some obj_fs => run_fsEvent e
  | sigEvent_ptr, Some obj_sigproc => r ← on_sp (sigEvent (ee_fdsi e) (ee_events e)); mret r.1
  | sigEvent_ptr, _ => abortM
  | fsEvent_ptr, _ => faultM
  end.

(** The inner loop: [Some rc] when a handler ends the outer one. *)
Fixpoint dispatch (evs : list epoll_event) : M kldw (option bool) :=
  match evs with
  | [] => mret None
  | e :: evs =>
    ed ← (_ ← assertM (bool_decide (is_Some (ee_ed e))); derefM (ee_ed e));
    _ ← assertM (bool_decide (is_Some (hdlr ed)));
    h ← derefM (hdlr ed);
    erc ← call_hdlr h (obj ed) e;
    match erc with
    | EVNT_HDLR_EXIT_LOOP => mret (Some true)
    | EVNT_HDLR_FAILED => mret (Some false)
    | EVNT_HDLR_SUCCESS => dispatch evs
    end
  end.

Fixpoint wait_loop (ws : list wait) : M kldw (option bool) :=
  match ws with
  | [] => mret None
  | WFail errno :: ws =>
    if decide (errno = EINTR) then wait_loop ws
    else if decide (errno = EINVAL) then wait_loop ws
    else mret (Some false)
  | WReady evs :: ws =>
    r ← dispatch evs;
    match r with Some rc => mret (Some rc) | None => wait_loop ws end
  end.

(** [epoll_create1]; the descriptor is -1 when it fails. *)
Definition epoll_create1 (ok : bool) : M kldw Z :=
  if ok then
    k ← getM;
    let fd := lowest_fd (kfds k) in
    _ ← modifyM (λ k, KldW (kfs k) (ksp k) (kreplies k) ({[fd]} ∪ kfds k));
    mret fd
  else mret (-1)%Z.

(** The result of [fsRegisterEvents] is not looked at, and nothing closes [epollfd]. *)
Definition kldfsLoop (epoll_ok : bool) (epoll_ctl : Z → Z → evntdesc → bool) (ws : list wait)
  : M kldw (option bool) :=
  epollfd ← epoll_create1 epoll_ok;
  if (epollfd =? -1)%Z then mret (Some false)
  else
    _ ← on_sp (sigprocRegisterEvents epollfd epoll_ctl);
    _ ← on_fs (r ← fsRegisterEvents epoll_ctl; mret (r, []));
    wait_loop ws.
End loop.

(** ** What the loop decides *)
Section verdict.
Context `{UL : UtHashLaws} `{FL : FuseLib} (pid : Z).
Implicit Types (a : atree) (fl : list nat).

(** Events as the kernel delivers them for the two registered descriptors:
    the signal descriptor has a signal to read when it is readable, a request
    that was received is one the callbacks are written for. *)
Definition event_ok (a : atree) (e : epoll_event) : bool :=
  bool_decide (ee_ed e = Some (EvntDesc (Some fsEvent_ptr) (Some obj_fs))) && call_ok a (ee_call e)
  || bool_decide (ee_ed e = Some (EvntDesc (Some sigEvent_ptr) (Some obj_sigproc)))
     && (negb (has_evnt (ee_events e) EPOLLIN) || bool_decide (is_Some (ee_fdsi e))).

Definition wait_ok (a : atree) (x : wait) : bool :=
  match x with WFail _ => true | WReady evs => forallb (event_ok a) evs end.

(** A signal of the exit list was read. *)
Definition stops (e : epoll_event) : bool :=
  bool_decide (ee_ed e = Some (EvntDesc (Some sigEvent_ptr) (Some obj_sigproc)))
  && has_evnt (ee_events e) EPOLLIN && default false (exit_signal <$> ee_fdsi e).

Fixpoint verdict (ws : list wait) : option bool :=
  match ws with
  | [] => None
  | WFail errno :: ws =>
    if bool_decide (errno = EINTR ∨ errno = EINVAL) then verdict ws else Some false
  | WReady evs :: ws => if existsb stops evs then Some true else verdict ws
  end.

(** The state of the two components, and the descriptors, are as they were. *)
Definition same (k k' : kldw) : Prop := kfs k' = kfs k ∧ ksp k' = ksp k ∧ kfds k' = kfds k.

Lemma run_fsEvent_spec a fl k e :
  repr a fl (kfs k) → ops_ok a → call_ok a (ee_call e) = true →
  wp (run_fsEvent pid e)
     (λ r k', r = EVNT_HDLR_SUCCESS ∧ same k k' ∧
        length (kreplies k') = length (kreplies k) +
          (if has_evnt (ee_events e) EPOLLIN && (0 <? ee_recv e)%Z then 1 else 0)) k.
Proof.
  intros Hr Hops Hc. unfold run_fsEvent, fsEvent. wp_step. wp_step.
  destruct (has_evnt _ _); simpl.
  2:{ apply wp_ret. wp_step. wp_step. split_and!; [done|done|lia]. }
  wp_step. wp_step. wp_step. destruct (0 <? ee_recv e)%Z.
  - pose proof (call_once pid _ _ _ _ Hr Hops Hc) as (rs & w' & Hrun & -> & r & ->)%wp_done.
    unfold wp at 1, on_fs, mbind, M_bind at 1. rewrite Hrun. simpl.
    wp_step. wp_step. wp_step. split_and!; [done|done|]. simpl. rewrite length_app. simpl. lia.
  - wp_step. wp_step. wp_step. wp_step. split_and!; [done|done|lia].
Qed.

Lemma dispatch_spec a fl k evs :
  repr a fl (kfs k) → ops_ok a → forallb (event_ok a) evs = true →
  wp (dispatch pid evs)
     (λ r k', r = (if existsb stops evs then Some true else None) ∧ same k k') k.
Proof.
  revert k. induction evs as [|e evs IH]; intros k Hr Hops Hok; simpl in *; [by apply wp_ret|].
  apply andb_true_iff in Hok as [He Hok]. unfold event_ok in He. unfold stops.
  apply orb_true_iff in He as [[Hed%bool_decide_eq_true Hc]%andb_true_iff|
                               [Hed%bool_decide_eq_true Hc]%andb_true_iff].
  - rewrite Hed. wp_step. wp_step. apply wp_assert; [done|]. eapply wp_deref; [reflexivity|].
    wp_step. apply wp_assert; [done|]. wp_step. eapply wp_deref; [reflexivity|].
    wp_step. simpl. eapply wp_mono; [by eapply run_fsEvent_spec|].
    intros r k1 (-> & (H1 & H2 & H0) & _).
    eapply wp_mono; [eapply IH; rewrite ?H1; done|].
    intros r k2 (-> & H3 & H4 & H5). split; [done|]. split_and!; congruence.
  - rewrite Hed. wp_step. wp_step. apply wp_assert; [done|]. eapply wp_deref; [reflexivity|].
    wp_step. apply wp_assert; [done|]. wp_step. eapply wp_deref; [reflexivity|].
    wp_step. simpl.
    assert (has_evnt (ee_events e) EPOLLIN = true → is_Some (ee_fdsi e)) as Hs.
    { intros Hin. rewrite Hin in Hc. by apply bool_decide_eq_true in Hc. }
    pose proof (wp_sigEvent (ee_fdsi e) (ee_events e) (ksp k) Hs) as (r & p & Hrun & -> & Hrc)%wp_done.
    wp_step. unfold wp at 1, on_sp. rewrite Hrun. apply wp_ret. rewrite Hrc.
    destruct (has_evnt _ _ && default false _); simpl; [by apply wp_ret|].
    destruct k as [kf kp kr kd]; simpl in *. eapply wp_mono; [by eapply IH|]. done.
Qed.

Lemma wait_loop_spec a fl k ws :
  repr a fl (kfs k) → ops_ok a → forallb (wait_ok a) ws = true →
  wp (wait_loop pid ws) (λ r k', r = verdict ws ∧ same k k') k.
Proof.
  revert k. induction ws as [|x ws IH]; intros k Hr Hops Hok; simpl in *; [by apply wp_ret|].
  apply andb_true_iff in Hok as [Hx Hok]. destruct x as [errno|evs].
  - destruct (decide (errno = EINTR)); [rewrite bool_decide_eq_true_2 by tauto; by apply IH|].
    destruct (decide (errno = EINVAL)); [rewrite bool_decide_eq_true_2 by tauto; by apply IH|].
    rewrite bool_decide_eq_false_2 by tauto. by apply wp_ret.
  - wp_step. eapply wp_mono; [by eapply dispatch_spec|]. intros r k1 (-> & H1 & H2 & H0).
    destruct (existsb stops evs); [by apply wp_ret|].
    eapply wp_mono; [eapply IH; rewrite ?H1; done|].
    intros r k2 (-> & H3 & H4 & H5). split; [done|]. split_and!; congruence.
Qed.
End verdict.
