(* ===== verification/FsProps.v ===== *)
(** * What the file system of [kld] guarantees

    The properties of the components in [Fs], [FsLife], [FsFuse] and [KldFs],
    each proved from the lemmas of those files and instantiated at a small file
    system built by running the code. *)
From S2P Require Import Prelude UtHash Event Fs FsInode FsTree FsRefine FsRemove FsLife FsCleanup.
From S2P Require Import FsBoot FsFuse FsFuseSpec FsDup Sigproc KldFs.

(** ** Running the code from process start *)
Section boot.
Context `{UT : UtHash}.

(** [GBLS.fs] before [fsInit]: nothing allocated. *)
Definition fsw0 : fsw := FsW fs_blank ∅ 0.

(** [fsInit] followed by [fsCreate], as [GBLSInit] and [main] call them. *)
Definition boot (fsname : string) (dir : option string) (env : fs_env) (name : string)
    (cf : nat → M fsw unit) : M fsw bool :=
  _ ← fsInit fsname true dir; fsCreate env name (Some cf).
End boot.

Definition demo_env : fs_env := FsEnv true true true 7 0.
Definition demo_reqs : list creq :=
  [CDir 1 "d" fs_dir_ops; CFile 2 "f" None fs_libkernel_ops; CFile 1 "g" None fs_libkernel_ops].
Definition demo_tree : atree :=
  <[4 := file_node 1 "g" None fs_libkernel_ops]>
    (<[3 := file_node 2 "f" None fs_libkernel_ops]> (<[2 := dir_node 1 "d" fs_dir_ops]> root_tree)).

Lemma demo_creates : a_creates 2 root_tree demo_reqs = Some demo_tree.
Proof. vm_compute. reflexivity. Qed.

Lemma demo_ops : ops_ok demo_tree.
Proof. unfold ops_ok. apply (bool_decide_unpack _). vm_compute. exact I. Qed.

Section props.
Context `{UL : UtHashLaws}.
Implicit Types (a : atree) (w : fsw) (fl : list nat).

Lemma boot_spec fsname dir mp env name cf k a :
  fsMountPoint sizeof_tmp fsname dir = Some mp → env_ok env → populates cf k a →
  wp (boot fsname dir env name cf)
     (λ r w', r = env_mount env ∧ pristine k a w' ∧ mkdir (this w') = true ∧
              mntpt (this w') = Some mp) fsw0.
Proof.
  intros Hmp He Hc. unfold boot. wp_step. eapply wp_mono; [by apply fsInit_spec|].
  intros r w1 (_ & Hin & Hmp1 & _). eapply wp_mono; [by eapply fsCreate_spec|].
  intros b w2 (-> & Hp & Hmk & Hm2 & _). split_and!; try done. congruence.
Qed.

Lemma demo_run :
  ∃ w, boot "libk" None demo_env "kld" (λ _, run_creqs demo_reqs) fsw0 = Done true w ∧
       pristine 5 demo_tree w.
Proof.
  pose proof (boot_spec "libk" None "libk" demo_env "kld" _ _ _ eq_refl
    ltac:(split_and!; done) (run_creqs_populates _ _ demo_creates)) as Hw.
  destruct (proj1 (wp_done _ _ _) Hw) as (r & w & Hrun & Hr & Hp & _).
  exists w. split; [by rewrite Hrun, Hr|done].
Qed.

(** C1: a mount point that fits, a system that grants the mount directory and
    the session, and any sequence of granted creation requests: the file
    system comes up, and [fsCleanup] takes it down again. No assertion fails,
    no dangling pointer is followed, every file object is freed, the table and
    the mount state are reset; this also holds when the mount is refused. *)
Theorem fs_lifecycle fsname dir mp env name rs a :
  fsMountPoint sizeof_tmp fsname dir = Some mp → env_ok env →
  a_creates 2 root_tree rs = Some a →
  wp (ok ← boot fsname dir env name (λ _, run_creqs rs);
      r ← fsCleanup; mret (ok, r))
     (λ r w', r = (env_mount env, true) ∧ cleaned w') fsw0.
Proof.
  intros Hmp He Ha. wp_step.
  eapply wp_mono; [eapply boot_spec; [done..|by apply run_creqs_populates]|].
  intros b w (-> & [Hr Hc] & Hmk & Hm). wp_step. eapply wp_mono.
  - eapply fsCleanup_spec; [done..| |done]. by rewrite Hm.
  - intros r w' [-> Hcl]. by apply wp_ret.
Qed.

(** C10: every granted sequence of [fsCreatedir] and [fsCreatefile] calls on a
    file system that represents a tree returns, and the state represents the
    tree the requests describe, with inodes handed out in order. *)
Theorem creations_refine_tree rs k a a' w :
  pristine k a w → a_creates k a rs = Some a' →
  wp (run_creqs rs) (λ _ w', pristine (k + length rs) a' w' ∧ mount_part w' = mount_part w) w.
Proof. apply run_creqs_refines. Qed.

(** C2: [fsRemoveitem] refines removal from the tree. It reports whether the
    item could be removed (everything but a directory with entries), and with
    [purgeemptydir] it also removes every directory this empties, up to the
    root. *)
Theorem remove_refines_tree a fl w i n p purge :
  repr a fl w → a !! i = Some n → files w !! i = Some (Some p) →
  wp (fsRemoveitem p purge)
     (λ r w', r = childless a i ∧ ∃ fl', repr (a_remove (S INO_NUM) purge i a) fl' w') w.
Proof.
  intros Hr Hi Hp. eapply wp_mono; [by eapply wp_fsRemoveitem|].
  intros r w' (-> & _ & _ & fl' & Hr' & _). eauto.
Qed.

(** the entry a removal frees keeps its stale file pointer, and it is at
    the head of the free list, so the next allocation fails its assertion:
    after any successful removal, creating anything aborts the program. *)
Theorem create_after_remove_aborts a fl w i n p purge :
  repr a fl w → a !! i = Some n → files w !! i = Some (Some p) → childless a i = true →
  ∃ w', fsRemoveitem p purge w = Done true w' ∧
        (∀ parent name ops, fsCreatedir parent name ops w' = Aborted) ∧
        (∀ dirino name symlink ops, fsCreatefile dirino name symlink ops w' = Aborted).
Proof.
  intros Hr Hi Hp Hc. pose proof (wp_fsRemoveitem _ _ _ _ _ _ purge Hr Hi Hp) as Hw.
  apply wp_done in Hw as (r & w' & Hrun & -> & Hf & _ & fl' & Hr' & Hdirty & _).
  rewrite Hc in *. destruct (Hdirty eq_refl) as (j & q & fl'' & -> & Hq).
  pose proof (inoalloc_dirty _ _ _ _ (r_itab _ _ _ Hr') Hq) as Hal.
  exists w'. split; [done|]. unfold fsCreatedir, fsCreatefile, mbind, M_bind. by rewrite Hal.
Qed.

(** When all inodes are in use the next allocation aborts (growing the
    table is not implemented). *)
Theorem inode_exhaustion a w :
  pristine INO_NUM a w →
  (∀ parent name ops, fsCreatedir parent name ops w = Aborted) ∧
  (∀ dirino name symlink ops, fsCreatefile dirino name symlink ops w = Aborted).
Proof.
  intros [Hr _]. rewrite Nat.sub_diag in Hr. pose proof (inoalloc_full _ (r_itab _ _ _ Hr)) as Hal.
  unfold fsCreatedir, fsCreatefile, mbind, M_bind. by rewrite Hal.
Qed.

(** [inoalloc] followed by [inofree] of what it returned puts the
    whole state back: the same entries, the same free list, the same counts. *)
Theorem inode_alloc_free w i fl :
  itab_ok w (i :: fl) → files w !! i = Some None →
  wp (r ← inoalloc; inofree r)
     (λ _ w', w' = w) w.
Proof.
  intros Hok Hf. assert (i < INO_NUM ∧ i ∉ fl) as [Hi Hni].
  { split; [eapply itab_lt; [done|by left]|].
    pose proof (it_nodup _ _ Hok) as [? _]%NoDup_cons. done. }
  wp_step. eapply wp_mono; [by apply inoalloc_spec|].
  intros r w1 (-> & Hok1 & Hf1 & Hn1). eapply wp_mono; [by apply (inofree_spec w1 i fl)|].
  intros _ w2 (_ & Hok2 & Hf2 & Hn2). eapply itab_unique; [done..|congruence|congruence].
Qed.
End props.

Section callbacks.
Context `{UL : UtHashLaws} `{FL : FuseLib} (pid : Z).
Implicit Types (a : atree) (w : fsw) (fl : list nat).

(** C33: [fs_fuse_lookup] answers from the tree: a directory's entry of that
    name with its attributes, [ENOENT] for a name that is not there and for
    an inode that is not a directory. It changes nothing. *)
Theorem lookup_refines_tree a fl w k kn nm :
  repr a fl w → ops_ok a → a !! k = Some kn →
  wp (fs_fuse_lookup pid k nm)
     (λ rs w', w' = w ∧
        rs = match a_child a k nm with
             | Some (j, m) => if decide (an_type kn = DIRECTORY)
                              then [ReplyEntry j (node_stat pid j m)] else [ReplyErr ENOENT]
             | None => [ReplyErr ENOENT]
             end) w.
Proof. apply lookup_spec. Qed.

(** What was created is found: after [fsCreatefile] of a new name in a
    directory, [fs_fuse_lookup] of that name there replies the inode that was
    allocated for it. *)
Theorem create_lookup_roundtrip k a a' w dirino name symlink :
  pristine k a w → ops_ok a →
  a_create k a (CFile dirino name symlink fs_libkernel_ops) = Some a' →
  wp (_ ← fsCreatefile dirino name symlink fs_libkernel_ops; fs_fuse_lookup pid dirino name)
     (λ rs _, rs = [ReplyEntry k (Stat k (Z.lor S_IFREG 0x124) 1 (pidSize pid))]) w.
Proof.
  intros Hp Hops Hc. wp_step.
  eapply wp_mono; [exact (run_creq_refines _ _ _ _ (CFile _ _ _ _) Hp Hc)|].
  intros p w' (_ & [Hr' _] & _). unfold a_create in Hc. simpl in Hc.
  destruct (a !! dirino) as [dn|] eqn:Hd; [|done].
  destruct (bool_decide _ && _ && _) eqn:Hg; [|done]. simplify_eq.
  apply andb_true_iff in Hg as [[Hty%bool_decide_eq_true _]%andb_true_iff _].
  assert (dirino < k) as Hlt by (by eapply pristine_lt, elem_of_dom_2).
  pose proof (r_tree _ _ _ Hr') as Ht. eapply wp_mono.
  - apply (lookup_spec pid _ _ w' dirino dn name Hr').
    + apply map_Forall_insert_2; [|done]. simpl. by destruct symlink.
    + by rewrite lookup_insert_ne by lia.
  - intros rs ? [-> ->]. rewrite (proj2 (a_child_spec _ dirino name k _ Ht)
      (conj (lookup_insert_eq _ _ _) (conj eq_refl eq_refl))).
    by rewrite decide_True by done.
Qed.

(** Creating a name that exists succeeds without adding it: the call
    returns a new object, published in the inode table under a fresh inode,
    while lookups in the directory keep answering as before. *)
Theorem duplicate_create_orphans a i fl w dirino dn name symlink ops j m nm :
  repr a (i :: fl) w → clean w (i :: fl) → ops_ok a →
  a !! dirino = Some dn → an_type dn = DIRECTORY →
  a !! j = Some m → an_parent m = dirino → an_name m = name →
  ∃ p f w' rs, fsCreatefile dirino name symlink ops w = Done p w' ∧
    files w' !! i = Some (Some p) ∧ heap w' = <[p := f]> (heap w) ∧ f_name f = Some name ∧
    fs_fuse_lookup pid dirino nm w = Done rs w ∧ fs_fuse_lookup pid dirino nm w' = Done rs w'.
Proof.
  intros Hr Hc Hops Hd Hty Hj Hpar Hnm.
  pose proof (create_dup a i fl w dirino dn name symlink ops j m Hr Hc Hd Hty Hj Hpar Hnm)
    as (p & w' & Hrun & -> & Hext & Hfi & f & Hh & _ & Hn)%wp_done.
  pose proof (lookup_spec pid a _ w dirino dn nm Hr Hops Hd) as (rs & w1 & Hl & -> & _)%wp_done.
  exists (brk w), f, w', rs. split_and!; try done. by eapply lookup_frame.
Qed.

(** C31: a directory is listed completely and resumably. The listing is the
    directory, its parent and each child exactly once; a read that starts at
    the offset recorded in the last entry a reader took (the size of the
    first [n] entries) yields the bytes of the entries after it, as many as
    the reader asked for. *)
Theorem readdir_complete a fl w k kn :
  repr a fl w → ops_ok a → a !! k = Some kn → an_type kn = DIRECTORY →
  ∃ es, lists a k es ∧
    let l := listing k (an_parent kn) es in
    (Z.of_nat (dir_size l) < 2 ^ 63)%Z →
    ∀ n (size : Z), (0 <= size)%Z →
      wp (fs_fuse_readdir pid k size (Z.of_nat (dir_size (take n l))))
         (λ rs w', w' = w ∧
            rs = [ReplyBuf (take (Z.to_nat size) (dir_bytes (dir_size (take n l)) (drop n l)))]) w.
Proof.
  intros Hr Hops Hk Hty. destruct (readdir_spec pid _ _ _ _ _ Hr Hops Hk Hty) as (es & Hes & Hrd).
  exists es. split; [done|]. intros l Hl n size Hs. eapply wp_mono; [apply Hrd|].
  intros rs w' [-> ->]. split; [done|]. cbv zeta. fold l. clearbody l.
  assert (dir_size (take n l) ≤ dir_size l) as Hle.
  { pose proof (f_equal dir_size (take_drop n l)) as E. rewrite dir_size_app in E. lia. }
  rewrite reply_limited; rewrite ?dir_bytes_length; [|lia..].
  by rewrite Nat2Z.id, dir_bytes_resume.
Qed.

(** C34: every call the callbacks are written for is answered exactly once and
    leaves the file system as it was. *)
Theorem one_reply_per_call a fl w c :
  repr a fl w → ops_ok a → call_ok a c = true →
  wp (fs_fuse_ops pid c) (λ rs w', w' = w ∧ ∃ r, rs = [r]) w.
Proof. apply call_once. Qed.

(** the event loop stops exactly when it should. Whatever [epoll_wait]
    returns for the two registered sources, the loop returns true at the
    first signal of the exit list, false at the first error other than
    [EINTR] and [EINVAL], and otherwise keeps waiting; requests are served
    without changing the file system. *)
Theorem loop_verdict a fl k ws :
  repr a fl (kfs k) → ops_ok a → forallb (wait_ok a) ws = true →
  wp (wait_loop pid ws) (λ r k', r = verdict ws ∧ kfs k' = kfs k ∧ ksp k' = ksp k) k.
Proof. intros Hr Ho Hw. eapply wp_mono; [by eapply wait_loop_spec|]. by intros r k' (-> & ? & ? & _). Qed.

(** an inode on the free list is told from a live one by its link alone:
    [fs_fuse_getattr] replies [ENOENT] for every free inode except the last
    one of the list, whose link is null; for that one the program aborts. *)
Theorem getattr_free_inode a fl w i :
  repr a fl w → clean w fl → i ∈ fl →
  fs_fuse_getattr pid i w = if decide (last fl = Some i) then Aborted else Done [ReplyErr ENOENT] w.
Proof.
  intros Hr Hc Hi. pose proof (r_itab _ _ _ Hr) as Hit.
  pose proof (itab_lt _ _ _ Hit Hi) as Hlt. destruct (itab_entry _ _ _ Hit Hlt) as [e He].
  pose proof (chain_next _ _ _ _ _ (it_chain _ _ Hit) (it_nodup _ _ Hit) Hi He) as Hn.
  unfold fs_fuse_getattr, ino2inodesc, load_id, mbind, M_bind, getM. simpl.
  rewrite bool_decide_eq_true_2 by (rewrite (it_num _ _ Hit); lia). simpl. rewrite He. simpl.
  destruct (id_next e) eqn:En.
  - rewrite decide_False; [done|]. by rewrite <- Hn.
  - rewrite decide_True by (by apply Hn). by rewrite (Hc _ _ Hi He).
Qed.
End callbacks.

(** Reading [libkernel.so] in pieces of any positive size from offset 0,
    each read starting where the previous one ended, until a reply is empty,
    yields the decimal digits of the process id. *)
Theorem pid_file_roundtrip pid size :
  (0 < size)%Z → (Z.of_nat (String.length (pidstr pid)) < 2 ^ 63)%Z →
  String.string_of_list_ascii (read_chunks (S (String.length (pidstr pid))) pid size 0) = pidstr pid.
Proof.
  intros Hs Hl. rewrite (read_chunks_spec _ _ _ 0) by lia.
  by rewrite drop_0, String.string_of_list_ascii_of_string.
Qed.

(** A negative offset is never inside the buffer, so such a read gets
    nothing; an offset at or past the end gets nothing either. *)
Theorem reply_out_of_range buf (off size : Z) :
  (- 2 ^ 63 <= off < 2 ^ 63)%Z → (Z.of_nat (length buf) < 2 ^ 63)%Z → (0 <= size)%Z →
  (off < 0)%Z ∨ (Z.of_nat (length buf) <= off)%Z →
  fsFuseReplyBufLimited buf (Z.of_nat (length buf)) off size = ReplyBuf [].
Proof.
  intros Hoff Hl Hs [?|?]; [apply reply_limited_neg; lia|].
  rewrite reply_limited by lia. rewrite drop_ge by lia. by rewrite take_nil.
Qed.

(** The bits a handler leaves: it clears [m] when it is present. *)
Lemma drop_evnt_bits (e m : Z) :
  (if negb (e =? 0)%Z && has_evnt e m then clr_evnt e m else e) = Z.ldiff e m.
Proof.
  unfold has_evnt, clr_evnt. rewrite Z.ldiff_land.
  destruct (Z.eqb_spec e 0) as [->|He]; simpl; [by rewrite Z.land_0_l|].
  destruct (Z.eqb_spec (Z.land e m) 0) as [Hz|]; simpl; [|done].
  rewrite <- Z.ldiff_land. apply Z.bits_inj'. intros n Hn. rewrite Z.ldiff_spec.
  apply (f_equal (λ x, Z.testbit x n)) in Hz. rewrite Z.land_spec, Z.bits_0 in Hz.
  destruct (Z.testbit e n), (Z.testbit m n); done.
Qed.

(** The handler of the FUSE descriptor never ends the loop; when its
    descriptor is readable it receives once, and it processes what it received
    exactly when something was; of the event bits it consumes EPOLLIN, EPOLLHUP
    and EPOLLRDHUP (the branch for EPOLLERR clears EPOLLRDHUP again, so
    EPOLLERR is left over). *)
Theorem fsEvent_consumes {S} (receive : M S Z) (process : M S unit) (evnts : Z) s :
  fsEvent receive process evnts s =
  (_ ← (if has_evnt evnts EPOLLIN then
          n ← receive; if (0 <? n)%Z then process else mret tt
        else mret tt);
   mret (EVNT_HDLR_SUCCESS, Z.ldiff evnts (Z.lor EPOLLIN (Z.lor EPOLLHUP EPOLLRDHUP)))) s.
Proof.
  assert (∀ e, (if negb (e =? 0)%Z && has_evnt e EPOLLERR then clr_evnt e EPOLLRDHUP else e)
               = e ∨ (if negb (e =? 0)%Z && has_evnt e EPOLLERR then clr_evnt e EPOLLRDHUP else e)
               = Z.ldiff e EPOLLRDHUP) as Herr.
  { intros e. destruct (_ && _); [right|by left]. unfold clr_evnt. by rewrite Z.ldiff_land. }
  assert (∀ e, Z.ldiff (Z.ldiff (Z.ldiff e EPOLLHUP) EPOLLRDHUP) EPOLLRDHUP
               = Z.ldiff (Z.ldiff e EPOLLHUP) EPOLLRDHUP) as Hidem.
  { intros e. apply Z.bits_inj'. intros n Hn. rewrite !Z.ldiff_spec.
    by destruct (Z.testbit e n), (Z.testbit EPOLLHUP n), (Z.testbit EPOLLRDHUP n). }
  assert (∀ e, Z.ldiff (Z.ldiff (Z.ldiff e EPOLLIN) EPOLLHUP) EPOLLRDHUP
               = Z.ldiff e (Z.lor EPOLLIN (Z.lor EPOLLHUP EPOLLRDHUP))) as Hall.
  { intros e. apply Z.bits_inj'. intros n Hn. rewrite !Z.ldiff_spec, !Z.lor_spec.
    by destruct (Z.testbit e n), (Z.testbit EPOLLIN n), (Z.testbit EPOLLHUP n), (Z.testbit EPOLLRDHUP n). }
  unfold fsEvent. rewrite <- Hall. unfold mbind, M_bind. destruct (has_evnt evnts EPOLLIN) eqn:Hin.
  - destruct (receive s) as [n s1| | | |]; try done.
    destruct (0 <? n)%Z; [destruct (process s1) as [[] s2| | | |]; try done|]; simpl;
      rewrite !drop_evnt_bits; replace (clr_evnt evnts EPOLLIN) with (Z.ldiff evnts EPOLLIN)
        by (unfold clr_evnt; by rewrite Z.ldiff_land);
      match goal with |- context [Z.ldiff (Z.ldiff ?e EPOLLHUP) EPOLLRDHUP] =>
        destruct (Herr (Z.ldiff (Z.ldiff e EPOLLHUP) EPOLLRDHUP)) as [->| ->] end;
      by rewrite ?Hidem.
  - simpl. rewrite !drop_evnt_bits.
    assert (Z.ldiff evnts EPOLLIN = evnts) as ->.
    { rewrite <- drop_evnt_bits, Hin. by rewrite andb_false_r. }
    destruct (Herr (Z.ldiff (Z.ldiff evnts EPOLLHUP) EPOLLRDHUP)) as [->| ->]; by rewrite ?Hidem.
Qed.

Section startup.
Context `{UT : UtHash}.

(** The buffer size handed to [fsMountPoint] is [sizeof] of a pointer,
    eight, although the buffer has PATH_MAX bytes: initialisation with a
    mount point of eight characters or more ends the program, a shorter one
    is set and the descriptor of the session is ready. *)
Theorem fsInit_mount_point fsname dir w :
  let mp := match dir with Some d => d +:+ "/" +:+ fsname | None => fsname end in
  if decide (String.length mp < 8)
  then ∃ w', fsInit fsname true dir w = Done true w' ∧ mntpt (this w') = Some mp ∧
             ed (this w') = EvntDesc (Some fsEvent_ptr) (Some obj_fs)
  else ∃ w', fsInit fsname true dir w = Exited EXIT_FAILURE w' ∧ mntpt (this w') = None.
Proof.
  intros mp. unfold fsInit, fsMountPoint, snprintf_fits, sizeof_tmp. fold mp. clearbody mp.
  destruct (decide _), (Z.ltb_spec (Z.of_nat (String.length mp)) 8); try lia;
    eexists; (split; [reflexivity|done]).
Qed.
End startup.

(** Of the signals that are blocked and routed to the signal descriptor,
    every one but SIGQUIT ends the loop; SIGQUIT is read and ignored. (SIGKILL,
    which cannot be blocked, is in the handler's list instead.) *)
Theorem blocked_signals_exit s :
  s ∈ sigAddTermSignals ∅ → (exit_signal s = false ↔ s = SIGQUIT).
Proof.
  rewrite term_signals_spec. intros [Hs|Hs]; [|by apply not_elem_of_empty in Hs].
  repeat (apply elem_of_cons in Hs as [->|Hs]; [vm_compute; split; congruence|]).
  by apply elem_of_nil in Hs.
Qed.

(** ** The properties at concrete inputs *)

(** Entries that consist of the name alone. *)
#[local] Instance name_fuselib : FuseLib := {
  de_size := String.length;
  de_bytes nm _ _ := String.list_ascii_of_string nm;
  de_length nm _ _ := length_list_ascii nm;
}.

#[local] Existing Instances al_uthash al_uthash_laws.

(** The requests that use up the whole table. *)
Definition full_reqs : list creq :=
  (λ i, CFile 1 (pretty.pretty i) None fs_libkernel_ops) <$> seq 2 254.

Lemma fs_lifecycle_witness :
  wp (ok ← boot "libk" (Some "/t") demo_env "kld" (λ _, run_creqs demo_reqs);
      r ← fsCleanup; mret (ok, r))
     (λ r w', r = (true, true) ∧ cleaned w') fsw0.
Proof.
  apply (fs_lifecycle "libk" (Some "/t") "/t/libk" demo_env "kld" demo_reqs demo_tree).
  - reflexivity.
  - split_and!; done.
  - apply demo_creates.
Defined.

Lemma creations_refine_tree_witness :
  ∃ w, pristine 5 demo_tree w ∧
       wp (run_creqs [CFile 2 "h" None fs_libkernel_ops])
          (λ _ w', pristine 6 (<[5 := file_node 2 "h" None fs_libkernel_ops]> demo_tree) w' ∧
                   mount_part w' = mount_part w) w.
Proof.
  destruct demo_run as (w & _ & Hp). exists w. split; [exact Hp|].
  apply (creations_refine_tree [CFile 2 "h" None fs_libkernel_ops] 5 demo_tree); [exact Hp|].
  vm_compute. reflexivity.
Defined.

Lemma demo_file i n :
  demo_tree !! i = Some n →
  ∃ w p, pristine 5 demo_tree w ∧ files w !! i = Some (Some p).
Proof.
  intros Hi. destruct demo_run as (w & _ & Hp).
  destruct (r_file _ _ _ (pr_repr _ _ _ Hp) _ _ Hi) as (p & f & Hf & _). eauto.
Qed.

Lemma remove_refines_tree_witness :
  ∃ w p, wp (fsRemoveitem p true)
    (λ r w', r = true ∧ ∃ fl', repr (a_remove (S INO_NUM) true 3 demo_tree) fl' w') w.
Proof.
  destruct (demo_file 3 _ eq_refl) as (w & p & Hp & Hf). exists w, p.
  exact (remove_refines_tree demo_tree _ w 3 _ p true (pr_repr _ _ _ Hp) eq_refl Hf).
Defined.

Lemma create_after_remove_aborts_witness :
  ∃ w p w', fsRemoveitem p false w = Done true w' ∧
            fsCreatefile 1 "new" None fs_libkernel_ops w' = Aborted.
Proof.
  destruct (demo_file 4 _ eq_refl) as (w & p & Hp & Hf). exists w, p.
  destruct (create_after_remove_aborts demo_tree _ w 4 _ p false (pr_repr _ _ _ Hp) eq_refl Hf
              ltac:(by vm_compute)) as (w' & Hrun & _ & Hfile).
  exists w'. split; [exact Hrun|apply Hfile].
Defined.

Lemma inode_exhaustion_witness :
  ∃ w, fsCreatefile 1 "one too many" None fs_libkernel_ops w = Aborted.
Proof.
  destruct (a_creates 2 root_tree full_reqs) as [a|] eqn:Ha; [|exfalso; revert Ha; by vm_compute].
  pose proof (boot_spec "libk" None "libk" demo_env "kld" _ _ _ eq_refl
      ltac:(split_and!; done) (run_creqs_populates _ _ Ha)) as Hw.
  destruct (proj1 (wp_done _ _ _) Hw) as (r & w & _ & _ & Hp & _). exists w.
  assert (2 + length full_reqs = INO_NUM) as Hn. { vm_compute. reflexivity. } rewrite Hn in Hp.
  apply (inode_exhaustion a w Hp).
Defined.

Lemma inode_alloc_free_witness :
  ∃ w, wp (r ← inoalloc; inofree r) (λ _ w', w' = w) w.
Proof.
  destruct demo_run as (w & _ & Hp).
  destruct (pristine_next _ _ _ Hp ltac:(by apply Nat.ltb_lt; vm_compute)) as [Hr Hc]. exists w.
  apply (inode_alloc_free w 5 _ (r_itab _ _ _ Hr)).
  exact (clean_head _ _ _ (r_itab _ _ _ Hr) Hc).
Defined.

Lemma lookup_refines_tree_witness :
  ∃ w, wp (fs_fuse_lookup 42 2 "f")
          (λ rs w', w' = w ∧ rs = [ReplyEntry 3 (Stat 3 (Z.lor S_IFREG 0x124) 1 2)]) w.
Proof.
  destruct demo_run as (w & _ & Hp). exists w.
  exact (lookup_refines_tree 42 demo_tree _ w 2 _ "f" (pr_repr _ _ _ Hp) demo_ops eq_refl).
Defined.

Lemma create_lookup_roundtrip_witness :
  ∃ w, wp (_ ← fsCreatefile 2 "h" None fs_libkernel_ops; fs_fuse_lookup 42 2 "h")
          (λ rs _, rs = [ReplyEntry 5 (Stat 5 (Z.lor S_IFREG 0x124) 1 (pidSize 42))]) w.
Proof.
  destruct demo_run as (w & _ & Hp). exists w.
  eapply (create_lookup_roundtrip 42 5 demo_tree _ w 2 "h" None Hp demo_ops).
  vm_compute. reflexivity.
Defined.

Lemma duplicate_create_orphans_witness :
  ∃ w p w' rs, fsCreatefile 2 "f" None fs_libkernel_ops w = Done p w' ∧
    fs_fuse_lookup 42 2 "f" w = Done rs w ∧ fs_fuse_lookup 42 2 "f" w' = Done rs w'.
Proof.
  destruct demo_run as (w & _ & Hp).
  destruct (pristine_next _ _ _ Hp ltac:(by apply Nat.ltb_lt; vm_compute)) as [Hr Hc].
  destruct (duplicate_create_orphans 42 demo_tree 5 _ w 2 _ "f" None fs_libkernel_ops 3 _ "f"
              Hr Hc demo_ops eq_refl eq_refl eq_refl eq_refl eq_refl)
    as (p & f & w' & rs & Hrun & _ & _ & _ & Hl & Hl').
  exists w, p, w', rs. split_and!; [exact Hrun|exact Hl|exact Hl'].
Defined.

Lemma readdir_complete_witness :
  ∃ w es, lists demo_tree 1 es ∧
    ((Z.of_nat (dir_size (listing 1 0 es)) < 2 ^ 63)%Z →
     wp (fs_fuse_readdir 42 1 100 (Z.of_nat (dir_size (take 2 (listing 1 0 es)))))
        (λ rs w', w' = w ∧
           rs = [ReplyBuf (take 100 (dir_bytes (dir_size (take 2 (listing 1 0 es)))
                                               (drop 2 (listing 1 0 es))))]) w).
Proof.
  destruct demo_run as (w & _ & Hp).
  destruct (readdir_complete 42 demo_tree _ w 1 _ (pr_repr _ _ _ Hp) demo_ops eq_refl eq_refl)
    as (es & Hes & Hrd).
  exists w, es. split; [exact Hes|]. intros Hl. exact (Hrd Hl 2 100%Z ltac:(lia)).
Defined.

Lemma one_reply_per_call_witness :
  ∃ w, wp (fs_fuse_ops 42 (COpen 3 2)) (λ rs w', w' = w ∧ ∃ r, rs = [r]) w.
Proof.
  destruct demo_run as (w & _ & Hp). exists w.
  exact (one_reply_per_call 42 demo_tree _ w (COpen 3 2) (pr_repr _ _ _ Hp) demo_ops eq_refl).
Defined.

(** A request, an interrupted wait, then SIGTERM. *)
Definition demo_waits : list wait :=
  [WReady [EpollEvent (Some (EvntDesc (Some fsEvent_ptr) (Some obj_fs))) EPOLLIN 64 (CGetattr 1) None];
   WFail EINTR;
   WReady [EpollEvent (Some (EvntDesc (Some sigEvent_ptr) (Some obj_sigproc))) EPOLLIN 0 (CGetattr 1)
                      (Some SIGTERM)];
   WFail 9].

Lemma loop_verdict_witness :
  ∃ k, wp (wait_loop 42 demo_waits) (λ r k', r = Some true ∧ kfs k' = kfs k ∧ ksp k' = ksp k) k.
Proof.
  destruct demo_run as (w & _ & Hp).
  exists (KldW w (Sigproc (EvntDesc (Some sigEvent_ptr) (Some obj_sigproc)) ∅ 5) [] ∅).
  exact (loop_verdict 42 demo_tree _ (KldW w _ [] ∅) demo_waits (pr_repr _ _ _ Hp) demo_ops eq_refl).
Defined.

Lemma getattr_free_inode_witness :
  ∃ w, fs_fuse_getattr 42 255 w = Aborted ∧ fs_fuse_getattr 42 254 w = Done [ReplyErr ENOENT] w.
Proof.
  destruct demo_run as (w & _ & [Hr Hc]). exists w.
  rewrite (getattr_free_inode 42 demo_tree _ w 255 Hr Hc), (getattr_free_inode 42 demo_tree _ w 254 Hr Hc).
  - by vm_compute.
  - apply (bool_decide_unpack _). by vm_compute.
  - apply (bool_decide_unpack _). by vm_compute.
Defined.

Lemma pid_file_roundtrip_witness :
  String.string_of_list_ascii (read_chunks (S (String.length (pidstr 4711))) 4711 3 0) = "4711".
Proof. apply (pid_file_roundtrip 4711 3); by vm_compute. Defined.

Lemma reply_out_of_range_witness :
  fsFuseReplyBufLimited (String.list_ascii_of_string "42") 2 (-1) 10 = ReplyBuf [].
Proof.
  apply (reply_out_of_range (String.list_ascii_of_string "42") (-1) 10);
    [lia|by vm_compute|lia|left; lia].
Defined.

Lemma blocked_signals_exit_witness : exit_signal SIGQUIT = false ∧ exit_signal SIGTERM ≠ false.
Proof.
  split.
  - apply (blocked_signals_exit SIGQUIT); [|done]. apply (bool_decide_unpack _). by vm_compute.
  - intros H%(blocked_signals_exit SIGTERM); [done|]. apply (bool_decide_unpack _). by vm_compute.
Defined.

(** a second file with an existing name is accepted, but the cleanup that
    follows aborts: the orphan is not in its directory. *)
Theorem duplicate_create_breaks_cleanup :
  (_ ← boot "libk" None demo_env "kld" (λ _, run_creqs (demo_reqs ++ [CFile 2 "f" None fs_libkernel_ops]));
   fsCleanup) fsw0 = Aborted.
Proof. vm_compute. reflexivity. Qed.
