(* ===== verification/KoSpec.v ===== *)
(** * Kernel object specifications ([kld/main.c]: [modnmfromfnm], [parsekospec])

    A specification is [kofile[,modnm[,kldopts]]]. The code cuts a copy of it in
    place at the commas; here the copy is a list of characters with its
    terminator, pointers into it are indices, and a C string is read from an
    index up to the next terminator. *)
From Stdlib Require Import Ascii.
From S2P Require Import Prelude.

Abbreviation chars := (list Ascii.ascii).
Definition NUL : Ascii.ascii := Ascii.zero.
Definition str (l : chars) : string := String.string_of_list_ascii l.
Definition chr (s : string) : chars := String.list_ascii_of_string s.

(** The characters before the first terminator. *)
Fixpoint upto_nul (l : chars) : chars :=
  match l with
  | [] => []
  | c :: l => if decide (c = NUL) then [] else c :: upto_nul l
  end.

(** The C string at index [i] of a buffer. *)
Definition cstr_at (buf : chars) (i : nat) : chars := upto_nul (drop i buf).

(** A copy of a string, as [strdup] makes it. *)
Definition cbuf (s : chars) : chars := s ++ [NUL].

Definition no_nul (s : chars) : Prop := NUL ∉ s.

(** ** [basename] and [dirname] of libgen *)
Definition SLASH : Ascii.ascii := "/"%char.

(** Everything up to and excluding the trailing slashes. *)
Fixpoint strip_slashes (l : chars) : chars :=
  match l with
  | [] => []
  | c :: l =>
    match strip_slashes l with
    | [] => if decide (c = SLASH) then [] else [c]
    | l' => c :: l'
    end
  end.

(** The part after the last slash, and the part up to it. *)
Fixpoint after_slash (l : chars) : chars :=
  match l with
  | [] => []
  | c :: l' => if decide (SLASH ∈ l') then after_slash l' else if decide (c = SLASH) then l' else l
  end.
Fixpoint before_slash (l : chars) : chars :=
  match l with
  | [] => []
  | c :: l' => if decide (SLASH ∈ l') then c :: before_slash l' else []
  end.

Definition basename (l : chars) : chars :=
  match l, strip_slashes l with
  | [], _ => ["."%char]
  | _, [] => [SLASH]
  | _, s => after_slash s
  end.

Definition dirname (l : chars) : chars :=
  match l, strip_slashes l with
  | [], _ => ["."%char]
  | _, [] => [SLASH]
  | _, s => if decide (SLASH ∈ s) then
              match strip_slashes (before_slash s) with [] => [SLASH] | d => d end
            else ["."%char]
  end.

(** ** [modnmfromfnm] *)
Definition modnmfromfnm (fnm : chars) : chars :=
  let base := cbuf (basename fnm) in
  let i := length (upto_nul base) in
  let base :=
    if (3 <? i) && bool_decide (base !! (i - 3) = Some "."%char)
       && bool_decide (base !! (i - 2) = Some "k"%char) && bool_decide (base !! (i - 1) = Some "o"%char)
    then <[i - 3 := NUL]> base else base in
  cstr_at base 0.

(** ** [parsekospec] *)
Definition COMMA : Ascii.ascii := ","%char.
Definition KLDOPTS_DFLT : chars := chr "EXCLUSIVE".

Record kospec := KoSpec { ks_fnm : chars; ks_modnm : chars; ks_kldopts : chars }.

(** The loop that cuts the copy at the commas: the number of commas, where the
    second and the third field start; [None] at a third comma. *)
Fixpoint cut_commas (fuel : nat) (tmp : chars) (i commas : nat) (n o : option nat)
  : option (chars * nat * option nat * option nat) :=
  match fuel with
  | 0 => Some (tmp, commas, n, o)
  | S fuel =>
    match tmp !! i with
    | None => Some (tmp, commas, n, o)
    | Some c =>
      if decide (c = NUL) then Some (tmp, commas, n, o)
      else if decide (c = COMMA) then
        let tmp := <[i := NUL]> tmp in
        let commas := S commas in
        if decide (commas = 1) then cut_commas fuel tmp (S i) commas (Some (S i)) o
        else if decide (commas = 2) then cut_commas fuel tmp (S i) commas n (Some (S i))
        else None
      else cut_commas fuel tmp (S i) commas n o
    end
  end.

(** A field that was given and is not empty, or else the default. *)
Definition field_or (tmp : chars) (p : option nat) (dflt : chars) : chars :=
  match p with
  | Some i => match cstr_at tmp i with [] => dflt | s => s end
  | None => dflt
  end.

Definition parsekospec (spec : chars) : option kospec :=
  let tmp := cbuf spec in
  match cut_commas (length tmp) tmp 0 0 None None with
  | None => None
  | Some (tmp, commas, n, o) =>
    let f := cstr_at tmp 0 in
    Some match commas with
         | 0 => KoSpec f (modnmfromfnm f) KLDOPTS_DFLT
         | 1 => KoSpec f (field_or tmp n (modnmfromfnm f)) KLDOPTS_DFLT
         | _ => KoSpec f (field_or tmp n (modnmfromfnm f)) (field_or tmp o KLDOPTS_DFLT)
         end
  end.

(** ** What parsing means: splitting at the commas *)
Fixpoint split_commas (l : chars) : list chars :=
  match l with
  | [] => [[]]
  | c :: l =>
    if decide (c = COMMA) then [] :: split_commas l
    else match split_commas l with
         | [] => [[c]]
         | f :: fs => (c :: f) :: fs
         end
  end.

Definition or_default (s dflt : chars) : chars := match s with [] => dflt | _ => s end.

Definition kospec_of (spec : chars) : option kospec :=
  match split_commas spec with
  | [f] => Some (KoSpec f (modnmfromfnm f) KLDOPTS_DFLT)
  | [f; n] => Some (KoSpec f (or_default n (modnmfromfnm f)) KLDOPTS_DFLT)
  | [f; n; o] => Some (KoSpec f (or_default n (modnmfromfnm f)) (or_default o KLDOPTS_DFLT))
  | _ => None
  end.

(** The inverse, for fields without commas. *)
Definition print_kospec (k : kospec) : chars :=
  ks_fnm k ++ [COMMA] ++ ks_modnm k ++ [COMMA] ++ ks_kldopts k.

(** ** Lemmas *)
Lemma no_nul_app s t : no_nul (s ++ t) ↔ no_nul s ∧ no_nul t.
Proof. unfold no_nul. rewrite elem_of_app. tauto. Qed.

Lemma no_nul_cons c s : no_nul (c :: s) ↔ c ≠ NUL ∧ no_nul s.
Proof. unfold no_nul. rewrite elem_of_cons. naive_solver. Qed.

Lemma upto_nul_app s t : no_nul s → upto_nul (s ++ NUL :: t) = s.
Proof.
  induction s as [|c s IH]; simpl; [done|].
  intros [Hc Hs]%no_nul_cons. rewrite decide_False by done. by rewrite IH.
Qed.

Lemma cstr_at_app pre s t : no_nul s → cstr_at (pre ++ s ++ NUL :: t) (length pre) = s.
Proof. intros Hs. unfold cstr_at. rewrite drop_app_length. by apply upto_nul_app. Qed.

(** The scan passes over a field. *)
Lemma cut_field f k pre rest i c n o :
  no_nul f → COMMA ∉ f → i = length pre →
  cut_commas (length f + k) (pre ++ f ++ rest) i c n o
  = cut_commas k (pre ++ f ++ rest) (i + length f) c n o.
Proof.
  revert pre i. induction f as [|x f IH]; intros pre i Hn Hc ->; simpl; [by rewrite Nat.add_0_r|].
  apply no_nul_cons in Hn as [Hx Hn]. apply not_elem_of_cons in Hc as [Hxc Hc].
  rewrite lookup_app_r, Nat.sub_diag by lia. simpl.
  rewrite decide_False by done. rewrite decide_False by congruence.
  rewrite (cons_middle x), (assoc_L (++)).
  rewrite (IH (pre ++ [x])); [|done..|rewrite length_app; simpl; lia]. f_equal. lia.
Qed.

(** The first comma of a buffer [pre ++ COMMA :: rest]. *)
Lemma cut_comma k pre rest i c n o :
  i = length pre →
  cut_commas (S k) (pre ++ COMMA :: rest) i c n o =
  if decide (c = 0) then cut_commas k (pre ++ NUL :: rest) (S i) 1 (Some (S i)) o
  else if decide (c = 1) then cut_commas k (pre ++ NUL :: rest) (S i) 2 n (Some (S i))
  else None.
Proof.
  intros ->. simpl. rewrite lookup_app_r, Nat.sub_diag by lia. simpl.
  rewrite insert_app_r_alt, Nat.sub_diag by lia. simpl.
  destruct c as [|[|c]]; simpl; done.
Qed.

Lemma cut_end k pre i c n o :
  i = length pre → cut_commas k (pre ++ [NUL]) i c n o = Some (pre ++ [NUL], c, n, o).
Proof.
  intros ->. destruct k; simpl; [done|]. by rewrite lookup_app_r, Nat.sub_diag by lia.
Qed.

Lemma split_nonempty l : split_commas l ≠ [].
Proof. destruct l as [|c l]; simpl; [done|]. by repeat case_match. Qed.

(** A split taken apart. *)
Lemma split_cons spec f fs :
  split_commas spec = f :: fs →
  COMMA ∉ f ∧
  match fs with
  | [] => spec = f
  | _ => ∃ rest, spec = f ++ COMMA :: rest ∧ split_commas rest = fs
  end.
Proof.
  revert f fs. induction spec as [|c l IH]; intros f fs; simpl.
  - intros [= <- <-]. split; [apply not_elem_of_nil|done].
  - destruct (decide (c = COMMA)) as [->|Hc].
    + intros [= <- <-]. split; [apply not_elem_of_nil|].
      destruct (split_commas l) eqn:E; [by apply split_nonempty in E|]. by exists l.
    + destruct (split_commas l) as [|g gs] eqn:E; [by apply split_nonempty in E|].
      intros [= <- <-]. destruct (IH _ _ eq_refl) as [Hg Hrest]. split.
      * apply not_elem_of_cons. done.
      * destruct gs; [by rewrite Hrest|]. destruct Hrest as (rest & -> & Hr). by exists rest.
Qed.

Lemma field_or_app pre s t i dflt :
  no_nul s → i = length pre → field_or (pre ++ s ++ NUL :: t) (Some i) dflt = or_default s dflt.
Proof. intros Hs ->. unfold field_or. rewrite cstr_at_app by done. by destruct s. Qed.

(** The buffer once a field was passed and the comma after it cut. *)
Definition cut1 (pre f : chars) : chars := pre ++ f ++ [NUL].

Lemma cut_field_comma f k pre r c n o :
  no_nul f → COMMA ∉ f →
  cut_commas (length f + S k) (pre ++ f ++ COMMA :: r) (length pre) c n o =
  let pre' := cut1 pre f in
  if decide (c = 0) then cut_commas k (pre' ++ r) (length pre') 1 (Some (length pre')) o
  else if decide (c = 1) then cut_commas k (pre' ++ r) (length pre') 2 n (Some (length pre'))
  else None.
Proof.
  intros Hn Hc. rewrite cut_field by done.
  rewrite (assoc_L (++)), cut_comma by (by rewrite length_app).
  unfold cut1. cbv zeta. rewrite !length_app, <- !(assoc_L (++)). simpl.
  by replace (length pre + (length f + 1)) with (S (length pre + length f)) by lia.
Qed.

Lemma cut_field_end f k pre c n o :
  no_nul f → COMMA ∉ f →
  cut_commas (length f + k) (pre ++ f ++ [NUL]) (length pre) c n o = Some (cut1 pre f, c, n, o).
Proof.
  intros Hn Hc. rewrite cut_field by done. unfold cut1.
  rewrite (assoc_L (++)), cut_end by (by rewrite length_app). done.
Qed.

(** Reading a field of the cut buffer. *)
Lemma cut1_app pre f r : cut1 pre f ++ r = pre ++ f ++ NUL :: r.
Proof. unfold cut1. by rewrite <- !(assoc_L (++)). Qed.

(** A specification with the fields [fs] as it is scanned. *)
Fixpoint join_commas (f : chars) (fs : list chars) : chars :=
  match fs with
  | [] => f
  | g :: gs => f ++ COMMA :: join_commas g gs
  end.

Lemma split_join spec f fs :
  split_commas spec = f :: fs → spec = join_commas f fs ∧ Forall (λ g, COMMA ∉ g) (f :: fs).
Proof.
  revert spec f. induction fs as [|g gs IH]; intros spec f Hs; apply split_cons in Hs as [Hf Hs].
  - by split; [|repeat constructor].
  - destruct Hs as (rest & -> & Hs). apply IH in Hs as [-> Hgs]. by split; [|constructor].
Qed.

Lemma no_nul_join f fs : no_nul (join_commas f fs) → Forall no_nul (f :: fs).
Proof.
  revert f. induction fs as [|g gs IH]; intros f; simpl; [by repeat constructor|].
  intros [Hf [_ Hg]%no_nul_cons]%no_nul_app. constructor; [done|]. by apply IH.
Qed.

(** The scan of one, two, three and more fields. *)
Section scans.
Context (f n o : chars).
Context (Hnf : no_nul f) (Hf : COMMA ∉ f) (Hnn : no_nul n) (Hn : COMMA ∉ n)
        (Hno : no_nul o) (Ho : COMMA ∉ o).

Lemma scan1 k : cut_commas (length f + k) (f ++ [NUL]) 0 0 None None = Some (f ++ [NUL], 0, None, None).
Proof. exact (cut_field_end f k [] 0 None None Hnf Hf). Qed.

Lemma scan_first k r :
  cut_commas (length f + S k) (f ++ COMMA :: r) 0 0 None None
  = cut_commas k (cut1 [] f ++ r) (length (cut1 [] f)) 1 (Some (length (cut1 [] f))) None.
Proof. exact (cut_field_comma f k [] r 0 None None Hnf Hf). Qed.

Lemma scan2 k :
  cut_commas (length f + S (length n + k)) (f ++ COMMA :: n ++ [NUL]) 0 0 None None
  = Some (cut1 (cut1 [] f) n, 1, Some (length (cut1 [] f)), None).
Proof. by rewrite scan_first, cut_field_end. Qed.

Lemma scan_second k r :
  cut_commas (length f + S (length n + S k)) (f ++ COMMA :: n ++ COMMA :: r) 0 0 None None
  = cut_commas k (cut1 (cut1 [] f) n ++ r) (length (cut1 (cut1 [] f) n)) 2
      (Some (length (cut1 [] f))) (Some (length (cut1 (cut1 [] f) n))).
Proof. by rewrite scan_first, cut_field_comma. Qed.

Lemma scan3 k :
  cut_commas (length f + S (length n + S (length o + k)))
             (f ++ COMMA :: n ++ COMMA :: o ++ [NUL]) 0 0 None None
  = Some (cut1 (cut1 (cut1 [] f) n) o, 2, Some (length (cut1 [] f)),
          Some (length (cut1 (cut1 [] f) n))).
Proof. by rewrite scan_second, cut_field_end. Qed.

Lemma scan4 k r :
  cut_commas (length f + S (length n + S (length o + S k)))
             (f ++ COMMA :: n ++ COMMA :: o ++ COMMA :: r) 0 0 None None = None.
Proof. by rewrite scan_second, cut_field_comma. Qed.

(** The fields read back from the cut buffers. *)
Lemma read_first r : cstr_at (f ++ NUL :: r) 0 = f.
Proof. by apply (cstr_at_app []). Qed.

Lemma read_first2 : cstr_at (cut1 (cut1 [] f) n) 0 = f.
Proof. unfold cut1. simpl. rewrite <- !(assoc_L (++)). apply read_first. Qed.

Lemma read_first3 : cstr_at (cut1 (cut1 (cut1 [] f) n) o) 0 = f.
Proof. unfold cut1. simpl. rewrite <- !(assoc_L (++)). apply read_first. Qed.

Lemma read_second2 dflt :
  field_or (cut1 (cut1 [] f) n) (Some (length (cut1 [] f))) dflt = or_default n dflt.
Proof. rewrite <- (app_nil_r (cut1 _ n)), cut1_app. by apply field_or_app. Qed.

Lemma read_second3 dflt :
  field_or (cut1 (cut1 (cut1 [] f) n) o) (Some (length (cut1 [] f))) dflt = or_default n dflt.
Proof. unfold cut1 at 1. rewrite cut1_app. by apply field_or_app. Qed.

Lemma read_third dflt :
  field_or (cut1 (cut1 (cut1 [] f) n) o) (Some (length (cut1 (cut1 [] f) n))) dflt
  = or_default o dflt.
Proof. rewrite <- (app_nil_r (cut1 _ o)), cut1_app. by apply field_or_app. Qed.
End scans.

(** Parsing in place is splitting at the commas. *)
Lemma parsekospec_split spec : no_nul spec → parsekospec spec = kospec_of spec.
Proof.
  intros Hnn. unfold parsekospec, kospec_of, cbuf.
  destruct (split_commas spec) as [|f fs] eqn:Hs; [by apply split_nonempty in Hs|].
  apply split_join in Hs as [-> Hc]. apply no_nul_join in Hnn.
  apply Forall_cons in Hc as [Hf Hc], Hnn as [Hnf Hnn]. destruct fs as [|n fs]; simpl.
  { rewrite length_app, scan1 by done. by rewrite read_first. }
  apply Forall_cons in Hc as [Hn Hc], Hnn as [Hnn Hno].
  rewrite <- (assoc_L (++)), length_app. simpl. destruct fs as [|o fs]; simpl.
  { rewrite length_app, scan2 by done. by rewrite read_second2, read_first2. }
  apply Forall_cons in Hc as [Ho Hc], Hno as [Hno Hnx].
  rewrite <- (assoc_L (++)), length_app. simpl. destruct fs as [|x fs]; simpl.
  { rewrite length_app, scan3 by done. by rewrite read_third, read_second3, read_first3. }
  rewrite <- (assoc_L (++)), length_app. simpl. by rewrite scan4.
Qed.

Lemma split_app f r : COMMA ∉ f → split_commas (f ++ COMMA :: r) = f :: split_commas r.
Proof.
  induction f as [|c f IH]; simpl; [done|]. intros [Hc Hf]%not_elem_of_cons.
  rewrite decide_False by congruence. by rewrite IH.
Qed.

Lemma split_one f : COMMA ∉ f → split_commas f = [f].
Proof.
  induction f as [|c f IH]; simpl; [done|]. intros [Hc Hf]%not_elem_of_cons.
  rewrite decide_False by congruence. by rewrite IH.
Qed.

(** A specification whose fields can be written down. *)
Record printable (k : kospec) : Prop := {
  pk_nul : no_nul (ks_fnm k) ∧ no_nul (ks_modnm k) ∧ no_nul (ks_kldopts k);
  pk_comma : COMMA ∉ ks_fnm k ∧ COMMA ∉ ks_modnm k ∧ COMMA ∉ ks_kldopts k;
  pk_given : ks_modnm k ≠ [] ∧ ks_kldopts k ≠ [];
}.

Lemma parse_print k : printable k → parsekospec (print_kospec k) = Some k.
Proof.
  intros [(N1 & N2 & N3) (C1 & C2 & C3) [G1 G2]]. unfold print_kospec. simpl.
  rewrite parsekospec_split.
  - unfold kospec_of. rewrite split_app, split_app, split_one by done.
    destruct k as [f [|] [|]]; done.
  - apply no_nul_app. split; [done|]. apply no_nul_cons. split; [done|].
    apply no_nul_app. split; [done|]. by apply no_nul_cons.
Qed.

(** ** Base names *)
Lemma strip_slashes_app l s :
  s ≠ [] → SLASH ∉ s → strip_slashes (l ++ s) = l ++ s.
Proof.
  intros Hne Hs. induction l as [|c l IH]; simpl.
  - clear Hne. induction s as [|c s IH]; simpl; [done|]. apply not_elem_of_cons in Hs as [Hc Hs].
    rewrite (IH Hs). destruct s; [|done]. by rewrite decide_False by congruence.
  - rewrite IH. by destruct (l ++ s) eqn:E; [apply app_eq_nil in E as [_ ->]|].
Qed.

Lemma after_slash_app d s : SLASH ∉ s → after_slash (d ++ SLASH :: s) = s.
Proof.
  intros Hs. induction d as [|c d IH]; simpl.
  - by rewrite decide_False.
  - rewrite decide_True; [done|]. apply elem_of_app. right. by left.
Qed.

Lemma basename_app d s : s ≠ [] → SLASH ∉ s → basename (d ++ SLASH :: s) = s.
Proof.
  intros Hne Hs. assert (strip_slashes (d ++ SLASH :: s) = d ++ SLASH :: s) as Hst.
  { rewrite (cons_middle SLASH), (assoc_L (++)). by apply strip_slashes_app. }
  unfold basename. destruct (d ++ SLASH :: s) as [|c l] eqn:E; [by destruct d|].
  rewrite Hst, <- E. by apply after_slash_app.
Qed.

Lemma upto_cbuf s : no_nul s → upto_nul (cbuf s) = s.
Proof. intros Hs. unfold cbuf. by apply upto_nul_app. Qed.

(** The module name of [d/b.ko] is [b]. *)
Lemma modnm_ko d b :
  b ≠ [] → SLASH ∉ b → no_nul b → modnmfromfnm (d ++ SLASH :: b ++ chr ".ko") = b.
Proof.
  intros Hne Hs Hn. unfold modnmfromfnm.
  assert (SLASH ∉ b ++ chr ".ko") as Hs'.
  { rewrite elem_of_app. intros [?|H]; [done|]. revert H. by apply (bool_decide_unpack _). }
  assert (no_nul (b ++ chr ".ko")) as Hn'.
  { apply no_nul_app. split; [done|]. by apply (bool_decide_unpack _). }
  rewrite basename_app; [|by destruct b|done]. rewrite upto_cbuf by done.
  rewrite length_app. change (length (chr ".ko")) with 3. unfold cbuf.
  assert (length b > 0) by (destruct b; [done|simpl; lia]).
  rewrite <- !(assoc_L (++)).
  rewrite (proj2 (Nat.ltb_lt 3 (length b + 3))) by lia.
  assert (∀ l k, (b ++ l) !! (length b + k) = l !! k) as Hl.
  { intros l k. rewrite lookup_app_r by lia. f_equal. lia. }
  replace (length b + 3 - 3) with (length b + 0) by lia.
  replace (length b + 3 - 2) with (length b + 1) by lia.
  replace (length b + 3 - 1) with (length b + 2) by lia. rewrite !Hl. simpl.
  rewrite insert_app_r_alt by lia. replace (length b + 0 - length b) with 0 by lia. simpl.
  by apply (cstr_at_app []).
Qed.
