(* ===== verification/Bos.v ===== *)
(** * Binary objects and globals ([kld/globals.h], [kld/main.c])

    The globals of the tool, the search for kernel objects, the table of binary
    objects with the descriptors they hold open, start-up and exit. The
    process's descriptor table is the set [g_fds] (without the descriptor that libfuse
    opens and closes for itself); [g_emptied] lists the files that were created or
    emptied; the rest of the system is the record [sys]. *)
From Stdlib Require Import Ascii.
From S2P Require Import Prelude UtHash Event Fs FsLife Sigproc KoSpec.

(** What the system answers: which paths can be opened for reading or created
    for writing, [realpath], which paths are directories, [getcwd], [getpid],
    the result of [sigprocmask] and whether [signalfd] succeeds. *)
Record sys := Sys {
  sys_readable : chars → bool;
  sys_writable : chars → bool;
  sys_realpath : chars → option chars;
  sys_isdir : chars → bool;
  sys_cwd : option chars;
  sys_pid : Z;
  sys_sigprocmask : Z;
  sys_signalfd : bool;
}.

(** [bo_t] *)
Record bo := Bo {
  bo_kofnm : option chars;
  bo_sofnm : option chars;
  bo_modnm : chars;
  bo_kldopts : chars;
  bo_kofd : Z;
  bo_sofd : Z;
}.

Definition PATH_MAX : nat := 4096.

(** [snprintf] into a buffer of [PATH_MAX] bytes. *)
Definition path_of (l : chars) : chars := take (PATH_MAX - 1) l.

(** [snprintf(fullpath, PATH_MAX, "%s/%s", dir, kofnm)] *)
Definition ko_path (kofnm d : chars) : chars := path_of (d ++ [SLASH] ++ kofnm).

Section bos.
Context `{UT : UtHash}.

(** [globals_t]; [g_dirs] is the array of [g_dirmax] entries. *)
Record gbls := Gbls {
  g_fs : fsw;
  g_sigproc : sigproc;
  g_bos : htab chars bo;
  g_executable : option chars;
  g_dirs : list (option chars);
  g_pid : Z;
  g_dirc : nat;
  g_verbose : Z;
  g_startfs : bool;
  g_prockallsyms : bool;
  g_procbos : bool;
  g_fds : gset Z;
  g_emptied : list chars;
}.

Definition set_bos (b : htab chars bo) (fds : gset Z) (g : gbls) : gbls :=
  Gbls (g_fs g) (g_sigproc g) b (g_executable g) (g_dirs g) (g_pid g) (g_dirc g) (g_verbose g)
       (g_startfs g) (g_prockallsyms g) (g_procbos g) fds (g_emptied g).
Definition set_fds (fds : gset Z) (g : gbls) : gbls := set_bos (g_bos g) fds g.
Definition set_dirs (d : list (option chars)) (c : nat) (g : gbls) : gbls :=
  Gbls (g_fs g) (g_sigproc g) (g_bos g) (g_executable g) d (g_pid g) c (g_verbose g)
       (g_startfs g) (g_prockallsyms g) (g_procbos g) (g_fds g) (g_emptied g).
Definition set_objs (f : fsw) (s : sigproc) (g : gbls) : gbls :=
  Gbls f s (g_bos g) (g_executable g) (g_dirs g) (g_pid g) (g_dirc g) (g_verbose g)
       (g_startfs g) (g_prockallsyms g) (g_procbos g) (g_fds g) (g_emptied g).
Definition set_opts (e : option chars) (pid v : Z) (ks : bool) (g : gbls) : gbls :=
  Gbls (g_fs g) (g_sigproc g) (g_bos g) e (g_dirs g) pid (g_dirc g) v
       (g_startfs g) ks (g_procbos g) (g_fds g) (g_emptied g).
Definition add_emptied (l : list chars) (g : gbls) : gbls :=
  Gbls (g_fs g) (g_sigproc g) (g_bos g) (g_executable g) (g_dirs g) (g_pid g) (g_dirc g) (g_verbose g)
       (g_startfs g) (g_prockallsyms g) (g_procbos g) (g_fds g) (g_emptied g ++ l).

(** ** Descriptors *)
Definition open_fd (ok : bool) : M gbls Z :=
  if ok then
    g ← getM;
    let fd := lowest_fd (g_fds g) in
    _ ← modifyM (set_fds ({[fd]} ∪ g_fds g));
    mret fd
  else mret (-1)%Z.
(** [open] with [O_CREAT | O_TRUNC], [fopen] with ["w"]: the file is empty afterwards. *)
Definition open_trunc (ok : bool) (path : chars) : M gbls Z :=
  fd ← open_fd ok;
  _ ← (if ok then modifyM (add_emptied [path]) else mret tt);
  mret fd.
(** A negative descriptor is refused (EBADF). *)
Definition close_fd (fd : Z) : M gbls unit :=
  if (fd <? 0)%Z then mret tt else modifyM (λ g, set_fds (g_fds g ∖ {[fd]}) g).

Context (sy : sys).

(** ** Finding a kernel object *)

(** The search loop: the descriptor and the path of the first directory that
    has the file; [None] when the loop body never ran (the descriptor is then
    not initialised). *)
Fixpoint search_dirs (dirs : list (option chars)) (kofnm : chars) (fd : option (Z * chars))
  : M gbls (option (Z * chars)) :=
  match dirs with
  | [] => mret fd
  | d :: dirs =>
    d ← derefM d;
    let fullpath := ko_path kofnm d in
    fd ← open_fd (sys_readable sy fullpath);
    if (fd =? -1)%Z then search_dirs dirs kofnm (Some (fd, fullpath))
    else mret (Some (fd, fullpath))
  end.

Definition openko (kofnm : chars) : M gbls (Z * option chars) :=
  g ← getM;
  r ← search_dirs (take (g_dirc g) (g_dirs g)) kofnm None;
  fp ← derefM r;
  if negb (fp.1 =? -1)%Z then mret (fp.1, sys_realpath sy fp.2) else mret (fp.1, None).

(** [snprintf(fullpath, PATH_MAX, "%s/lib%s.so", dir, modnm)] *)
Definition so_path (kofnm modnm : chars) : chars := path_of (dirname kofnm ++ chr "/lib" ++ modnm ++ chr ".so").

Definition openso (kofnm : option chars) (modnm : chars) : M gbls (Z * option chars) :=
  match kofnm with
  | Some kofnm =>
    let fullpath := so_path kofnm modnm in
    fd ← open_trunc (sys_writable sy fullpath) fullpath;
    if negb (fd =? -1)%Z then mret (fd, Some fullpath) else mret (fd, None)
  | None => mret (-1, None)%Z
  end.

Definition newbo (kofullpath : option chars) (modnm kldopts : chars) (kofd : Z)
    (sofullpath : option chars) (sofd : Z) : bo :=
  Bo kofullpath sofullpath modnm kldopts kofd sofd.

Definition deletebo (b : bo) : M gbls unit :=
  _ ← (if (0 <=? bo_kofd b)%Z then close_fd (bo_kofd b) else mret tt);
  if (0 <=? bo_sofd b)%Z then close_fd (bo_sofd b) else mret tt.

(** The exit path of [addbo]: on failure both descriptors are closed. *)
Definition addbo_done (rc kofd sofd : Z) : M gbls Z :=
  _ ← (if (rc <? 0)%Z && negb (kofd =? -1)%Z then close_fd kofd else mret tt);
  _ ← (if (rc <? 0)%Z && negb (sofd =? -1)%Z then close_fd sofd else mret tt);
  mret rc.

Definition addbo (spec : chars) : M gbls Z :=
  match parsekospec spec with
  | None => addbo_done (-1) (-1) (-1)
  | Some k =>
    ko ← openko (ks_fnm k);
    if (ko.1 <? 0)%Z then addbo_done (-1) ko.1 (-1)
    else
      so ← openso ko.2 (ks_modnm k);
      if (so.1 <? 0)%Z then addbo_done (-1) ko.1 so.1
      else
        path ← derefM ko.2;
        g ← getM;
        match ht_find path (g_bos g) with
        | Some _ => addbo_done (-1) ko.1 so.1
        | None =>
          let b := newbo ko.2 (ks_modnm k) (ks_kldopts k) ko.1 so.2 so.1 in
          _ ← modifyM (λ g, set_bos (ht_add path b (g_bos g)) (g_fds g) g);
          addbo_done 0 ko.1 so.1
        end
  end.

(** ** The directory array *)
Definition grow (n : nat) : nat := if decide (n = 0) then 256 else n * 2.

Definition addDir (dir : chars) : M gbls Z :=
  if sys_isdir sy dir then
    g ← getM;
    let dirs := if decide (g_dirc g = length (g_dirs g))
                then g_dirs g ++ replicate (grow (length (g_dirs g)) - length (g_dirs g)) None
                else g_dirs g in
    _ ← derefM (dirs !! g_dirc g);
    _ ← modifyM (set_dirs (<[g_dirc g := Some dir]> dirs) (g_dirc g + 1));
    mret (Z.of_nat (g_dirc g + 1))
  else mret (-1)%Z.

(** ** Start-up *)
Definition on_objs {A} (m : M fsw A) : M gbls A := λ g,
  match m (g_fs g) with
  | Done a w => Done a (set_objs w (g_sigproc g) g)
  | Exited c w => Exited c (set_objs w (g_sigproc g) g)
  | Aborted => Aborted | Fault => Fault | NoFuel => NoFuel
  end.
Definition on_sig {A} (m : M sigproc A) : M gbls A := λ g,
  match m (g_sigproc g) with
  | Done a p => Done a (set_objs (g_fs g) p g)
  | Exited c p => Exited c (set_objs (g_fs g) p g)
  | Aborted => Aborted | Fault => Fault | NoFuel => NoFuel
  end.

(** What [getopt] reports for an option letter found on the command line: the
    letter itself when the option string has it, '?' otherwise. *)
Definition optstring : chars := chr "K:k:Nhv".
Definition getopt_char (c : ascii) : ascii :=
  if decide (c ∈ optstring ∧ c ≠ ":"%char) then c else "?"%char.

(** The option loop; the kernel object specifications are collected in order.
    [None] when usage is printed and -1 returned. *)
Fixpoint options (opts : list (ascii * chars)) (kospecs : list chars)
  : M gbls (option (list chars)) :=
  match opts with
  | [] => mret (Some kospecs)
  | (c, optarg) :: opts =>
    let opt := getopt_char c in
    if decide (opt = "K"%char) then _ ← addDir optarg; options opts kospecs
    else if decide (opt = "N"%char) then
      _ ← modifyM (λ g, set_opts (g_executable g) (g_pid g) (g_verbose g) false g);
      options opts kospecs
    else if decide (opt = "h"%char) then mret None
    else if decide (opt = "k"%char) then options opts (kospecs ++ [optarg])
    else if decide (opt = "v"%char) then
      _ ← modifyM (λ g, set_opts (g_executable g) (g_pid g) (g_verbose g + 1) (g_prockallsyms g) g);
      options opts kospecs
    else mret None
  end.

Fixpoint addbos (kospecs : list chars) : M gbls Z :=
  match kospecs with
  | [] => mret 0%Z
  | k :: kospecs => rc ← addbo k; if (rc <? 0)%Z then mret (-1)%Z else addbos kospecs
  end.

(** [fsname] is [GBLS.fsname]; [args] are the arguments after the options. *)
Definition GBLSInit (fsname : string) (opts : list (ascii * chars)) (args : list chars) : M gbls Z :=
  ok ← on_objs (fsInit fsname false None);
  _ ← assertM ok;
  _ ← on_sig (modifyM (λ p, sigprocReset p true));
  match sys_cwd sy with
  | None => mret (-1)%Z
  | Some cwd =>
    _ ← addDir cwd;
    ks ← options opts [];
    match ks with
    | None => mret (-1)%Z
    | Some kospecs =>
      rc ← addbos kospecs;
      if (rc <? 0)%Z then mret (-1)%Z
      else
        _ ← match args with
            | a :: _ => modifyM (λ g, set_opts (Some a) (g_pid g) (g_verbose g) (g_prockallsyms g) g)
            | [] => mret tt
            end;
        g ← getM;
        if g_startfs g then
          _ ← modifyM (λ g, set_opts (g_executable g) (sys_pid sy) (g_verbose g) (g_prockallsyms g) g);
          ok ← on_objs (fsInit fsname true None);
          _ ← assertM ok;
          sfd ← open_fd (sys_signalfd sy);
          _ ← on_sig (sigprocInit true (sys_sigprocmask sy) sfd);
          mret 0%Z
        else mret 0%Z
    end
  end.

(** ** Exit *)

(** [HASH_ITER] with deletion of the visited element. *)
Fixpoint delete_bos (items : list (chars * bo)) : M gbls unit :=
  match items with
  | [] => mret tt
  | (k, b) :: items =>
    _ ← modifyM (λ g, set_bos (ht_del k (g_bos g)) (g_fds g) g);
    _ ← deletebo b;
    delete_bos items
  end.
Definition bosCleanup : M gbls unit := g ← getM; delete_bos (ht_items (g_bos g)).

Definition sigprocCleanup : M gbls unit :=
  g ← getM;
  let p := g_sigproc g in
  if negb (sp_sfd p =? -1)%Z then
    _ ← close_fd (sp_sfd p);
    modifyM (λ g, set_objs (g_fs g) (Sigproc (sp_ed p) ∅ (-1)) g)
  else mret tt.

Definition cleanup : M gbls unit :=
  g ← getM;
  _ ← (if g_startfs g then
         _ ← on_objs fsCleanup;
         sigprocCleanup
       else mret tt);
  g ← getM;
  _ ← (if decide (ht_cnt (g_bos g) ≠ 0) then
         _ ← bosCleanup;
         modifyM (λ g, set_bos ht_empty (g_fds g) g)
       else mret tt);
  modifyM (λ g, set_dirs [] (g_dirc g) g).

(** The initial values of [GBLS]: nothing found, nothing open but what the
    process was started with. *)
Definition gbls0 (fds : gset Z) : gbls :=
  Gbls (FsW fs_blank ∅ 0) (Sigproc (EvntDesc None None) ∅ 0) ht_empty None [] 0 0 0
       false true true fds [].
End bos.
Arguments gbls {UT}.
