(* ===== verification/BosSpec.v ===== *)
(** * Descriptors and the table of binary objects

    The invariant of the table: every binary object holds two open descriptors
    of its own, and together with those the process was started with they are
    all the descriptors that are open. *)
From Stdlib Require Import Ascii.
From S2P Require Import Prelude UtHash Event Fs FsLife Sigproc KoSpec Bos.

Section spec.
Context `{UL : UtHashLaws} (sy : sys).
Implicit Types (g : gbls) (base : gset Z).

Definition bo_fds (kb : chars * bo) : list Z := [bo_kofd kb.2; bo_sofd kb.2].
Definition all_fds g : list Z := concat (bo_fds <$> ht_items (g_bos g)).

Record bos_ok base g : Prop := {
  bk_keys : NoDup (ht_keys (g_bos g));
  bk_fds : g_fds g = base ∪ list_to_set (all_fds g);
  bk_own : NoDup (all_fds g);
  bk_base : ∀ fd, fd ∈ all_fds g → fd ∉ base ∧ (0 <= fd)%Z;
  bk_names : ∀ k b, (k, b) ∈ ht_items (g_bos g) → bo_kofnm b = Some k ∧ is_Some (bo_sofnm b);
}.

(** The directories entered so far. *)
Record dirs_ok (ds : list chars) g : Prop := {
  dk_dirs : take (g_dirc g) (g_dirs g) = Some <$> ds;
  dk_len : g_dirc g = length ds;
  dk_cap : g_dirc g ≤ length (g_dirs g);
}.

Definition add_fd g : gbls := set_fds ({[lowest_fd (g_fds g)]} ∪ g_fds g) g.

Lemma set_fds_id g : set_fds (g_fds g) g = g.
Proof. by destruct g. Qed.

(** Closing the descriptor that was just opened. *)
Lemma close_add_fd g : set_fds (g_fds (add_fd g) ∖ {[lowest_fd (g_fds g)]}) (add_fd g) = g.
Proof.
  destruct (lowest_fd_spec (g_fds g)) as [Hf _].
  assert (g_fds (add_fd g) ∖ {[lowest_fd (g_fds g)]} = g_fds g) as -> by (simpl; set_solver).
  by destruct g.
Qed.

(** Closing both descriptors, in the order they were opened. *)
Lemma close_both g :
  let g2 := add_fd (add_fd g) in
  let g3 := set_fds (g_fds g2 ∖ {[lowest_fd (g_fds g)]}) g2 in
  set_fds (g_fds g3 ∖ {[lowest_fd (g_fds (add_fd g))]}) g3 = g.
Proof.
  cbv zeta. destruct (lowest_fd_spec (g_fds g)) as [H1 _].
  destruct (lowest_fd_spec (g_fds (add_fd g))) as [H2 _].
  set (l1 := lowest_fd (g_fds g)) in *. set (l2 := lowest_fd (g_fds (add_fd g))) in *.
  assert (g_fds (add_fd (add_fd g)) ∖ {[l1]} ∖ {[l2]} = g_fds g) as E.
  { change (({[l2]} ∪ ({[l1]} ∪ g_fds g)) ∖ {[l1]} ∖ {[l2]} = g_fds g).
    change (l2 ∉ {[l1]} ∪ g_fds g) in H2. set_solver. }
  transitivity (set_fds (g_fds (add_fd (add_fd g)) ∖ {[l1]} ∖ {[l2]}) g); [done|].
  rewrite E. apply set_fds_id.
Qed.

Lemma add_emptied_nil g : add_emptied [] g = g.
Proof. unfold add_emptied. rewrite app_nil_r. by destruct g. Qed.
Lemma add_emptied_app l l' g : add_emptied l' (add_emptied l g) = add_emptied (l ++ l') g.
Proof. unfold add_emptied. simpl. by rewrite <- (assoc_L (++)). Qed.

Lemma wp_open_fd ok g Q :
  Q (if ok : bool then lowest_fd (g_fds g) else -1)%Z (if ok then add_fd g else g) →
  wp (open_fd ok) Q g.
Proof. destruct ok; done. Qed.

Lemma wp_open_trunc ok path g Q :
  Q (if ok : bool then lowest_fd (g_fds g) else -1)%Z (if ok then add_emptied [path] (add_fd g) else g) →
  wp (open_trunc ok path) Q g.
Proof. destruct ok; done. Qed.

Lemma wp_close_fd fd g Q :
  (0 <= fd)%Z → Q tt (set_fds (g_fds g ∖ {[fd]}) g) → wp (close_fd fd) Q g.
Proof. intros Hfd HQ. unfold close_fd. by rewrite (proj2 (Z.ltb_ge fd 0)) by done. Qed.

(** ** The search *)
(** The file in the first directory that has it. *)
Definition find_ko (kofnm : chars) (ds : list chars) : option chars :=
  head (filter (λ p, sys_readable sy p = true) (ko_path kofnm <$> ds)).

Lemma find_ko_cons kofnm d ds :
  find_ko kofnm (d :: ds) =
  if sys_readable sy (ko_path kofnm d) then Some (ko_path kofnm d) else find_ko kofnm ds.
Proof.
  unfold find_ko. rewrite fmap_cons, filter_cons.
  case_decide as H'; [by rewrite H'|]. by destruct (sys_readable sy (ko_path kofnm d)).
Qed.

Lemma search_spec kofnm ds acc g :
  wp (search_dirs sy (Some <$> ds) kofnm acc)
     (λ r g', match find_ko kofnm ds with
              | Some p => r = Some (lowest_fd (g_fds g), p) ∧ g' = add_fd g
              | None => g' = g ∧ (ds = [] ∧ r = acc ∨ ∃ p, r = Some (-1, p)%Z)
              end) g.
Proof.
  revert acc. induction ds as [|d ds IH]; intros acc; simpl.
  { apply wp_ret. eauto. }
  rewrite find_ko_cons. wp_step. wp_step. wp_step. apply wp_open_fd.
  destruct (sys_readable sy (ko_path kofnm d)); simpl.
  - destruct (lowest_fd_spec (g_fds g)) as [_ Hnn].
    rewrite (proj2 (Z.eqb_neq (lowest_fd (g_fds g)) (-1))) by lia. by apply wp_ret.
  - eapply wp_mono; [apply IH|].
    intros r g'. destruct (find_ko kofnm ds); [done|]. intros [-> [[_ ->]|?]]; eauto.
Qed.

Lemma openko_spec kofnm ds g :
  dirs_ok ds g → ds ≠ [] →
  wp (openko sy kofnm)
     (λ r g', match find_ko kofnm ds with
              | Some p => r = (lowest_fd (g_fds g), sys_realpath sy p) ∧ g' = add_fd g
              | None => r = (-1, None)%Z ∧ g' = g
              end) g.
Proof.
  intros [Hd _ _] Hne. unfold openko. wp_step. wp_step. wp_step. rewrite Hd.
  eapply wp_mono; [apply search_spec|]. intros r g' Hr. destruct (find_ko kofnm ds) as [p|].
  - destruct Hr as [-> ->]. wp_step. eapply wp_deref; [reflexivity|].
    destruct (lowest_fd_spec (g_fds g)) as [_ Hnn]. cbn [fst snd].
    rewrite (proj2 (Z.eqb_neq (lowest_fd (g_fds g)) (-1))) by lia. by apply wp_ret.
  - destruct Hr as [-> [[? _]|[p ->]]]; [done|]. wp_step. eapply wp_deref; [reflexivity|].
    by apply wp_ret.
Qed.

Lemma openso_spec kofnm modnm g :
  wp (openso sy kofnm modnm)
     (λ r g', ((∀ k, kofnm = Some k → sys_writable sy (so_path k modnm) = false) ∧ r.1 = (-1)%Z ∧ g' = g) ∨
              (∃ k, kofnm = Some k ∧ sys_writable sy (so_path k modnm) = true ∧
                 r = (lowest_fd (g_fds g), Some (so_path k modnm)) ∧
                 g' = add_emptied [so_path k modnm] (add_fd g))) g.
Proof.
  unfold openso. destruct kofnm as [k|]; [|apply wp_ret; by left].
  wp_step. apply wp_open_trunc. destruct (lowest_fd_spec (g_fds g)) as [_ Hnn].
  destruct (sys_writable _ _) eqn:E; simpl.
  - rewrite (proj2 (Z.eqb_neq (lowest_fd (g_fds g)) (-1))) by lia. apply wp_ret. right. by exists k.
  - apply wp_ret. left. split; [|done]. by intros ? [= <-].
Qed.

(** ** Adding a binary object *)

(** The table and the descriptors are as they were. *)
Definition same_bos g g' : Prop := g_bos g' = g_bos g ∧ g_fds g' = g_fds g.

Lemma bos_ok_same base g g' : same_bos g g' → bos_ok base g → bos_ok base g'.
Proof.
  intros [Hb Hf] [H1 H2 H3 H4 H5]. assert (all_fds g' = all_fds g) as E by (unfold all_fds; by rewrite Hb).
  split; rewrite ?E, ?Hb, ?Hf; done.
Qed.

Lemma bos_ok_add base g k b :
  bos_ok base g → k ∉ ht_keys (g_bos g) →
  bo_kofd b = lowest_fd (g_fds g) → bo_sofd b = lowest_fd (g_fds (add_fd g)) →
  bo_kofnm b = Some k → is_Some (bo_sofnm b) →
  bos_ok base (set_bos (ht_add k b (g_bos g)) (g_fds (add_fd (add_fd g))) (add_fd (add_fd g))).
Proof.
  intros [Hk Hf Ho Hb Hnm] Hkey H1 H2 H3 H4.
  destruct (lowest_fd_spec (g_fds g)) as [Hn1 Hp1].
  destruct (lowest_fd_spec (g_fds (add_fd g))) as [Hn2 Hp2].
  assert (all_fds (set_bos (ht_add k b (g_bos g)) (g_fds (add_fd (add_fd g))) (add_fd (add_fd g)))
          = all_fds g ++ [bo_kofd b; bo_sofd b]) as Hall.
  { unfold all_fds. simpl. rewrite ht_items_add by done. rewrite fmap_app, concat_app. done. }
  set (l1 := lowest_fd (g_fds g)) in *. set (l2 := lowest_fd (g_fds (add_fd g))) in *.
  assert (l1 ∉ all_fds g ∧ l2 ∉ all_fds g ∧ l2 ≠ l1 ∧ l1 ∉ base ∧ l2 ∉ base) as (?&?&?&?&?).
  { simpl in Hn2. fold l1 in Hn2. rewrite Hf in Hn1, Hn2.
    rewrite !not_elem_of_union, elem_of_list_to_set in Hn1.
    rewrite !not_elem_of_union, elem_of_list_to_set, not_elem_of_singleton in Hn2. naive_solver. }
  split; rewrite ?Hall.
  - simpl. by apply ht_nodup_add.
  - simpl. fold l1. change ({[l1]} ∪ g_fds g) with (g_fds (add_fd g)). fold l2. simpl. fold l1.
    rewrite Hf, list_to_set_app_L, H1, H2. simpl. set_solver.
  - rewrite H1, H2. apply NoDup_app. split_and!; [done| |].
    + intros x Hx [->|[->|Hn]%elem_of_cons]%elem_of_cons; [done|done|by apply elem_of_nil in Hn].
    + repeat constructor; rewrite ?elem_of_cons, ?elem_of_nil; naive_solver.
  - intros fd [Hfd|Hfd]%elem_of_app; [by apply Hb|]. rewrite H1, H2 in Hfd.
    apply elem_of_cons in Hfd as [->|[->|Hn]%elem_of_cons]; [done|done|by apply elem_of_nil in Hn].
  - simpl. intros k' b' [Hin|[-> ->]]%ht_items_add_elem; [by apply Hnm|done|done].
Qed.

(** The object is in the table already, and its library could be opened. *)
Definition duplicate (ds : list chars) (spec : chars) g (so : chars) : Prop :=
  ∃ k p path, parsekospec spec = Some k ∧ find_ko (ks_fnm k) ds = Some p ∧ sys_realpath sy p = Some path ∧
    path ∈ ht_keys (g_bos g) ∧ so = so_path path (ks_modnm k) ∧ sys_writable sy so = true.

(** One object more, for the file that is found first. *)
Definition one_more (ds : list chars) (spec : chars) g g' : Prop :=
  ∃ k p path b, parsekospec spec = Some k ∧ find_ko (ks_fnm k) ds = Some p ∧
    sys_realpath sy p = Some path ∧ path ∉ ht_keys (g_bos g) ∧
    ht_items (g_bos g') = ht_items (g_bos g) ++ [(path, b)] ∧
    bo_modnm b = ks_modnm k ∧ bo_kldopts b = ks_kldopts k ∧ bo_sofnm b = Some (so_path path (ks_modnm k)) ∧
    g_emptied g' = g_emptied g ++ [so_path path (ks_modnm k)].

Lemma addbo_spec base ds spec g :
  bos_ok base g → dirs_ok ds g → ds ≠ [] →
  wp (addbo sy spec)
     (λ rc g', (rc = (-1)%Z ∧ ((∀ so, ¬ duplicate ds spec g so) ∧ g' = g ∨
                               ∃ so, duplicate ds spec g so ∧ g' = add_emptied [so] g)) ∨
               (rc = 0%Z ∧ bos_ok base g' ∧ dirs_ok ds g' ∧ g_startfs g' = g_startfs g ∧ one_more ds spec g g')) g.
Proof.
  intros Hok Hd Hne. unfold addbo.
  destruct (parsekospec spec) as [k|] eqn:Hk.
  2:{ unfold addbo_done. wp_steps. left. split; [done|]. left. split; [|done]. intros so (k & p & path & ? & _). congruence. }
  wp_step. eapply wp_mono; [by eapply openko_spec|]. intros r g1 Hr.
  destruct (find_ko (ks_fnm k) ds) as [p|] eqn:Hfind.
  2:{ destruct Hr as [-> ->]. simpl. unfold addbo_done. wp_steps. left. split; [done|]. left. split; [|done].
      intros so (k' & p & path & ? & ? & _). congruence. }
  destruct Hr as [-> ->]. destruct (lowest_fd_spec (g_fds g)) as [_ Hnn]. cbn [fst snd].
  rewrite (proj2 (Z.ltb_ge (lowest_fd (g_fds g)) 0)) by lia.
  wp_step. eapply wp_mono; [apply openso_spec|]. intros so g2 [(Hw & Hs & ->)|(path & Hpath & Hw & -> & ->)].
  { rewrite Hs. simpl. unfold addbo_done. simpl.
    rewrite (proj2 (Z.eqb_neq (lowest_fd (g_fds g)) (-1))) by lia. simpl.
    wp_step. apply wp_close_fd; [done|]. wp_step. wp_step. apply wp_ret. left. split; [done|]. left.
    split; [|apply close_add_fd]. intros so' (k' & p' & path & ? & ? & Hp & _ & -> & Hw'). simplify_eq.
    by rewrite (Hw path Hp) in Hw'. }
  destruct (lowest_fd_spec (g_fds (add_fd g))) as [_ Hnn2]. cbn [fst snd].
  rewrite (proj2 (Z.ltb_ge (lowest_fd (g_fds (add_fd g))) 0)) by lia.
  rewrite Hpath. wp_step. eapply wp_deref; [reflexivity|]. wp_step. wp_step.
  change (g_bos (add_emptied _ (add_fd (add_fd g)))) with (g_bos g).
  destruct (ht_find path (g_bos g)) as [b|] eqn:Hb.
  { unfold addbo_done. rewrite (proj2 (Z.eqb_neq (lowest_fd (g_fds g)) (-1))) by lia.
    rewrite (proj2 (Z.eqb_neq (lowest_fd (g_fds (add_fd g))) (-1))) by lia. simpl negb. simpl andb.
    wp_step. apply wp_close_fd; [done|]. wp_step. apply wp_close_fd; [done|].
    apply wp_ret. left. split; [done|]. right. exists (so_path path (ks_modnm k)). split.
    - exists k, p, path. split_and!; try done. apply dec_stable. intros Hn.
      apply ht_find_None in Hn; [congruence|apply Hok].
    - exact (f_equal (add_emptied [so_path path (ks_modnm k)]) (close_both g)). }
  apply ht_find_None in Hb; [|apply Hok].
  wp_step. wp_step. unfold addbo_done. simpl. wp_steps. right. split; [done|].
  split; [|split; [|split]].
  - eapply bos_ok_same; [|apply (bos_ok_add base g path (newbo (Some path) (ks_modnm k) (ks_kldopts k) (lowest_fd (g_fds g))
      (Some (so_path path (ks_modnm k))) (lowest_fd (g_fds (add_fd g))))); done]. done.
  - destruct Hd. split; done.
  - done.
  - eexists k, p, path, _. split_and!; try done. simpl. rewrite ht_items_add by done. reflexivity.
    all: reflexivity.
Qed.

(** ** Start-up *)

(** A descriptor that belongs to no object. *)
Lemma bos_ok_more base g : bos_ok base g → bos_ok ({[lowest_fd (g_fds g)]} ∪ base) (add_fd g).
Proof.
  intros [H1 H2 H3 H4 H5]. destruct (lowest_fd_spec (g_fds g)) as [Hn _].
  split; try done; change (all_fds (add_fd g)) with (all_fds g).
  - unfold add_fd. cbn [g_fds set_fds set_bos]. set (l := lowest_fd (g_fds g)). rewrite H2. by rewrite (assoc_L (∪)).
  - intros fd Hfd. destruct (H4 fd Hfd) as [Hb Hp]. split; [|done]. set (l := lowest_fd (g_fds g)) in *.
    rewrite not_elem_of_union, not_elem_of_singleton. split; [|done]. intros ->. apply Hn. rewrite H2.
    apply elem_of_union_r. by apply elem_of_list_to_set.
Qed.

(** It is closed again. *)
Lemma bos_ok_less base fd g g' :
  bos_ok ({[fd]} ∪ base) g → fd ∉ base → g_bos g' = g_bos g → g_fds g' = g_fds g ∖ {[fd]} → bos_ok base g'.
Proof.
  intros [H1 H2 H3 H4 H5] Hfd Hb Hf. assert (all_fds g' = all_fds g) as E by (unfold all_fds; by rewrite Hb).
  split; rewrite ?E, ?Hb; try done.
  - rewrite Hf, H2. assert (fd ∉ all_fds g) as Hn by (intros Hx; apply (H4 fd) in Hx as [Hx _]; apply Hx; by apply elem_of_union_l, elem_of_singleton).
    generalize dependent (all_fds g). intros l **. apply set_eq. intros x.
    rewrite elem_of_difference, !elem_of_union, elem_of_singleton, elem_of_list_to_set. split; [tauto|].
    intros Hx. split; [tauto|]. intros ->. tauto.
  - intros x Hx. destruct (H4 x Hx) as [Hxb ?]. split; [|done]. intros Hb'. apply Hxb. by apply elem_of_union_r.
Qed.

Lemma base_open base g fd : bos_ok base g → fd ∉ g_fds g → fd ∉ base.
Proof. intros [_ H2 _ _ _] Hn Hb. apply Hn. rewrite H2. by apply elem_of_union_l. Qed.

Lemma grow_gt n : n < grow n.
Proof. unfold grow. destruct (decide (n = 0)) as [->|]; [apply Nat.ltb_lt; by vm_compute|lia]. Qed.

(** A directory is appended, in place or after the array was enlarged; the
    write is always inside the array. *)
Lemma addDir_spec dir ds g :
  dirs_ok ds g →
  wp (addDir sy dir)
     (λ rc g', same_bos g g' ∧ g_startfs g' = g_startfs g ∧
               if sys_isdir sy dir then rc = Z.of_nat (length ds + 1) ∧ dirs_ok (ds ++ [dir]) g'
               else rc = (-1)%Z ∧ g' = g) g.
Proof.
  intros [Hd Hl Hc]. unfold addDir. destruct (sys_isdir sy dir); [|by apply wp_ret].
  wp_step. wp_step. pose proof (grow_gt (length (g_dirs g))) as Hgr.
  set (dirs := if decide (g_dirc g = length (g_dirs g)) then _ else _).
  assert (g_dirc g < length dirs ∧ take (g_dirc g) dirs = Some <$> ds) as [Hlt Htk].
  { unfold dirs. destruct (decide _) as [E|E].
    - rewrite length_app, length_replicate. split; [lia|]. rewrite <- Hd.
      by rewrite take_app_le by lia.
    - split; [lia|done]. }
  destruct (lookup_lt_is_Some_2 _ _ Hlt) as [x Hx].
  wp_step. eapply wp_deref; [done|]. wp_step. wp_step. apply wp_ret.
  split; [done|]. split; [done|]. split; [by rewrite <- Hl|]. split; simpl.
  - rewrite Nat.add_1_r, (take_S_r _ _ (Some dir)).
    + rewrite take_insert_ge by done. by rewrite Htk, fmap_app.
    + by apply list_lookup_insert_eq.
  - rewrite length_app, Hl. done.
  - rewrite length_insert. lia.
Qed.

(** Letters the option loop accepts. *)
Definition opt_known (c : ascii) : bool := bool_decide (c ∈ ["K"; "N"; "k"; "v"]%char).
Definition k_args (opts : list (ascii * chars)) : list chars :=
  (filter (λ o, o.1 = "k"%char) opts).*2.

Lemma k_args_cons c a opts :
  k_args ((c, a) :: opts) = if decide (c = "k"%char) then a :: k_args opts else k_args opts.
Proof. unfold k_args. rewrite filter_cons. simpl. by destruct (decide (c = "k"%char)). Qed.

(** The loop body by letter; every other letter ends in the usage message. *)
Lemma options_cons c a opts ks :
  options sy ((c, a) :: opts) ks =
  if decide (c = "K"%char) then _ ← addDir sy a; options sy opts ks
  else if decide (c = "N"%char) then
    _ ← modifyM (λ g, set_opts (g_executable g) (g_pid g) (g_verbose g) false g); options sy opts ks
  else if decide (c = "k"%char) then options sy opts (ks ++ [a])
  else if decide (c = "v"%char) then
    _ ← modifyM (λ g, set_opts (g_executable g) (g_pid g) (g_verbose g + 1) (g_prockallsyms g) g);
    options sy opts ks
  else mret None.
Proof.
  destruct (decide (c = "K"%char)) as [->|HK]; [reflexivity|].
  destruct (decide (c = "N"%char)) as [->|HN]; [reflexivity|].
  destruct (decide (c = "k"%char)) as [->|Hk]; [reflexivity|].
  destruct (decide (c = "v"%char)) as [->|Hv]; [reflexivity|]. cbn [options].
  assert (getopt_char c = c ∨ getopt_char c = "?"%char) as [->| ->].
  { unfold getopt_char. case_decide; eauto. }
  - by repeat case_decide.
  - reflexivity.
Qed.

Lemma opt_known_cons c (a : chars) opts :
  forallb (opt_known ∘ fst) ((c, a) :: opts) = opt_known c && forallb (opt_known ∘ fst) opts.
Proof. done. Qed.

Lemma options_spec base opts ks ds g :
  bos_ok base g → dirs_ok ds g → ds ≠ [] →
  wp (options sy opts ks)
     (λ r g', bos_ok base g' ∧ (∃ ds', dirs_ok ds' g' ∧ ds' ≠ []) ∧ same_bos g g' ∧
              g_startfs g' = g_startfs g ∧
              r = if forallb (opt_known ∘ fst) opts then Some (ks ++ k_args opts) else None) g.
Proof.
  revert ks ds g. induction opts as [|[c optarg] opts IH]; intros ks ds g Hok Hd Hne.
  { apply wp_ret. split_and!; try done; [by eauto|by rewrite app_nil_r]. }
  rewrite options_cons, k_args_cons, opt_known_cons.
  destruct (decide (c = "K"%char)) as [->|HK].
  { wp_step. eapply wp_mono; [by apply addDir_spec|]. intros rc g1 (Hs1 & Hf1 & Hr1).
    assert (∃ ds', dirs_ok ds' g1 ∧ ds' ≠ []) as (ds' & Hd' & Hne').
    { destruct (sys_isdir sy optarg); destruct Hr1 as [_ Hr1]; [|subst; by eauto].
      exists (ds ++ [optarg]). split; [done|]. by destruct ds. }
    eapply wp_mono; [eapply IH; [by eapply bos_ok_same|done|done]|].
    intros r g2 (? & ? & [Hb2 Hf2] & Hst2 & ->). destruct Hs1 as [Hb1 Hfd1].
    split; [done|]. split; [done|]. split; [split; congruence|]. split; [congruence|done]. }
  destruct (decide (c = "N"%char)) as [->|HN].
  { wp_step. wp_step. eapply wp_mono; [eapply (IH _ ds)|]; [|by destruct Hd|done|].
    - by eapply bos_ok_same; [|exact Hok].
    - intros r g2 (? & ? & ? & ? & ->). by split_and!. }
  destruct (decide (c = "k"%char)) as [->|Hk].
  { eapply wp_mono; [by eapply IH|]. intros r g2 (? & ? & ? & ? & ->).
    split_and!; try done. by rewrite <- (assoc_L (++)). }
  destruct (decide (c = "v"%char)) as [->|Hv].
  { wp_step. wp_step. eapply wp_mono; [eapply (IH _ ds)|]; [|by destruct Hd|done|].
    - by eapply bos_ok_same; [|exact Hok].
    - intros r g2 (? & ? & ? & ? & ->). by split_and!. }
  assert (opt_known c = false) as ->.
  { apply bool_decide_eq_false. rewrite !elem_of_cons, elem_of_nil. naive_solver. }
  apply wp_ret. split_and!; eauto; done.
Qed.

Lemma addbos_spec base kos ds g :
  bos_ok base g → dirs_ok ds g → ds ≠ [] →
  wp (addbos sy kos)
     (λ rc g', (rc = 0%Z ∨ rc = (-1)%Z) ∧ bos_ok base g' ∧ g_startfs g' = g_startfs g) g.
Proof.
  revert g. induction kos as [|k kos IH]; intros g Hok Hd Hne; simpl; [apply wp_ret; by eauto|].
  wp_step. eapply wp_mono; [by eapply addbo_spec|].
  intros rc g1 [[-> Hr]|(-> & Hok1 & Hd1 & Hst & _)]; simpl.
  { apply wp_ret. split; [by right|]. destruct Hr as [[_ ->]|(so & _ & ->)]; [done|]. split; [|done].
    by eapply bos_ok_same; [|exact Hok]. }
  rewrite <- Hst. by apply IH.
Qed.

(** ** The whole start-up, and exit *)
Lemma bos_ok_init base : bos_ok base (gbls0 base).
Proof.
  assert (all_fds (gbls0 base) = []) as E by (unfold all_fds; simpl; by rewrite ht_items_empty).
  split; rewrite ?E; simpl.
  - apply ht_nodup_empty.
  - set_solver.
  - constructor.
  - by intros fd ?%elem_of_nil.
  - intros k b. rewrite ht_items_empty. by intros ?%elem_of_nil.
Qed.

Lemma wp_on_objs {A} (m : M fsw A) a w g Q :
  m (g_fs g) = Done a w → Q a (set_objs w (g_sigproc g) g) → wp (on_objs m) Q g.
Proof. intros Hm HQ. unfold wp, on_objs. by rewrite Hm. Qed.

Lemma wp_on_sig {A} (m : M sigproc A) a p g Q :
  m (g_sigproc g) = Done a p → Q a (set_objs (g_fs g) p g) → wp (on_sig m) Q g.
Proof. intros Hm HQ. unfold wp, on_sig. by rewrite Hm. Qed.

Lemma GBLSInit_spec base fsname opts args cwd :
  sys_cwd sy = Some cwd → sys_isdir sy cwd = true →
  wp (GBLSInit sy fsname opts args)
     (λ rc g', (rc = 0%Z ∨ rc = (-1)%Z) ∧ bos_ok base g' ∧ g_startfs g' = false ∧
               (forallb (opt_known ∘ fst) opts = false → rc = (-1)%Z ∧ g_bos g' = ht_empty)) (gbls0 base).
Proof.
  intros Hcwd Hdir. unfold GBLSInit. rewrite Hcwd.
  wp_step. eapply wp_on_objs; [reflexivity|]. set (g1 := set_objs _ _ _).
  assert (bos_ok base g1) as Hok1 by (by eapply bos_ok_same; [|apply bos_ok_init]).
  assert (dirs_ok [] g1) as Hd1 by done. assert (g_startfs g1 = false) as Hst1 by done.
  assert (g_bos g1 = ht_empty) as Hb1 by done. clearbody g1.
  wp_step. apply wp_assert; [done|].
  wp_step. eapply wp_on_sig; [reflexivity|]. set (g2 := set_objs _ _ g1).
  assert (bos_ok base g2) as Hok2 by (by eapply bos_ok_same; [|exact Hok1]).
  wp_step. eapply wp_mono; [apply (addDir_spec cwd [] g2); by destruct Hd1|].
  rewrite Hdir. intros rc g3 (Hs3 & Hst3 & _ & Hd3).
  assert (bos_ok base g3) as Hok3 by (by eapply bos_ok_same).
  wp_step. eapply wp_mono; [by eapply options_spec|].
  intros r g4 (Hok4 & (ds & Hd4 & Hne4) & [Hb4 Hf4] & Hst4 & ->).
  assert (g_startfs g4 = false) as Hs4 by (rewrite Hst4, Hst3; done).
  assert (g_bos g4 = ht_empty) as Hb0 by (rewrite Hb4, (proj1 Hs3); done).
  destruct (forallb _ opts) eqn:Hk; [|apply wp_ret; by eauto 6].
  wp_step. eapply wp_mono; [by eapply addbos_spec|]. intros rc5 g5 (Hrc5 & Hok5 & Hst5).
  rewrite Hs4 in Hst5.
  destruct Hrc5 as [-> | ->]; simpl; [|apply wp_ret; split_and!; by eauto].
  wp_step. apply wp_done. destruct args as [|x args]; (eexists _, _; split; [done|]);
    wp_step; wp_step; simpl; rewrite Hst5; apply wp_ret; (split; [by left|]);
    (split; [|done]); by eapply bos_ok_same; [|exact Hok5].
Qed.

(** What releasing the binary objects does not touch. *)
Definition same_rest g g' : Prop :=
  g_prockallsyms g' = g_prockallsyms g ∧ g_fs g' = g_fs g ∧ g_sigproc g' = g_sigproc g.

Lemma delete_bos_spec base items g :
  g_fds g = base ∪ list_to_set (concat (bo_fds <$> items)) →
  NoDup (concat (bo_fds <$> items)) →
  (∀ fd, fd ∈ concat (bo_fds <$> items) → fd ∉ base ∧ (0 <= fd)%Z) →
  wp (delete_bos items) (λ _ g', g_fds g' = base ∧ same_rest g g') g.
Proof.
  revert g. induction items as [|[k b] items IH]; intros g Hf Hnd Hb; simpl.
  { apply wp_ret. split; [|done]. rewrite Hf. simpl. set_solver. }
  simpl in *. apply NoDup_cons in Hnd as [Hn1 [Hn2 Hnd]%NoDup_cons].
  destruct (Hb (bo_kofd b)) as [Hb1 Hp1]; [by left|].
  destruct (Hb (bo_sofd b)) as [Hb2 Hp2]; [by right; left|].
  wp_step. wp_step. wp_step. unfold deletebo.
  rewrite (proj2 (Z.leb_le 0 (bo_kofd b))), (proj2 (Z.leb_le 0 (bo_sofd b))) by done.
  wp_step. apply wp_close_fd; [done|]. apply wp_close_fd; [done|].
  match goal with |- wp _ _ ?g' => change (same_rest g) with (same_rest g') end.
  apply IH; simpl.
  - rewrite Hf. change (list_fmap _ _ bo_fds items) with (bo_fds <$> items).
    rewrite elem_of_cons in Hn1. set_unfold. intros x. naive_solver.
  - done.
  - intros fd Hfd. apply Hb. by do 2 right.
Qed.

(** The part of [cleanup] that does not concern the file system. *)
Lemma cleanup_bos_spec base g :
  bos_ok base g →
  wp (g ← getM;
      _ ← (if decide (ht_cnt (g_bos g) ≠ 0) then
             _ ← bosCleanup; modifyM (λ g, set_bos ht_empty (g_fds g) g)
           else mret tt);
      modifyM (λ g, set_dirs [] (g_dirc g) g))
     (λ _ g', g_fds g' = base ∧ ht_cnt (g_bos g') = 0 ∧ g_dirs g' = [] ∧ same_rest g g') g.
Proof.
  intros [H1 H2 H3 H4 H5]. wp_step. wp_step. wp_step.
  destruct (decide (ht_cnt (g_bos g) ≠ 0)) as [Hc|Hc].
  - wp_step. unfold bosCleanup. wp_step. wp_step.
    eapply wp_mono; [by apply (delete_bos_spec base)|]. intros [] g1 [Hg1 Hp1].
    wp_step. wp_step. split_and!; [done| |done|done]. simpl. unfold ht_cnt. by rewrite ht_items_empty.
  - wp_step. wp_step. split_and!; [|simpl; lia|done|done]. simpl. rewrite H2.
    assert (all_fds g = []) as ->; [|simpl; set_solver].
    unfold all_fds. unfold ht_cnt in Hc. destruct (ht_items (g_bos g)); [done|simpl in Hc; lia].
Qed.

Lemma cleanup_spec base g :
  bos_ok base g → g_startfs g = false →
  wp cleanup (λ _ g', g_fds g' = base ∧ ht_cnt (g_bos g') = 0 ∧ g_dirs g' = [] ∧
                      g_prockallsyms g' = g_prockallsyms g) g.
Proof.
  intros Hok Hst. unfold cleanup. wp_step. wp_step. rewrite Hst. wp_step. wp_step.
  eapply wp_mono; [by apply cleanup_bos_spec|]. by intros _ g' (? & ? & ? & ? & _).
Qed.
End spec.
