(* ===== verification/KldElf.v ===== *)
(** * ELF files ([kld/elf.h], [kld/elf.c])

    Generation of the stub libraries and reading of symbols and sections. libelf
    is not part of the repository: an ELF object is the record [elf_image] of
    what the code hands to libelf (section headers with their data, program
    headers, the ELF header), and the file offsets libelf assigns are the
    argument [layout]. String tables are real buffers with [strcpy] writes that
    fault outside them. *)
From Stdlib Require Import Ascii.
From S2P Require Import Prelude KoSpec.

(** [SymType], [SymBind], [SymbolEntry] *)
Inductive symtype := TYPE_FUNC | TYPE_DATA | TYPE_RODATA | TYPE_BSS | TYPE_ABS.
Inductive symbind := BIND_GLOBAL | BIND_LOCAL | BIND_WEAK.
#[export] Instance symtype_eq_dec : EqDecision symtype.
Proof. solve_decision. Defined.
#[export] Instance symbind_eq_dec : EqDecision symbind.
Proof. solve_decision. Defined.

Record SymbolEntry := SymEntry {
  se_name : chars;
  se_addr : Z;
  se_size : Z;
  se_bind : symbind;
  se_type : symtype;
}.

(** ** ELF constants *)
Definition SHT_SYMTAB : Z := 2.
Definition SHT_STRTAB : Z := 3.
Definition SHT_HASH : Z := 5.
Definition SHT_DYNAMIC : Z := 6.
Definition SHT_DYNSYM : Z := 11.
Definition SHF_ALLOC : Z := 2.
Definition SHN_UNDEF : Z := 0.
Definition SHN_ABS : Z := 0xfff1.
Definition STB_GLOBAL : Z := 1.
Definition STB_WEAK : Z := 2.
Definition STT_NOTYPE : Z := 0.
Definition STT_OBJECT : Z := 1.
Definition STT_FUNC : Z := 2.
Definition GELF_ST_INFO (b t : Z) : Z := Z.shiftl b 4 + Z.land t 0xf.
Definition ET_DYN : Z := 3.
Definition EM_X86_64 : Z := 62.
Definition PT_LOAD : Z := 1.
Definition PT_DYNAMIC : Z := 2.
Definition PF_R : Z := 4.
Definition DT_NULL : Z := 0.
Definition DT_HASH : Z := 4.
Definition DT_STRTAB : Z := 5.
Definition DT_SYMTAB : Z := 6.
Definition DT_STRSZ : Z := 10.
Definition DT_SYMENT : Z := 11.
Definition sizeof_sym : nat := 24.
Definition sizeof_dyn : nat := 16.

(** [GElf_Sym] *)
Record gsym := GSym { st_name : Z; st_value : Z; st_symsize : Z; st_shndx : Z; st_info : Z }.
Definition gsym0 : gsym := GSym 0 0 0 0 0.

(** The data of a section: string table bytes, symbols, 32 bit words (a hash
    table), dynamic tags. *)
Inductive secdata :=
| DStrings (b : chars)
| DSyms (l : list gsym)
| DWords (l : list Z)
| DDyn (l : list (Z * Z)).

Record section := Section_ {
  sh_name : nat;
  sh_type : Z;
  sh_flags : Z;
  sh_link : nat;
  sh_info : Z;
  sh_size : nat;
  sh_entsize : nat;
  sh_data : option secdata;
}.

Record phdr := PHdr { p_type : Z; p_offset : Z; p_vaddr : Z; p_filesz : Z; p_flags : Z; p_align : Z }.

(** An ELF object: sections are numbered from 1. *)
Record elf_image := ElfImage {
  e_type : Z;
  e_machine : Z;
  e_shstrndx : nat;
  e_sections : list section;
  e_phdrs : list phdr;
}.

(** ** String tables *)
Record strtab := StrTab { st_buf : chars; st_top : nat }.

(** [calloc(1, n)] *)
Definition new_strtab (n : nat) : strtab := StrTab (replicate n NUL) 0.

(** [strcpy(buf + off, s)]: the bytes of [s] and a terminator, inside the
    buffer or not at all. *)
Definition strcpy_at (buf : chars) (off : nat) (s : chars) : option chars :=
  if off + length s + 1 <=? length buf
  then Some (take off buf ++ s ++ NUL :: drop (off + length s + 1) buf) else None.

(** The string is a C string: its characters before the first terminator. *)
Definition add_str (st : strtab) (s : chars) : option (nat * strtab) :=
  let off := st_top st in
  buf ← strcpy_at (st_buf st) off (upto_nul s);
  Some (off, StrTab buf (st_top st + length (upto_nul s) + 1)).

Fixpoint add_strs (st : strtab) (l : list chars) : option (list nat * strtab) :=
  match l with
  | [] => Some ([], st)
  | s :: l =>
    '(off, st) ← add_str st s;
    '(offs, st) ← add_strs st l;
    Some (off :: offs, st)
  end.

(** ** Generation *)
Definition sec_names : list chars :=
  chr <$> [".shstrtab"; ".strtab"; ".symtab"; ".dynstr"; ".dynsym"; ".hash"; ".dynamic"].

Definition gen_sym (off : nat) (e : SymbolEntry) : gsym :=
  let b := if decide (se_bind e = BIND_WEAK) then STB_WEAK else STB_GLOBAL in
  let t := if decide (se_type e = TYPE_FUNC) then STT_FUNC else STT_OBJECT in
  GSym (u32 (Z.of_nat off)) (se_addr e) (se_size e) SHN_ABS (GELF_ST_INFO b t).

(** [h_buf]: [count+3] words, [h_buf[0]=1], [h_buf[1]=count+1], [h_buf[3+i]=i+1]. *)
Definition gen_hash (count : nat) : list Z :=
  [1; Z.of_nat (count + 1); 0]%Z ++ ((λ i, Z.of_nat (i + 1)) <$> seq 0 count).

(** [dyn_data]: seven entries, the last two all zero. *)
Definition gen_dyn (dynstr_off dynsym_off hash_off : Z) (top : nat) : list (Z * Z) :=
  [(DT_STRTAB, dynstr_off); (DT_SYMTAB, dynsym_off); (DT_STRSZ, Z.of_nat top);
   (DT_SYMENT, Z.of_nat sizeof_sym); (DT_HASH, hash_off); (DT_NULL, 0%Z); (0, 0)%Z].

(** [layout] gives the file offset of each section; [nmstrlen] is the room the
    caller asks for the names. [None]: a string is written outside its table. *)
Definition elf_generate_elf (layout : nat → Z) (entries : list SymbolEntry) (nmstrlen : nat)
  : option elf_image :=
  let count := length entries in
  let schdrlen := sum_list (S ∘ length <$> sec_names) + 1 in
  '(_, sh_st) ← add_str (new_strtab schdrlen) [];
  '(n, sh_st) ← add_strs sh_st sec_names;
  let n_ i := default 0 (n !! i) in
  let nmstrlen := nmstrlen + 1 in
  '(_, sym_st) ← add_str (new_strtab nmstrlen) [];
  '(sym_offsets, sym_st) ← add_strs sym_st (se_name <$> entries);
  let names := DStrings (take (st_top sym_st) (st_buf sym_st)) in
  let syms := gsym0 :: zip_with gen_sym sym_offsets entries in
  let symsize := (count + 1) * sizeof_sym in
  let s_shstr := Section_ (n_ 0) SHT_STRTAB 0 0 0 (st_top sh_st) 0
                   (Some (DStrings (take (st_top sh_st) (st_buf sh_st)))) in
  let s_strtab := Section_ (n_ 1) SHT_STRTAB 0 0 0 (st_top sym_st) 0 (Some names) in
  let s_dynstr := Section_ (n_ 3) SHT_STRTAB SHF_ALLOC 0 0 (st_top sym_st) 0 (Some names) in
  let s_symtab := Section_ (n_ 2) SHT_SYMTAB 0 2 1 symsize sizeof_sym (Some (DSyms syms)) in
  let s_dynsym := Section_ (n_ 4) SHT_DYNSYM SHF_ALLOC 3 1 symsize sizeof_sym (Some (DSyms syms)) in
  let s_hash := Section_ (n_ 5) SHT_HASH SHF_ALLOC 5 0 ((count + 3) * 4) 0
                  (Some (DWords (gen_hash count))) in
  let s_dyn := Section_ (n_ 6) SHT_DYNAMIC SHF_ALLOC 0 0 (7 * sizeof_dyn) 0
                 (Some (DDyn (gen_dyn (layout 3) (layout 5) (layout 6) (st_top sym_st)))) in
  let p_load := PHdr PT_LOAD 0 0 0x1000 PF_R 0x1000 in
  let p_dyn := PHdr PT_DYNAMIC (layout 7) (layout 7) (Z.of_nat (7 * sizeof_dyn)) PF_R 0 in
  Some (ElfImage ET_DYN EM_X86_64 1 [s_shstr; s_strtab; s_dynstr; s_symtab; s_dynsym; s_hash; s_dyn]
                 [p_load; p_dyn]).

(** ** Reading symbols *)

(** A growable array: contents and capacity. A push first doubles the capacity
    when the array is full; [None] would be a write past the end. *)
Record vec (A : Type) := Vec { v_items : list A; v_cap : nat }.
Arguments Vec {A} _ _.
Arguments v_items {A} _.
Arguments v_cap {A} _.
Definition vec_empty {A} : vec A := Vec [] 0.
Definition vec_push {A} (first : nat) (v : vec A) (x : A) : option (vec A) :=
  let cap := if decide (length (v_items v) = v_cap v)
             then (if decide (v_cap v = 0) then first else v_cap v * 2) else v_cap v in
  if length (v_items v) <? cap then Some (Vec (v_items v ++ [x]) cap) else None.

(** [elf_strptr]: the string at an offset of a string table section. *)
Definition elf_strptr (f : elf_image) (sec : nat) (off : Z) : option chars :=
  match sec with
  | 0 => None
  | S i =>
    s ← e_sections f !! i;
    match sh_data s with
    | Some (DStrings b) =>
      if (0 <=? off)%Z && (off <? Z.of_nat (length b))%Z then Some (cstr_at b (Z.to_nat off)) else None
    | _ => None
    end
  end.

(** The entry and the growth of [nmstrlen]. *)
Definition seInit (f : elf_image) (s : section) (sym : gsym) : option SymbolEntry :=
  name ← elf_strptr f (sh_link s) (st_name sym);
  Some (SymEntry name (if decide (st_shndx sym = SHN_UNDEF) then 0%Z else st_value sym) 0
                 BIND_GLOBAL TYPE_ABS).

Record symacc := SymAcc { sa_ents : vec SymbolEntry; sa_nmstrlen : nat }.

Fixpoint read_section (f : elf_image) (s : section) (syms : list gsym) (count : nat) (acc : symacc)
  {struct count} : option symacc :=
  match count with
  | 0 => Some acc
  | S count =>
    match syms with
    | [] => None
    | sym :: syms =>
      if bool_decide (st_name sym = 0%Z) && bool_decide (st_value sym = 0%Z)
      then read_section f s syms count acc
      else
        e ← seInit f s sym;
        ents ← vec_push 1024 (sa_ents acc) e;
        read_section f s syms count (SymAcc ents (sa_nmstrlen acc + length (se_name e) + 1))
    end
  end.

Fixpoint read_sections (f : elf_image) (ss : list section) (acc : symacc) : option symacc :=
  match ss with
  | [] => Some acc
  | s :: ss =>
    if bool_decide (sh_type s = SHT_SYMTAB) || bool_decide (sh_type s = SHT_DYNSYM) then
      syms ← match sh_data s with Some (DSyms l) => Some l | _ => None end;
      if decide (sh_entsize s = 0) then None
      else acc ← read_section f s syms (sh_size s / sh_entsize s) acc; read_sections f ss acc
    else read_sections f ss acc
  end.

(** What [elf_begin] finds behind a descriptor. *)
Inductive elf_kind := NotElf | OtherKind | IsElf (f : elf_image).

(** The return code with the entries and [nmstrlen]; [None] is undefined
    behaviour on a malformed file. *)
Definition elf_read_syms (k : elf_kind) : option (Z * list SymbolEntry * nat) :=
  match k with
  | NotElf | OtherKind => Some ((-1)%Z, [], 0)
  | IsElf f =>
    acc ← read_sections f (e_sections f) (SymAcc vec_empty 0);
    Some (0%Z, v_items (sa_ents acc), sa_nmstrlen acc)
  end.
