(* ===== verification/KldElfSpec.v ===== *)
(** * String tables and the round trip through a generated library

    A string table of the computed size takes all the names and no byte more,
    each name is read back from the offset it got, and reading the symbols of a
    generated library gives the entries it was generated from. *)
From Stdlib Require Import Ascii.
From S2P Require Import Prelude KoSpec KldElf.

(** ** String tables *)

(** The bytes the strings [l] take, each with its terminator. *)
Definition table (l : list chars) : chars := concat (cbuf <$> l).
Definition table_size (l : list chars) : nat := length (table l).

(** A table that holds [used] and has [room] free bytes. *)
Definition filled (st : strtab) (used : chars) (room : nat) : Prop :=
  st_buf st = used ++ replicate room NUL ∧ st_top st = length used.

Lemma table_cons s l : table (s :: l) = s ++ NUL :: table l.
Proof. unfold table. simpl. unfold cbuf. by rewrite <- (assoc_L (++)). Qed.

Lemma table_size_cons s l : table_size (s :: l) = length s + 1 + table_size l.
Proof. unfold table_size. rewrite table_cons, length_app. simpl. lia. Qed.

Lemma table_app l k : table (l ++ k) = table l ++ table k.
Proof. unfold table. by rewrite fmap_app, concat_app. Qed.

Lemma upto_nul_id s : no_nul s → upto_nul s = s.
Proof.
  induction s as [|c s IH]; simpl; [done|]. intros [Hc Hs]%no_nul_cons.
  rewrite decide_False by done. by rewrite IH.
Qed.

Lemma add_str_fits st used room s :
  filled st used room → no_nul s → length s + 1 ≤ room →
  ∃ st', add_str st s = Some (length used, st') ∧
         filled st' (used ++ s ++ [NUL]) (room - (length s + 1)).
Proof.
  intros [Hb Ht] Hs Hr. unfold add_str, strcpy_at. rewrite (upto_nul_id _ Hs), Hb, Ht.
  rewrite length_app, length_replicate, (proj2 (Nat.leb_le _ _)) by lia. simpl.
  eexists. split; [done|]. split; simpl; [|rewrite !length_app; simpl; lia].
  rewrite take_app_length. rewrite drop_app_ge by lia. rewrite drop_replicate.
  rewrite <- !(assoc_L (++)). simpl. by replace (room - (length used + length s + 1 - length used))
    with (room - (length s + 1)) by lia.
Qed.

Lemma add_str_overflows st used room s :
  filled st used room → no_nul s → room < length s + 1 → add_str st s = None.
Proof.
  intros [Hb Ht] Hs Hr. unfold add_str, strcpy_at. rewrite (upto_nul_id _ Hs), Hb, Ht.
  rewrite length_app, length_replicate, (proj2 (Nat.leb_gt _ _)) by lia. done.
Qed.

(** The offsets: each string starts where the ones before it end. *)
Fixpoint offsets (off : nat) (l : list chars) : list nat :=
  match l with
  | [] => []
  | s :: l => off :: offsets (off + length s + 1) l
  end.

Lemma add_strs_fits l st used room :
  filled st used room → Forall no_nul l → table_size l ≤ room →
  ∃ st', add_strs st l = Some (offsets (length used) l, st') ∧
         filled st' (used ++ table l) (room - table_size l).
Proof.
  revert st used room. induction l as [|s l IH]; intros st used room Hf Hn Hr; simpl.
  - exists st. split; [done|]. unfold table. simpl. by rewrite app_nil_r, Nat.sub_0_r.
  - apply Forall_cons in Hn as [Hs Hn]. rewrite table_size_cons in Hr.
    destruct (add_str_fits _ _ _ _ Hf Hs ltac:(lia)) as (st1 & -> & Hf1). simpl.
    destruct (IH _ _ _ Hf1 Hn ltac:(lia)) as (st2 & -> & Hf2). simpl. exists st2. split.
    + by replace (length (used ++ s ++ [NUL])) with (length used + length s + 1)
        by (rewrite !length_app; simpl; lia).
    + rewrite table_cons, table_size_cons. rewrite <- !(assoc_L (++)) in Hf2. simpl in Hf2.
      by replace (room - (length s + 1 + table_size l)) with (room - (length s + 1) - table_size l) by lia.
Qed.

Lemma add_strs_overflows l st used room :
  filled st used room → Forall no_nul l → room < table_size l → add_strs st l = None.
Proof.
  revert st used room. induction l as [|s l IH]; intros st used room Hf Hn Hr; simpl.
  - unfold table_size in Hr. simpl in Hr. lia.
  - apply Forall_cons in Hn as [Hs Hn]. rewrite table_size_cons in Hr.
    destruct (decide (room < length s + 1)) as [Hlt|Hge].
    + by rewrite (add_str_overflows _ _ _ _ Hf Hs).
    + destruct (add_str_fits _ _ _ _ Hf Hs ltac:(lia)) as (st1 & -> & Hf1). simpl.
      by rewrite (IH _ _ _ Hf1 Hn) by lia.
Qed.

Lemma length_offsets off l : length (offsets off l) = length l.
Proof. revert off. induction l; intros off; simpl; [done|]. by rewrite IHl. Qed.

(** Every string is read back from its offset. *)
Lemma offsets_read l used i s off :
  Forall no_nul l → l !! i = Some s → offsets (length used) l !! i = Some off →
  cstr_at (used ++ table l) off = s ∧ length used ≤ off < length used + table_size l.
Proof.
  revert used i. induction l as [|x l IH]; intros used i Hn Hi Ho; [done|].
  apply Forall_cons in Hn as [Hx Hn]. rewrite table_cons, table_size_cons. destruct i as [|i]; simpl in *.
  - simplify_eq. split; [by apply cstr_at_app|lia].
  - assert (length used + length x + 1 = length (used ++ x ++ [NUL])) as E
      by (rewrite !length_app; simpl; lia).
    rewrite E in Ho. destruct (IH _ _ Hn Hi Ho) as [Hc Hb]. rewrite !length_app in Hb. simpl in Hb.
    rewrite <- !(assoc_L (++)) in Hc. simpl in Hc. split; [done|lia].
Qed.

(** A fresh table after the mandatory empty string. *)
Lemma first_empty n : 
  ∃ st, add_str (new_strtab (n + 1)) [] = Some (0, st) ∧ filled st [NUL] n.
Proof.
  destruct (add_str_fits (new_strtab (n + 1)) [] (n + 1) []) as (st & E & Hf).
  - by split.
  - apply not_elem_of_nil.
  - simpl. lia.
  - exists st. split; [done|]. simpl in Hf. by replace (n + 1 - 1) with n in Hf by lia.
Qed.

Lemma filled_take st used room : filled st used room → take (st_top st) (st_buf st) = used.
Proof. intros [-> ->]. by rewrite take_app_length. Qed.

(** ** The generated image *)
Definition names_data (entries : list SymbolEntry) : chars := NUL :: table (se_name <$> entries).
Definition sec_data : chars := NUL :: table sec_names.

Definition gen_syms (entries : list SymbolEntry) : list gsym :=
  gsym0 :: zip_with gen_sym (offsets 1 (se_name <$> entries)) entries.

Definition gen_image (layout : nat → Z) (entries : list SymbolEntry) : elf_image :=
  let n_ i := default 0 (offsets 1 sec_names !! i) in
  let count := length entries in
  let symsize := (count + 1) * sizeof_sym in
  let names := DStrings (names_data entries) in
  let top := length (names_data entries) in
  ElfImage ET_DYN EM_X86_64 1
    [Section_ (n_ 0) SHT_STRTAB 0 0 0 (length sec_data) 0 (Some (DStrings sec_data));
     Section_ (n_ 1) SHT_STRTAB 0 0 0 top 0 (Some names);
     Section_ (n_ 3) SHT_STRTAB SHF_ALLOC 0 0 top 0 (Some names);
     Section_ (n_ 2) SHT_SYMTAB 0 2 1 symsize sizeof_sym (Some (DSyms (gen_syms entries)));
     Section_ (n_ 4) SHT_DYNSYM SHF_ALLOC 3 1 symsize sizeof_sym (Some (DSyms (gen_syms entries)));
     Section_ (n_ 5) SHT_HASH SHF_ALLOC 5 0 ((count + 3) * 4) 0 (Some (DWords (gen_hash count)));
     Section_ (n_ 6) SHT_DYNAMIC SHF_ALLOC 0 0 (7 * sizeof_dyn) 0
       (Some (DDyn (gen_dyn (layout 3) (layout 5) (layout 6) top)))]
    [PHdr PT_LOAD 0 0 0x1000 PF_R 0x1000;
     PHdr PT_DYNAMIC (layout 7) (layout 7) (Z.of_nat (7 * sizeof_dyn)) PF_R 0].

(** The table of section names holds exactly the names. *)
Lemma sec_table :
  match add_str (new_strtab (sum_list (S ∘ length <$> sec_names) + 1)) [] with
  | Some (_, st) => add_strs st sec_names = Some (offsets 1 sec_names, StrTab sec_data (length sec_data))
  | None => False
  end.
Proof. vm_compute. reflexivity. Qed.

Lemma generate_spec layout entries nmstrlen :
  Forall (no_nul ∘ se_name) entries →
  elf_generate_elf layout entries nmstrlen =
  if decide (table_size (se_name <$> entries) ≤ nmstrlen) then Some (gen_image layout entries) else None.
Proof.
  intros Hn. assert (Forall no_nul (se_name <$> entries)) as Hn' by (by apply Forall_fmap).
  unfold elf_generate_elf. pose proof sec_table as Hsec.
  destruct (add_str (new_strtab (sum_list _ + 1)) []) as [[o st]|]; [|done].
  cbn [mbind option_bind]. rewrite Hsec. cbn [mbind option_bind st_top st_buf]. destruct (first_empty nmstrlen) as (st1 & -> & Hf1). cbn [mbind option_bind].
  destruct (decide _) as [Hle|Hgt].
  - destruct (add_strs_fits _ _ _ _ Hf1 Hn' Hle) as (st2 & -> & Hf2). cbn [mbind option_bind].
    rewrite (filled_take _ _ _ Hf2), (proj2 Hf2). unfold sec_data at 1 2. rewrite firstn_all. reflexivity.
  - by rewrite (add_strs_overflows _ _ _ _ Hf1 Hn') by lia.
Qed.

(** ** Reading symbols *)
Definition vec_ok {A} (v : vec A) : Prop := length (v_items v) ≤ v_cap v.

(** A push is always inside the array. *)
Lemma vec_push_ok {A} first (v : vec A) x :
  0 < first → vec_ok v →
  ∃ v', vec_push first v x = Some v' ∧ v_items v' = v_items v ++ [x] ∧ vec_ok v'.
Proof.
  unfold vec_ok, vec_push. intros Hf Hv.
  destruct (decide (length (v_items v) = v_cap v)) as [E|E];
    [destruct (decide (v_cap v = 0)) as [E0|E0]|];
    (rewrite (proj2 (Nat.ltb_lt _ _)) by lia); eexists;
    (split; [done|]); simpl; (split; [done|]); rewrite length_app; simpl; lia.
Qed.

(** The entry the reader makes of a symbol. *)
Definition reread (e : SymbolEntry) : SymbolEntry :=
  SymEntry (se_name e) (se_addr e) 0 BIND_GLOBAL TYPE_ABS.

(** Symbols that carry the entries [es] as far as the reader can see. *)
Definition carries (f : elf_image) (s : section) (sym : gsym) (e : SymbolEntry) : Prop :=
  st_name sym ≠ 0%Z ∧ seInit f s sym = Some (reread e).

Lemma read_section_carries f s syms es acc :
  Forall2 (carries f s) syms es → vec_ok (sa_ents acc) →
  ∃ acc', read_section f s syms (length syms) acc = Some acc' ∧
    v_items (sa_ents acc') = v_items (sa_ents acc) ++ (reread <$> es) ∧ vec_ok (sa_ents acc') ∧
    sa_nmstrlen acc' = sa_nmstrlen acc + table_size (se_name <$> es).
Proof.
  intros Hc. revert acc. induction Hc as [|sym e syms es [Hz Hi] Hc IH]; intros acc Hv;
    cbn [read_section length].
  - exists acc. split_and!; [done|by rewrite app_nil_r|done|]. unfold table_size. simpl. lia.
  - rewrite bool_decide_eq_false_2 by done. rewrite Hi. cbn [andb mbind option_bind].
    destruct (vec_push_ok 1024 (sa_ents acc) (reread e) ltac:(lia) Hv) as (v' & -> & Hit & Hv').
    cbn [mbind option_bind]. change (se_name (reread e)) with (se_name e).
    destruct (IH (SymAcc v' (sa_nmstrlen acc + length (se_name e) + 1)) Hv')
      as (acc' & -> & Hitems & Hok & Hlen).
    exists acc'. split; [done|]. cbn [sa_ents sa_nmstrlen] in *. split_and!; [|done|].
    + by rewrite Hitems, Hit, fmap_cons, <- (assoc_L (++)).
    + rewrite Hlen, fmap_cons, table_size_cons. lia.
Qed.

Lemma carries_gen layout entries s :
  Forall (no_nul ∘ se_name) entries → (Z.of_nat (length (names_data entries)) < 2 ^ 32)%Z →
  sh_link s = 2 ∨ sh_link s = 3 →
  Forall2 (carries (gen_image layout entries) s)
          (zip_with gen_sym (offsets 1 (se_name <$> entries)) entries) entries.
Proof.
  intros Hn Hlt Hlink. apply Forall2_same_length_lookup_2.
  { rewrite length_zip_with, length_offsets, length_fmap. lia. }
  intros i sym e Hsym He. apply lookup_zip_with_Some in Hsym as (off & e' & -> & Hoff & He').
  assert (e' = e) as -> by congruence.
  assert (Forall no_nul (se_name <$> entries)) as Hn' by (by apply Forall_fmap).
  destruct (offsets_read _ [NUL] i (se_name e) off Hn') as [Hc Hb];
    [by rewrite list_lookup_fmap, He|done|]. simpl length in Hb.
  change ([NUL] ++ table (se_name <$> entries)) with (names_data entries) in Hc.
  assert (off < length (names_data entries)) as Hol.
  { unfold names_data, table_size in *. simpl. lia. }
  assert (u32 (Z.of_nat off) = Z.of_nat off) as Hu by (unfold u32; rewrite Z.mod_small; lia).
  split; [change (u32 (Z.of_nat off) ≠ 0%Z); rewrite Hu; lia|]. unfold seInit. cbn [st_name gen_sym]. rewrite Hu.
  assert (elf_strptr (gen_image layout entries) (sh_link s) (Z.of_nat off) = Some (se_name e)) as ->.
  { assert (elf_strptr (gen_image layout entries) (sh_link s) (Z.of_nat off) =
            if (0 <=? Z.of_nat off)%Z && (Z.of_nat off <? Z.of_nat (length (names_data entries)))%Z
            then Some (cstr_at (names_data entries) (Z.to_nat (Z.of_nat off))) else None) as ->.
    { destruct Hlink as [-> | ->]; reflexivity. }
    rewrite (proj2 (Z.leb_le _ _)), (proj2 (Z.ltb_lt _ _)) by lia. simpl. by rewrite Nat2Z.id, Hc. }
  done.
Qed.

Lemma gen_syms_length entries : length (gen_syms entries) = length entries + 1.
Proof. unfold gen_syms. simpl. rewrite length_zip_with, length_offsets, length_fmap. lia. Qed.

(** Reading back a generated library: the entries, once per symbol table. *)
Lemma read_generated layout entries :
  Forall (no_nul ∘ se_name) entries → (Z.of_nat (length (names_data entries)) < 2 ^ 32)%Z →
  elf_read_syms (IsElf (gen_image layout entries)) =
  Some (0%Z, (reread <$> entries) ++ (reread <$> entries), 2 * table_size (se_name <$> entries)).
Proof.
  intros Hn Hlt. set (f := gen_image layout entries). unfold elf_read_syms.
  assert (∀ s acc, sh_link s = 2 ∨ sh_link s = 3 → vec_ok (sa_ents acc) →
    ∃ acc', read_section f s (gen_syms entries) (length entries + 1) acc = Some acc' ∧
      v_items (sa_ents acc') = v_items (sa_ents acc) ++ (reread <$> entries) ∧ vec_ok (sa_ents acc') ∧
      sa_nmstrlen acc' = sa_nmstrlen acc + table_size (se_name <$> entries)) as Hsec.
  { intros s acc Hl Hv.
    destruct (read_section_carries f s _ _ acc (carries_gen layout entries s Hn Hlt Hl) Hv) as (acc' & Hr & Hacc).
    exists acc'. split; [|done]. rewrite Nat.add_1_r. unfold gen_syms. cbn [read_section].
    rewrite bool_decide_eq_true_2 by done. cbn -[read_section]. rewrite <- Hr. f_equal.
    rewrite length_zip_with, length_offsets, length_fmap. lia. }
  assert ((length entries + 1) * sizeof_sym / sizeof_sym = length entries + 1) as Hdiv
    by (apply Nat.div_mul; done).
  unfold f at 2. unfold gen_image. cbn -[read_section gen_syms sizeof_sym Nat.div Nat.mul f names_data sec_data].
  repeat match goal with |- context [bool_decide ?P] =>
    let b := eval vm_compute in (bool_decide P) in change (bool_decide P) with b end.
  cbn [orb]. rewrite !(decide_False (P := sizeof_sym = 0)) by done. rewrite !Hdiv.
  match goal with |- context [read_section f ?s _ _ (SymAcc vec_empty 0)] =>
    destruct (Hsec s (SymAcc vec_empty 0)) as (acc1 & -> & Hi1 & Hv1 & Hn1);
    [by left|unfold vec_ok; simpl; lia|] end.
  cbn [mbind option_bind]. rewrite (decide_False (P := sizeof_sym = 0)) by done.
  match goal with |- context [read_section f ?s _ _ acc1] =>
    destruct (Hsec s acc1 ltac:(by right) Hv1) as (acc2 & -> & Hi2 & _ & Hn2) end.
  cbn [mbind option_bind]. rewrite Hi2, Hi1, Hn2, Hn1. simpl. do 2 f_equal. lia.
Qed.
