(* ===== verification/Kallsyms.v ===== *)
(** * Processing of [/proc/kallsyms] ([kld/main.c]: [initSE], [mkpath],
    [prcKallsyms])

    Each line is scanned with [sscanf] and cut in place; symbols are collected
    for the kernel and per module in growing arrays, and a library is written
    for each collection. What is written is recorded in order as the state. *)
From Stdlib Require Import Ascii.
From S2P Require Import Prelude UtHash KoSpec KldElf.

(** ** [sscanf] with ["%" SCNx64 " %c %n%*s%n %n%*s%n"] *)
Definition isspace (c : ascii) : bool :=
  bool_decide (c ∈ [" "; "009"; "010"; "011"; "012"; "013"]%char).

(** The value of a hexadecimal digit. *)
Definition hexdigit (c : ascii) : option Z :=
  let n := Z.of_N (N_of_ascii c) in
  if (48 <=? n)%Z && (n <=? 57)%Z then Some (n - 48)%Z
  else if (97 <=? n)%Z && (n <=? 102)%Z then Some (n - 87)%Z
  else if (65 <=? n)%Z && (n <=? 70)%Z then Some (n - 55)%Z
  else None.

(** How many characters at the front satisfy [f]. *)
Fixpoint span (f : ascii → bool) (l : chars) : nat :=
  match l with
  | [] => 0
  | c :: l => if f c then S (span f l) else 0
  end.

(** The positions reached by skipping white space and by matching [%s]. *)
Definition skip_ws (l : chars) (i : nat) : nat := i + span isspace (drop i l).
Definition skip_word (l : chars) (i : nat) : nat := i + span (negb ∘ isspace) (drop i l).

(** The digits from position [i] on: value and the position after them. *)
Fixpoint hexdigits (l : chars) (acc : Z) : Z * nat :=
  match l with
  | [] => (acc, 0)
  | c :: l =>
    match hexdigit c with
    | Some d => let '(v, n) := hexdigits l (acc * 16 + d) in (v, S n)
    | None => (acc, 0)
    end
  end.

(** [%lx]: white space, an optional sign, an optional [0x], digits. The value
    saturates like [strtoul]. *)
Definition scan_hex (l : chars) (i : nat) : option (Z * nat) :=
  let i := skip_ws l i in
  let '(neg, i) := match l !! i with
                   | Some "-"%char => (true, S i)
                   | Some "+"%char => (false, S i)
                   | _ => (false, i)
                   end in
  let i := if bool_decide (l !! i = Some "0"%char)
              && (bool_decide (l !! S i = Some "x"%char) || bool_decide (l !! S i = Some "X"%char))
           then i + 2 else i in
  match hexdigits (drop i l) 0 with
  | (_, 0) => None
  | (v, n) => Some (if (2 ^ 64 <=? v)%Z then (2 ^ 64 - 1)%Z else if neg : bool then u64 (- v) else v,
                    i + n)
  end.

(** What the call leaves: the number of conversions, and the variables, with
    the values they had before where the scan stopped early. *)
Record scanned := Scanned {
  sc_n : nat; sc_addr : Z; sc_type : ascii;
  sc_sym_start : nat; sc_sym_end : nat; sc_mod_start : nat; sc_mod_end : nat;
}.

Definition sscanf_line (l : chars) (addr0 : Z) (type0 : ascii) : scanned :=
  match scan_hex l 0 with
  | None => Scanned 0 addr0 type0 0 0 0 0
  | Some (addr, i) =>
    let i := skip_ws l i in
    match l !! i with
    | None => Scanned 1 addr type0 0 0 0 0
    | Some type =>
      let sym_start := skip_ws l (S i) in
      let sym_end := skip_word l sym_start in
      if decide (sym_end = sym_start) then Scanned 2 addr type sym_start 0 0 0
      else
        let mod_start := skip_ws l sym_end in
        let mod_end := skip_word l mod_start in
        if decide (mod_end = mod_start) then Scanned 2 addr type sym_start sym_end mod_start 0
        else Scanned 2 addr type sym_start sym_end mod_start mod_end
    end
  end.

(** ** Symbol entries *)

(** [None]: an unsupported type letter, on which the code asserts. *)
Definition sym_class (type : ascii) : option (symbind * symtype) :=
  if decide (type ∈ ["A"; "a"]%char) then Some (BIND_GLOBAL, TYPE_ABS)
  else if decide (type ∈ ["B"; "b"]%char) then Some (BIND_GLOBAL, TYPE_BSS)
  else if decide (type ∈ ["D"; "d"]%char) then Some (BIND_GLOBAL, TYPE_DATA)
  else if decide (type ∈ ["R"; "r"]%char) then Some (BIND_GLOBAL, TYPE_RODATA)
  else if decide (type ∈ ["T"; "t"]%char) then Some (BIND_GLOBAL, TYPE_FUNC)
  else if decide (type ∈ ["V"; "W"; "v"; "w"]%char) then Some (BIND_WEAK, TYPE_FUNC)
  else None.

Definition initSE {S} (addr : Z) (name : chars) (type : ascii) : M S SymbolEntry :=
  match sym_class type with
  | Some (b, t) => mret (SymEntry name addr 0 b t)
  | None => abortM
  end.

(** ** Creating the output directory *)

(** The paths [mkdir] is called with, in order: every prefix that ends before a
    slash (past the first character), then the path itself. *)
Fixpoint mkpath_prefixes (seen rest : chars) : list chars :=
  match rest with
  | [] => [seen]
  | c :: rest =>
    if decide (c = SLASH) then seen :: mkpath_prefixes (seen ++ [c]) rest
    else mkpath_prefixes (seen ++ [c]) rest
  end.

(** [mkdir_ok p]: [mkdir] of [p] succeeds or reports EEXIST. The result lists
    the calls made. *)
Fixpoint mkdirs (mkdir_ok : chars → bool) (ps : list chars) : Z * list chars :=
  match ps with
  | [] => (0%Z, [])
  | p :: ps =>
    if mkdir_ok p then let '(rc, done) := mkdirs mkdir_ok ps in (rc, p :: done)
    else ((-1)%Z, [p])
  end.

(** [None]: the empty path, of which the code reads the byte past the end. *)
Definition mkpath (mkdir_ok : chars → bool) (path : chars) : option (Z * list chars) :=
  match path with
  | [] => None
  | c :: rest => Some (mkdirs mkdir_ok (mkpath_prefixes [c] rest))
  end.

(** ** The main loop *)
Section kallsyms.
Context `{UT : UtHash}.

(** [struct Module], and the counterpart for the kernel itself. *)
Record symset := SymSet { ss_entries : vec SymbolEntry; ss_nmstrlen : Z }.
Definition symset0 : symset := SymSet vec_empty 0.

(** A library that was written: path, entries, room for names. *)
Record library := Library { l_path : chars; l_entries : list SymbolEntry; l_nmstrlen : Z }.

(** [ka_mods] are the [struct Module]s allocated so far, [ka_mhash] the table
    of pointers to them, by name. *)
Record kasym := KAsym {
  ka_kernel : symset;
  ka_mods : list symset;
  ka_mhash : htab chars nat;
  ka_written : list library;
}.
Definition set_kernel (k : symset) (s : kasym) : kasym :=
  KAsym k (ka_mods s) (ka_mhash s) (ka_written s).
Definition set_mods (l : list symset) (m : htab chars nat) (s : kasym) : kasym :=
  KAsym (ka_kernel s) l m (ka_written s).
Definition add_library (l : library) (s : kasym) : kasym :=
  KAsym (ka_kernel s) (ka_mods s) (ka_mhash s) (ka_written s ++ [l]).

(** Grow the array when it is full, fill in the entry, count its name. *)
Definition add_sym (ss : symset) (addr : Z) (name : chars) (type : ascii) (nmlen : Z)
  : M kasym symset :=
  e ← initSE addr name type;
  v ← derefM (vec_push 1024 (ss_entries ss) e);
  mret (SymSet v (u64 (ss_nmstrlen ss + nmlen))).

(** The module of that name, allocated when it is new. *)
Definition find_module (module : chars) : M kasym nat :=
  s ← getM;
  match ht_find module (ka_mhash s) with
  | Some p => mret p
  | None =>
    let p := length (ka_mods s) in
    _ ← modifyM (set_mods (ka_mods s ++ [symset0]) (ht_add module p (ka_mhash s)));
    mret p
  end.

(** One line, with its terminator; [addr0] and [type0] are left over from the
    line before and never used. *)
Definition prc_line (text : chars) : M kasym unit :=
  let sc := sscanf_line (upto_nul text) 0 NUL in
  if sc_n sc <? 2 then mret tt
  else
    let line := <[sc_sym_end sc := NUL]> (cbuf text) in
    let nmlen := u64 (Z.of_nat (sc_sym_end sc) - Z.of_nat (sc_sym_start sc) + 1) in
    if (0 <? sc_mod_start sc) && (sc_mod_start sc <? sc_mod_end sc) then
      let line := <[sc_mod_start sc := "["%char]> line in
      let line := if decide (line !! (sc_mod_end sc - 1) ∈ [Some "010"; Some "013"; Some "]"]%char)
                  then <[sc_mod_end sc - 1 := NUL]> line else line in
      let line := <[sc_mod_end sc := NUL]> line in
      let module := cstr_at line (S (sc_mod_start sc)) in
      let name := cstr_at line (sc_sym_start sc) in
      p ← find_module module;
      s ← getM;
      m ← derefM (ka_mods s !! p);
      m ← add_sym m (sc_addr sc) name (sc_type sc) nmlen;
      modifyM (λ s, set_mods (<[p := m]> (ka_mods s)) (ka_mhash s) s)
    else
      let name := cstr_at line (sc_sym_start sc) in
      s ← getM;
      k ← add_sym (ka_kernel s) (sc_addr sc) name (sc_type sc) nmlen;
      modifyM (set_kernel k).

Fixpoint prc_lines (lines : list chars) : M kasym unit :=
  match lines with
  | [] => mret tt
  | l :: lines => _ ← prc_line l; prc_lines lines
  end.

(** [path/libname.so], or without a prefix [libname.so]. *)
Definition lib_path (prefix : option chars) (name : chars) : chars :=
  take 4095 (match prefix with Some p => p ++ chr "/lib" | None => chr "lib" end ++ name ++ chr ".so").

Definition writeso_path (path : chars) (ss : symset) : M kasym unit :=
  modifyM (add_library (Library path (v_items (ss_entries ss)) (ss_nmstrlen ss))).

Fixpoint write_modules (prefix : option chars) (items : list (chars * nat)) : M kasym unit :=
  match items with
  | [] => mret tt
  | (name, p) :: items =>
    s ← getM;
    m ← derefM (ka_mods s !! p);
    _ ← writeso_path (lib_path prefix name) m;
    _ ← modifyM (λ s, set_mods (ka_mods s) (ht_del name (ka_mhash s)) s);
    write_modules prefix items
  end.

(** [pathprefix && mkpath(pathprefix, 0777)] *)
Definition make_prefix (mkdir_ok : chars → bool) (pathprefix : option chars) : M kasym Z :=
  match pathprefix with
  | Some p => r ← derefM (mkpath mkdir_ok p); mret r.1
  | None => mret 0%Z
  end.

(** [mkdir_ok] is the system's answer to [mkpath]; [lines] is the text of
    [/proc/kallsyms]. The function ends the program. *)
Definition prcKallsyms (mkdir_ok : chars → bool) (pathprefix : option chars) (lines : list chars)
  : M kasym unit :=
  rc ← make_prefix mkdir_ok pathprefix;
  if (rc <? 0)%Z then mret tt
  else
    _ ← prc_lines lines;
    s ← getM;
    _ ← (if decide (v_items (ss_entries (ka_kernel s)) ≠ []) then
           writeso_path (lib_path pathprefix (chr "kern")) (ka_kernel s)
         else mret tt);
    s ← getM;
    _ ← write_modules pathprefix (ht_items (ka_mhash s));
    exitM 1.

Definition kasym0 : kasym := KAsym symset0 [] ht_empty [].
End kallsyms.
Arguments kasym {UT}.
