(* ===== verification/KallsymsSpec.v ===== *)
(** * Reading back the lines of [/proc/kallsyms]

    Lines as the kernel prints them are scanned to the fields they were printed
    from, and a whole file is collected into one set of symbols for the kernel
    and one per module, in file order and with the exact room for the names. *)
From Stdlib Require Import Ascii.
From S2P Require Import Prelude UtHash KoSpec KldElf KldElfSpec Kallsyms.

(** ** Lines as the kernel prints them *)
Definition hex_chr (d : Z) : ascii := default "0"%char (chr "0123456789abcdef" !! Z.to_nat d).

(** [n] digits, most significant first. *)
Fixpoint hexn (n : nat) (a : Z) : chars :=
  match n with
  | 0 => []
  | S n => hexn n (a / 16) ++ [hex_chr (a mod 16)]
  end.

Record ksym := KSym { ky_addr : Z; ky_type : ascii; ky_name : chars; ky_module : option chars }.

(** ["%016lx %c %s"], for a module ["\t[%s]"], and the end of the line. *)
Definition print_sym (k : ksym) : chars :=
  hexn 16 (ky_addr k) ++ [" "%char] ++ [ky_type k] ++ [" "%char] ++ ky_name k ++
  match ky_module k with Some m => ["009"; "["]%char ++ m ++ ["]"%char] | None => [] end ++ ["010"%char].

Definition word (s : chars) : Prop := s ≠ [] ∧ Forall (λ c, isspace c = false ∧ c ≠ NUL) s.

Record ksym_ok (k : ksym) : Prop := {
  ko_addr : (0 <= ky_addr k < 2 ^ 64)%Z;
  ko_type : is_Some (sym_class (ky_type k));
  ko_name : word (ky_name k);
  ko_module : ∀ m, ky_module k = Some m → word m;
}.

(** ** Hexadecimal numbers *)
Lemma hexdigit_chr d : (0 <= d < 16)%Z → hexdigit (hex_chr d) = Some d.
Proof.
  intros Hd. assert (d ∈ seqZ 0 16) as Hin by (apply elem_of_seqZ; lia).
  assert (Forall (λ d, hexdigit (hex_chr d) = Some d) (seqZ 0 16)) as Hall
    by (apply (bool_decide_unpack _); by vm_compute).
  by apply (proj1 (Forall_forall _ _) Hall).
Qed.

Lemma hexdigits_app l k acc :
  Forall (λ c, is_Some (hexdigit c)) l →
  hexdigits (l ++ k) acc =
  ((hexdigits k (hexdigits l acc).1).1, length l + (hexdigits k (hexdigits l acc).1).2).
Proof.
  revert acc. induction l as [|c l IH]; intros acc Hl; simpl; [by destruct (hexdigits k acc)|].
  apply Forall_cons in Hl as [[d Hd] Hl]. rewrite Hd. rewrite (IH _ Hl).
  destruct (hexdigits l (acc * 16 + d)) as [v n]. done.
Qed.

Lemma hexn_digits n a : Forall (λ c, is_Some (hexdigit c)) (hexn n a).
Proof.
  revert a. induction n as [|n IH]; intros a; simpl; [constructor|].
  apply Forall_app. split; [done|]. constructor; [|constructor].
  rewrite hexdigit_chr by (apply Z.mod_pos_bound; lia). eauto.
Qed.

Lemma hexn_length n a : length (hexn n a) = n.
Proof. revert a. induction n; intros a; simpl; [done|]. rewrite length_app, IHn. simpl. lia. Qed.

Lemma hexn_value n a acc :
  (hexdigits (hexn n a) acc).1 = (acc * 16 ^ Z.of_nat n + a mod 16 ^ Z.of_nat n)%Z.
Proof.
  revert a acc. induction n as [|n IH]; intros a acc; cbn [hexn].
  - simpl. rewrite Z.mod_1_r. lia.
  - rewrite hexdigits_app by apply hexn_digits. rewrite IH. cbn [hexdigits fst].
    rewrite hexdigit_chr by (apply Z.mod_pos_bound; lia). cbn [fst].
    rewrite Nat2Z.inj_succ, Z.pow_succ_r by lia.
    rewrite (Z.rem_mul_r a 16) by lia. lia.
Qed.

(** ** Scanning *)
Lemma span_app f l r :
  Forall (λ c, f c = true) l → (∀ c, head r = Some c → f c = false) → span f (l ++ r) = length l.
Proof.
  induction l as [|c l IH]; simpl; intros Hl Hr.
  - destruct r as [|c r]; simpl; [done|]. by rewrite Hr.
  - apply Forall_cons in Hl as [-> Hl]. by rewrite IH.
Qed.

Lemma skip_ws_at pre ws r i :
  i = length pre → Forall (λ c, isspace c = true) ws → (∀ c, head r = Some c → isspace c = false) →
  skip_ws (pre ++ ws ++ r) i = length pre + length ws.
Proof. intros -> Hw Hr. unfold skip_ws. by rewrite drop_app_length, span_app. Qed.

Lemma skip_word_at pre w r i :
  i = length pre → Forall (λ c, isspace c = false) w → (∀ c, head r = Some c → isspace c = true) →
  skip_word (pre ++ w ++ r) i = length pre + length w.
Proof.
  intros -> Hw Hr. unfold skip_word. rewrite drop_app_length, span_app; [done| |].
  - eapply Forall_impl; [exact Hw|]. intros c Hc. simpl. by rewrite Hc.
  - intros c Hc. simpl. by rewrite (Hr c Hc).
Qed.

Lemma hexdigit_props c :
  is_Some (hexdigit c) →
  isspace c = false ∧ c ≠ "-"%char ∧ c ≠ "+"%char ∧ c ≠ "x"%char ∧ c ≠ "X"%char ∧ c ≠ NUL.
Proof.
  intros [d Hd]. destruct c as [[] [] [] [] [] [] [] []]; try (vm_compute in Hd; discriminate Hd);
    split_and!; try done.
Qed.

Lemma scan_hex_at n a r c :
  (0 <= a < 16 ^ Z.of_nat n)%Z → (a < 2 ^ 64)%Z → 2 ≤ n → hexdigit c = None →
  scan_hex (hexn n a ++ c :: r) 0 = Some (a, n).
Proof.
  intros Ha Ha' Hn Hc. pose proof (hexn_digits n a) as Hd. pose proof (hexn_length n a) as Hl.
  pose proof (hexn_value n a 0) as Hv. rewrite Z.mod_small in Hv by lia.
  destruct (hexn n a) as [|x [|y l]] eqn:E; simpl in Hl; [lia..|].
  pose proof Hd as [Hx [Hy _]%Forall_cons]%Forall_cons.
  destruct (hexdigit_props _ Hx) as (Hws & Hm & Hp & _ & _ & _).
  destruct (hexdigit_props _ Hy) as (_ & _ & _ & Hyx & HyX & _).
  unfold scan_hex. assert (skip_ws ((x :: y :: l) ++ c :: r) 0 = 0) as ->.
  { unfold skip_ws. simpl. by rewrite Hws. }
  assert (((x :: y :: l) ++ c :: r) !! 0 = Some x) as -> by done.
  assert (match Some x with Some "-"%char => (true, 1) | Some "+"%char => (false, 1) | _ => (false, 0) end
          = (false, 0)) as ->.
  { destruct x as [[] [] [] [] [] [] [] []]; done. }
  rewrite (bool_decide_eq_false_2 (_ !! 1 = Some "x"%char)) by (simpl; congruence).
  rewrite (bool_decide_eq_false_2 (_ !! 1 = Some "X"%char)) by (simpl; congruence).
  simpl orb. rewrite andb_false_r. rewrite drop_0, hexdigits_app by done. rewrite Hv.
  assert (hexdigits (c :: r) (0 * 16 ^ Z.of_nat n + a) = ((0 * 16 ^ Z.of_nat n + a)%Z, 0)) as ->
    by (simpl; by rewrite Hc).
  cbn [fst snd]. rewrite Nat.add_0_r. cbn [length]. rewrite Z.mul_0_l, Z.add_0_l.
  destruct (Z.leb_spec (2 ^ 64) a); [lia|]. by rewrite <- Hl.
Qed.

Lemma sym_class_nonspace t : is_Some (sym_class t) → isspace t = false ∧ t ≠ NUL.
Proof.
  intros [x Hx]. destruct t as [[] [] [] [] [] [] [] []]; try (vm_compute in Hx; discriminate Hx);
    split; try done.
Qed.

Lemma word_nonspace s : word s → Forall (λ c, isspace c = false) s.
Proof. intros [_ Hs]. eapply Forall_impl; [exact Hs|]. by intros c [? _]. Qed.

Lemma word_no_nul s : word s → no_nul s.
Proof.
  intros [_ Hs] Hin. by destruct (proj1 (Forall_forall _ _) Hs _ Hin).
Qed.

Lemma word_head s r c : word s → head (s ++ r) = Some c → isspace c = false.
Proof.
  intros [Hne Hs]. destruct s as [|x s]; [done|]. intros [= <-].
  by apply Forall_cons in Hs as [[? _] _].
Qed.

(** The front of a line, up to the name. *)
Definition line_front (k : ksym) : chars :=
  hexn 16 (ky_addr k) ++ [" "%char] ++ [ky_type k] ++ [" "%char].
Definition line_tail (m : option chars) : chars :=
  match m with Some m => ["009"; "["]%char ++ m ++ ["]"%char] | None => [] end ++ ["010"%char].

Lemma print_split k : print_sym k = line_front k ++ ky_name k ++ line_tail (ky_module k).
Proof. unfold print_sym, line_front, line_tail. by rewrite <- !(assoc_L (++)). Qed.

Lemma length_front k : length (line_front k) = 19.
Proof. unfold line_front. rewrite !length_app, hexn_length. done. Qed.

(** The front of a printed line: address, class and the start of the name. *)
Lemma scan_front k :
  ksym_ok k →
  scan_hex (print_sym k) 0 = Some (ky_addr k, 16) ∧ skip_ws (print_sym k) 16 = 17 ∧
  print_sym k !! 17 = Some (ky_type k) ∧ skip_ws (print_sym k) 18 = 19.
Proof.
  intros [Ha Ht Hn Hm]. destruct (sym_class_nonspace _ Ht) as [Hts _]. unfold print_sym. split_and!.
  - apply scan_hex_at; [|lia|lia|done]. change (16 ^ Z.of_nat 16)%Z with (2 ^ 64)%Z. lia.
  - rewrite skip_ws_at; rewrite ?hexn_length; try done.
    + by repeat constructor.
    + by intros c [= <-].
  - rewrite lookup_app_r; rewrite hexn_length; done || lia.
  - rewrite (assoc_L (++) (hexn 16 _)), (assoc_L (++) (hexn 16 _ ++ _)).
    rewrite skip_ws_at; rewrite ?length_app, ?hexn_length; try done.
    + by repeat constructor.
    + intros c. by apply word_head.
Qed.

(** [sscanf] on a printed line. *)
Lemma scan_printed k a0 t0 :
  ksym_ok k →
  sscanf_line (print_sym k) a0 t0 =
  let se := 19 + length (ky_name k) in
  Scanned 2 (ky_addr k) (ky_type k) 19 se (S se)
    (match ky_module k with Some m => S se + (length m + 2) | None => 0 end).
Proof.
  intros Hk. destruct (scan_front k Hk) as (E1 & E2 & E3 & E4). destruct Hk as [_ _ Hn Hm].
  unfold sscanf_line. rewrite E1, E2, E3, E4. clear E1 E2 E3 E4.
  rewrite !print_split. rewrite (skip_word_at (line_front k)).
  2:{ by rewrite length_front. } 2:{ by apply word_nonspace. }
  2:{ destruct (ky_module k); by intros c [= <-]. }
  rewrite length_front. cbv zeta. set (se := 19 + length (ky_name k)).
  assert (se ≠ 19) as Hse. { unfold se. destruct Hn as [Hne _]. destruct (ky_name k); [done|simpl; lia]. }
  rewrite (decide_False (P := se = 19)) by done.
  assert (se = length (line_front k ++ ky_name k)) as Hl by (unfold se; by rewrite length_app, length_front).
  rewrite (assoc_L (++)). unfold line_tail. destruct (ky_module k) as [m|] eqn:Em.
  - pose proof (Hm m eq_refl) as Hw.
    replace ((["009"; "["]%char ++ m ++ ["]"%char]) ++ ["010"%char])
      with (["009"%char] ++ (["["%char] ++ m ++ ["]"%char]) ++ ["010"%char]) by done.
    rewrite skip_ws_at; [|done|by repeat constructor|by intros c [= <-]].
    rewrite <- Hl. rewrite (assoc_L (++) _ ["009"%char]).
    assert (length ((line_front k ++ ky_name k) ++ ["009"%char]) = se + 1) as Hl1
      by (by rewrite length_app, <- Hl).
    assert (length (["["%char] ++ m ++ ["]"%char]) = length m + 2) as Hl2
      by (simpl; rewrite length_app; simpl; lia).
    rewrite skip_word_at.
    + rewrite Hl1, Hl2. change (length ["009"%char]) with 1.
      rewrite decide_False by lia. f_equal; lia.
    + by rewrite Hl1.
    + apply Forall_app. split; [by repeat constructor|].
      apply Forall_app. split; [by apply word_nonspace|by repeat constructor].
    + by intros c [= <-].
  - change ([] ++ ["010"%char]) with ["010"%char]. assert (skip_ws ((line_front k ++ ky_name k) ++ ["010"%char]) se = S se) as ->.
    { pose proof (skip_ws_at (line_front k ++ ky_name k) ["010"%char] [] se Hl
        ltac:(by repeat constructor) ltac:(done)) as E.
      rewrite app_nil_r, <- Hl in E. rewrite E. simpl. lia. }
    assert (skip_word ((line_front k ++ ky_name k) ++ ["010"%char]) (S se) = S se) as ->.
    { unfold skip_word. rewrite drop_ge; [simpl; lia|]. rewrite length_app, <- Hl. simpl. lia. }
    by rewrite decide_True.
Qed.

(** ** The effect of one line *)
Lemma insert_at {A} (pre r : list A) x y i : i = length pre → <[i := y]> (pre ++ x :: r) = pre ++ y :: r.
Proof. intros ->. rewrite insert_app_r_alt by lia. by rewrite Nat.sub_diag. Qed.

Lemma printed_no_nul k : ksym_ok k → no_nul (print_sym k).
Proof.
  intros [Ha Ht Hn Hm]. rewrite print_split. unfold line_front, line_tail.
  destruct (sym_class_nonspace _ Ht) as [_ Ht0].
  rewrite !no_nul_app. assert (no_nul (hexn 16 (ky_addr k))) as Hh.
  { intros Hin. pose proof (proj1 (Forall_forall _ _) (hexn_digits 16 (ky_addr k)) _ Hin) as Hx.
    by destruct (hexdigit_props _ Hx) as (_ & _ & _ & _ & _ & ?). }
  split_and!; [done|by apply (bool_decide_unpack _)| |by apply (bool_decide_unpack _)|by apply word_no_nul| |
    by apply (bool_decide_unpack _)].
  - intros Hx%list_elem_of_singleton. congruence.
  - destruct (ky_module k) as [m|]; [|by apply not_elem_of_nil]. rewrite !no_nul_app.
    split_and!; [by apply (bool_decide_unpack _)|by apply word_no_nul, Hm|by apply (bool_decide_unpack _)].
Qed.

(** The buffer after the name was cut off. *)
Lemma cut_name k :
  <[19 + length (ky_name k) := NUL]> (cbuf (print_sym k)) =
  line_front k ++ ky_name k ++ NUL :: match ky_module k with
                                      | Some m => ["["%char] ++ m ++ ["]"; "010"]%char ++ [NUL]
                                      | None => [NUL]
                                      end.
Proof.
  assert (19 + length (ky_name k) = length (line_front k ++ ky_name k)) as Hl
    by (by rewrite length_app, length_front).
  unfold cbuf. rewrite print_split. unfold line_tail. destruct (ky_module k) as [m|].
  - replace ((line_front k ++ ky_name k ++ (["009"; "["]%char ++ m ++ ["]"%char]) ++ ["010"%char]) ++ [NUL])
      with ((line_front k ++ ky_name k) ++ "009"%char :: ["["%char] ++ m ++ ["]"; "010"]%char ++ [NUL])
      by (rewrite <- !(assoc_L (++)); done).
    rewrite (insert_at _ _ _ _ _ Hl). by rewrite <- !(assoc_L (++)).
  - replace ((line_front k ++ ky_name k ++ [] ++ ["010"%char]) ++ [NUL])
      with ((line_front k ++ ky_name k) ++ "010"%char :: [NUL])
      by (rewrite <- !(assoc_L (++)); done).
    rewrite (insert_at _ _ _ _ _ Hl). by rewrite <- !(assoc_L (++)).
Qed.

(** The buffer after the module was cut out as well. *)
Lemma cut_module k m :
  ky_module k = Some m →
  let se := 19 + length (ky_name k) in
  let line := <[se := NUL]> (cbuf (print_sym k)) in
  let line := <[S se := "["%char]> line in
  let me := S se + (length m + 2) in
  line !! (me - 1) = Some "]"%char ∧
  <[me := NUL]> (<[me - 1 := NUL]> line) =
  (line_front k ++ ky_name k ++ [NUL; "["%char]) ++ m ++ NUL :: NUL :: [NUL].
Proof.
  intros Hm se line0 line me. subst line line0. unfold se. rewrite cut_name, Hm.
  assert (length (line_front k ++ ky_name k) = se) as Hl by (by rewrite length_app, length_front).
  set (P := line_front k ++ ky_name k) in *.
  assert (line_front k ++ ky_name k ++ NUL :: ["["%char] ++ m ++ ["]"; "010"]%char ++ [NUL]
          = (P ++ [NUL]) ++ "["%char :: (m ++ ["]"; "010"; NUL]%char)) as ->.
  { unfold P. rewrite <- !(assoc_L (++)). done. }
  fold se. rewrite insert_at by (rewrite length_app, Hl; simpl; lia).
  assert ((P ++ [NUL]) ++ "["%char :: (m ++ ["]"; "010"; NUL]%char)
          = (P ++ [NUL; "["%char] ++ m) ++ "]"%char :: ["010"; NUL]%char) as ->.
  { rewrite <- !(assoc_L (++)). done. }
  assert (me - 1 = length (P ++ [NUL; "["%char] ++ m)) as Hme.
  { rewrite !length_app, Hl. unfold me. simpl. lia. }
  split; [rewrite Hme; by rewrite list_lookup_middle|].
  rewrite (insert_at _ _ _ _ _ Hme).
  replace ((P ++ [NUL; "["%char] ++ m) ++ NUL :: ["010"; NUL]%char)
    with ((P ++ [NUL; "["%char] ++ m ++ [NUL]) ++ "010"%char :: [NUL])
    by (rewrite <- !(assoc_L (++)); done).
  rewrite insert_at by (rewrite !length_app, Hl; unfold me; simpl; lia).
  unfold P. rewrite <- !(assoc_L (++)). done.
Qed.

(** The symbol entry of a printed symbol. *)
Definition entry_of (k : ksym) : SymbolEntry :=
  match sym_class (ky_type k) with
  | Some (b, t) => SymEntry (ky_name k) (ky_addr k) 0 b t
  | None => SymEntry (ky_name k) (ky_addr k) 0 BIND_GLOBAL TYPE_ABS
  end.

Definition of_mod (m : option chars) (ks : list ksym) : list ksym := filter (λ k, ky_module k = m) ks.

(** When every [mkdir] succeeds, [mkpath] does. *)
Lemma mkdirs_ok f ps : (∀ q, f q = true) → mkdirs f ps = (0%Z, ps).
Proof. intros Hf. induction ps as [|p ps IH]; simpl; [done|]. by rewrite Hf, IH. Qed.

Section collect.
Context `{UL : UtHashLaws}.
Implicit Types (s : kasym) (ks : list ksym).

(** A symbol set holds the entries of [l], with the room their names need. *)
Record holds (ss : symset) (l : list ksym) : Prop := {
  h_entries : v_items (ss_entries ss) = entry_of <$> l;
  h_vec : vec_ok (ss_entries ss);
  h_room : ss_nmstrlen ss = u64 (Z.of_nat (table_size (ky_name <$> l)));
}.

Lemma holds_nil : holds symset0 [].
Proof. split; [done|unfold vec_ok; simpl; lia|reflexivity]. Qed.

Record collected ks s : Prop := {
  c_kernel : holds (ka_kernel s) (of_mod None ks);
  c_keys : NoDup (ht_keys (ka_mhash s));
  c_mods : ∀ m p, (m, p) ∈ ht_items (ka_mhash s) →
    ∃ ss, ka_mods s !! p = Some ss ∧ holds ss (of_mod (Some m) ks);
  c_inj : ∀ m m' p, (m, p) ∈ ht_items (ka_mhash s) → (m', p) ∈ ht_items (ka_mhash s) → m = m';
  c_all : ∀ m, m ∈ ht_keys (ka_mhash s) ↔ of_mod (Some m) ks ≠ [];
  c_written : ka_written s = [];
}.

Lemma table_size_snoc l x : table_size (l ++ [x]) = table_size l + (length x + 1).
Proof.
  unfold table_size. rewrite table_app, length_app. f_equal.
  change (table_size [x] = length x + 1). rewrite table_size_cons. unfold table_size. simpl. lia.
Qed.

(** Adding a symbol to a set. *)
Lemma wp_add_sym ss l k s Q :
  holds ss l → ksym_ok k →
  (∀ ss', holds ss' (l ++ [k]) → Q ss' s) →
  wp (add_sym ss (ky_addr k) (ky_name k) (ky_type k) (u64 (Z.of_nat (length (ky_name k) + 1)))) Q s.
Proof.
  intros [He Hv Hr] [Ha [[b t] Ht] Hn Hm] HQ. unfold add_sym, initSE. rewrite Ht.
  wp_step. wp_step. wp_step.
  destruct (vec_push_ok 1024 (ss_entries ss) (SymEntry (ky_name k) (ky_addr k) 0 b t) ltac:(lia) Hv)
    as (v & Hpush & Hi & Hv').
  eapply wp_deref; [exact Hpush|]. apply wp_ret. apply HQ. split; simpl.
  - rewrite Hi, He, fmap_app. simpl. unfold entry_of. by rewrite Ht.
  - done.
  - rewrite Hr, fmap_app. simpl. rewrite table_size_snoc. unfold u64.
    rewrite <- Zplus_mod. f_equal. lia.
Qed.

Lemma of_mod_snoc m ks k :
  of_mod m (ks ++ [k]) = if decide (ky_module k = m) then of_mod m ks ++ [k] else of_mod m ks.
Proof.
  unfold of_mod. rewrite filter_app. rewrite filter_cons, filter_nil.
  destruct (decide (ky_module k = m)); [done|]. by rewrite app_nil_r.
Qed.

Lemma read_name k r : no_nul (ky_name k) → cstr_at (line_front k ++ ky_name k ++ NUL :: r) 19 = ky_name k.
Proof. intros Hn. pose proof (cstr_at_app (line_front k) (ky_name k) r Hn) as E. by rewrite length_front in E. Qed.

(** What the scan of a printed line hands on. *)
Lemma prc_line_printed k s :
  ksym_ok k →
  prc_line (print_sym k) s =
  (let nmlen := u64 (Z.of_nat (length (ky_name k) + 1)) in
   match ky_module k with
   | Some module =>
     p ← find_module module;
     s ← getM;
     m ← derefM (ka_mods s !! p);
     m ← add_sym m (ky_addr k) (ky_name k) (ky_type k) nmlen;
     modifyM (λ s, set_mods (<[p := m]> (ka_mods s)) (ka_mhash s) s)
   | None =>
     s ← getM;
     k' ← add_sym (ka_kernel s) (ky_addr k) (ky_name k) (ky_type k) nmlen;
     modifyM (set_kernel k')
   end) s.
Proof.
  intros Hk. unfold prc_line. rewrite upto_nul_id by (by apply printed_no_nul).
  rewrite scan_printed by done. cbv zeta.
  cbn [sc_n sc_addr sc_type sc_sym_start sc_sym_end sc_mod_start sc_mod_end].
  replace (Z.of_nat (19 + length (ky_name k)) - Z.of_nat 19 + 1)%Z
    with (Z.of_nat (length (ky_name k) + 1)) by lia.
  change (2 <? 2) with false. cbv iota.
  pose proof (word_no_nul _ (ko_name _ Hk)) as Hnn.
  destruct (ky_module k) as [m|] eqn:Em.
  - rewrite (proj2 (Nat.ltb_lt 0 _)), (proj2 (Nat.ltb_lt _ _)) by lia. cbn [andb].
    destruct (cut_module k m Em) as [Hb Hcut]. cbv zeta in Hb, Hcut. rewrite Hb.
    rewrite decide_True by (apply elem_of_cons; right; apply elem_of_cons; right; by left).
    rewrite Hcut. pose proof (word_no_nul _ (ko_module _ Hk _ Em)) as Hmn.
    assert (S (S (19 + length (ky_name k))) = length (line_front k ++ ky_name k ++ [NUL; "["%char])) as ->.
    { rewrite !length_app, length_front. simpl. lia. }
    rewrite cstr_at_app by done. rewrite <- !(assoc_L (++)).
    change ([NUL; "["%char] ++ m ++ [NUL; NUL; NUL]) with (NUL :: ("["%char :: m ++ [NUL; NUL; NUL])).
    by rewrite read_name.
  - rewrite (andb_false_intro2 _ (_ <? 0)) by (apply Nat.ltb_ge; lia). rewrite cut_name, Em.
    by rewrite read_name.
Qed.

Lemma find_module_spec ks s m :
  collected ks s →
  wp (find_module m)
     (λ p s', (m, p) ∈ ht_items (ka_mhash s') ∧ NoDup (ht_keys (ka_mhash s')) ∧
        ka_kernel s' = ka_kernel s ∧ ka_written s' = [] ∧
        (∀ m' p', (m', p') ∈ ht_items (ka_mhash s') →
           ∃ ss, ka_mods s' !! p' = Some ss ∧ holds ss (of_mod (Some m') ks)) ∧
        (∀ m1 m2 q, (m1, q) ∈ ht_items (ka_mhash s') → (m2, q) ∈ ht_items (ka_mhash s') → m1 = m2) ∧
        (∀ m', m' ∈ ht_keys (ka_mhash s') ↔ m' = m ∨ of_mod (Some m') ks ≠ [])) s.
Proof.
  intros [Hker Hkeys Hmods Hinj Hall Hw]. unfold find_module. wp_step. wp_step.
  destruct (ht_find m (ka_mhash s)) as [p|] eqn:Hf.
  - apply ht_find_spec in Hf; [|done]. apply wp_ret. split_and!; try done.
    intros m'. rewrite <- Hall. split; [tauto|]. intros [->|?]; [by eapply ht_key_item|done].
  - apply ht_find_None in Hf; [|done]. wp_step. wp_step. apply wp_ret. simpl.
    assert (∀ m' p', (m', p') ∈ ht_items (ka_mhash s) → p' < length (ka_mods s)) as Hlt.
    { intros m' p' Hin. destruct (Hmods _ _ Hin) as (ss & Hss & _). by eapply lookup_lt_Some. }
    assert (of_mod (Some m) ks = []) as Hnil.
    { rewrite Hall in Hf. by destruct (of_mod (Some m) ks); [|destruct Hf]. }
    split_and!; try done.
    + apply ht_items_add_elem; [done|]. by right.
    + by apply ht_nodup_add.
    + intros m' p' [Hin|[-> ->]]%ht_items_add_elem; [..|done].
      * destruct (Hmods _ _ Hin) as (ss & Hss & Hh). exists ss. split; [|done]. by apply lookup_app_l_Some.
      * exists symset0. split; [by apply list_lookup_middle|]. rewrite Hnil. apply holds_nil.
    + intros m1 m2 q [H1|[-> ->]]%ht_items_add_elem [H2|[-> Hq]]%ht_items_add_elem; try done.
      * by eapply Hinj.
      * apply Hlt in H1. lia.
      * apply Hlt in H2. lia.
    + intros m'. rewrite ht_keys_add, elem_of_app, list_elem_of_singleton, Hall by done. tauto.
Qed.

Lemma prc_line_spec ks k s :
  collected ks s → ksym_ok k → wp (prc_line (print_sym k)) (λ _ s', collected (ks ++ [k]) s') s.
Proof.
  intros Hc Hk. eapply wp_eq; [by apply prc_line_printed|]. cbv zeta.
  destruct (ky_module k) as [m|] eqn:Em.
  - wp_step. eapply wp_mono; [by apply find_module_spec|].
    intros p s1 (Hp & Hnd & Hker & Hw & Hmods & Hinj & Hall). wp_step. wp_step.
    destruct (Hmods _ _ Hp) as (ss & Hss & Hh). wp_step. eapply wp_deref; [done|]. wp_step.
    eapply wp_add_sym; [done..|]. intros ss' Hh'. apply wp_modify. split; simpl; try done.
    + rewrite of_mod_snoc, decide_False by congruence. rewrite Hker. apply Hc.
    + intros m' p' Hin. rewrite of_mod_snoc. destruct (decide (ky_module k = Some m')) as [E|E].
      * assert (m' = m) as -> by congruence. assert (p' = p) as ->.
        { apply ht_find_spec in Hin, Hp; [congruence|done..]. }
        exists ss'. split; [|done]. apply list_lookup_insert_eq. by eapply lookup_lt_Some.
      * destruct (Hmods _ _ Hin) as (ss2 & Hss2 & Hh2). exists ss2. split; [|done].
        rewrite list_lookup_insert_ne; [done|]. intros ->. destruct E. rewrite Em. f_equal. by eapply Hinj.
    + intros m'. rewrite Hall, of_mod_snoc. destruct (decide (ky_module k = Some m')) as [E|E].
      * split; [|intros _; left; congruence]. intros _ Hx. by apply app_eq_nil in Hx as [_ ?].
      * split; [|tauto]. intros [->|?]; [congruence|done].
  - destruct Hc as [Hker Hkeys Hmods Hinj Hall Hw]. wp_step. wp_step. wp_step.
    eapply wp_add_sym; [done..|]. intros ss' Hh'. apply wp_modify. split; simpl; try done.
    + by rewrite of_mod_snoc, decide_True.
    + intros m' p' Hin. rewrite of_mod_snoc, decide_False by congruence. eauto.
    + intros m'. rewrite of_mod_snoc, decide_False by congruence. apply Hall.
Qed.

Lemma collected0 : collected [] kasym0.
Proof.
  split; simpl; try done.
  - apply holds_nil.
  - apply ht_nodup_empty.
  - intros m p. rewrite ht_items_empty. by intros ?%elem_of_nil.
  - intros m m' p. rewrite ht_items_empty. by intros ?%elem_of_nil.
  - intros m. rewrite ht_keys_empty. split; [by intros ?%elem_of_nil|done].
Qed.

Lemma prc_lines_spec ks ks0 s :
  collected ks0 s → Forall ksym_ok ks →
  wp (prc_lines (print_sym <$> ks)) (λ _ s', collected (ks0 ++ ks) s') s.
Proof.
  revert ks0 s. induction ks as [|k ks IH]; intros ks0 s Hc Hk; rewrite ?fmap_cons; cbn [prc_lines fmap list_fmap].
  - apply wp_ret. by rewrite app_nil_r.
  - apply Forall_cons in Hk as [Hk Hks]. wp_step.
    eapply wp_mono; [by eapply prc_line_spec|]. intros [] s1 Hc1.
    eapply wp_mono; [by apply IH|]. intros [] s2. by rewrite <- (assoc_L (++)).
Qed.

(** ** Writing the libraries *)

(** The library of one set of symbols. *)
Definition lib_of (prefix : option chars) (name : chars) (l : list ksym) : library :=
  Library (lib_path prefix name) (entry_of <$> l) (u64 (Z.of_nat (table_size (ky_name <$> l)))).

Lemma holds_lib prefix name ss l :
  holds ss l →
  Library (lib_path prefix name) (v_items (ss_entries ss)) (ss_nmstrlen ss) = lib_of prefix name l.
Proof. intros [-> _ ->]. done. Qed.

Lemma write_modules_spec prefix ks items s Q :
  (∀ m p, (m, p) ∈ items → ∃ ss, ka_mods s !! p = Some ss ∧ holds ss (of_mod (Some m) ks)) →
  (∀ s', ka_written s' = ka_written s ++ ((λ m, lib_of prefix m (of_mod (Some m) ks)) <$> items.*1) →
     Q tt s') →
  wp (write_modules prefix items) Q s.
Proof.
  revert s. induction items as [|[m p] items IH]; intros s Hit HQ; simpl.
  - apply wp_ret. apply HQ. by rewrite app_nil_r.
  - destruct (Hit m p ltac:(left)) as (ss & Hss & Hh). wp_step. wp_step. wp_step.
    eapply wp_deref; [done|]. wp_step. unfold writeso_path. wp_step. wp_step. wp_step.
    apply IH; simpl.
    + intros m' p' Hin. apply Hit. by right.
    + intros s' Hs'. apply HQ. rewrite Hs', <- (assoc_L (++)). by rewrite (holds_lib _ _ _ _ Hh).
Qed.

(** The whole run: it always ends the program with status 1, having written
    the kernel's library (when it has symbols) and one for each module. *)
Lemma prcKallsyms_spec mkdir_ok prefix ks :
  (∀ p, prefix = Some p → p ≠ [] ∧ ∀ q, mkdir_ok q = true) → Forall ksym_ok ks →
  ∃ s ms, prcKallsyms mkdir_ok prefix (print_sym <$> ks) kasym0 = Exited 1 s ∧
    NoDup ms ∧ (∀ m, m ∈ ms ↔ of_mod (Some m) ks ≠ []) ∧
    ka_written s =
      (if decide (of_mod None ks = []) then [] else [lib_of prefix (chr "kern") (of_mod None ks)]) ++
      ((λ m, lib_of prefix m (of_mod (Some m) ks)) <$> ms).
Proof.
  intros Hpre Hk. pose proof (prc_lines_spec ks [] kasym0 collected0 Hk) as Hl.
  apply wp_done in Hl as ([] & s1 & Hrun & Hc). simpl in Hc. destruct Hc as [Hker Hkeys Hmods Hinj Hall Hw].
  set (k1 := if decide (of_mod None ks = []) then [] else [lib_of prefix (chr "kern") (of_mod None ks)]).
  assert (∃ s2, (if decide (v_items (ss_entries (ka_kernel s1)) ≠ []) then
            writeso_path (lib_path prefix (chr "kern")) (ka_kernel s1) else mret tt) s1 = Done tt s2 ∧
          ka_written s2 = k1 ∧ ka_mods s2 = ka_mods s1 ∧ ka_mhash s2 = ka_mhash s1)
    as (s2 & Hs2 & Hw2 & Hm2 & Hh2).
  { unfold k1. rewrite (h_entries _ _ Hker). destruct (of_mod None ks) as [|x l] eqn:E.
    - rewrite decide_False by (simpl; tauto). by exists s1.
    - rewrite decide_True by done. eexists. split; [done|]. simpl. split_and!; try done.
      rewrite Hw. simpl. by rewrite (holds_lib _ _ _ _ Hker). }
  assert (wp (write_modules prefix (ht_items (ka_mhash s2)))
            (λ _ s', ka_written s' = k1 ++ ((λ m, lib_of prefix m (of_mod (Some m) ks)) <$> ht_keys (ka_mhash s1))) s2)
    as ([] & s3 & Hrun3 & Hw3)%wp_done.
  { apply (write_modules_spec prefix ks); rewrite Hh2.
    - intros m p Hin. rewrite Hm2. by apply Hmods.
    - intros s' Hs'. by rewrite Hs', Hw2. }
  exists s3, (ht_keys (ka_mhash s1)). split; [|by split_and!].
  unfold prcKallsyms, mbind, M_bind.
  assert (make_prefix mkdir_ok prefix kasym0 = Done 0%Z kasym0) as ->.
  { destruct prefix as [p|]; [|done]. destruct (Hpre p eq_refl) as [Hne Hok].
    destruct p as [|c p]; [done|]. unfold make_prefix, mkpath, mbind, M_bind, derefM. 
    by rewrite mkdirs_ok. }
  change (0 <? 0)%Z with false. cbv beta iota. rewrite Hrun. unfold getM. cbv beta iota.
  rewrite Hs2. cbv beta iota. by rewrite Hrun3.
Qed.
End collect.
