(* ===== verification/KldMain.v ===== *)
(** * The tool as a whole ([kld/main.c]: [writeso], [prcBO], [prcExec], [main];
    section access of [kld/elf.c])

    Start-up, processing of the executable and of the binary objects, the kernel
    object table, the kallsyms libraries, and the exit handler. The descriptors of the
    files in memory, of the table and of kallsyms are in [g_fds] like all others. *)
From Stdlib Require Import Ascii.
From S2P Require Import Prelude UtHash Event Fs FsLife FsFuse Sigproc KldFs KoSpec Bos KldElf Kallsyms.

(** What the system adds to [sys]: what [elf_begin] finds in a file, whether an
    ELF object can be created in memory ([memfd_create] and [elf_begin]), the
    layout libelf chooses, whether the kernel object table can be opened for
    writing, the text of [/proc/kallsyms] ([None] when it cannot be opened),
    which [mkdir] calls succeed, and what the file system meets: [argv[0]], its
    environment, whether [epoll_create1] succeeds, the answers of [epoll_ctl] and
    [epoll_wait]. *)
Record msys := MSys {
  ms_sys :> sys;
  ms_elf : chars → elf_kind;
  ms_strndx : elf_image → option nat;
  ms_memfd : bool;
  ms_layout : nat → Z;
  ms_kotbl : bool;
  ms_kallsyms : option (list chars);
  ms_mkdir : chars → bool;
  ms_argv0 : string;
  ms_fsenv : fs_env;
  ms_epoll : bool;
  ms_epoll_ctl : Z → Z → evntdesc → bool;
  ms_waits : list wait;
}.

(** [SectionData] *)
Record SectionData := SecData { sd_data : option secdata; sd_size : nat; sd_elf : bool; sd_fd : Z }.
Definition secdata0 : SectionData := SecData None 0 false (-1).

Definition EXIT_SUCCESS : Z := 0.

Section main.
Context `{UT : UtHash} `{FL : FuseLib} (sy : msys).

(** The globals, the lines of the kernel object table, and the libraries
    written so far; [mw_atexit] once the exit handler is registered. *)
Record mainw := MainW {
  mw_g : gbls;
  mw_kotbl : list chars;
  mw_libs : list library;
  mw_atexit : bool;
}.
Definition on_g {A} (m : M gbls A) : M mainw A := λ w,
  match m (mw_g w) with
  | Done a g => Done a (MainW g (mw_kotbl w) (mw_libs w) (mw_atexit w))
  | Exited c g => Exited c (MainW g (mw_kotbl w) (mw_libs w) (mw_atexit w))
  | Aborted => Aborted | Fault => Fault | NoFuel => NoFuel
  end.
Definition add_lib (l : library) (w : mainw) : mainw :=
  MainW (mw_g w) (mw_kotbl w) (mw_libs w ++ [l]) (mw_atexit w).
Definition add_line (l : chars) (w : mainw) : mainw :=
  MainW (mw_g w) (mw_kotbl w ++ [l]) (mw_libs w) (mw_atexit w).

(** ** Sections of the executable *)

(** The first section of that name: its data, or the error code. *)
Fixpoint find_section (f : elf_image) (shstrndx : nat) (ss : list section) (scnm : chars)
  : Z + (secdata * nat) :=
  match ss with
  | [] => inl (-2)%Z
  | s :: ss =>
    if bool_decide (elf_strptr f shstrndx (Z.of_nat (sh_name s)) = Some scnm) then
      match sh_data s with
      | Some d => inr (d, sh_size s)
      | None => inl (-3)%Z
      end
    else find_section f shstrndx ss scnm
  end.

Definition elf_open_secdata (path : chars) (fd : Z) (scnm : chars) : M gbls (Z * SectionData) :=
  sfd ← (if (fd =? -1)%Z then open_fd (sys_readable sy path) else mret fd);
  if (fd =? -1)%Z && (sfd <? 0)%Z then mret ((-1)%Z, secdata0)
  else
    match ms_elf sy path with
    | NotElf =>
      _ ← (if (fd =? -1)%Z then close_fd sfd else mret tt);
      mret ((-1)%Z, secdata0)
    | OtherKind =>
      _ ← (if (fd <? 0)%Z && (0 <=? sfd)%Z then close_fd sfd else mret tt);
      mret ((-3)%Z, secdata0)
    | IsElf f =>
      match ms_strndx sy f with
      | None =>
        _ ← (if (fd <? 0)%Z && (0 <=? sfd)%Z then close_fd sfd else mret tt);
        mret ((-3)%Z, secdata0)
      | Some shstrndx =>
        match find_section f shstrndx (e_sections f) scnm with
        | inr (d, size) => mret (0%Z, SecData (Some d) size true sfd)
        | inl rc =>
          _ ← (if (fd <? 0)%Z && (0 <=? sfd)%Z then close_fd sfd else mret tt);
          mret (rc, secdata0)
        end
      end
    end.

Definition elf_close_secdata (sd : SectionData) : M gbls SectionData :=
  _ ← (if (0 <=? sd_fd sd)%Z then close_fd (sd_fd sd) else mret tt);
  mret (SecData None 0 false (if (0 <=? sd_fd sd)%Z then (-1)%Z else sd_fd sd)).

Definition KOTBL_SEC : chars := chr ".kotbl".

Definition prcExec (exec : chars) : M gbls Z :=
  r ← elf_open_secdata exec (-1) KOTBL_SEC;
  _ ← (if (0 <=? r.1)%Z then _ ← elf_close_secdata r.2; mret tt else mret tt);
  mret r.1.

(** ** Writing a library

    The generator answers a failure with a null pointer, but the caller tests
    for [MAP_FAILED]: it then goes on with a size and a descriptor that were
    never set. [mfd] is the file in memory the library was made in. *)
Definition writeso (path : chars) (fd : Z) (entries : list SymbolEntry) (nmstrlen : nat)
  : M mainw unit :=
  if ms_memfd sy then
    mfd ← on_g (open_fd true);
    _ ← derefM (elf_generate_elf (ms_layout sy) entries nmstrlen);
    dfd ← (if (fd =? -1)%Z then on_g (open_trunc (sys_writable sy path) path) else mret fd);
    _ ← (if (0 <=? dfd)%Z
         then modifyM (add_lib (Library path entries (Z.of_nat nmstrlen))) else mret tt);
    _ ← (if (fd =? -1)%Z then on_g (close_fd dfd) else mret tt);
    on_g (close_fd mfd)
  else faultM.

(** ** Processing a binary object *)
Definition prcBO (b : bo) : M mainw Z :=
  kofnm ← derefM (bo_kofnm b);
  r ← derefM (elf_read_syms (ms_elf sy kofnm));
  let '(rc, entries, nmstrlen) := r in
  if (rc <? 0)%Z then mret (-1)%Z
  else
    sofnm ← derefM (bo_sofnm b);
    _ ← writeso sofnm (bo_sofd b) entries nmstrlen;
    mret 0%Z.

(** One line of the kernel object table: ["%s,%s\n"]. *)
Definition kotbl_line (b : bo) : chars :=
  default [] (bo_kofnm b) ++ [COMMA] ++ bo_kldopts b ++ ["010"%char].

Fixpoint prc_bos (items : list (chars * bo)) : M mainw unit :=
  match items with
  | [] => mret tt
  | (_, b) :: items =>
    _ ← prcBO b;
    _ ← modifyM (add_line (kotbl_line b));
    prc_bos items
  end.

(** The libraries [prcKallsyms] hands to [writeso]. *)
Fixpoint write_libs (ls : list library) : M mainw unit :=
  match ls with
  | [] => mret tt
  | l :: ls => _ ← writeso (l_path l) (-1) (l_entries l) (Z.to_nat (l_nmstrlen l)); write_libs ls
  end.

(** [prcKallsyms] inside the whole program: what it collects is written, the file
    [fp] is closed before it exits, and the way it ends is passed on. When it returns,
    because there is no directory, the file stays open. *)
Definition run_kallsyms (pathprefix : option chars) (lines : list chars) (fp : Z) : M mainw unit := λ w,
  match prcKallsyms (ms_mkdir sy) pathprefix lines kasym0 with
  | Done _ _ => Done tt w
  | Exited c s => (_ ← write_libs (ka_written s); _ ← on_g (close_fd fp); exitM c) w
  | Aborted => Aborted | Fault => Fault | NoFuel => NoFuel
  end.

Definition PATHPREFIX_DFLT : chars := chr "libk".
Definition KOTBL_DFLT : chars := chr "kotbl.bin".

(** The part that serves the file system; while the loop waits, so does the
    program. *)
Definition on_loop {A} (m : M kldw A) : M gbls A := λ g,
  match m (KldW (g_fs g) (g_sigproc g) [] (g_fds g)) with
  | Done a k => Done a (set_fds (kfds k) (set_objs (kfs k) (ksp k) g))
  | Exited c k => Exited c (set_fds (kfds k) (set_objs (kfs k) (ksp k) g))
  | Aborted => Aborted | Fault => Fault | NoFuel => NoFuel
  end.
Definition serve_fs : M gbls unit :=
  ok ← on_objs (fsCreate (ms_fsenv sy) (ms_argv0 sy) (Some kldfsCreate));
  if negb ok then exitM EXIT_FAILURE
  else
    g ← getM;
    r ← on_loop (kldfsLoop (g_pid g) (ms_epoll sy) (ms_epoll_ctl sy) (ms_waits sy));
    match r with
    | Some true => mret tt
    | Some false => exitM EXIT_FAILURE
    | None => nofuelM
    end.

(** [main] up to its return or exit; the result is the exit status. *)
Definition main (fsname : string) (opts : list (ascii * chars)) (args : list chars) : M mainw Z :=
  rc ← on_g (GBLSInit sy fsname opts args);
  if (rc <? 0)%Z then exitM EXIT_FAILURE
  else
    _ ← modifyM (λ w, MainW (mw_g w) (mw_kotbl w) (mw_libs w) true);
    w ← getM;
    _ ← match g_executable (mw_g w) with
        | Some e => _ ← on_g (prcExec e); mret tt
        | None => mret tt
        end;
    w ← getM;
    let bos := g_bos (mw_g w) in
    ok ← (if g_procbos (mw_g w) && negb (ht_cnt bos =? 0) then
            kotblf ← on_g (open_trunc (ms_kotbl sy) KOTBL_DFLT);
            if (kotblf =? -1)%Z then mret false
            else _ ← prc_bos (ht_items bos); _ ← on_g (close_fd kotblf); mret true
          else mret true);
    if negb ok then mret EXIT_FAILURE
    else
      w ← getM;
      _ ← (if g_prockallsyms (mw_g w) then
             match ms_kallsyms sy with
             | None => exitM EXIT_FAILURE
             | Some lines =>
                 ksfp ← on_g (open_fd true);
                 run_kallsyms (Some PATHPREFIX_DFLT) lines ksfp
             end
           else mret tt);
      w ← getM;
      _ ← (if g_startfs (mw_g w) then on_g serve_fs else mret tt);
      mret EXIT_SUCCESS.

(** The program: [main], then the exit handler when it was registered. *)
Definition program (fsname : string) (opts : list (ascii * chars)) (args : list chars) : M mainw Z := λ w,
  let finish (c : Z) (w : mainw) :=
    if mw_atexit w then (_ ← on_g cleanup; mret c) w else Done c w in
  match main fsname opts args w with
  | Done c w' => finish c w'
  | Exited c w' => finish c w'
  | Aborted => Aborted | Fault => Fault | NoFuel => NoFuel
  end.

Definition mainw0 (fds : gset Z) : mainw := MainW (gbls0 fds) [] [] false.
End main.
