(* ===== verification/KldMainSpec.v ===== *)
(** * The program from start to exit

    No step of [main] leaves a descriptor behind but the end of [prcKallsyms] without a
    directory for its libraries, the room counted for names is
    always the room the generator needs, and the exit status is determined by
    the options. *)
From Stdlib Require Import Ascii.
From S2P Require Import Prelude UtHash Event Fs FsLife FsFuse Sigproc KoSpec Bos BosSpec KldElf.
From S2P Require Import KldElfSpec Kallsyms KallsymsSpec KldMain.

(** ** The reader counts the room the generator needs *)
Lemma upto_nul_no_nul l : no_nul (upto_nul l).
Proof.
  induction l as [|c l IH]; simpl; [apply not_elem_of_nil|].
  destruct (decide (c = NUL)); [apply not_elem_of_nil|]. by apply no_nul_cons.
Qed.

Lemma strptr_no_nul f sec off s : elf_strptr f sec off = Some s → no_nul s.
Proof.
  unfold elf_strptr. destruct sec as [|i]; [done|]. intros (x & _ & Hx)%bind_Some.
  repeat case_match; simplify_eq. apply upto_nul_no_nul.
Qed.

(** What the accumulator holds: names without terminators, counted exactly. *)
Definition acc_ok (acc : symacc) : Prop :=
  Forall (no_nul ∘ se_name) (v_items (sa_ents acc)) ∧
  sa_nmstrlen acc = table_size (se_name <$> v_items (sa_ents acc)).

Lemma read_section_acc f s syms count acc acc' :
  acc_ok acc → read_section f s syms count acc = Some acc' → acc_ok acc'.
Proof.
  revert syms acc. induction count as [|count IH]; intros syms acc Hok; simpl; [by intros ?; simplify_eq|].
  destruct syms as [|sym syms]; [done|]. case_match; [by apply IH|].
  intros (e & He & (v & Hv & Hr)%bind_Some)%bind_Some. eapply IH; [|exact Hr].
  unfold seInit in He. apply bind_Some in He as (nm & Hnm & ?). simplify_eq. apply strptr_no_nul in Hnm.
  unfold vec_push in Hv. case_match; [|done]. simplify_eq. destruct Hok as [H1 H2]. split; simpl.
  - apply Forall_app. split; [done|]. by constructor; [|constructor].
  - rewrite fmap_app. cbn [fmap list_fmap]. rewrite table_size_snoc, H2. simpl. lia.
Qed.

Lemma read_sections_acc f ss acc acc' :
  acc_ok acc → read_sections f ss acc = Some acc' → acc_ok acc'.
Proof.
  revert acc. induction ss as [|s ss IH]; intros acc Hok; simpl; [by intros ?; simplify_eq|].
  case_match; [|by apply IH]. intros (syms & _ & Hr)%bind_Some. case_decide; [done|].
  apply bind_Some in Hr as (acc1 & Hr1 & Hr2). eapply IH; [|exact Hr2]. by eapply read_section_acc.
Qed.

Lemma read_syms_room k rc es n :
  elf_read_syms k = Some (rc, es, n) → Forall (no_nul ∘ se_name) es ∧ n = table_size (se_name <$> es).
Proof.
  destruct k as [| |f]; simpl; [by intros ?; simplify_eq..|].
  intros (acc & Hacc & ?)%bind_Some. simplify_eq. eapply (read_sections_acc f); [|exact Hacc]. done.
Qed.

(** A library whose room is that of its names can be generated. *)
Lemma generate_fits layout es :
  Forall (no_nul ∘ se_name) es →
  is_Some (elf_generate_elf layout es (table_size (se_name <$> es))).
Proof. intros Hn. rewrite generate_spec by done. rewrite decide_True by done. eauto. Qed.

Section mainspec.
Context `{UL : UtHashLaws} `{FL : FuseLib} (sy : msys).
Implicit Types (g : gbls) (w : mainw).

Lemma wp_on_g {A} (m : M gbls A) w Q :
  wp m (λ a g, Q a (MainW g (mw_kotbl w) (mw_libs w) (mw_atexit w))) (mw_g w) → wp (on_g m) Q w.
Proof. unfold wp, on_g. by destruct (m (mw_g w)). Qed.

(** Opening the section table of the executable leaves no descriptor behind. *)
Lemma prcExec_spec e g : wp (prcExec sy e) (λ _ g', g' = g) g.
Proof.
  destruct (lowest_fd_spec (g_fds g)) as [_ Hnn].
  assert (∀ (x : Z * SectionData), wp (_ ← close_fd (lowest_fd (g_fds g)); mret x)
            (λ r g', r = x ∧ g' = g) (add_fd g)) as Hcl.
  { intros x. wp_step. apply wp_close_fd; [done|]. apply wp_ret. split; [done|]. apply close_add_fd. }
  unfold prcExec, elf_open_secdata. simpl Z.eqb. cbv iota. wp_step. wp_step. apply wp_open_fd.
  destruct (sys_readable sy e); [|done]. simpl andb.
  rewrite (proj2 (Z.ltb_ge (lowest_fd (g_fds g)) 0)), (proj2 (Z.leb_le 0 (lowest_fd (g_fds g)))) by done.
  change ((-1) <? 0)%Z with true. cbn [andb].
  assert (∀ x : Z * SectionData, (x.1 < 0)%Z →
    wp (_ ← close_fd (lowest_fd (g_fds g)); mret x)
       (λ a, wp (_ ← (if (0 <=? a.1)%Z then _ ← elf_close_secdata a.2; mret tt else mret tt); mret a.1)
                (λ _ g', g' = g)) (add_fd g)) as Hfail.
  { intros x Hx. eapply wp_mono; [apply Hcl|]. intros r g' [-> ->].
    by rewrite (proj2 (Z.leb_gt 0 x.1)) by done. }
  destruct (ms_elf sy e) as [| |f]; [by apply Hfail..|].
  destruct (ms_strndx sy f) as [ix|]; [|by apply Hfail].
  assert (∀ ss rc, find_section f ix ss KOTBL_SEC = inl rc → (rc < 0)%Z) as Hrc.
  { induction ss as [|s ss IH]; simpl; [by intros rc [= <-]|].
    intros rc. repeat case_match; intros; simplify_eq; [done|eauto]. }
  destruct (find_section f ix (e_sections f) KOTBL_SEC) as [rc|[d size]] eqn:E.
  { apply Hfail. by eapply Hrc. }
  wp_step. simpl. wp_step. wp_step. unfold elf_close_secdata. cbn [sd_fd].
  rewrite (proj2 (Z.leb_le 0 (lowest_fd (g_fds g)))) by done.
  wp_step. apply wp_close_fd; [done|]. wp_step. wp_step. apply wp_ret. apply close_add_fd.
Qed.

(** ** Writing libraries *)
Lemma writeso_path_spec path es n w :
  ms_memfd sy = true → is_Some (elf_generate_elf (ms_layout sy) es n) →
  wp (KldMain.writeso sy path (-1) es n)
     (λ _ w', mw_g w' = add_emptied (if sys_writable sy path then [path] else []) (mw_g w) ∧
              mw_kotbl w' = mw_kotbl w ∧ mw_atexit w' = mw_atexit w ∧
              mw_libs w' = mw_libs w ++ (if sys_writable sy path then [Library path es (Z.of_nat n)] else [])) w.
Proof.
  intros Hm [img Hi]. unfold KldMain.writeso. rewrite Hm. wp_step. apply wp_on_g, wp_open_fd.
  destruct (lowest_fd_spec (g_fds (mw_g w))) as [_ Hmfd]. wp_step. eapply wp_deref; [done|].
  simpl Z.eqb. cbv iota. wp_step. apply wp_on_g. apply wp_open_trunc. cbn [mw_g].
  destruct (lowest_fd_spec (g_fds (add_fd (mw_g w)))) as [_ Hnn].
  destruct (sys_writable sy path).
  - rewrite (proj2 (Z.leb_le 0 _)) by done. wp_step. wp_step. wp_step. apply wp_on_g. apply wp_close_fd; [done|].
    apply wp_on_g. apply wp_close_fd; [done|]. cbn [mw_g mw_kotbl mw_libs mw_atexit add_lib].
    split; [|by repeat split]. change (set_fds _ (add_emptied [path] (add_fd (add_fd (mw_g w)))))
      with (add_emptied [path] (set_fds (g_fds (add_fd (add_fd (mw_g w))) ∖ {[lowest_fd (g_fds (add_fd (mw_g w)))]})
              (add_fd (add_fd (mw_g w))))).
    rewrite (close_add_fd (add_fd (mw_g w))). exact (f_equal (add_emptied [path]) (close_add_fd (mw_g w))).
  - change (0 <=? -1)%Z with false. cbv iota. wp_step. wp_step. wp_step. apply wp_on_g. apply wp_ret.
    apply wp_on_g. apply wp_close_fd; [done|]. cbn [mw_g mw_kotbl mw_libs mw_atexit].
    rewrite add_emptied_nil, app_nil_r. split; [apply (close_add_fd (mw_g w))|done].
Qed.

Lemma writeso_fd_spec path fd es n w :
  ms_memfd sy = true → is_Some (elf_generate_elf (ms_layout sy) es n) → (0 <= fd)%Z →
  wp (KldMain.writeso sy path fd es n) (λ _ w', w' = add_lib (Library path es (Z.of_nat n)) w) w.
Proof.
  intros Hm [img Hi] Hfd. unfold KldMain.writeso. rewrite Hm. wp_step. apply wp_on_g, wp_open_fd.
  destruct (lowest_fd_spec (g_fds (mw_g w))) as [_ Hmfd]. wp_step. eapply wp_deref; [done|].
  rewrite (proj2 (Z.eqb_neq fd (-1))) by lia. wp_step. wp_step.
  rewrite (proj2 (Z.leb_le 0 fd)) by done. wp_step. wp_step. wp_step. wp_step.
  apply wp_on_g. apply wp_close_fd; [done|]. unfold add_lib. cbn [mw_g mw_kotbl mw_libs mw_atexit].
  by rewrite (close_add_fd (mw_g w)).
Qed.

Lemma write_libs_spec ls w :
  ms_memfd sy = true →
  Forall (λ l, is_Some (elf_generate_elf (ms_layout sy) (l_entries l) (Z.to_nat (l_nmstrlen l)))) ls →
  wp (write_libs sy ls) (λ _ w', (∃ l, mw_g w' = add_emptied l (mw_g w)) ∧ mw_atexit w' = mw_atexit w ∧
                                 mw_kotbl w' = mw_kotbl w) w.
Proof.
  intros Hm. revert w. induction ls as [|l ls IH]; intros w Hls; simpl.
  { apply wp_ret. split; [|done]. exists []. by rewrite add_emptied_nil. }
  apply Forall_cons in Hls as [Hl Hls]. wp_step.
  eapply wp_mono; [by apply writeso_path_spec|]. intros [] w1 (H1 & H2 & H3 & _).
  eapply wp_mono; [by apply IH|]. intros [] w2 ([l' H4] & H5 & H6). rewrite H1, add_emptied_app in H4.
  split; [by eexists|]. split; congruence.
Qed.

(** ** Binary objects *)

(** Every file [elf_begin] is given is well formed as far as symbols go. *)
Definition elf_sane : Prop := ∀ p, is_Some (elf_read_syms (ms_elf sy p)).

Lemma prcBO_spec k b w :
  ms_memfd sy = true → elf_sane → bo_kofnm b = Some k → is_Some (bo_sofnm b) → (0 <= bo_sofd b)%Z →
  wp (prcBO sy b) (λ _ w', mw_g w' = mw_g w ∧ mw_kotbl w' = mw_kotbl w ∧ mw_atexit w' = mw_atexit w) w.
Proof.
  intros Hm Hs Hk [so Hso] Hfd. unfold prcBO. wp_step. eapply wp_deref; [done|].
  destruct (Hs k) as [[[rc es] n] Hr]. wp_step. eapply wp_deref; [done|].
  cbv beta iota. destruct (rc <? 0)%Z; [by apply wp_ret|]. wp_step. eapply wp_deref; [done|]. wp_step.
  destruct (read_syms_room _ _ _ _ Hr) as [Hn ->].
  eapply wp_mono; [apply writeso_fd_spec; [done|by apply generate_fits|done]|].
  intros [] w' ->. by apply wp_ret.
Qed.

Lemma prc_bos_spec items w :
  ms_memfd sy = true → elf_sane →
  (∀ k b, (k, b) ∈ items → bo_kofnm b = Some k ∧ is_Some (bo_sofnm b) ∧ (0 <= bo_sofd b)%Z) →
  wp (prc_bos sy items)
     (λ _ w', mw_g w' = mw_g w ∧ mw_atexit w' = mw_atexit w ∧
              mw_kotbl w' = mw_kotbl w ++ (kotbl_line <$> items.*2)) w.
Proof.
  intros Hm Hs. revert w. induction items as [|[k b] items IH]; intros w Hit; simpl.
  { apply wp_ret. by rewrite app_nil_r. }
  destruct (Hit k b ltac:(left)) as (Hk & Hso & Hfd). wp_step.
  eapply wp_mono; [by eapply prcBO_spec|]. intros rc w1 (Hg1 & Hk1 & Ha1). wp_step. wp_step.
  eapply wp_mono; [apply IH; intros; apply Hit; by right|].
  intros [] w2 (Hg2 & Ha2 & Hk2). simpl in *. split_and!; [congruence..|].
  by rewrite Hk2, Hk1, <- (assoc_L (++)).
Qed.

(** The part of [main] that processes the objects: the kernel object table is emptied,
    written and closed. *)
Lemma bos_processed base w :
  ms_memfd sy = true → elf_sane → ms_kotbl sy = true → mw_atexit w = true → bos_ok base (mw_g w) →
  wp (if g_procbos (mw_g w) && negb (ht_cnt (g_bos (mw_g w)) =? 0) then
        kotblf ← on_g (open_trunc (ms_kotbl sy) KOTBL_DFLT);
        if (kotblf =? -1)%Z then mret false
        else _ ← prc_bos sy (ht_items (g_bos (mw_g w))); _ ← on_g (close_fd kotblf); mret true
      else mret true)
     (λ ok w', ok = true ∧ (∃ l, mw_g w' = add_emptied l (mw_g w)) ∧ mw_atexit w' = true) w.
Proof.
  intros Hm Hel Hkt Ha Hok. destruct (_ && _).
  2:{ apply wp_ret. split; [done|]. split; [|done]. exists []. by rewrite add_emptied_nil. }
  destruct (lowest_fd_spec (g_fds (mw_g w))) as [_ Hnn].
  wp_step. apply wp_on_g, wp_open_trunc. rewrite Hkt, (proj2 (Z.eqb_neq _ (-1))) by lia. wp_step. eapply wp_mono.
  - apply prc_bos_spec; [done|done|]. intros k b Hin. destruct (bk_names _ _ Hok _ _ Hin) as [? ?].
    split_and!; try done. apply (bk_base _ _ Hok). unfold all_fds. apply list_elem_of_In, in_concat.
    exists (bo_fds (k, b)). split; [|right; by left]. apply list_elem_of_In. by apply list_elem_of_fmap_2.
  - intros [] w' (Hg & Ha' & _). wp_step. apply wp_on_g, wp_close_fd; [done|]. apply wp_ret. cbn [mw_g mw_atexit] in *.
    split; [done|]. split; [|by rewrite Ha']. exists [KOTBL_DFLT]. rewrite Hg.
    exact (f_equal (add_emptied [KOTBL_DFLT]) (close_add_fd (mw_g w))).
Qed.

(** ** Kallsyms *)
Lemma lib_fits prefix name l :
  Forall ksym_ok l → (Z.of_nat (table_size (ky_name <$> l)) < 2 ^ 64)%Z →
  is_Some (elf_generate_elf (ms_layout sy) (l_entries (lib_of prefix name l))
                            (Z.to_nat (l_nmstrlen (lib_of prefix name l)))).
Proof.
  intros Hl Hlt. simpl. unfold u64. rewrite Z.mod_small, Nat2Z.id by lia.
  assert (se_name <$> (entry_of <$> l) = ky_name <$> l) as E.
  { rewrite <- list_fmap_compose. apply list_fmap_ext. intros i k _. simpl. unfold entry_of.
    by destruct (sym_class (ky_type k)) as [[]|]. }
  rewrite <- E. apply generate_fits. apply Forall_fmap. eapply Forall_impl; [exact Hl|].
  intros k Hk. simpl. unfold entry_of. pose proof (word_no_nul _ (ko_name _ Hk)).
  by destruct (sym_class (ky_type k)) as [[]|].
Qed.

Lemma table_size_filter m ks :
  table_size (ky_name <$> of_mod m ks) ≤ table_size (ky_name <$> ks).
Proof.
  induction ks as [|k ks IH]; [done|]. unfold of_mod. rewrite filter_cons. fold (of_mod m ks).
  rewrite fmap_cons, table_size_cons. case_decide; [|lia]. rewrite fmap_cons, table_size_cons. lia.
Qed.

(** ** The system the program needs *)
Record msys_ok (ks : list ksym) : Prop := {
  mo_cwd : ∃ cwd, sys_cwd sy = Some cwd ∧ sys_isdir sy cwd = true;
  mo_memfd : ms_memfd sy = true;
  mo_elf : elf_sane;
  mo_kotbl : ms_kotbl sy = true;
  mo_kallsyms : ms_kallsyms sy = Some (print_sym <$> ks);
  mo_syms : Forall ksym_ok ks;
  mo_room : (Z.of_nat (table_size (ky_name <$> ks)) < 2 ^ 64)%Z;
}.

(** The prefix has one component. *)
Lemma prefix_made lines :
  prcKallsyms (ms_mkdir sy) (Some PATHPREFIX_DFLT) lines kasym0 =
  if ms_mkdir sy PATHPREFIX_DFLT then prcKallsyms (λ _, true) (Some PATHPREFIX_DFLT) lines kasym0
  else Done tt kasym0.
Proof.
  unfold prcKallsyms, make_prefix. change (mkpath (ms_mkdir sy) PATHPREFIX_DFLT) with
    (Some (mkdirs (ms_mkdir sy) [PATHPREFIX_DFLT])). cbn [mkdirs].
  by destruct (ms_mkdir sy PATHPREFIX_DFLT).
Qed.

(** The program ends there, with the file closed, or it goes on with the file open. *)
Lemma run_kallsyms_spec ks w fp :
  msys_ok ks → (0 <= fp)%Z →
  if ms_mkdir sy PATHPREFIX_DFLT then
    ∃ w' l, run_kallsyms sy (Some PATHPREFIX_DFLT) (print_sym <$> ks) fp w = Exited 1 w' ∧
      mw_g w' = set_fds (g_fds (mw_g w) ∖ {[fp]}) (add_emptied l (mw_g w)) ∧ mw_atexit w' = mw_atexit w
  else run_kallsyms sy (Some PATHPREFIX_DFLT) (print_sym <$> ks) fp w = Done tt w.
Proof.
  intros [_ Hm _ _ _ Hks Hroom] Hfp. unfold run_kallsyms. rewrite prefix_made.
  destruct (ms_mkdir sy PATHPREFIX_DFLT); [|done].
  destruct (prcKallsyms_spec (λ _, true) (Some PATHPREFIX_DFLT) ks) as (s & ms & -> & _ & _ & Hw).
  { by intros p [= <-]. } { done. }
  assert (∀ m name, is_Some (elf_generate_elf (ms_layout sy)
            (l_entries (lib_of (Some PATHPREFIX_DFLT) name (of_mod m ks)))
            (Z.to_nat (l_nmstrlen (lib_of (Some PATHPREFIX_DFLT) name (of_mod m ks)))))) as Hfit.
  { intros m name. apply lib_fits; [|pose proof (table_size_filter m ks); lia].
    apply Forall_forall. intros k [_ Hk]%list_elem_of_filter. by apply (proj1 (Forall_forall _ _) Hks). }
  assert (Forall (λ l, is_Some (elf_generate_elf (ms_layout sy) (l_entries l)
            (Z.to_nat (l_nmstrlen l)))) (ka_written s)) as Hall.
  { rewrite Hw. apply Forall_app. split.
    - case_decide; constructor; [apply Hfit|constructor].
    - apply Forall_fmap, Forall_forall. intros m _. apply Hfit. }
  pose proof (write_libs_spec (ka_written s) w Hm Hall) as ([] & w' & Hrun & [l H1] & H2 & _)%wp_done.
  eexists _, l. split; [|split]; [step_by Hrun; erewrite bind_done by
    (unfold on_g, close_fd; rewrite (proj2 (Z.ltb_ge fp 0)) by done; reflexivity); reflexivity| |done].
  cbn [mw_g]. by rewrite H1.
Qed.

Lemma cleanup_program base (c : Z) w :
  bos_ok base (mw_g w) → g_startfs (mw_g w) = false →
  wp (_ ← on_g cleanup; mret c)
     (λ r w', r = c ∧ mw_atexit w' = mw_atexit w ∧ g_fds (mw_g w') = base ∧
              g_prockallsyms (mw_g w') = g_prockallsyms (mw_g w)) w.
Proof.
  intros Hok Hst. wp_step. apply wp_on_g. eapply wp_mono; [by apply cleanup_spec|].
  intros [] g (H1 & _ & _ & H2). by apply wp_ret.
Qed.

(** How the program ends: the exit handler will run on a table that is in
    order, and the status follows from whether kallsyms was processed. The file with
    the symbols is left open when there is no directory for the libraries. *)
Definition processed w : bool := g_prockallsyms (mw_g w) && ms_mkdir sy PATHPREFIX_DFLT.
Definition left_open w : bool := g_prockallsyms (mw_g w) && negb (ms_mkdir sy PATHPREFIX_DFLT).
Definition ends base (c : Z) w : Prop :=
  mw_atexit w = true ∧ g_startfs (mw_g w) = false ∧
  c = (if processed w then EXIT_FAILURE else EXIT_SUCCESS) ∧
  if left_open w then ∃ fd, fd ∉ base ∧ bos_ok ({[fd]} ∪ base) (mw_g w) else bos_ok base (mw_g w).

Lemma main_spec ks base fsname opts args :
  msys_ok ks →
  wpe (main sy fsname opts args) (ends base)
      (λ c w, ends base c w ∨ mw_atexit w = false ∧ c = EXIT_FAILURE) (mainw0 base).
Proof.
  intros Hms. pose proof Hms as [[cwd [Hcwd Hdir]] Hm Hel Hkt Hka _ _].
  unfold main. apply wpe_bind, wpe_wp, wp_on_g.
  eapply wp_mono; [by apply (GBLSInit_spec sy base fsname opts args cwd)|].
  intros rc g (Hrc & Hok & Hst & _). cbn [mainw0 mw_kotbl mw_libs mw_atexit].
  destruct Hrc as [-> | ->]; cycle 1.
  { apply wpe_exit. by right. }
  change (0 <? 0)%Z with false. cbv iota.
  apply wpe_bind, wpe_wp, wp_modify, wpe_bind, wpe_wp, wp_get. cbn [mw_g].
  apply wpe_bind, wpe_wp.
  assert (∀ w (Q : unit → mainw → Prop), Q tt w →
    wp (match g_executable g with Some e => _ ← on_g (prcExec sy e); mret tt | None => mret tt end) Q w)
    as Hexec.
  { intros w Q HQ. destruct (g_executable g) as [e|]; [|by apply wp_ret].
    wp_step. apply wp_on_g. eapply wp_mono; [apply prcExec_spec|]. intros r g' ->. apply wp_ret.
    by destruct w. }
  apply Hexec. apply wpe_bind, wpe_wp, wp_get. cbn [mw_g].
  apply wpe_bind, wpe_wp. set (w1 := MainW g _ _ true).
  eapply wp_mono; [apply (bos_processed base w1 Hm Hel Hkt); [done|exact Hok]|].
  intros ok w2 (-> & [l Hg2] & Ha2). cbn [negb]. apply wpe_bind, wpe_wp, wp_get.
  assert (bos_ok base (mw_g w2)) as Hok2 by (rewrite Hg2; by eapply bos_ok_same; [|exact Hok]).
  assert (g_startfs (mw_g w2) = false) as Hst2 by (by rewrite Hg2).
  clear Hg2. apply wpe_bind. rewrite Hka. destruct (g_prockallsyms (mw_g w2)) eqn:Hpk; cycle 1.
  { apply wpe_ret, wpe_bind, wpe_wp, wp_get. rewrite Hst2. apply wpe_bind, wpe_ret, wpe_ret.
    unfold ends, processed, left_open. by rewrite Hpk. }
  apply wpe_bind, wpe_wp, wp_on_g, wp_open_fd.
  destruct (lowest_fd_spec (g_fds (mw_g w2))) as [Hfree Hnn].
  set (w3 := MainW (add_fd (mw_g w2)) _ _ _).
  pose proof (run_kallsyms_spec ks w3 (lowest_fd (g_fds (mw_g w2))) Hms Hnn) as Hrun.
  destruct (ms_mkdir sy PATHPREFIX_DFLT) eqn:Emk.
  - destruct Hrun as (w4 & l4 & Hrun & Hg4 & Ha4). unfold wpe. rewrite Hrun. left.
    assert (bos_ok base (mw_g w4)) as Hok4.
    { rewrite Hg4. eapply bos_ok_same; [|exact Hok2]. split; [done|]. exact (f_equal g_fds (close_add_fd (mw_g w2))). }
    unfold ends, processed, left_open. rewrite Ha4, Emk, !Hg4. cbn [mw_g mw_atexit w3 g_prockallsyms g_startfs set_fds set_bos add_emptied add_fd].
    rewrite Hpk. rewrite Hg4 in Hok4. done.
  - unfold wpe at 1. rewrite Hrun. apply wpe_bind, wpe_wp, wp_get. cbn [mw_g w3 add_fd set_fds set_bos g_startfs].
    rewrite Hst2. apply wpe_bind, wpe_ret, wpe_ret. unfold ends, processed, left_open. rewrite Emk.
    cbn [mw_g w3 add_fd set_fds set_bos g_startfs g_prockallsyms]. rewrite Hpk, Hst2. cbn [andb negb]. split_and!; try done.
    exists (lowest_fd (g_fds (mw_g w2))). split; [by eapply base_open|]. by apply bos_ok_more.
Qed.

Lemma program_spec ks base fsname opts args :
  msys_ok ks →
  ∃ c w', program sy fsname opts args (mainw0 base) = Done c w' ∧
    (mw_atexit w' = false → c = EXIT_FAILURE) ∧
    (mw_atexit w' = true →
       c = (if processed w' then EXIT_FAILURE else EXIT_SUCCESS) ∧
       if left_open w' then ∃ fd, fd ∉ base ∧ g_fds (mw_g w') = {[fd]} ∪ base else g_fds (mw_g w') = base).
Proof.
  intros Hms. unfold program.
  assert (∀ c w, ends base c w → ∃ c' w', (if mw_atexit w then (_ ← on_g cleanup; mret c) w else Done c w)
    = Done c' w' ∧ (mw_atexit w' = false → c' = EXIT_FAILURE) ∧
    (mw_atexit w' = true → c' = (if processed w' then EXIT_FAILURE else EXIT_SUCCESS) ∧
       if left_open w' then ∃ fd, fd ∉ base ∧ g_fds (mw_g w') = {[fd]} ∪ base else g_fds (mw_g w') = base)) as Hfin.
  { intros c w (Ha & Hst & Hc & Hok). rewrite Ha. unfold processed, left_open in *.
    destruct (g_prockallsyms (mw_g w) && negb (ms_mkdir sy PATHPREFIX_DFLT)) eqn:Ep.
    - destruct Hok as (fd & Hfd & Hok).
      pose proof (cleanup_program _ c w Hok Hst) as (c' & w' & Hrun & -> & Ha' & Hf & Hp)%wp_done.
      exists c, w'. rewrite Ha', Hp, Ep. split; [done|]. split; [congruence|]. intros _. split; [done|]. by exists fd.
    - pose proof (cleanup_program base c w Hok Hst) as (c' & w' & Hrun & -> & Ha' & Hf & Hp)%wp_done.
      exists c, w'. rewrite Ha', Hp, Ep. split; [done|]. split; [congruence|]. done. }
  pose proof (main_spec ks base fsname opts args Hms)
    as [(c & w & -> & He)|(c & w & -> & [He|[Ha ->]])]%wpe_done; [by apply Hfin..|].
  rewrite Ha. eexists _, _. split; [done|]. split; [done|congruence].
Qed.
End mainspec.
