(* ===== verification/KldServe.v ===== *)
(** * Serving the file system ([kld/main.c], the branch for [startfs])

    The branch of [main] that no option of the program reaches: creation of the file
    system with its one file, the event loop, and the exit handler afterwards. The
    components are those of [FsBoot], [KldFs] and [FsCleanup]; here they are put
    together on the state of the program. *)
From Stdlib Require Import Ascii.
From S2P Require Import Prelude UtHash Event Fs FsInode FsTree FsRefine FsRemove FsLife FsCleanup FsBoot.
From S2P Require Import FsFuse FsFuseSpec Sigproc KldFs KoSpec Bos BosSpec KldElf Kallsyms KldMain.

(** The tree [kldfsCreate] builds. *)
Definition libkernel_req : creq := CFile ROOT_INO "libkernel.so" None fs_libkernel_ops.
Definition served_tree : atree :=
  <[2 := file_node ROOT_INO "libkernel.so" None fs_libkernel_ops]> root_tree.

Lemma served_creates : a_create 2 root_tree libkernel_req = Some served_tree.
Proof. by vm_compute. Qed.
Lemma served_ops : ops_ok served_tree.
Proof. unfold ops_ok. apply (bool_decide_unpack _). by vm_compute. Qed.

Section serve.
Context `{UL : UtHashLaws} `{FL : FuseLib} (sy : msys).
Implicit Types (g : gbls) (w : fsw).

Lemma kldfsCreate_populates : populates kldfsCreate 3 served_tree.
Proof.
  intros w Hp. unfold kldfsCreate. wp_step.
  eapply wp_mono; [by apply (run_creq_refines 2 root_tree served_tree w libkernel_req)|].
  intros p w' (_ & Hp' & _ & Hm). by apply wp_ret.
Qed.

(** What [GBLSInit] leaves when the file system is to be served. *)
Record ready g : Prop := {
  rd_start : g_startfs g = true;
  rd_fs : inited (g_fs g);
  rd_mnt : mntpt (this (g_fs g)) ≠ None;
  rd_ed : sp_ed (g_sigproc g) = EvntDesc (Some sigEvent_ptr) (Some obj_sigproc);
  rd_sfd : sp_sfd (g_sigproc g) ≠ (-1)%Z;
}.

(** [GBLSInit] does so, given a mount point that fits and a signal descriptor. *)
Lemma ready_init fsname mp g :
  g_startfs g = true → heap (g_fs g) = ∅ → fsMountPoint sizeof_tmp fsname None = Some mp →
  sys_sigprocmask sy ≠ (-1)%Z → sys_signalfd sy = true →
  wp (ok ← on_objs (fsInit fsname true None); _ ← assertM ok;
      sfd ← open_fd (sys_signalfd sy); on_sig (sigprocInit true (sys_sigprocmask sy) sfd))
     (λ _ g', ready g' ∧ same_bos (add_fd g) g' ∧ sp_sfd (g_sigproc g') = lowest_fd (g_fds g)) g.
Proof.
  intros Hst Hh Hmp Hmask Hsfd.
  pose proof (fsInit_spec fsname None mp (g_fs g) Hh Hmp) as (r & w1 & Hrun & -> & Hin & Hm & _)%wp_done.
  wp_step. unfold wp at 1, on_objs. rewrite Hrun. wp_step. apply wp_assert; [done|].
  wp_step. apply wp_open_fd. rewrite Hsfd. destruct (lowest_fd_spec (g_fds g)) as [_ Hnn].
  change (g_fds (set_objs w1 (g_sigproc g) g)) with (g_fds g).
  unfold on_sig, sigprocInit, wp, mbind, M_bind, modifyM, assertM. cbn.
  rewrite (proj2 (Z.eqb_neq (sys_sigprocmask sy) (-1))), (proj2 (Z.eqb_neq (lowest_fd (g_fds g)) (-1))) by (done || lia).
  cbn. split; [|done]. split; cbn; [done|done|by rewrite Hm|done|lia].
Qed.

(** The answers that let the events be registered; requests are for inodes that
    exist. *)
Record side_ok : Prop := {
  so_env : env_ok (ms_fsenv sy);
  so_ctl : ∀ fd ev ed, ms_epoll_ctl sy fd ev ed = true;
  so_waits : forallb (wait_ok served_tree) (ms_waits sy) = true;
}.

(** How serving ends: [None] while the loop still waits. *)
Definition service_status : option Z :=
  if negb (env_mount (ms_fsenv sy)) || negb (ms_epoll sy) then Some EXIT_FAILURE
  else match verdict (ms_waits sy) with
       | Some true => Some EXIT_SUCCESS
       | Some false => Some EXIT_FAILURE
       | None => None
       end.

(** The event loop was reached: its descriptor is open. *)
Definition reached : bool := env_mount (ms_fsenv sy) && ms_epoll sy.

(** A state from which the exit handler takes the file system down. *)
Definition served g g' : Prop :=
  g_startfs g' = true ∧ same_bos (if reached then add_fd g else g) g' ∧ g_sigproc g' = g_sigproc g ∧
  ∃ k, pristine k served_tree (g_fs g') ∧ mkdir (this (g_fs g')) = true ∧ mntpt (this (g_fs g')) ≠ None.

Lemma loop_runs g w :
  sp_ed (g_sigproc g) = EvntDesc (Some sigEvent_ptr) (Some obj_sigproc) → sp_sfd (g_sigproc g) ≠ (-1)%Z →
  side_ok → pristine 3 served_tree w → fuse_se (this w) = true → fuse_fd (this w) ≠ (-1)%Z →
  ms_epoll sy = true →
  wp (kldfsLoop (g_pid g) (ms_epoll sy) (ms_epoll_ctl sy) (ms_waits sy))
     (λ r k, r = verdict (ms_waits sy) ∧ kfs k = w ∧ ksp k = g_sigproc g ∧ kfds k = {[lowest_fd (g_fds g)]} ∪ g_fds g)
     (KldW w (g_sigproc g) [] (g_fds g)).
Proof.
  intros Hed Hsfd [He Hctl Hws] Hp Hse Hfd Hep. unfold kldfsLoop, epoll_create1. rewrite Hep.
  destruct (lowest_fd_spec (g_fds g)) as [_ Hnn]. set (ep := lowest_fd (g_fds g)) in *.
  assert (ep ≠ (-1)%Z) as Hep' by lia. wp_step. wp_step. wp_step. wp_step. wp_step. apply wp_ret. cbn [kfds]. fold ep.
  rewrite (proj2 (Z.eqb_neq _ _) Hep').
  assert (sigprocRegisterEvents ep (ms_epoll_ctl sy) (g_sigproc g) = Done tt (g_sigproc g)) as Hreg.
  { unfold sigprocRegisterEvents. step.
    rewrite (proj2 (Z.eqb_neq _ _) Hep'), (proj2 (Z.eqb_neq _ _) Hsfd), bool_decide_true, Hctl by done. done. }
  assert (∃ b, fsRegisterEvents (ms_epoll_ctl sy) w = Done b w) as [b Hfs].
  { eexists. unfold fsRegisterEvents. step. rewrite Hse, (proj2 (Z.eqb_neq _ _) Hfd). reflexivity. }
  wp_step. unfold wp at 1, on_sp. cbn [ksp]. rewrite Hreg. wp_step. unfold wp at 1, on_fs. cbn [kfs ksp kreplies kfds].
  rewrite (bind_done _ _ w b w Hfs). cbn.
  eapply wp_mono; [by eapply (wait_loop_spec _ served_tree _ (KldW w (g_sigproc g) [] ({[ep]} ∪ g_fds g)));
    [apply (pr_repr _ _ _ Hp)|apply served_ops|]|].
  intros r k (-> & H1 & H2 & H3). done.
Qed.

(** Serving does exactly that, and in every case leaves what the exit handler needs. *)
Lemma serve_fs_spec g :
  ready g → side_ok →
  match service_status with
  | None => serve_fs sy g = NoFuel
  | Some c => ∃ g', served g g' ∧ serve_fs sy g = if (c =? EXIT_SUCCESS)%Z then Done tt g' else Exited c g'
  end.
Proof.
  intros [Hst Hin Hmp Hed Hsfd] Hside. pose proof (so_env Hside) as Henv. unfold serve_fs, service_status, served, reached.
  pose proof (fsCreate_spec (ms_fsenv sy) (ms_argv0 sy) kldfsCreate 3 served_tree (g_fs g) Hin Henv kldfsCreate_populates)
    as (r & w1 & Hrun & -> & Hp & Hmk & Hm & Hse & Hfd)%wp_done.
  set (g1 := set_objs w1 (g_sigproc g) g).
  assert (on_objs (fsCreate (ms_fsenv sy) (ms_argv0 sy) (Some kldfsCreate)) g = Done (env_mount (ms_fsenv sy)) g1) as Hc
    by (unfold on_objs; by rewrite Hrun).
  assert (∃ k, pristine k served_tree w1 ∧ mkdir (this w1) = true ∧ mntpt (this w1) ≠ None) as Hw1
    by (exists 3; rewrite Hm; done).
  destruct (env_mount (ms_fsenv sy)); cbn [negb orb andb].
  2:{ exists g1. split; [done|]. by step_by Hc. }
  specialize (Hfd eq_refl). step_by Hc. cbn [negb]. step.
  destruct (ms_epoll sy) eqn:Hep; cbn [negb].
  2:{ exists g1. split; [done|]. unfold kldfsLoop. done. }
  assert (fuse_fd (this w1) ≠ (-1)%Z) as Hfd' by (rewrite Hfd; apply Henv).
  pose proof (loop_runs g w1 Hed Hsfd Hside Hp Hse Hfd' Hep) as (r & k & Hloop & -> & Hk1 & Hk2 & Hk3)%wp_done.
  rewrite Hep in Hloop. set (g2 := set_fds (g_fds (add_fd g)) (set_objs w1 (g_sigproc g) g1)).
  assert (on_loop (kldfsLoop (g_pid g1) true (ms_epoll_ctl sy) (ms_waits sy)) g1 = Done (verdict (ms_waits sy)) g2) as Hl.
  { unfold on_loop. cbn [g_fs g_sigproc g_pid g_fds g1 set_objs]. by rewrite Hloop, Hk1, Hk2, Hk3. }
  destruct (verdict (ms_waits sy)) as [[]|]; [exists g2; split; [done|]..|]; by step_by Hl.
Qed.

(** The exit handler after that: of the descriptors of the program only the one of the
    event loop is left. *)
Lemma served_cleanup base g g' :
  bos_ok ({[sp_sfd (g_sigproc g)]} ∪ base) g → sp_sfd (g_sigproc g) ∉ base → (0 <= sp_sfd (g_sigproc g))%Z → served g g' →
  wp cleanup (λ _ g'', g_fds g'' = (if reached then {[lowest_fd (g_fds g)]} ∪ base else base) ∧
    cleaned (g_fs g'') ∧ sp_sfd (g_sigproc g'') = (-1)%Z) g'.
Proof.
  intros Hok Hnb Hnn (Hst & Hsame & Hsp & k & [Hr Hcl] & Hmk & Hmp).
  pose proof (fsCleanup_spec served_tree _ (g_fs g') Hr Hcl Hmp Hmk) as (r & w & Hrun & -> & Hclean)%wp_done.
  set (sfd := sp_sfd (g_sigproc g)) in *. set (base' := if reached then {[lowest_fd (g_fds g)]} ∪ base else base).
  assert (bos_ok ({[sfd]} ∪ base') g' ∧ sfd ∉ base') as [Hok' Hnb'].
  { unfold base'. destruct reached; [|by split; [eapply bos_ok_same|]]. split.
    - eapply bos_ok_same; [exact Hsame|]. replace ({[sfd]} ∪ ({[lowest_fd (g_fds g)]} ∪ base))
        with ({[lowest_fd (g_fds g)]} ∪ ({[sfd]} ∪ base)) by set_solver. by apply bos_ok_more.
    - destruct (lowest_fd_spec (g_fds g)) as [Hlf _]. pose proof (base_open _ _ _ Hok Hlf). set_solver. }
  unfold cleanup. wp_step. wp_step. rewrite Hst. wp_step. wp_step. unfold wp at 1, on_objs. rewrite Hrun.
  unfold sigprocCleanup. wp_step. wp_step. cbn [g_sigproc set_objs]. rewrite Hsp. fold sfd.
  rewrite (proj2 (Z.eqb_neq sfd (-1))) by lia. cbn [negb]. wp_step. apply wp_close_fd; [done|]. wp_step.
  match goal with |- wp _ _ ?g2 => set (g2' := g2) end.
  assert (bos_ok base' g2') as Hok2 by (by apply (bos_ok_less base' sfd g' g2')).
  eapply wp_mono; [by apply (cleanup_bos_spec base')|]. intros _ g3 (Hf & _ & _ & _ & Hobj & Hsig).
  split; [done|]. rewrite Hobj, Hsig. done.
Qed.
End serve.
