(* ===== verification/SymHeap.v ===== *)
(** * The memory of the symbol arrays ([kld/main.c]: [cleanupEntries], and the
    allocations of [prcKallsyms] and [initSE])

    [Kallsyms] says what the arrays hold; this file says which blocks of the heap they
    are made of. An array is a block that [realloc] moves when it is full, and every
    entry has a block for its name; a module has a block for itself and one for its
    name. Freeing what is not allocated is a fault. *)
From S2P Require Import Prelude KoSpec.

Open Scope Z_scope.
Open Scope list_scope.

(** The blocks that are allocated, and an address above all of them. *)
Record symheap := SymHeap { sh_live : gset Z; sh_next : Z }.

Definition malloc : M symheap Z := λ h,
  Done (sh_next h) (SymHeap ({[sh_next h]} ∪ sh_live h) (sh_next h + 1)).
Definition free (p : Z) : M symheap unit :=
  if p =? 0 then mret tt
  else h ← getM;
       if bool_decide (p ∈ sh_live h) then modifyM (λ h, SymHeap (sh_live h ∖ {[p]}) (sh_next h)) else faultM.
Definition realloc (p : Z) : M symheap Z := q ← malloc; _ ← free p; mret q.

(** [kentries] with [ksyms_n], and the names of the [ksyms_i] entries. *)
Record symarr := SymArr { sa_ptr : Z; sa_cap : Z; sa_names : list Z }.
Definition symarr0 : symarr := SymArr 0 0 [].
Definition sa_count (a : symarr) : Z := Z.of_nat (length (sa_names a)).

(** A full array is grown; the entry gets a copy of its name. *)
Definition push_sym (a : symarr) : M symheap symarr :=
  a ← (if sa_count a =? sa_cap a then
         let n := if sa_cap a =? 0 then 1024 else Z.shiftl (sa_cap a) 1 in
         p ← realloc (sa_ptr a);
         mret (SymArr p n (sa_names a))
       else mret a);
  s ← malloc;
  mret (SymArr (sa_ptr a) (sa_cap a) (sa_names a ++ [s])).

Fixpoint free_all (l : list Z) : M symheap unit :=
  match l with [] => mret tt | p :: l => _ ← free p; free_all l end.
Definition cleanupEntries (a : symarr) : M symheap unit := _ ← free_all (sa_names a); free (sa_ptr a).

(** [struct Module]: itself, its name and its entries; the table in order. *)
Record modrec := ModRec { m_self : Z; m_name : Z; m_entries : symarr }.
Notation modtab := (list (chars * modrec)).

(** The entry of module [nm] gets a symbol; a module that is new is allocated. *)
Fixpoint push_module (nm : chars) (ms : modtab) : M symheap modtab :=
  match ms with
  | [] =>
      self ← malloc;
      name ← malloc;
      a ← push_sym symarr0;
      mret [(nm, ModRec self name a)]
  | (nm', m) :: ms =>
      if bool_decide (nm = nm') then
        a ← push_sym (m_entries m); mret ((nm', ModRec (m_self m) (m_name m) a) :: ms)
      else ms ← push_module nm ms; mret ((nm', m) :: ms)
  end.

(** The lines that are entered, each with its module if it has one. *)
Fixpoint push_lines (lines : list (option chars)) (k : symarr) (ms : modtab) : M symheap (symarr * modtab) :=
  match lines with
  | [] => mret (k, ms)
  | None :: lines => k ← push_sym k; push_lines lines k ms
  | Some nm :: lines => ms ← push_module nm ms; push_lines lines k ms
  end.

(** After the libraries have been written. *)
Fixpoint free_modules (ms : modtab) : M symheap unit :=
  match ms with
  | [] => mret tt
  | (_, m) :: ms =>
      _ ← cleanupEntries (m_entries m);
      _ ← free (m_name m);
      _ ← free (m_self m);
      free_modules ms
  end.
Definition kallsyms_memory (lines : list (option chars)) : M symheap unit :=
  r ← push_lines lines symarr0 [];
  _ ← (if sa_count r.1 =? 0 then mret tt else cleanupEntries r.1);
  free_modules r.2.

(** ** Ownership *)

(** The blocks [l] are allocated, apart from each other and from [base], and nothing
    else is. *)
Record owns (base : gset Z) (l : list Z) (h : symheap) : Prop := {
  ow_nodup : NoDup l;
  ow_live : sh_live h = base ∪ list_to_set l;
  ow_apart : ∀ p, p ∈ l → p ∉ base ∧ p ≠ 0;
  ow_fresh : ∀ p, p ∈ sh_live h → p < sh_next h;
  ow_pos : 0 < sh_next h;
}.

#[export] Instance owns_proper base : Proper ((≡ₚ) ==> (=) ==> iff) (owns base).
Proof.
  assert (∀ l l' h, l ≡ₚ l' → owns base l h → owns base l' h) as Hone.
  { intros l l' h Hp [H1 H2 H3 H4 H5]. split; [by rewrite <- Hp|by rewrite <- Hp| |done|done].
    intros p Hin. apply H3. by rewrite Hp. }
  intros l l' Hp h ? <-. split; apply Hone; [done|by symmetry].
Qed.

Definition blocks (a : symarr) : list Z := if sa_ptr a =? 0 then [] else sa_ptr a :: sa_names a.
Record arr_ok (a : symarr) : Prop := {
  ak_null : sa_ptr a = 0 → sa_cap a = 0;
  ak_count : sa_count a <= sa_cap a;
  ak_used : sa_ptr a ≠ 0 → 0 < sa_count a;
}.
Definition mod_blocks (m : modrec) : list Z := m_self m :: m_name m :: blocks (m_entries m).
Definition tab_blocks (ms : modtab) : list Z := ms ≫= mod_blocks ∘ snd.
Definition tab_ok (ms : modtab) : Prop := Forall (λ m, arr_ok (m_entries m.2)) ms.

Lemma malloc_owns base l h : owns base l h → ∃ p h', malloc h = Done p h' ∧ owns base (p :: l) h' ∧ p ≠ 0.
Proof.
  intros [H1 H2 H3 H4 H5]. eexists _, _. split; [done|]. split; [|lia].
  assert (sh_next h ∉ sh_live h) as Hn by (intros Hin%H4; lia). rewrite H2 in Hn.
  split; cbn; [|rewrite H2; set_solver| | |lia].
  - constructor; [set_solver|done].
  - intros p [->|Hp]%elem_of_cons; [|by apply H3]. split; [set_solver|lia].
  - intros p Hp. apply elem_of_union in Hp as [Hp|Hp]; [set_solver by lia|]. apply H4 in Hp. lia.
Qed.

Lemma free_owns base p l h : owns base (p :: l) h → ∃ h', free p h = Done tt h' ∧ owns base l h'.
Proof.
  intros [H1 H2 H3 H4 H5]. apply NoDup_cons in H1 as [Hp H1]. destruct (H3 p) as [Hb H0]; [by left|].
  unfold free. rewrite (proj2 (Z.eqb_neq p 0)) by done. eexists. split.
  { step. rewrite bool_decide_true by (rewrite H2; set_solver). reflexivity. }
  split; cbn; [done| | |intros q Hq; apply H4; set_solver|done].
  - rewrite H2. set_unfold. intros q. naive_solver.
  - intros q Hq. apply H3. by right.
Qed.

Lemma free_all_owns base ps l h : owns base (ps ++ l) h → ∃ h', free_all ps h = Done tt h' ∧ owns base l h'.
Proof.
  revert h. induction ps as [|p ps IH]; intros h Ho; [by eexists|].
  destruct (free_owns _ _ _ _ Ho) as (h1 & H1 & Ho1). destruct (IH h1 Ho1) as (h2 & H2 & Ho2).
  exists h2. split; [|done]. cbn [free_all]. by step_by H1.
Qed.

Lemma push_sym_owns base a l h :
  arr_ok a → owns base (blocks a ++ l) h →
  ∃ a' h', push_sym a h = Done a' h' ∧ owns base (blocks a' ++ l) h' ∧ arr_ok a' ∧ sa_count a' = sa_count a + 1.
Proof.
  intros [Hn Hc _] Ho. unfold push_sym.
  assert (∃ b h1, (if sa_count a =? sa_cap a then
      p ← realloc (sa_ptr a); mret (SymArr p (if sa_cap a =? 0 then 1024 else Z.shiftl (sa_cap a) 1) (sa_names a))
    else mret a) h = Done b h1 ∧ owns base (blocks b ++ l) h1 ∧ sa_ptr b ≠ 0 ∧ sa_count b < sa_cap b ∧ sa_names b = sa_names a)
    as (b & h1 & Hg & Ho1 & Hb0 & Hbc & Hnm).
  { destruct (Z.eqb_spec (sa_count a) (sa_cap a)) as [Hfull|Hnf].
    - destruct (malloc_owns _ _ _ Ho) as (q & h1 & Hm & Ho1 & Hq).
      assert (∃ h2, free (sa_ptr a) h1 = Done tt h2 ∧ owns base (q :: sa_names a ++ l) h2) as (h2 & Hf & Ho2).
      { unfold blocks in Ho1. destruct (Z.eqb_spec (sa_ptr a) 0) as [E|E].
        - rewrite E. exists h1. split; [done|]. assert (sa_names a = []) as ->; [|done].
          apply length_zero_iff_nil. unfold sa_count in *. specialize (Hn E). lia.
        - apply (free_owns base). eapply owns_proper; [|done|exact Ho1]. cbn. apply Permutation_swap. }
      eexists _, h2. split; [unfold realloc; erewrite bind_done by (step_by Hm; by step_by Hf); reflexivity|].
      unfold blocks. cbn [sa_ptr sa_names sa_cap]. rewrite (proj2 (Z.eqb_neq q 0)) by done.
      split_and!; [done|done| |done]. unfold sa_count in *. cbn [sa_names]. rewrite Z.shiftl_mul_pow2 by lia.
      destruct (Z.eqb_spec (sa_cap a) 0); lia.
    - exists a, h. split_and!; [done|done|intros E; apply Hn in E; unfold sa_count in *; lia|lia|done]. }
  erewrite bind_done by exact Hg. destruct (malloc_owns _ _ _ Ho1) as (s & h2 & Hm & Ho2 & Hs).
  eexists _, h2. split; [by step_by Hm|]. unfold blocks, sa_count in *. cbn [sa_ptr sa_names sa_cap].
  rewrite (proj2 (Z.eqb_neq _ 0)) in Ho2 |- * by done. rewrite length_app, Hnm in *. cbn [length].
  split_and!; [|split; cbn [sa_ptr sa_cap]; [done|unfold sa_count; cbn; rewrite length_app; cbn; lia..]|lia].
  eapply owns_proper; [|done|exact Ho2]. cbn. rewrite <- app_assoc. cbn. solve_Permutation.
Qed.

Lemma symarr0_ok : arr_ok symarr0.
Proof. by split. Qed.

Lemma cleanupEntries_owns base a l h :
  arr_ok a → owns base (blocks a ++ l) h → ∃ h', cleanupEntries a h = Done tt h' ∧ owns base l h'.
Proof.
  intros [Hn Hc _] Ho. unfold cleanupEntries. unfold blocks in Ho. destruct (Z.eqb_spec (sa_ptr a) 0) as [E|E].
  - assert (sa_names a = []) as -> by (apply length_zero_iff_nil; unfold sa_count in *; specialize (Hn E); lia).
    exists h. split; [|done]. cbn [free_all]. step. by rewrite E.
  - assert (owns base (sa_names a ++ sa_ptr a :: l) h) as Ho' by (eapply owns_proper; [|done|exact Ho]; cbn; solve_Permutation).
    destruct (free_all_owns _ _ _ _ Ho') as (h1 & H1 & Ho1). destruct (free_owns _ _ _ _ Ho1) as (h2 & H2 & Ho2).
    exists h2. split; [|done]. by step_by H1.
Qed.

Lemma tab_blocks_cons nm m ms : tab_blocks ((nm, m) :: ms) = mod_blocks m ++ tab_blocks ms.
Proof. done. Qed.

Lemma push_module_owns base nm ms l h :
  tab_ok ms → owns base (tab_blocks ms ++ l) h →
  ∃ ms' h', push_module nm ms h = Done ms' h' ∧ owns base (tab_blocks ms' ++ l) h' ∧ tab_ok ms'.
Proof.
  intros Hok. revert l h. induction Hok as [|[nm' m] ms Hm Hms IH]; intros l h Ho; cbn [push_module].
  - destruct (malloc_owns _ _ _ Ho) as (s & h1 & H1 & Ho1 & _).
    destruct (malloc_owns _ _ _ Ho1) as (n & h2 & H2 & Ho2 & _).
    destruct (push_sym_owns base symarr0 _ h2 symarr0_ok Ho2) as (a & h3 & H3 & Ho3 & Ha & _).
    eexists _, h3. split; [step_by H1; step_by H2; by step_by H3|]. split; [|by constructor; [|constructor]].
    eapply owns_proper; [|done|exact Ho3]. unfold tab_blocks, mod_blocks. cbn. rewrite app_nil_r. solve_Permutation.
  - cbn in Hm. case_bool_decide.
    + assert (owns base (blocks (m_entries m) ++ m_self m :: m_name m :: tab_blocks ms ++ l) h) as Ho'.
      { eapply owns_proper; [|done|exact Ho]. rewrite tab_blocks_cons. unfold mod_blocks. cbn. solve_Permutation. }
      destruct (push_sym_owns _ _ _ _ Hm Ho') as (a & h1 & H1 & Ho1 & Ha & _).
      eexists _, h1. split; [by step_by H1|]. split; [|by constructor].
      eapply owns_proper; [|done|exact Ho1]. rewrite tab_blocks_cons. unfold mod_blocks. cbn. solve_Permutation.
    + assert (owns base (tab_blocks ms ++ mod_blocks m ++ l) h) as Ho'.
      { eapply owns_proper; [|done|exact Ho]. rewrite tab_blocks_cons. solve_Permutation. }
      destruct (IH _ _ Ho') as (ms' & h1 & H1 & Ho1 & Hok'). eexists _, h1. split; [by step_by H1|].
      split; [|by constructor]. eapply owns_proper; [|done|exact Ho1]. rewrite tab_blocks_cons. solve_Permutation.
Qed.

Lemma push_lines_owns base lines k ms h :
  arr_ok k → tab_ok ms → owns base (blocks k ++ tab_blocks ms) h →
  ∃ k' ms' h', push_lines lines k ms h = Done (k', ms') h' ∧ arr_ok k' ∧ tab_ok ms' ∧
    owns base (blocks k' ++ tab_blocks ms') h'.
Proof.
  revert k ms h. induction lines as [|[nm|] lines IH]; intros k ms h Hk Hms Ho; cbn [push_lines].
  - by eexists _, _, _.
  - assert (owns base (tab_blocks ms ++ blocks k) h) as Ho' by (eapply owns_proper; [|done|exact Ho]; apply Permutation_app_comm).
    destruct (push_module_owns base nm ms _ h Hms Ho') as (ms1 & h1 & H1 & Ho1 & Hms1).
    destruct (IH k ms1 h1 Hk Hms1) as (k2 & ms2 & h2 & H2 & Hrest).
    { eapply owns_proper; [|done|exact Ho1]. apply Permutation_app_comm. }
    exists k2, ms2, h2. split; [|done]. by step_by H1.
  - destruct (push_sym_owns base k _ h Hk Ho) as (k1 & h1 & H1 & Ho1 & Hk1 & _).
    destruct (IH k1 ms h1 Hk1 Hms Ho1) as (k2 & ms2 & h2 & H2 & Hrest). exists k2, ms2, h2. split; [|done]. by step_by H1.
Qed.

Lemma free_modules_owns base ms h :
  tab_ok ms → owns base (tab_blocks ms) h → ∃ h', free_modules ms h = Done tt h' ∧ owns base [] h'.
Proof.
  intros Hok. revert h. induction Hok as [|[nm m] ms Hm Hms IH]; intros h Ho; cbn [free_modules]; [by eexists|].
  assert (owns base (blocks (m_entries m) ++ m_name m :: m_self m :: tab_blocks ms) h) as Ho'.
  { eapply owns_proper; [|done|exact Ho]. rewrite tab_blocks_cons. unfold mod_blocks. cbn. solve_Permutation. }
  destruct (cleanupEntries_owns _ _ _ _ Hm Ho') as (h1 & H1 & Ho1).
  destruct (free_owns _ _ _ _ Ho1) as (h2 & H2 & Ho2). destruct (free_owns _ _ _ _ Ho2) as (h3 & H3 & Ho3).
  destruct (IH h3 Ho3) as (h4 & H4 & Ho4). exists h4. split; [|done]. step_by H1. step_by H2. by step_by H3.
Qed.

(** Whatever the lines: no block is freed twice, none is left. *)
Lemma kallsyms_memory_run lines h :
  owns (sh_live h) [] h → ∃ h', kallsyms_memory lines h = Done tt h' ∧ sh_live h' = sh_live h.
Proof.
  intros Ho. unfold kallsyms_memory.
  destruct (push_lines_owns (sh_live h) lines symarr0 [] h symarr0_ok ltac:(constructor) Ho)
    as (k & ms & h1 & H1 & Hk & Hms & Ho1).
  step_by H1. cbn [fst snd].
  assert (∃ h2, (if sa_count k =? 0 then mret tt else cleanupEntries k) h1 = Done tt h2 ∧
    owns (sh_live h) (tab_blocks ms) h2) as (h2 & H2 & Ho2).
  { destruct (Z.eqb_spec (sa_count k) 0) as [E|E]; [|by apply cleanupEntries_owns].
    exists h1. split; [done|]. unfold blocks in Ho1. destruct (Z.eqb_spec (sa_ptr k) 0) as [E0|E0]; [done|].
    apply (ak_used _ Hk) in E0. lia. }
  step_by H2. destruct (free_modules_owns _ _ _ Hms Ho2) as (h3 & H3 & Ho3). exists h3. split; [done|].
  rewrite (ow_live _ _ _ Ho3). set_solver.
Qed.
