(* ===== verification/KldProps.v ===== *)
(** * What the command line tool guarantees

    The properties of [KoSpec], [Bos], [KldElf], [Kallsyms] and [KldMain], proved
    from the lemmas of those components, each followed by an instance at a
    concrete input. *)
From Stdlib Require Import Ascii.
From S2P Require Import Prelude UtHash Event Fs FsLife FsFuse Sigproc KoSpec Bos BosSpec KldElf.
From S2P Require Import KldElfSpec Kallsyms KallsymsSpec KldMain KldMainSpec FsInode FsTree FsCleanup FsBoot KldFs KldServe.

(** ** Specifications *)

(** C35: cutting a specification in place at its commas yields the fields of the
    comma separated list: file, module name and options, with a default for an
    absent or empty field, and an error from the third comma on. *)
Theorem parsekospec_is_split spec : no_nul spec → parsekospec spec = kospec_of spec.
Proof. apply parsekospec_split. Qed.

Lemma parsekospec_is_split_witness :
  parsekospec (chr "a/foo.ko,,OPT") = Some (KoSpec (chr "a/foo.ko") (chr "foo") (chr "OPT")).
Proof.
  rewrite (parsekospec_is_split (chr "a/foo.ko,,OPT")); [by vm_compute|].
  apply (bool_decide_unpack _). by vm_compute.
Defined.

(** A specification written out with all its fields is parsed back to
    them. *)
Theorem kospec_roundtrip k : printable k → parsekospec (print_kospec k) = Some k.
Proof. apply parse_print. Qed.

Lemma kospec_roundtrip_witness :
  parsekospec (chr "m.ko,mod,SHARED") = Some (KoSpec (chr "m.ko") (chr "mod") (chr "SHARED")).
Proof.
  apply (kospec_roundtrip (KoSpec (chr "m.ko") (chr "mod") (chr "SHARED"))).
  split; simpl; [|split_and!; apply (bool_decide_unpack _); by vm_compute|done].
  split_and!; apply (bool_decide_unpack _); by vm_compute.
Defined.

(** The module name of [dir/base.ko] is [base]. *)
Theorem module_name_of_ko d b :
  b ≠ [] → SLASH ∉ b → no_nul b → modnmfromfnm (d ++ SLASH :: b ++ chr ".ko") = b.
Proof. apply modnm_ko. Qed.

Lemma module_name_of_ko_witness : modnmfromfnm (chr "/lib/modules/dummy.ko") = chr "dummy".
Proof.
  apply (module_name_of_ko (chr "/lib/modules") (chr "dummy"));
    [done|apply (bool_decide_unpack _); by vm_compute..].
Defined.

(** ** Binary objects *)
Section bos.
Context `{UL : UtHashLaws} (sy : sys).

(** C16: [addbo] never leaks a descriptor. A specification that is refused because of a
    parse error, a file that is not there or a library that cannot be opened
    leaves the whole state as it was. One that is refused because its object is in the table
    already leaves table, descriptors and all else as they were, but the library it
    names has been created or emptied by then. One that is accepted
    adds one object, for the file found first in the search order, with two
    open descriptors of its own, and empties its library. The search order has at
    least one directory (start-up enters the working directory). *)
Theorem addbo_all_or_nothing base ds spec g :
  bos_ok base g → dirs_ok ds g → ds ≠ [] →
  wp (addbo sy spec)
     (λ rc g', (rc = (-1)%Z ∧ ((∀ so, ¬ duplicate sy ds spec g so) ∧ g' = g ∨
                               ∃ so, duplicate sy ds spec g so ∧ g' = add_emptied [so] g)) ∨
               (rc = 0%Z ∧ bos_ok base g' ∧ one_more sy ds spec g g')) g.
Proof.
  intros Hok Hd Hne. eapply wp_mono; [by eapply addbo_spec|].
  intros rc g' [?|(? & ? & ? & ? & ?)]; [by left|right; by split_and!].
Qed.

(** C19: start-up followed by the exit handler closes every descriptor start-up
    opened, whatever the options were and wherever start-up stopped. *)
Theorem startup_cleanup base fsname opts args cwd :
  sys_cwd sy = Some cwd → sys_isdir sy cwd = true →
  wp (rc ← GBLSInit sy fsname opts args; _ ← cleanup; mret rc)
     (λ rc g', (rc = 0%Z ∨ rc = (-1)%Z) ∧ g_fds g' = base ∧ ht_cnt (g_bos g') = 0) (gbls0 base).
Proof.
  intros Hc Hd. wp_step. eapply wp_mono; [by eapply GBLSInit_spec|].
  intros rc g (Hrc & Hok & Hst & _). wp_step. eapply wp_mono; [by eapply cleanup_spec|].
  intros _ g' (? & ? & _ & _). by apply wp_ret.
Qed.

(** An option letter that is not in the option string ends start-up with
    -1 and no binary object; [-o], which the usage message documents, is such
    a letter. *)
Theorem unknown_option_rejected base fsname opts args cwd c a :
  sys_cwd sy = Some cwd → sys_isdir sy cwd = true →
  (c, a) ∈ opts → opt_known c = false →
  wp (GBLSInit sy fsname opts args) (λ rc g', rc = (-1)%Z ∧ g_bos g' = ht_empty) (gbls0 base).
Proof.
  intros Hc Hd Hin Hk. eapply wp_mono; [by eapply (GBLSInit_spec sy base)|].
  intros rc g' (_ & _ & _ & Hf). apply Hf. apply not_true_iff_false. intros Hall.
  rewrite forallb_forall in Hall. specialize (Hall (c, a)). simpl in Hall.
  rewrite Hall in Hk; [done|by apply list_elem_of_In].
Qed.
End bos.

(** ** Generated libraries *)

(** the generator writes outside the name table exactly when the room it was
    given is less than the names with their terminators take. *)
Theorem names_fit_exactly layout entries nmstrlen :
  Forall (no_nul ∘ se_name) entries →
  (elf_generate_elf layout entries nmstrlen = None ↔
   nmstrlen < sum_list (S ∘ length ∘ se_name <$> entries)).
Proof.
  intros Hn. rewrite generate_spec by done.
  assert (table_size (se_name <$> entries) = sum_list (S ∘ length ∘ se_name <$> entries)) as ->.
  { clear Hn. induction entries as [|e es IH]; [done|].
    rewrite !fmap_cons, table_size_cons, IH. simpl. lia. }
  case_decide; split; intros; try done; lia.
Qed.

Definition demo_entries : list SymbolEntry :=
  [SymEntry (chr "printk") 0xffffffff81000000 0 BIND_GLOBAL TYPE_FUNC;
   SymEntry (chr "jiffies") 0xffffffff82000000 8 BIND_WEAK TYPE_DATA].

Lemma demo_entries_no_nul : Forall (no_nul ∘ se_name) demo_entries.
Proof. repeat constructor; apply (bool_decide_unpack _); by vm_compute. Qed.

Lemma names_fit_exactly_witness :
  is_Some (elf_generate_elf (λ _, 0%Z) demo_entries 15) ∧
  elf_generate_elf (λ _, 0%Z) demo_entries 14 = None.
Proof.
  split.
  - apply not_eq_None_Some. intros H%(names_fit_exactly _ demo_entries 15 demo_entries_no_nul).
    vm_compute in H. lia.
  - apply (names_fit_exactly _ demo_entries 14 demo_entries_no_nul). vm_compute. lia.
Defined.

(** C24: reading the symbols of a generated library (names without a zero byte, a name table
    below four gigabytes) yields, for each of its two symbol tables and in order, an
    entry with the name and the address of each entry it was generated from, and
    the room the names of both need. Size, binding and type do not come back: the reader
    makes every symbol a global absolute one of size 0. *)
Theorem generate_read_roundtrip layout entries nmstrlen img :
  Forall (no_nul ∘ se_name) entries → (Z.of_nat (length (names_data entries)) < 2 ^ 32)%Z →
  elf_generate_elf layout entries nmstrlen = Some img →
  let reads e := SymEntry (se_name e) (se_addr e) 0 BIND_GLOBAL TYPE_ABS in
  elf_read_syms (IsElf img) =
  Some (0%Z, (reads <$> entries) ++ (reads <$> entries), 2 * table_size (se_name <$> entries)).
Proof.
  intros Hn Hl. rewrite generate_spec by done. case_decide; [|done]. intros [= <-].
  by apply read_generated.
Qed.

Lemma generate_read_roundtrip_witness :
  let back := [SymEntry (chr "printk") 0xffffffff81000000 0 BIND_GLOBAL TYPE_ABS;
               SymEntry (chr "jiffies") 0xffffffff82000000 0 BIND_GLOBAL TYPE_ABS] in
  ∃ img, elf_generate_elf (λ _, 0%Z) demo_entries 15 = Some img ∧
         elf_read_syms (IsElf img) = Some (0%Z, back ++ back, 30).
Proof.
  destruct (elf_generate_elf (λ _, 0%Z) demo_entries 15) as [img|] eqn:E; [|by vm_compute in E].
  exists img. split; [done|].
  apply (generate_read_roundtrip (λ _, 0%Z) demo_entries 15 img demo_entries_no_nul); [by vm_compute|done].
Defined.

(** The sections of a generated library are named as intended: the names
    the section headers refer to, read from the section name table. *)
Theorem section_names layout entries nmstrlen img :
  Forall (no_nul ∘ se_name) entries → elf_generate_elf layout entries nmstrlen = Some img →
  (λ s, elf_strptr img (e_shstrndx img) (Z.of_nat (sh_name s))) <$> e_sections img =
  Some ∘ chr <$> [".shstrtab"; ".strtab"; ".dynstr"; ".symtab"; ".dynsym"; ".hash"; ".dynamic"].
Proof.
  intros Hn. rewrite generate_spec by done. case_decide; [|done]. intros [= <-]. reflexivity.
Qed.

Lemma section_names_witness :
  ∃ img, elf_generate_elf (λ _, 0%Z) demo_entries 15 = Some img ∧
    (λ s, elf_strptr img (e_shstrndx img) (Z.of_nat (sh_name s))) <$> e_sections img =
    Some ∘ chr <$> [".shstrtab"; ".strtab"; ".dynstr"; ".symtab"; ".dynsym"; ".hash"; ".dynamic"].
Proof.
  destruct (elf_generate_elf (λ _, 0%Z) demo_entries 15) as [img|] eqn:E; [|by vm_compute in E].
  exists img. split; [done|]. exact (section_names (λ _, 0%Z) demo_entries 15 img demo_entries_no_nul E).
Defined.

(** Lookup by the System V hash table of an ELF object: [words] is the table,
    [h] the hash of the name, [hit] whether a symbol index is the one sought. *)
Fixpoint chain_walk (fuel : nat) (words : list Z) (nbucket : nat) (y : nat) (hit : nat → bool) : option nat :=
  match fuel, y with
  | 0, _ | _, 0 => None
  | S fuel, _ =>
    if hit y then Some y
    else chain_walk fuel words nbucket (Z.to_nat (default 0%Z (words !! (2 + nbucket + y)))) hit
  end.
Definition sysv_lookup (words : list Z) (h : nat) (hit : nat → bool) : option nat :=
  match words with
  | nbucket :: nchain :: _ =>
    let nb := Z.to_nat nbucket in
    chain_walk (Z.to_nat nchain) words nb (Z.to_nat (default 0%Z (words !! (2 + h `mod` nb)))) hit
  | _ => None
  end.

(** The hash table of a generated library finds no symbol: its only bucket
    holds the undefined index, so the chain that follows is never entered; and
    the section is one word shorter than its header announces. *)
Theorem hash_table_finds_nothing count h hit :
  sysv_lookup (gen_hash count) h hit = None ∧
  ∃ nbucket nchain, take 2 (gen_hash count) = [nbucket; nchain] ∧
    Z.of_nat (length (gen_hash count)) = (2 + nbucket + nchain - 1)%Z.
Proof.
  split.
  - unfold sysv_lookup, gen_hash. cbn [app]. change (Z.to_nat 1) with 1. cbv zeta.
    rewrite Nat.mod_1_r. by destruct (Z.to_nat (Z.of_nat (count + 1))).
  - eexists _, _. split; [reflexivity|]. unfold gen_hash.
    rewrite length_app, length_fmap, length_seq. cbn [length]. lia.
Qed.

(** C25: the room [elf_read_syms] counts is exactly the room the generator needs
    for the names it read, for every file; so [prcBO], which hands it on, never
    overflows the name table. *)
Theorem read_room_suffices k rc es n layout :
  elf_read_syms k = Some (rc, es, n) →
  n = table_size (se_name <$> es) ∧ is_Some (elf_generate_elf layout es n).
Proof.
  intros Hr. destruct (read_syms_room _ _ _ _ Hr) as [Hn ->]. split; [done|]. by apply generate_fits.
Qed.

Lemma read_room_suffices_witness :
  30 = table_size (se_name <$> (reread <$> demo_entries) ++ (reread <$> demo_entries)) ∧
  is_Some (elf_generate_elf (λ _, 0%Z) ((reread <$> demo_entries) ++ (reread <$> demo_entries)) 30).
Proof.
  apply (read_room_suffices (IsElf (gen_image (λ _, 0%Z) demo_entries)) 0). by vm_compute.
Defined.

(** Absolute symbols are generated as objects, like data: only functions
    are told apart. (The notes on the generator say such symbols get
    STT_NOTYPE.) *)
Theorem symbol_info off e :
  st_info (gen_sym off e) =
  (16 * (if decide (se_bind e = BIND_WEAK) then STB_WEAK else STB_GLOBAL) +
   (if decide (se_type e = TYPE_FUNC) then STT_FUNC else STT_OBJECT))%Z ∧
  st_shndx (gen_sym off e) = SHN_ABS ∧ st_value (gen_sym off e) = se_addr e.
Proof. destruct e as [n a s [] []]; repeat split. Qed.

(** ** Kallsyms *)

(** a line as the kernel prints it is scanned back to the symbol it was
    printed from: address, type letter, and the positions of the name and of
    the bracketed module. *)
Theorem kallsyms_line_roundtrip k a0 t0 :
  ksym_ok k →
  let sc := sscanf_line (print_sym k) a0 t0 in
  sc_n sc = 2 ∧ sc_addr sc = ky_addr k ∧ sc_type sc = ky_type k ∧
  take (sc_sym_end sc - sc_sym_start sc) (drop (sc_sym_start sc) (print_sym k)) = ky_name k ∧
  match ky_module k with
  | Some m => take (sc_mod_end sc - sc_mod_start sc) (drop (sc_mod_start sc) (print_sym k))
              = ["["%char] ++ m ++ ["]"%char]
  | None => sc_mod_end sc = 0
  end.
Proof.
  intros Hk. rewrite scan_printed by done. cbn [sc_n sc_addr sc_type sc_sym_start sc_sym_end sc_mod_start sc_mod_end].
  split_and!; try done.
  - rewrite print_split. replace (19 + length (ky_name k) - 19) with (length (ky_name k)) by lia.
    rewrite <- (length_front k) at 1. rewrite drop_app_length. by rewrite take_app_length.
  - destruct (ky_module k) as [m|] eqn:Em; [|done]. rewrite print_split, Em. unfold line_tail.
    replace (line_front k ++ ky_name k ++ (["009"; "["]%char ++ m ++ ["]"%char]) ++ ["010"%char])
      with ((line_front k ++ ky_name k ++ ["009"%char]) ++ (["["%char] ++ m ++ ["]"%char]) ++ ["010"%char])
      by (rewrite <- !(assoc_L (++)); done).
    replace (S (19 + length (ky_name k))) with (length (line_front k ++ ky_name k ++ ["009"%char]))
      by (rewrite !length_app, length_front; simpl; lia).
    rewrite drop_app_length.
    match goal with |- take ?n _ = _ => replace n with (length (["["%char] ++ m ++ ["]"%char])) end.
    + by rewrite take_app_length.
    + rewrite !length_app. simpl. lia.
Qed.

Definition demo_ksym : ksym := KSym 0xffffffff81000000 "T"%char (chr "tun_init") (Some (chr "tun")).
Definition demo_ksym2 : ksym := KSym 0xffffffff81000100 "D"%char (chr "jiffies") None.

Ltac prove_ksym_ok :=
  split; simpl; [lia|by eexists|split; [done|apply (bool_decide_unpack _); by vm_compute]|];
  intros ? [= <-] || intros ? [=]; split; [done|apply (bool_decide_unpack _); by vm_compute].

Lemma demo_ksym_ok : ksym_ok demo_ksym.
Proof. prove_ksym_ok. Qed.
Lemma demo_ksym2_ok : ksym_ok demo_ksym2.
Proof.
  split; simpl; [lia|by eexists|split; [done|apply (bool_decide_unpack _); by vm_compute]|done].
Qed.

Lemma kallsyms_line_roundtrip_witness :
  let sc := sscanf_line (chr "ffffffff81000000 T tun_init	[tun]" ++ ["010"%char]) 0 NUL in
  sc_addr sc = 0xffffffff81000000%Z.
Proof.
  destruct (kallsyms_line_roundtrip demo_ksym 0 NUL demo_ksym_ok) as (_ & Ha & _). exact Ha.
Defined.

Section kallsyms.
Context `{UL : UtHashLaws}.

(** C13: from the lines the kernel prints, the tool writes one library with the
    kernel's own symbols (when there are any) and one for each module that
    occurs, each with exactly the symbols of that module, in file order, and
    with the room their names need; then it ends with status 1. *)
Theorem kallsyms_libraries mkdir_ok prefix ks :
  (∀ p, prefix = Some p → p ≠ [] ∧ ∀ q, mkdir_ok q = true) → Forall ksym_ok ks →
  ∃ s ms, prcKallsyms mkdir_ok prefix (print_sym <$> ks) kasym0 = Exited 1 s ∧
    NoDup ms ∧ (∀ m, m ∈ ms ↔ of_mod (Some m) ks ≠ []) ∧
    ka_written s =
      (if decide (of_mod None ks = []) then [] else [lib_of prefix (chr "kern") (of_mod None ks)]) ++
      ((λ m, lib_of prefix m (of_mod (Some m) ks)) <$> ms).
Proof. apply prcKallsyms_spec. Qed.
End kallsyms.

(** [mkpath] asks for every directory on the way, outermost first, and then
    for the path itself; it stops and fails at the first that cannot be had. *)
Theorem mkpath_order f c rest :
  let all := mkpath_prefixes [c] rest in
  last all = Some (c :: rest) ∧
  ∃ rc made, mkpath f (c :: rest) = Some (rc, made) ∧
    ((rc = 0%Z ∧ made = all ∧ Forall (λ p, f p = true) all) ∨
     (rc = (-1)%Z ∧ ∃ ok bad more, all = ok ++ bad :: more ∧ made = ok ++ [bad] ∧
        Forall (λ p, f p = true) ok ∧ f bad = false)).
Proof.
  cbv zeta. split.
  - change (c :: rest) with ([c] ++ rest). generalize [c] as seen. induction rest as [|x rest IH]; intros seen; simpl.
    + by rewrite app_nil_r.
    + assert (∀ p, mkpath_prefixes (seen ++ [x]) rest ≠ [] →
               last (p :: mkpath_prefixes (seen ++ [x]) rest) = last (mkpath_prefixes (seen ++ [x]) rest)) as Hl.
      { intros p Hne. by destruct (mkpath_prefixes _ _). }
      pose proof (IH (seen ++ [x])) as E. rewrite <- (assoc_L (++)) in E. simpl in E.
      case_decide; [|done]. rewrite Hl; [done|]. intros Hx. by rewrite Hx in E.
  - unfold mkpath. generalize (mkpath_prefixes [c] rest) as all. induction all as [|p all IH]; simpl.
    + eexists _, _. split; [done|]. left. by repeat constructor.
    + destruct (f p) eqn:Hp.
      * destruct IH as (rc & made & [= E] & Hcase). rewrite E. eexists _, _. split; [done|].
        destruct Hcase as [(-> & -> & Hall)|(-> & ok & bad & more & -> & -> & Hok & Hbad)].
        -- left. by repeat constructor.
        -- right. split; [done|]. exists (p :: ok), bad, more. by repeat constructor.
      * eexists _, _. split; [done|]. right. split; [done|]. exists [], p, all. by repeat constructor.
Qed.

(** ** The whole program *)
Section program.
Context `{UL : UtHashLaws} `{FL : FuseLib} (sy : msys).

(** C12: on a system where the working directory can be entered, files in memory can be
    made, the objects and [/proc/kallsyms] are as the linker and the kernel write them
    and the kernel object table can be opened, the program ends by itself, whatever its
    options are. Status is failure when its exit handler was not registered. Once it is:
    when kallsyms is processed the status is failure, otherwise (with [-N], or without a
    directory for the libraries) success; and all descriptors it opened (of objects and libraries, of
    the files in memory, of the kernel object table and of kallsyms) are closed, but
    the one of kallsyms is left open when the directory cannot be made. *)
Theorem program_ends ks base fsname opts args :
  msys_ok sy ks →
  ∃ c w', program sy fsname opts args (mainw0 base) = Done c w' ∧
    (mw_atexit w' = false → c = EXIT_FAILURE) ∧
    (mw_atexit w' = true →
       let asked := g_prockallsyms (mw_g w') in
       let made := ms_mkdir sy PATHPREFIX_DFLT in
       c = (if asked && made then EXIT_FAILURE else EXIT_SUCCESS) ∧
       if asked && negb made then ∃ fd, fd ∉ base ∧ g_fds (mw_g w') = {[fd]} ∪ base else g_fds (mw_g w') = base).
Proof. apply program_spec. Qed.

(** The kernel object table gets one line per binary object, in the order
    they were added: the path of the object and its options. *)
Theorem kotbl_lines items w :
  ms_memfd sy = true → elf_sane sy →
  (∀ k b, (k, b) ∈ items → bo_kofnm b = Some k ∧ is_Some (bo_sofnm b) ∧ (0 <= bo_sofd b)%Z) →
  wp (prc_bos sy items)
     (λ _ w', mw_g w' = mw_g w ∧
        mw_kotbl w' = mw_kotbl w ++
          ((λ kb, kb.1 ++ [COMMA] ++ bo_kldopts kb.2 ++ ["010"%char]) <$> items)) w.
Proof.
  intros Hm Hs Hit. eapply wp_mono; [by apply prc_bos_spec|]. intros _ w' (? & _ & Hk).
  split; [done|]. rewrite Hk. f_equal. rewrite <- list_fmap_compose. apply list_fmap_ext.
  intros i [k b] Hi. apply list_elem_of_lookup_2, Hit in Hi as [Hk' _]. simpl. unfold kotbl_line. by rewrite Hk'.
Qed.

(** C30: the branch of [main] that serves the file system (no option reaches it), from the
    state [GBLSInit] would leave for it, to the exit handler; the events can be registered, the requests are for
    inodes that exist. Serving succeeds when an exit signal ends the
    loop; it fails when the mount or the event descriptor is refused, or at an error of
    the wait; otherwise it keeps waiting. Whenever it ends, the exit handler takes the
    file system down completely and closes the signal descriptor and every descriptor
    of a binary object. The descriptor of the event loop stays open whenever the loop was
    reached. (The descriptor libfuse has for the mount is not counted.) *)
Theorem fs_service base g :
  let sfd := sp_sfd (g_sigproc g) in
  let epollfd := lowest_fd (g_fds g) in
  ready g → side_ok sy → (0 <= sfd)%Z → sfd ∉ base → bos_ok ({[sfd]} ∪ base) g →
  match service_status sy with
  | None => serve_fs sy g = NoFuel
  | Some c => ∃ g' g'', serve_fs sy g = (if (c =? EXIT_SUCCESS)%Z then Done tt g' else Exited c g') ∧
      cleanup g' = Done tt g'' ∧ cleaned (g_fs g'') ∧ sp_sfd (g_sigproc g'') = (-1)%Z ∧
      g_fds g'' = if env_mount (ms_fsenv sy) && ms_epoll sy then {[epollfd]} ∪ base else base
  end.
Proof.
  intros sfd epollfd Hg Hs Hnn Hnb Hok. pose proof (serve_fs_spec sy g Hg Hs) as Hserve. destruct (service_status sy) as [c|]; [|done].
  destruct Hserve as (g' & Hserved & Hrun).
  pose proof (served_cleanup sy base g g' Hok Hnb Hnn Hserved) as ([] & g'' & Hc & Hf & Hcl & Hsfd)%wp_done. by exists g', g''.
Qed.
End program.

(** ** A concrete system *)
Definition demo_sys : sys :=
  Sys (λ p, bool_decide (p = chr "/w/m.ko")) (λ _, true) (λ p, Some p) (λ _, true) (Some (chr "/w")) 1 0 true.
Definition demo_msys : msys :=
  MSys demo_sys (λ _, IsElf (gen_image (λ _, 0%Z) demo_entries)) (λ _, Some 1) true (λ _, 0%Z) true
       (Some (print_sym <$> [demo_ksym; demo_ksym2])) (λ _, true)
       "kld" (FsEnv true true true 5 0) true (λ _ _ _, true) [].

(** Directory entries without contents. *)
#[local] Instance empty_fuselib : FuseLib := {| de_size _ := 0; de_bytes _ _ _ := []; de_length _ _ _ := eq_refl |}.

Lemma demo_msys_ok : msys_ok demo_msys [demo_ksym; demo_ksym2].
Proof.
  split; try done.
  - by exists (chr "/w").
  - intros p. eexists. vm_compute. reflexivity.
  - constructor; [apply demo_ksym_ok|]. constructor; [apply demo_ksym2_ok|constructor].
Qed.

Lemma program_ends_witness :
  ∃ c w', program demo_msys "libk" [("k"%char, chr "m.ko")] [] (mainw0 {[0; 1; 2]}%Z) = Done c w' ∧
    mw_atexit w' = true ∧ g_fds (mw_g w') = {[0; 1; 2]}%Z ∧ c = 1%Z.
Proof.
  destruct (program_ends demo_msys [demo_ksym; demo_ksym2] {[0; 1; 2]}%Z "libk" [("k"%char, chr "m.ko")] []
              demo_msys_ok) as (c & w' & Hrun & _ & Ht).
  assert (option_map mw_atexit (match program demo_msys "libk" [("k"%char, chr "m.ko")] [] (mainw0 {[0; 1; 2]}%Z)
          with Done _ w => Some w | _ => None end) = Some true ∧
          option_map (λ w, g_prockallsyms (mw_g w)) (match program demo_msys "libk" [("k"%char, chr "m.ko")] []
          (mainw0 {[0; 1; 2]}%Z) with Done _ w => Some w | _ => None end) = Some true) as [Ha Hp].
  { split; vm_compute; reflexivity. }
  rewrite Hrun in Ha, Hp. injection Ha as Ha. injection Hp as Hp.
  exists c, w'. destruct (Ht Ha) as [Hc Hf]. rewrite Hp in Hc, Hf.
  split; [exact Hrun|]. split; [exact Ha|]. split; [exact Hf|exact Hc].
Defined.

(** The state once the working directory has been entered. *)
Definition demo_gbls : gbls := set_dirs (Some (chr "/w") :: replicate 255 None) 1 (gbls0 {[0; 1; 2]}%Z).

Lemma demo_gbls_ok : bos_ok {[0; 1; 2]}%Z demo_gbls ∧ dirs_ok [chr "/w"] demo_gbls.
Proof. split; [by eapply bos_ok_same; [|apply bos_ok_init]|]. split; [done|done|vm_compute; lia]. Qed.

(** Accepted; not there; and the same object a second time. *)
Lemma addbo_all_or_nothing_witness :
  wp (addbo demo_sys (chr "m.ko,mod")) (λ rc g', rc = 0%Z ∧ length (ht_items (g_bos g')) = 1 ∧
    g_emptied g' = [chr "/w/libmod.so"] ∧
    wp (addbo demo_sys (chr "m.ko,other")) (λ rc g'', rc = (-1)%Z ∧ g'' = add_emptied [chr "/w/libother.so"] g') g') demo_gbls ∧
  wp (addbo demo_sys (chr "missing.ko")) (λ rc g', rc = (-1)%Z ∧ g' = demo_gbls) demo_gbls.
Proof.
  destruct demo_gbls_ok as [Hok Hd]. split.
  - pose proof (addbo_all_or_nothing demo_sys _ _ (chr "m.ko,mod") _ Hok Hd ltac:(done)) as Hw.
    destruct (proj1 (wp_done _ _ _) Hw) as (rc & g' & Hrun & Hc).
    apply (proj2 (wp_done _ _ _)). exists rc, g'. split; [exact Hrun|].
    assert (match addbo demo_sys (chr "m.ko,mod") demo_gbls with Done rc _ => Some rc | _ => None end = Some 0%Z)
      as Hz by (vm_compute; reflexivity).
    rewrite Hrun in Hz. injection Hz as ->.
    destruct Hc as [[? _]|(_ & _ & k & p & path & b & Hk & Hf & Hp & _ & Hit & _ & _ & _ & Hem)]; [done|].
    injection Hk as <-. injection Hf as <-. injection Hp as <-.
    split; [done|]. split; [by rewrite Hit|]. split; [by rewrite Hem|].
    vm_compute in Hrun. injection Hrun as <-. vm_compute. split; reflexivity.
  - pose proof (addbo_all_or_nothing demo_sys _ _ (chr "missing.ko") _ Hok Hd ltac:(done)) as Hw.
    destruct (proj1 (wp_done _ _ _) Hw) as (rc & g' & Hrun & Hc).
    apply (proj2 (wp_done _ _ _)). exists rc, g'. split; [exact Hrun|].
    assert (match addbo demo_sys (chr "missing.ko") demo_gbls with Done rc _ => Some rc | _ => None end = Some (-1)%Z)
      as Hz by (vm_compute; reflexivity).
    rewrite Hrun in Hz. injection Hz as ->. destruct Hc as [[_ [[_ ?]|(so & (k & p & path & Hk & Hf & _) & _)]]|[? _]]; [done| |done].
    injection Hk as <-. vm_compute in Hf. discriminate Hf.
Defined.

Lemma startup_cleanup_witness :
  wp (rc ← GBLSInit demo_sys "libk" [("k"%char, chr "m.ko"); ("k"%char, chr "missing.ko")] []; _ ← cleanup; mret rc)
     (λ rc g', (rc = 0%Z ∨ rc = (-1)%Z) ∧ g_fds g' = {[0; 1; 2]}%Z ∧ ht_cnt (g_bos g') = 0) (gbls0 {[0; 1; 2]}%Z).
Proof.
  exact (startup_cleanup demo_sys {[0; 1; 2]}%Z "libk" _ [] (chr "/w") eq_refl eq_refl).
Defined.

Lemma unknown_option_rejected_witness :
  wp (GBLSInit demo_sys "libk" [("o"%char, chr "kotbl.bin")] [])
     (λ rc g', rc = (-1)%Z ∧ g_bos g' = ht_empty) (gbls0 {[0; 1; 2]}%Z).
Proof.
  apply (unknown_option_rejected demo_sys {[0; 1; 2]}%Z "libk" _ [] (chr "/w") "o"%char (chr "kotbl.bin"));
    [done|done|by left|by vm_compute].
Defined.

Lemma kallsyms_libraries_witness :
  ∃ s ms, prcKallsyms (λ _, true) (Some (chr "libk")) (print_sym <$> [demo_ksym; demo_ksym2]) kasym0 = Exited 1 s ∧
    ka_written s = lib_of (Some (chr "libk")) (chr "kern") [demo_ksym2] ::
                   ((λ m, lib_of (Some (chr "libk")) m (of_mod (Some m) [demo_ksym; demo_ksym2])) <$> ms).
Proof.
  destruct (kallsyms_libraries (λ _, true) (Some (chr "libk")) [demo_ksym; demo_ksym2]) as (s & ms & H1 & _ & _ & H2).
  - by intros p [= <-].
  - constructor; [apply demo_ksym_ok|]. constructor; [apply demo_ksym2_ok|constructor].
  - exists s, ms. split; [exact H1|]. rewrite H2. done.
Defined.

Definition demo_bo : bo := Bo (Some (chr "/w/m.ko")) (Some (chr "/w/libm.so")) (chr "m") (chr "EXCLUSIVE") 3 4.

Lemma kotbl_lines_witness :
  wp (prc_bos demo_msys [(chr "/w/m.ko", demo_bo)])
     (λ _ w', mw_kotbl w' = [chr "/w/m.ko,EXCLUSIVE" ++ ["010"%char]]) (mainw0 {[0; 1; 2; 3; 4]}%Z).
Proof.
  eapply wp_mono.
  - apply (kotbl_lines demo_msys [(chr "/w/m.ko", demo_bo)]); [done|apply demo_msys_ok|].
    intros k b Hin. apply list_elem_of_singleton in Hin. simplify_eq. simpl. split_and!; [done|by eexists|lia].
  - intros [] w' [_ ->]. by vm_compute.
Defined.

(** The same system with a request, an interrupted wait and SIGTERM. *)
Definition serving_msys : msys :=
  MSys demo_sys (λ _, NotElf) (λ _, None) true (λ _, 0%Z) true None (λ _, true) "kld" (FsEnv true true true 5 0) true (λ _ _ _, true)
    [WReady [EpollEvent (Some (EvntDesc (Some fsEvent_ptr) (Some obj_fs))) EPOLLIN 64 (CGetattr 2) None];
     WFail EINTR;
     WReady [EpollEvent (Some (EvntDesc (Some sigEvent_ptr) (Some obj_sigproc))) EPOLLIN 0 (CGetattr 1) (Some SIGTERM)]].
Definition serving_gbls : gbls :=
  Gbls (FsW fs_blank ∅ 0) (Sigproc (EvntDesc None None) ∅ 0) ht_empty None [] 0 0 0 true false true {[0; 1; 2]}%Z [].

(** Served until SIGTERM; the descriptor of the event loop is left. *)
Lemma fs_service_witness :
  ∃ g g' g'', ready g ∧ serve_fs serving_msys g = Done tt g' ∧ cleanup g' = Done tt g'' ∧
    cleaned (g_fs g'') ∧ g_fds g'' = {[0; 1; 2; 4]}%Z.
Proof.
  pose proof (ready_init serving_msys "libk" "libk" serving_gbls eq_refl eq_refl eq_refl ltac:(done) eq_refl) as Hw.
  destruct (proj1 (wp_done _ _ _) Hw) as ([] & g & _ & Hg & Hsame & Hsfd).
  assert (lowest_fd (g_fds serving_gbls) = 3%Z) as E3 by (vm_compute; reflexivity). rewrite E3 in Hsfd.
  assert (bos_ok {[0; 1; 2]}%Z serving_gbls) as Hok0 by (by eapply bos_ok_same; [|apply bos_ok_init]).
  pose proof (bos_ok_more _ _ Hok0) as Hok1. rewrite E3 in Hok1.
  assert (bos_ok ({[3]} ∪ {[0; 1; 2]})%Z g) as Hok by (eapply bos_ok_same; [exact Hsame|exact Hok1]).
  pose proof (fs_service serving_msys {[0; 1; 2]}%Z g Hg ltac:(split; [split_and!; done|done|by vm_compute])) as H.
  rewrite Hsfd in H. specialize (H ltac:(lia) ltac:(apply (bool_decide_unpack _); vm_compute; exact I) Hok).
  assert (service_status serving_msys = Some EXIT_SUCCESS) as E by (vm_compute; reflexivity).
  rewrite E in H. destruct H as (g' & g'' & H1 & H2 & H3 & _ & H4).
  exists g, g', g''. split; [exact Hg|]. split; [exact H1|]. split; [exact H2|]. split; [exact H3|].
  rewrite H4, (proj2 Hsame). apply (bool_decide_unpack _). vm_compute. exact I.
Defined.
