(* ===== verification/ElfTest.v ===== *)
(** * The generator's own test program ([main] of [kld/elf.c])

    Built with [MAIN] defined, [elf.c] is a program that generates one library from a
    fixed list of symbols and writes it to [libstubs.so]. *)
From S2P Require Import Prelude KoSpec KldElf KldElfSpec.

(** Which calls succeed: [memfd_create] and [elf_begin], [mmap], [open]; and the file
    offsets libelf assigns. *)
Record etsys := EtSys { et_memfd : bool; et_mmap : bool; et_open : bool; et_layout : nat → Z }.

(** Open descriptors, mappings, and what is in [libstubs.so]. *)
Record etw := EtW { et_fds : gset Z; et_maps : nat; et_file : option elf_image }.

Definition self_entries : list SymbolEntry :=
  [SymEntry (chr "global_func") 0x7FFF00001000 0 BIND_GLOBAL TYPE_FUNC;
   SymEntry (chr "weak_func") 0x7FFF00002000 0 BIND_WEAK TYPE_FUNC;
   SymEntry (chr "global_data") 0x7FFF00003000 8 BIND_GLOBAL TYPE_DATA;
   SymEntry (chr "global_rodata") 0x7FFF00004000 4 BIND_GLOBAL TYPE_RODATA;
   SymEntry (chr "global_bss") 0x7FFF00005000 256 BIND_GLOBAL TYPE_BSS;
   SymEntry (chr "weak_data") 0x7FFF00006000 4 BIND_WEAK TYPE_DATA;
   SymEntry (chr "absolute_val") 0xDEADBEEF 0 BIND_GLOBAL TYPE_ABS].

(** The loop over the names: [nmstrlen += strlen(name) + 1]. *)
Fixpoint names_room (entries : list SymbolEntry) (nmstrlen : nat) : nat :=
  match entries with
  | [] => nmstrlen
  | e :: entries => names_room entries (nmstrlen + (length (upto_nul (se_name e)) + 1))
  end.

Section program.
Context (sy : etsys).

Definition set_etfds (f : gset Z → gset Z) (w : etw) : etw := EtW (f (et_fds w)) (et_maps w) (et_file w).
Definition et_newfd : M etw Z :=
w ← getM; let fd := lowest_fd (et_fds w) in _ ← modifyM (set_etfds (union {[fd]})); mret fd.
Definition et_close (fd : Z) : M etw unit := modifyM (set_etfds (λ s, s ∖ {[fd]})).

(** A null pointer, [MAP_FAILED], or a mapping of the library. *)
Inductive elf_map := MapNull | MapFailed | Mapped (img : elf_image).

(** The descriptor is set only when the generator reaches the mapping. *)
Definition elf_generate_elf_mmap (entries : list SymbolEntry) (nmstrlen : nat) : M etw (elf_map * option Z) :=
if et_memfd sy then
  mfd ← et_newfd;
  img ← derefM (elf_generate_elf (et_layout sy) entries nmstrlen);
  if et_mmap sy then
    _ ← modifyM (λ w, EtW (et_fds w) (S (et_maps w)) (et_file w)); mret (Mapped img, Some mfd)
  else mret (MapFailed, Some mfd)
else mret (MapNull, None).

Definition self_main : M etw Z :=
let nmstrlen := names_room self_entries 0 in
r ← elf_generate_elf_mmap self_entries nmstrlen;
match r.1 with
| MapFailed => mret 0%Z
| MapNull => faultM (* the size that is printed and written was never set *)
| Mapped img =>
    dfd ← (if et_open sy then et_newfd else mret (-1)%Z);
    _ ← (if (0 <=? dfd)%Z then modifyM (λ w, EtW (et_fds w) (et_maps w) (Some img)) else mret tt);
    _ ← et_close dfd;
    _ ← modifyM (λ w, EtW (et_fds w) (pred (et_maps w)) (et_file w));
    mfd ← derefM r.2;
    _ ← et_close mfd;
    mret 0%Z
end.

(** The room is what the names need. *)
Lemma names_room_spec entries n :
Forall (no_nul ∘ se_name) entries → names_room entries n = n + table_size (se_name <$> entries).
Proof.
revert n. induction entries as [|e l IH]; intros n; [intros _; unfold table_size; cbn; lia|].
intros [He Hl]%Forall_cons. cbn [names_room]. rewrite IH by done. rewrite fmap_cons. unfold table_size.
rewrite table_cons, length_app. cbn [length]. rewrite upto_nul_id by done. lia.
Qed.

Lemma self_entries_no_nul : Forall (no_nul ∘ se_name) self_entries.
Proof. repeat constructor; apply (bool_decide_unpack _); by vm_compute. Qed.

Lemma close_dfd_mfd (fds : gset Z) m d :
m ∉ fds → d ∉ ({[m]} ∪ fds : gset Z) → (({[d]} ∪ ({[m]} ∪ fds)) ∖ {[d]}) ∖ {[m]} = fds.
Proof. intros Hm Hd. apply set_eq. intros x. set_solver. Qed.

(** The test ends with its descriptors closed and nothing mapped, and what it wrote is a
  library in which the reader finds its seven symbols, in both symbol tables. *)
Theorem self_test_run w :
et_memfd sy = true → et_mmap sy = true → et_open sy = true →
∃ img, self_main w = Done 0%Z (EtW (et_fds w) (et_maps w) (Some img)) ∧
  elf_read_syms (IsElf img) = Some (0%Z, (reread <$> self_entries) ++ (reread <$> self_entries), 164).
Proof.
intros H1 H2 H3. pose proof (generate_spec (et_layout sy) self_entries (names_room self_entries 0) self_entries_no_nul) as Hg.
rewrite decide_True in Hg by (rewrite names_room_spec by apply self_entries_no_nul; lia).
exists (gen_image (et_layout sy) self_entries). split.
- set (m := lowest_fd (et_fds w)). set (d := lowest_fd ({[m]} ∪ et_fds w)).
  destruct (lowest_fd_spec (et_fds w)) as [Hm _]. destruct (lowest_fd_spec ({[m]} ∪ et_fds w)) as [Hd Hd0].
  fold m in Hm. fold d in Hd, Hd0.
  unfold self_main, elf_generate_elf_mmap, et_newfd, derefM, getM, modifyM. rewrite H1, H2, H3, Hg.
  unfold mbind, M_bind, mret, M_ret. cbn [set_etfds et_fds et_maps et_file fst snd]. fold m. fold d.
  rewrite (proj2 (Z.leb_le _ _) Hd0). unfold et_close, modifyM. cbn [set_etfds et_fds et_maps et_file pred].
  unfold set_etfds. cbn [et_fds et_maps et_file].
  by rewrite close_dfd_mfd.
- apply (read_generated (et_layout sy)); [apply self_entries_no_nul|by vm_compute].
Qed.

(** When no object can be created the null pointer is taken for a mapping. *)
Lemma self_test_null w : et_memfd sy = false → self_main w = Fault.
Proof. intros H. unfold self_main, elf_generate_elf_mmap. by rewrite H. Qed.
End program.
