(* ===== verification/X86.v ===== *)
(** * The x86-64 machine the interposers run on

    Registers, byte addressed memory with wrap-around, and the instructions the
    assembly of the repository uses, as computations of the prelude's monad.
    [mem_load] and [mem_store] access [n] bytes in little endian order. *)
From stdpp Require Export functions.
From S2P Require Import Prelude.

Open Scope Z_scope.

Inductive reg :=
| RAX | RBX | RCX | RDX | RSI | RDI | RBP | RSP
| R8 | R9 | R10 | R11 | R12 | R13 | R14 | R15.

#[export] Instance reg_eq_dec : EqDecision reg.
Proof. solve_decision. Defined.

(** The part of the machine state the code reads or writes. *)
Record cpu := Cpu {
  regs : reg → Z;
  rip : Z;
  cs : Z;
  rflags : Z;
  ss : Z;
  cr3 : Z;
  dr6 : Z;
  dr7 : Z;
  mem : Z → Z;
}.

Definition set_regs (f : (reg → Z) → reg → Z) (c : cpu) : cpu :=
  Cpu (f (regs c)) (rip c) (cs c) (rflags c) (ss c) (cr3 c) (dr6 c) (dr7 c) (mem c).
Definition set_mem (f : (Z → Z) → Z → Z) (c : cpu) : cpu :=
  Cpu (regs c) (rip c) (cs c) (rflags c) (ss c) (cr3 c) (dr6 c) (dr7 c) (f (mem c)).
Definition set_rip (v : Z) (c : cpu) : cpu :=
  Cpu (regs c) v (cs c) (rflags c) (ss c) (cr3 c) (dr6 c) (dr7 c) (mem c).
Definition set_dr7 (v : Z) (c : cpu) : cpu :=
  Cpu (regs c) (rip c) (cs c) (rflags c) (ss c) (cr3 c) (dr6 c) v (mem c).
Definition set_frame (ip c' fl s : Z) (c : cpu) : cpu :=
  Cpu (regs c) ip c' fl s (cr3 c) (dr6 c) (dr7 c) (mem c).

(** ** Memory *)
Fixpoint mem_load (n : nat) (m : Z → Z) (a : Z) : Z :=
  match n with
  | O => 0
  | S n => m (u64 a) mod 256 + 256 * mem_load n m (a + 1)
  end.

Definition mem_store (n : nat) (m : Z → Z) (a v : Z) : Z → Z := λ x,
  if u64 (x - a) <? Z.of_nat n then (v / 256 ^ u64 (x - a)) mod 256 else m x.

Lemma u64_range x : 0 <= u64 x < 2 ^ 64.
Proof. apply Z.mod_pos_bound. lia. Qed.

Lemma u64_id x : 0 <= x < 2 ^ 64 → u64 x = x.
Proof. apply Z.mod_small. Qed.

Lemma u64_u64 x : u64 (u64 x) = u64 x.
Proof. apply u64_id, u64_range. Qed.

Lemma u64_sub_l x y : u64 (u64 x - y) = u64 (x - y).
Proof. unfold u64. by rewrite Zminus_mod_idemp_l. Qed.

Lemma u64_sub_r x y : u64 (x - u64 y) = u64 (x - y).
Proof. unfold u64. by rewrite Zminus_mod_idemp_r. Qed.

Lemma u64_add_l x y : u64 (u64 x + y) = u64 (x + y).
Proof. unfold u64. by rewrite Zplus_mod_idemp_l. Qed.

Lemma u64_shift x k : 0 <= k → u64 x + k < 2 ^ 64 → u64 (x + k) = u64 x + k.
Proof. intros ? ?. rewrite <- u64_add_l. apply u64_id. pose proof (u64_range x). lia. Qed.

Lemma mem_load_range n m a : 0 <= mem_load n m a < 256 ^ Z.of_nat n.
Proof.
  revert a. induction n as [|n IH]; intros a; [done|]. cbn [mem_load].
  rewrite Nat2Z.inj_succ, Z.pow_succ_r by lia.
  pose proof (Z.mod_pos_bound (m (u64 a)) 256). specialize (IH (a + 1)). lia.
Qed.

Lemma mem_load_u64 n m a : mem_load n m (u64 a) = mem_load n m a.
Proof.
  revert a. induction n as [|n IH]; intros a; [done|]. cbn [mem_load].
  rewrite (u64_id (u64 a)) by apply u64_range. do 2 f_equal.
  rewrite <- (IH (u64 a + 1)), <- (IH (a + 1)). by rewrite u64_add_l.
Qed.

Lemma mem_store_u64 n m a v x : mem_store n m (u64 a) v x = mem_store n m a v x.
Proof. unfold mem_store. by rewrite u64_sub_r. Qed.

(** Memory with equal bytes in the range that is read. *)
Lemma mem_load_ext n m m' a :
  (∀ i, 0 <= i < Z.of_nat n → m (u64 (a + i)) = m' (u64 (a + i))) → mem_load n m a = mem_load n m' a.
Proof.
  revert a. induction n as [|n IH]; intros a H; [done|]. cbn [mem_load].
  rewrite (IH (a + 1)).
  - specialize (H 0). rewrite Z.add_0_r in H. rewrite H by lia. done.
  - intros i Hi. replace (a + 1 + i) with (a + (1 + i)) by lia. apply H. lia.
Qed.

(** A store is read back. *)
Lemma mem_load_store_eq n m a v :
  (Z.of_nat n <= 2 ^ 64)%Z → mem_load n (mem_store n m a v) a = v mod 256 ^ Z.of_nat n.
Proof.
  intros Hn.
  assert (∀ j k, (j + k = n)%nat →
    mem_load k (mem_store n m a v) (a + Z.of_nat j)
    = (v / 256 ^ Z.of_nat j) mod 256 ^ Z.of_nat k) as H.
  { intros j k. revert j. induction k as [|k IH]; intros j Hj.
    - cbn [mem_load]. by rewrite Z.mod_1_r.
    - cbn [mem_load]. replace (a + Z.of_nat j + 1) with (a + Z.of_nat (j + 1)) by lia. rewrite IH by lia.
      unfold mem_store at 1. rewrite u64_sub_l.
      replace (a + Z.of_nat j - a) with (Z.of_nat j) by lia.
      rewrite u64_id by lia. rewrite (proj2 (Z.ltb_lt _ _)) by lia.
      rewrite Z.mod_mod by lia.
      rewrite (Nat2Z.inj_succ k), Z.pow_succ_r by lia.
      rewrite Z.rem_mul_r by lia.
      rewrite Nat2Z.inj_add, Z.pow_add_r by lia. change (256 ^ Z.of_nat 1) with 256.
      by rewrite Z.div_div by lia. }
  specialize (H O n eq_refl). rewrite Z.add_0_r, Z.div_1_r in H. exact H.
Qed.

(** A store is not seen outside its range. *)
Lemma mem_store_other n m a v x : Z.of_nat n <= u64 (x - a) → mem_store n m a v x = m x.
Proof. intros H. unfold mem_store. by rewrite (proj2 (Z.ltb_ge _ _)). Qed.

Lemma mem_load_store_ne n k m a b v :
  Z.of_nat k <= u64 (b - a) → u64 (b - a) + Z.of_nat n <= 2 ^ 64 →
  mem_load n (mem_store k m a v) b = mem_load n m b.
Proof.
  intros Hk Hn. apply mem_load_ext. intros i Hi. apply mem_store_other.
  rewrite u64_sub_l. replace (b + i - a) with (b - a + i) by lia. rewrite u64_shift by lia. lia.
Qed.

(** ** Instructions

    Quad words unless the name says otherwise. *)
Definition getr (r : reg) : M cpu Z := getsM (λ c, regs c r).
Definition setr (r : reg) (v : Z) : M cpu unit := modifyM (set_regs (λ f, <[r := u64 v]> f)).
Definition ldn (n : nat) (a : Z) : M cpu Z := getsM (λ c, mem_load n (mem c) (u64 a)).
Definition stn (n : nat) (a v : Z) : M cpu unit := modifyM (set_mem (λ m, mem_store n m (u64 a) v)).
(** [word m a] is the quad word at [a]. *)
Definition word (m : Z → Z) (a : Z) : Z := mem_load 8 m a.
Definition ld (a : Z) : M cpu Z := getsM (λ c, word (mem c) (u64 a)).
Definition st : Z → Z → M cpu unit := stn 8.

(** [push $imm] (the immediate sign extended by the assembler) *)
Definition push_imm (v : Z) : M cpu unit :=
  sp ← getr RSP; _ ← setr RSP (sp - 8); sp ← getr RSP; st sp (u64 v).
(** [pushq %r] *)
Definition push (r : reg) : M cpu unit := v ← getr r; push_imm v.
(** The value [pop] takes from the stack. *)
Definition pop_val : M cpu Z := sp ← getr RSP; v ← ld sp; _ ← setr RSP (sp + 8); mret v.
(** [popq %r] *)
Definition pop (r : reg) : M cpu unit := v ← pop_val; setr r v.
(** [mov $imm,%r], [mov %r,%r'] *)
Definition mov_imm (v : Z) (r : reg) : M cpu unit := setr r v.
Definition mov (r r' : reg) : M cpu unit := v ← getr r; setr r' v.
(** [xor (%a),%r] and [xor %r,(%a)] *)
Definition xor_from (a r : reg) : M cpu unit :=
  p ← getr a; x ← ld p; y ← getr r; setr r (Z.lxor y x).
Definition xor_to (r a : reg) : M cpu unit :=
  p ← getr a; x ← ld p; y ← getr r; st p (Z.lxor x y).
(** [add $imm,%r] *)
Definition add_imm (v : Z) (r : reg) : M cpu unit := x ← getr r; setr r (x + v).
(** [ret] *)
Definition ret : M cpu unit := v ← pop_val; modifyM (set_rip v).
(** [iretq] *)
Definition iretq : M cpu unit :=
  ip ← pop_val; c ← pop_val; fl ← pop_val; s ← pop_val; s' ← pop_val;
  _ ← modifyM (set_frame ip c fl s'); setr RSP s.

Fixpoint seqM {S} (l : list (M S unit)) : M S unit :=
  match l with [] => mret tt | i :: l => _ ← i; seqM l end.

(** ** What sequences of pushes and pops do *)
#[global] Arguments mem_load : simpl never.
#[global] Arguments mem_store : simpl never.
#[global] Arguments word : simpl never.
#[global] Arguments u64 : simpl never.

Lemma word_u64 m a : word m (u64 a) = word m a.
Proof. apply mem_load_u64. Qed.

(** [x86] unfolds instructions and reads registers back. *)
Ltac x86_regs := repeat first
  [ rewrite fn_lookup_insert | rewrite fn_lookup_insert_ne by discriminate
  | rewrite u64_u64 | rewrite word_u64 ].
Ltac x86 :=
  unfold push, push_imm, pop, pop_val, mov, mov_imm, xor_from, xor_to, add_imm, ret, iretq,
    getr, setr, ld, st, ldn, stn, getsM, modifyM, mbind, M_bind; cbn; x86_regs; cbn.

Lemma word_store_eq m a v : word (mem_store 8 m a v) a = u64 v.
Proof. unfold word. by rewrite mem_load_store_eq by lia. Qed.

(** A store at [a] leaves the word [d] bytes further on as it is. *)
Lemma word_store_ne m a v b d :
  u64 (b - a) = u64 d → 8 <= d <= 2 ^ 64 - 8 → word (mem_store 8 m a v) b = word m b.
Proof.
  intros Hd ?. rewrite (u64_id d) in Hd by lia. unfold word. apply mem_load_store_ne; lia.
Qed.

(** The state after pushing [v]. *)
Definition pushed (v : Z) (c : cpu) : cpu :=
  set_mem (λ m, mem_store 8 m (u64 (regs c RSP - 8)) (u64 v))
    (set_regs (λ f, <[RSP := u64 (regs c RSP - 8)]> f) c).

Lemma push_imm_run v c : push_imm v c = Done tt (pushed v c).
Proof.
  unfold push_imm, getr, setr, st, stn, getsM, modifyM, mbind, M_bind. cbn.
  by rewrite fn_lookup_insert, u64_u64.
Qed.

Lemma push_run r c : push r c = Done tt (pushed (regs c r) c).
Proof. unfold push, getr, getsM, mbind, M_bind. apply push_imm_run. Qed.

(** The state after popping into a register. *)
Definition popped (c : cpu) : cpu := set_regs (λ f, <[RSP := u64 (regs c RSP + 8)]> f) c.

Lemma pop_val_run c : pop_val c = Done (word (mem c) (regs c RSP)) (popped c).
Proof. unfold pop_val, ld, getr, getsM, mbind, M_bind. by rewrite word_u64. Qed.

(** The [n] bytes from [lo] up are the same. *)
Definition same_range (lo n : Z) (m m' : Z → Z) : Prop := ∀ x, u64 (x - lo) < n → m' x = m x.

Lemma same_range_trans lo n m1 m2 m3 :
  same_range lo n m1 m2 → same_range lo n m2 m3 → same_range lo n m1 m3.
Proof. intros H1 H2 x Hx. rewrite H2, H1; done. Qed.

Lemma word_mod m a b : u64 a = u64 b → word m a = word m b.
Proof. intros H. by rewrite <- word_u64, H, word_u64. Qed.

Lemma same_range_word lo n m m' a d :
  same_range lo n m m' → u64 (a - lo) = u64 d → 0 <= d → d + 8 <= n → n <= 2 ^ 64 → word m' a = word m a.
Proof.
  intros H Ha Hd Hn ?. rewrite (u64_id d) in Ha by lia. apply mem_load_ext. intros i Hi. apply H.
  rewrite u64_sub_l. replace (a + i - lo) with (a - lo + i) by lia.
  rewrite u64_shift by lia. lia.
Qed.

(** Part of a range. *)
Lemma same_range_sub lo n lo' n' k m m' :
  same_range lo n m m' → u64 (lo' - lo) = u64 k → 0 <= k → k + n' <= n → n <= 2 ^ 64 →
  same_range lo' n' m m'.
Proof.
  intros H Hk ? ? ? x Hx. apply H. pose proof (u64_range (x - lo')).
  rewrite (u64_id k) in Hk by lia.
  replace (u64 (x - lo)) with (u64 (x - lo') + k); [lia|].
  rewrite <- u64_shift by lia. rewrite <- Hk. unfold u64.
  rewrite Zplus_mod_idemp_r. f_equal. lia.
Qed.

(** A store [k] bytes below [lo] is not seen from [lo] up. *)
Lemma same_range_store lo n m a v k s :
  u64 (a - lo) = u64 (- k) → Z.of_nat s <= k → n + k <= 2 ^ 64 → same_range lo n m (mem_store s m a v).
Proof.
  intros Ha Hk Hn x Hx. apply mem_store_other.
  assert (u64 (x - a) = u64 (x - lo) + k) as ->; [|pose proof (u64_range (x - lo)); lia].
  rewrite <- u64_shift by lia. unfold u64 in *.
  replace (x - a) with (x - lo - (a - lo)) by lia.
  rewrite Zminus_mod, Ha, <- Zminus_mod. f_equal. lia.
Qed.

(** Everything but the general registers, the instruction pointer and the memory. *)
Definition ctl (c : cpu) : Z * Z * Z * Z * Z * Z := (cs c, rflags c, ss c, cr3 c, dr6 c, dr7 c).

Definition regs_ok (c : cpu) : Prop := ∀ r, 0 <= regs c r < 2 ^ 64.

Lemma seqM_app {S} (l k : list (M S unit)) s :
  seqM (l ++ k) s = (_ ← seqM l; seqM k) s.
Proof.
  revert s. induction l as [|i l IH]; intros s; [done|].
  unfold mbind, M_bind in *. cbn. unfold mbind, M_bind. destruct (i s); [apply IH|done..].
Qed.

Ltac u64_eq := unfold u64 in *; Z.div_mod_to_equations; lia.

(** Pushing a list of registers: the words lie in reverse order from the new
    stack pointer up. *)
Lemma push_all l c :
  regs_ok c → RSP ∉ l →
  ∃ c', seqM (push <$> l) c = Done tt c' ∧ ctl c' = ctl c ∧ regs_ok c' ∧
    regs c' RSP = u64 (regs c RSP - 8 * Z.of_nat (length l)) ∧
    (∀ r, r ≠ RSP → regs c' r = regs c r) ∧
    (∀ n, n + 8 * Z.of_nat (length l) <= 2 ^ 64 → same_range (regs c RSP) n (mem c) (mem c')) ∧
    (8 * Z.of_nat (length l) <= 2 ^ 64 →
     ∀ i r, reverse l !! i = Some r → word (mem c') (regs c' RSP + 8 * Z.of_nat i) = regs c r).
Proof.
  revert c. induction l as [|r l IH]; intros c Hok Hsp.
  { exists c. cbn. split_and!; try done. rewrite Z.sub_0_r. by rewrite u64_id. }
  apply not_elem_of_cons in Hsp as [Hr Hl].
  set (c1 := pushed (regs c r) c).
  assert (regs_ok c1) as Hok1.
  { intros r'. cbn. destruct (decide (r' = RSP)) as [->|]; [rewrite fn_lookup_insert; apply u64_range|].
    by rewrite fn_lookup_insert_ne. }
  assert (regs c1 RSP = u64 (regs c RSP - 8)) as Hsp1 by (cbn; by rewrite fn_lookup_insert).
  destruct (IH c1 Hok1 Hl) as (c' & Hrun & Hctl & Hok' & Hsp' & Hregs & Hsame & Hwords).
  exists c'. rewrite fmap_cons. cbn [seqM]. unfold mbind, M_bind. rewrite push_run.
  split; [exact Hrun|]. split; [done|]. split; [done|]. cbn [length]. rewrite Nat2Z.inj_succ.
  split; [rewrite Hsp', Hsp1; u64_eq|]. split.
  { intros r' Hr'. rewrite Hregs by done. cbn. by rewrite fn_lookup_insert_ne. }
  split.
  { intros n Hn. eapply same_range_trans.
    - apply (same_range_store _ n (mem c) (u64 (regs c RSP - 8)) (u64 (regs c r)) 8 8); [|lia..].
      rewrite u64_sub_l. f_equal. lia.
    - eapply (same_range_sub _ (n + 8) _ _ 8); [apply Hsame; lia| |lia..].
      rewrite Hsp1, u64_sub_r. f_equal. lia. }
  intros Hlen i r' Hi. rewrite reverse_cons in Hi.
  destruct (decide (i < length l)%nat) as [Hlt|Hge].
  - rewrite lookup_app_l in Hi by (rewrite length_reverse; lia).
    rewrite (Hwords ltac:(lia) i r') by done. cbn. rewrite fn_lookup_insert_ne; [done|].
    intros <-. apply Hl. apply elem_of_reverse. by eapply list_elem_of_lookup_2.
  - rewrite lookup_app_r in Hi by (rewrite length_reverse; lia). rewrite length_reverse in Hi.
    apply list_lookup_singleton_Some in Hi as [Hi <-].
    assert (i = length l) as -> by lia.
    assert (u64 (regs c' RSP + 8 * Z.of_nat (length l) - regs c1 RSP) = u64 0) as Heq
      by (rewrite Hsp'; u64_eq).
    rewrite (same_range_word _ 8 _ _ _ 0 (Hsame 8 ltac:(lia)) Heq) by lia.
    rewrite (word_mod _ _ (u64 (regs c RSP - 8))).
    + change (mem c1) with (mem_store 8 (mem c) (u64 (regs c RSP - 8)) (u64 (regs c r))).
      rewrite word_store_eq. rewrite !u64_id; [done|apply Hok|apply u64_range].
    + rewrite Hsp', Hsp1. u64_eq.
Qed.

(** Popping a list of registers takes the words from the stack pointer up. *)
Lemma pop_all l c :
  regs_ok c → RSP ∉ l → NoDup l →
  ∃ c', seqM (pop <$> l) c = Done tt c' ∧ ctl c' = ctl c ∧ mem c' = mem c ∧ regs_ok c' ∧
    regs c' RSP = u64 (regs c RSP + 8 * Z.of_nat (length l)) ∧
    (∀ r, r ∉ l → r ≠ RSP → regs c' r = regs c r) ∧
    (∀ i r, l !! i = Some r → regs c' r = word (mem c) (regs c RSP + 8 * Z.of_nat i)).
Proof.
  revert c. induction l as [|r l IH]; intros c Hok Hsp Hnd.
  { exists c. cbn. split_and!; try done. rewrite Z.add_0_r. by rewrite u64_id. }
  apply not_elem_of_cons in Hsp as [Hr Hl]. apply NoDup_cons in Hnd as [Hnr Hnd].
  set (v := word (mem c) (regs c RSP)).
  set (c1 := set_regs (λ f, <[r := u64 v]> f) (popped c)).
  assert (0 <= v < 2 ^ 64) as Hv by apply (mem_load_range 8).
  assert (regs_ok c1) as Hok1.
  { intros r'. cbn. destruct (decide (r' = r)) as [->|]; [rewrite fn_lookup_insert; apply u64_range|].
    rewrite fn_lookup_insert_ne by done.
    destruct (decide (r' = RSP)) as [->|]; [rewrite fn_lookup_insert; apply u64_range|].
    by rewrite fn_lookup_insert_ne. }
  assert (regs c1 RSP = u64 (regs c RSP + 8)) as Hsp1
    by (cbn; by rewrite fn_lookup_insert_ne, fn_lookup_insert).
  destruct (IH c1 Hok1 Hl Hnd) as (c' & Hrun & Hctl & Hmem & Hok' & Hsp' & Hregs & Hwords).
  exists c'. split.
  { rewrite fmap_cons. cbn [seqM]. unfold pop, mbind, M_bind. rewrite pop_val_run. exact Hrun. }
  split; [done|]. split; [done|]. split; [done|]. cbn [length]. rewrite Nat2Z.inj_succ. split_and!.
  - rewrite Hsp', Hsp1. u64_eq.
  - intros r' [? ?]%not_elem_of_cons ?. rewrite Hregs by done. cbn.
    by rewrite !fn_lookup_insert_ne.
  - intros [|i] r' Hi; simpl in Hi.
    + injection Hi as <-. rewrite Hregs by done.
      assert (regs c1 r = u64 v) as -> by (cbn; by rewrite fn_lookup_insert).
      rewrite u64_id by done. apply word_mod. f_equal. lia.
    + rewrite (Hwords i r' Hi). change (mem c1) with (mem c). apply word_mod.
      rewrite Hsp1, Nat2Z.inj_succ. u64_eq.
Qed.
