(* ===== verification/Interposer.v ===== *)
(** * The exception interposers ([idtr_interposer/kmod/common.h], [interpos.c])

    Handlers that run in front of the kernel's own exception handlers: they save
    the registers as a [struct pt_regs], call a C function on it, restore the
    registers and go on to the kernel's handler ([INTERPOSER_HANDLER]) or back
    to the interrupted code ([TRAP_HANDLER]). The C functions work on memory
    through the pointer they get. *)
From S2P Require Import Prelude X86.

Open Scope Z_scope.

(** ** The macros of [common.h] *)
Definition PRESENT : Z := 1.
Definition WR_FT : Z := Z.shiftl 1 1.
Definition USER_FT : Z := Z.shiftl 1 2.
Definition INS_FETCH : Z := Z.shiftl 1 4.

(** The kernel's page fault entry, an absolute address in the source. *)
Definition PG_FT_ENTRY : Z := 0xffffffff81001290.

Definition RET_TO_PG_FT : M cpu unit :=
  seqM [push RAX; mov_imm PG_FT_ENTRY RAX; xor_from RSP RAX; xor_to RAX RSP; xor_from RSP RAX; ret].

Definition GET_PT_REG_PTR : M cpu unit := mov RSP RDI.

Definition pushed_regs : list reg :=
  [RDI; RSI; RDX; RCX; RAX; R8; R9; R10; R11; RBX; RBP; R12; R13; R14; R15].
Definition PUSH_REGS : M cpu unit := seqM (push <$> pushed_regs).

Definition popped_regs : list reg :=
  [R15; R14; R13; R12; RBP; RBX; R11; R10; R9; R8; RAX; RCX; RDX; RSI; RDI].
Definition POP_REGS : M cpu unit := seqM (pop <$> popped_regs).

(** What a compiled C function may do besides its body: it is entered with
    [ce_ret] on the stack, leaves [ce_junk] in the [ce_frame] bytes below it and
    [ce_scratch] in the registers it need not preserve. *)
Record callee := Callee {
  ce_ret : Z;
  ce_frame : Z;
  ce_junk : Z → Z;
  ce_scratch : reg → Z;
}.

Definition caller_saved (r : reg) : bool :=
  bool_decide (r ∈ [RAX; RCX; RDX; RSI; RDI; R8; R9; R10; R11]).

Definition leave (e : callee) (c : cpu) : cpu :=
  set_mem (λ m x, if u64 (x - (regs c RSP - ce_frame e)) <? ce_frame e then ce_junk e x else m x)
    (set_regs (λ f r, if caller_saved r then u64 (ce_scratch e r) else f r) c).

Definition CALL_TARG (e : callee) (f : Z → M cpu unit) : M cpu unit :=
  _ ← push_imm (ce_ret e); p ← getr RDI; _ ← f p; _ ← modifyM (leave e); ret.

Definition INTERPOSER_HANDLER (e : callee) (f : Z → M cpu unit) : M cpu unit :=
  seqM [PUSH_REGS; GET_PT_REG_PTR; CALL_TARG e f; POP_REGS; RET_TO_PG_FT].

Definition PUSH_FAKE_ERROR : M cpu unit := push_imm 0xbadbad.
Definition DROP_FAKE_ERROR : M cpu unit := add_imm 8 RSP.
Definition IRET : M cpu unit := iretq.

Definition TRAP_HANDLER (e : callee) (f : Z → M cpu unit) : M cpu unit :=
  seqM [PUSH_FAKE_ERROR; PUSH_REGS; GET_PT_REG_PTR; CALL_TARG e f; POP_REGS; DROP_FAKE_ERROR; IRET].

(** Offsets of the members of [struct pt_regs] (Linux, x86-64) that are used. *)
Definition pt_si : Z := 104.
Definition pt_orig_ax : Z := 120.
Definition pt_ip : Z := 128.
Definition sizeof_pt_regs : nat := 168.

(** ** [interpos.c] *)
Definition df_c_entry (pt_r : Z) : M cpu unit := st (pt_r + pt_orig_ax) (Z.lor USER_FT WR_FT).

Definition tf_c_entry (pt_r : Z) : M cpu unit :=
  x ← ld (pt_r + pt_orig_ax); st (pt_r + pt_orig_ax) (Z.lor x USER_FT).

(** The loop that waits until the byte at [ucp] is [0xcc]. *)
Fixpoint await_int3 (fuel : nat) (ucp : Z) : M cpu unit :=
  match fuel with
  | O => nofuelM
  | S fuel => b ← ldn 1 ucp; if b =? 0xcc then mret tt else await_int3 fuel ucp
  end.

Definition bp_c_entry (fuel : nat) (pt_r : Z) : M cpu unit :=
  ip ← ld (pt_r + pt_ip); _ ← st (pt_r + pt_ip) (u64 (ip - 1));
  ucp ← ld (pt_r + pt_ip);
  _ ← await_int3 fuel ucp;
  stn 1 ucp 0xf.

(** Bit fields of [struct DR6] and [struct DR7]. *)
Definition bf_get (v off w : Z) : Z := Z.land (Z.shiftr v off) (Z.ones w).
Definition bf_clr (v off w : Z) : Z := Z.ldiff v (Z.shiftl (Z.ones w) off).
Definition DR6_B (v i : Z) : bool := negb (bf_get v i 1 =? 0).
Definition DR7_L (v i : Z) : bool := negb (bf_get v (2 * i) 1 =? 0).
Definition DR7_G (v i : Z) : bool := negb (bf_get v (2 * i + 1) 1 =? 0).

(** One of the eight tests of [db_c_entry]: bit [en] enables breakpoint [i]. *)
Definition db_test (d6 en i : Z) (st : Z * Z) : Z * Z :=
  let '(hit, d7) := st in
  if DR6_B d6 i && negb (bf_get d7 en 1 =? 0)
  then (i, bf_clr (bf_clr d7 en 1) (16 + 4 * i) 2) else (hit, d7).

Definition db_tests (d6 d7 : Z) : Z * Z :=
  db_test d6 6 3 (db_test d6 4 2 (db_test d6 2 1 (db_test d6 0 0
    (db_test d6 7 3 (db_test d6 5 2 (db_test d6 3 1 (db_test d6 1 0 (9, d7)))))))).

(** Offsets in [struct scratchpad] ([get] comes first). *)
Definition sp_dr_hit : Z := 168.
Definition sp_dr7 : Z := 176.
Definition sp_cr3 : Z := 184.
Definition sp_debug : Z := 576.
Definition sp_cnt : Z := 577.
Definition sp_read_addr_msg : Z := 578.
Definition sp_addr_msg : Z := 579.

Definition PAGE_SIZE : Z := 4096.

(** Assignment of [struct pt_regs] and the loop over [char]s. *)
Fixpoint copy_bytes (n : nat) (dst src : Z) : M cpu unit :=
  match n with
  | O => mret tt
  | S n => b ← ldn 1 src; _ ← stn 1 dst b; copy_bytes n (dst + 1) (src + 1)
  end.

(** [hdl_pg]: the address [GET_PC] finds. *)
Definition db_c_entry (hdl_pg : Z) (pt_r : Z) : M cpu unit :=
  d7 ← getsM dr7; d6 ← getsM dr6; c3 ← getsM cr3;
  let '(dr_hit, d7) := db_tests d6 d7 in
  let sp_ptr := hdl_pg - hdl_pg mod PAGE_SIZE + (PAGE_SIZE - 8) in
  sp ← ld sp_ptr;
  _ ← st (sp + sp_dr_hit) dr_hit;
  _ ← st (sp + sp_dr7) d7;
  _ ← copy_bytes sizeof_pt_regs sp pt_r;
  _ ← st (sp + sp_cr3) c3;
  dbg ← ldn 1 (sp + sp_debug);
  _ ← (if dbg =? 1 then n ← ldn 1 (sp + sp_cnt); stn 1 (sp + sp_cnt) (n + 1) else mret tt);
  rd ← ldn 1 (sp + sp_read_addr_msg);
  _ ← (if rd =? 0 then mret tt
       else src ← ld (pt_r + pt_si); copy_bytes 96 (sp + sp_addr_msg) src);
  modifyM (set_dr7 d7).
