(* ===== verification/InterposerSpec.v ===== *)
(** * What the interposers do to the interrupted context

    The save, call and restore sequence brings every register back whatever the
    compiled C function does to the registers and the stack below; the code the
    handler ends in then finds the frame the C function left. *)
From Stdlib Require Import Btauto.
From S2P Require Import Prelude X86 Interposer.

Open Scope Z_scope.

Lemma u64_lxor x y : 0 <= x < 2 ^ 64 → 0 <= y < 2 ^ 64 → u64 (Z.lxor x y) = Z.lxor x y.
Proof.
  intros Hx Hy. unfold u64. rewrite <- Z.land_ones by lia. apply Z.bits_inj'. intros n Hn.
  rewrite Z.land_spec, Z.lxor_spec, Z.testbit_ones_nonneg by lia.
  destruct (Z.ltb_spec n 64) as [|Hge]; [by rewrite andb_true_r|rewrite andb_false_r].
  assert (∀ z, 0 <= z < 2 ^ 64 → Z.testbit z n = false) as H.
  { intros z Hz. rewrite Z.testbit_eqb by lia. rewrite Z.div_small; [done|].
    split; [lia|]. eapply Z.lt_le_trans; [apply Hz|]. apply Z.pow_le_mono_r; lia. }
  by rewrite !H.
Qed.

Lemma lxor_cancel x y : Z.lxor (Z.lxor x y) x = y.
Proof. by rewrite (Z.lxor_comm x y), Z.lxor_assoc, Z.lxor_nilpotent, Z.lxor_0_r. Qed.

(** The exchange through [xor]: the return goes to the page fault entry and no
    register changes. *)
Lemma ret_to_pg_ft c :
  regs_ok c →
  ∃ c', RET_TO_PG_FT c = Done tt c' ∧ rip c' = PG_FT_ENTRY ∧ (∀ r, regs c' r = regs c r) ∧
    ctl c' = ctl c ∧ ∀ n, n + 8 <= 2 ^ 64 → same_range (regs c RSP) n (mem c) (mem c').
Proof.
  intros Hok. set (s := u64 (regs c RSP - 8)). set (a := regs c RAX).
  assert (u64 a = a) as Ha by (apply u64_id, Hok).
  assert (0 <= a < 2 ^ 64) as Har by apply Hok.
  assert (0 <= PG_FT_ENTRY < 2 ^ 64) as HE by (unfold PG_FT_ENTRY; lia).
  assert (Z.lxor a (Z.lxor PG_FT_ENTRY a) = PG_FT_ENTRY) as Hx1
    by (rewrite Z.lxor_comm; rewrite Z.lxor_assoc, Z.lxor_nilpotent; apply Z.lxor_0_r).
  assert (0 <= Z.lxor PG_FT_ENTRY a < 2 ^ 64) as Hx by (rewrite <- u64_lxor by done; apply u64_range).
  eexists. split; [unfold RET_TO_PG_FT; x86; reflexivity|]. fold s a. x86.
  assert (u64 s = s) as Hs by apply u64_u64. rewrite !Hs. clear Hs.
  rewrite !word_store_eq, !Ha, !(u64_id PG_FT_ENTRY), !(u64_id (Z.lxor PG_FT_ENTRY a)), !Hx1 by done.
  rewrite !(u64_id PG_FT_ENTRY), lxor_cancel, Ha by done. split; [done|]. split.
  { intros r. destruct (decide (r = RSP)) as [->|].
    { x86_regs. subst s. rewrite <- (u64_id (regs c RSP)) at 2 by apply Hok. u64_eq. }
    rewrite fn_lookup_insert_ne by done.
    destruct (decide (r = RAX)) as [->|]; [by x86_regs|]. by rewrite !fn_lookup_insert_ne. }
  split; [done|]. intros n Hn.
  eapply same_range_trans; eapply (same_range_store _ _ _ _ _ 8); try lia; subst s; u64_eq.
Qed.

(** ** Saving, calling, restoring *)

(** [c1] has the registers of [c] saved below the stack pointer of [c], in the
    layout of [struct pt_regs], and [RDI] points to them. *)
Record saved (c c1 : cpu) : Prop := {
  sv_rdi : regs c1 RDI = u64 (regs c RSP - 120);
  sv_ctl : ctl c1 = ctl c;
  sv_mem : same_range (regs c RSP) (2 ^ 63) (mem c) (mem c1);
  sv_regs : ∀ i r, popped_regs !! i = Some r →
    word (mem c1) (regs c RSP - 120 + 8 * Z.of_nat i) = regs c r;
}.

Lemma reg_cases r : r = RSP ∨ ∃ i, popped_regs !! i = Some r.
Proof.
  destruct r; [right; by eexists 10%nat|right; by eexists 5%nat|right; by eexists 11%nat|
    right; by eexists 12%nat|right; by eexists 13%nat|right; by eexists 14%nat|
    right; by eexists 4%nat|by left|right; by eexists 9%nat|right; by eexists 8%nat|
    right; by eexists 7%nat|right; by eexists 6%nat|right; by eexists 3%nat|
    right; by eexists 2%nat|right; by eexists 1%nat|right; by eexists 0%nat].
Qed.

Lemma popped_lt i r : popped_regs !! i = Some r → 0 <= Z.of_nat i < 15.
Proof. intros H%lookup_lt_Some. change (length popped_regs) with 15%nat in H. lia. Qed.

Lemma popped_NoDup : NoDup popped_regs.
Proof. apply (bool_decide_unpack _). vm_compute. exact I. Qed.

Lemma popped_no_RSP : RSP ∉ popped_regs.
Proof. apply (bool_decide_unpack _). vm_compute. exact I. Qed.

Lemma pop_regs_spec c :
  regs_ok c →
  ∃ c', POP_REGS c = Done tt c' ∧ ctl c' = ctl c ∧ mem c' = mem c ∧ regs_ok c' ∧
    regs c' RSP = u64 (regs c RSP + 120) ∧
    ∀ i r, popped_regs !! i = Some r → regs c' r = word (mem c) (regs c RSP + 8 * Z.of_nat i).
Proof.
  intros Hok. destruct (pop_all popped_regs c Hok popped_no_RSP popped_NoDup)
    as (c' & Hrun & Hctl & Hmem & Hok' & Hsp & _ & Hw).
  exists c'. split; [unfold POP_REGS; exact Hrun|]. by split_and!.
Qed.

(** Up to the entry of the C function. *)
Lemma enter_spec ret_addr c :
  regs_ok c →
  ∃ c1, seqM [PUSH_REGS; GET_PT_REG_PTR; push_imm ret_addr] c = Done tt c1 ∧
    saved c c1 ∧ regs_ok c1 ∧ regs c1 RSP = u64 (regs c RSP - 128).
Proof.
  intros Hok. destruct (push_all pushed_regs c Hok) as
    (c0 & Hrun & Hctl & Hok0 & Hsp & _ & Hsame & Hwords); [apply (bool_decide_unpack _); by vm_compute|].
  change (length pushed_regs) with 15%nat in *. change (8 * Z.of_nat 15) with 120 in *.
  cbn [seqM]. unfold mbind, M_bind. unfold PUSH_REGS. rewrite Hrun.
  unfold GET_PT_REG_PTR, mov, getr, setr, getsM, modifyM, mbind, M_bind. rewrite push_imm_run.
  eexists. split; [reflexivity|]. unfold pushed. cbn. x86_regs. split; [split|split]; cbn; x86_regs.
  - rewrite Hsp. u64_eq.
  - done.
  - eapply same_range_trans; [apply Hsame; lia|].
    apply (same_range_store _ _ _ _ _ 128); [rewrite Hsp; u64_eq|lia..].
  - intros i r Hi. pose proof (popped_lt _ _ Hi).
    rewrite (word_store_ne _ _ _ _ (8 + 8 * Z.of_nat i)); [|rewrite Hsp; u64_eq|lia].
    rewrite <- (Hwords ltac:(lia) i r) by done. apply word_mod. rewrite Hsp. u64_eq.
  - intros r. cbn. destruct (decide (r = RSP)) as [->|]; [x86_regs; apply u64_range|].
    rewrite fn_lookup_insert_ne by done.
    destruct (decide (r = RDI)) as [->|]; [x86_regs; apply u64_range|].
    rewrite fn_lookup_insert_ne by done. apply Hok0.
  - rewrite Hsp. u64_eq.
Qed.

(** From the end of the C function's body: what it and its frame left. *)
Lemma leave_spec e c c2 :
  regs_ok c → regs_ok c2 → 0 <= ce_frame e <= 2 ^ 32 → regs c2 RSP = u64 (regs c RSP - 128) →
  ∃ c', seqM [modifyM (leave e); ret; POP_REGS] c2 = Done tt c' ∧ ctl c' = ctl c2 ∧ regs_ok c' ∧
    regs c' RSP = regs c RSP ∧ same_range (regs c RSP - 120) (2 ^ 63) (mem c2) (mem c') ∧
    ∀ i r, popped_regs !! i = Some r → regs c' r = word (mem c2) (regs c RSP - 120 + 8 * Z.of_nat i).
Proof.
  intros Hok Hok2 Hf Hsp.
  set (c4 := set_rip (word (mem (leave e c2)) (u64 (regs c2 RSP))) (popped (leave e c2))).
  assert (regs_ok c4) as Hok4.
  { intros r. cbn. destruct (decide (r = RSP)) as [->|]; [x86_regs; apply u64_range|].
    rewrite fn_lookup_insert_ne by done. destruct (caller_saved r); [apply u64_range|apply Hok2]. }
  assert (regs c4 RSP = u64 (regs c RSP - 120)) as Hsp4 by (cbn; x86_regs; change (caller_saved RSP) with false; cbn; rewrite Hsp; u64_eq).
  assert (same_range (regs c RSP - 120) (2 ^ 63) (mem c2) (mem c4)) as Hm4.
  { intros x Hx. cbn. destruct (Z.ltb_spec (u64 (x - (regs c2 RSP - ce_frame e))) (ce_frame e)) as [Hlt|]; [|done].
    exfalso. revert Hlt Hx. rewrite Hsp. u64_eq. }
  destruct (pop_regs_spec c4 Hok4) as (c' & Hrun & Hctl & Hmem & Hok' & Hsp' & Hwords).
  exists c'. split.
  { transitivity ((_ ← POP_REGS; mret tt) c4); [reflexivity|].
    unfold mbind, M_bind. by rewrite Hrun. }
  split; [exact Hctl|]. split; [exact Hok'|].
  split.
  { rewrite Hsp', Hsp4. rewrite <- (u64_id (regs c RSP)) at 2 by apply Hok. u64_eq. }
  split; [by rewrite Hmem|]. intros i r Hi. pose proof (popped_lt _ _ Hi).
  rewrite (Hwords i r Hi). rewrite (word_mod _ _ (regs c RSP - 120 + 8 * Z.of_nat i)) by (rewrite Hsp4; u64_eq).
  eapply (same_range_word _ _ _ _ _ (8 * Z.of_nat i)); [exact Hm4|u64_eq|lia..].
Qed.

#[local] Opaque PUSH_REGS POP_REGS RET_TO_PG_FT.

(** The code around a call of a C function that leaves the saved registers
    alone: all registers come back, and the memory from the stack pointer up is
    what the function made of it. *)
Lemma around_call e f c (Q : cpu → Prop) :
  regs_ok c → 0 <= ce_frame e <= 2 ^ 32 →
  (∀ c1, saved c c1 → ∃ c2, f (regs c1 RDI) c1 = Done tt c2 ∧ regs c2 = regs c1 ∧
     same_range (regs c RSP - 120) 120 (mem c1) (mem c2) ∧ Q c2) →
  ∃ c2 c', Q c2 ∧ seqM [PUSH_REGS; GET_PT_REG_PTR; CALL_TARG e f; POP_REGS] c = Done tt c' ∧
    (∀ r, regs c' r = regs c r) ∧ ctl c' = ctl c2 ∧
    same_range (regs c RSP) (2 ^ 62) (mem c2) (mem c').
Proof.
  intros Hok He Hf.
  destruct (enter_spec (ce_ret e) c Hok) as (c1 & Hrun1 & Hsv & Hok1 & Hsp1).
  destruct (Hf c1 Hsv) as (c2 & Hrunf & Hregs & Hkeep & HQ).
  destruct (leave_spec e c c2) as (c' & Hrun2 & Hctl & _ & Hsp & Hmem & Hw); [done|..|done|by rewrite Hregs|].
  { unfold regs_ok. by rewrite Hregs. }
  exists c2, c'. split; [done|]. split_and!.
  - cbn [seqM] in *. unfold CALL_TARG, mbind, M_bind in *.
    destruct (PUSH_REGS c) as [[] ca| | | |]; [|discriminate Hrun1..].
    destruct (GET_PT_REG_PTR ca) as [[] cb| | | |]; [|discriminate Hrun1..].
    rewrite push_imm_run in *. injection Hrun1 as Hrun1. rewrite Hrun1.
    unfold getr, getsM. rewrite Hrunf. exact Hrun2.
  - intros r. destruct (reg_cases r) as [->|[i Hi]]; [done|]. pose proof (popped_lt _ _ Hi).
    rewrite (Hw i r Hi), <- (sv_regs _ _ Hsv i r Hi).
    eapply (same_range_word _ _ _ _ _ (8 * Z.of_nat i)); [exact Hkeep|u64_eq|lia..].
  - done.
  - eapply (same_range_sub _ (2 ^ 63) _ _ 120); [exact Hmem|u64_eq|lia..].
Qed.

(** ** Handlers that go on to the page fault handler *)
Lemma interposer_spec e f v c :
  regs_ok c → 0 <= ce_frame e <= 2 ^ 32 →
  (∀ c1, f (regs c1 RDI) c1 = Done tt (set_mem (λ m, mem_store 8 m (u64 (regs c1 RDI + pt_orig_ax))
     (v (word m (u64 (regs c1 RDI + pt_orig_ax))))) c1)) →
  ∃ c', INTERPOSER_HANDLER e f c = Done tt c' ∧ rip c' = PG_FT_ENTRY ∧
    (∀ r, regs c' r = regs c r) ∧ ctl c' = ctl c ∧
    word (mem c') (regs c RSP) = u64 (v (word (mem c) (regs c RSP))) ∧
    ∀ x, 8 <= u64 (x - regs c RSP) < 2 ^ 62 → mem c' x = mem c x.
Proof.
  intros Hok He Hf. set (sp := regs c RSP) in *.
  destruct (around_call e f c (λ c2, ctl c2 = ctl c ∧
    word (mem c2) sp = u64 (v (word (mem c) sp)) ∧
    ∀ x, 8 <= u64 (x - sp) < 2 ^ 62 → mem c2 x = mem c x)) as (c2 & c3 & (Hctl2 & Hw2 & Hm2) & Hrun & Hregs & Hctl & Hmem);
    [done..| |].
  { intros c1 Hsv. eexists. split; [apply Hf|]. rewrite (sv_rdi _ _ Hsv). fold sp.
    assert (u64 (u64 (sp - 120) + pt_orig_ax) = sp) as Ha
      by (rewrite <- (u64_id sp) at 2 by apply Hok; unfold pt_orig_ax; u64_eq).
    rewrite Ha. split; [done|]. cbn. split_and!.
    - intros x Hx. apply mem_store_other. revert Hx. u64_eq.
    - apply (sv_ctl _ _ Hsv).
    - rewrite word_store_eq. f_equal. f_equal.
      apply (same_range_word sp (2 ^ 63) _ _ _ 0 (sv_mem _ _ Hsv)); [u64_eq|lia..].
    - intros x Hx. rewrite mem_store_other by (cbn; lia). apply (sv_mem _ _ Hsv). fold sp. lia. }
  assert (regs_ok c3) as Hok3 by (intros r; rewrite Hregs; apply Hok).
  destruct (ret_to_pg_ft c3 Hok3) as (c' & Hrun' & Hrip & Hregs' & Hctl' & Hmem').
  exists c'. split.
  { change (INTERPOSER_HANDLER e f) with
      (seqM ([PUSH_REGS; GET_PT_REG_PTR; CALL_TARG e f; POP_REGS] ++ [RET_TO_PG_FT])).
    rewrite seqM_app. unfold mbind at 1, M_bind at 1. rewrite Hrun.
    cbn [seqM]. unfold mbind, M_bind. by rewrite Hrun'. }
  split; [done|]. split; [intros r; by rewrite Hregs', Hregs|]. split; [congruence|].
  assert (same_range sp (2 ^ 62) (mem c2) (mem c')) as Hm.
  { eapply same_range_trans; [exact Hmem|]. unfold sp. rewrite <- Hregs. apply Hmem'. lia. }
  split.
  - rewrite <- Hw2. apply (same_range_word sp (2 ^ 62) _ _ _ 0 Hm); [u64_eq|lia..].
  - intros x Hx. rewrite Hm by lia. by apply Hm2.
Qed.

(** ** Handlers that return to the interrupted code *)

(** The end of [TRAP_HANDLER], with the stack pointer at the fake error code. *)
Lemma trap_return c :
  ∃ c', seqM [DROP_FAKE_ERROR; IRET] c = Done tt c' ∧
    let m := mem c in let sp := regs c RSP + 8 in
    rip c' = word m sp ∧ cs c' = word m (sp + 8) ∧ rflags c' = word m (sp + 16) ∧
    regs c' RSP = word m (sp + 24) ∧ ss c' = word m (sp + 32) ∧
    (∀ r, r ≠ RSP → regs c' r = regs c r) ∧
    cr3 c' = cr3 c ∧ dr6 c' = dr6 c ∧ dr7 c' = dr7 c ∧ mem c' = mem c.
Proof.
  eexists. split; [unfold DROP_FAKE_ERROR, IRET; x86; reflexivity|]. cbn. x86_regs.
  split_and!; try (apply word_mod; u64_eq); try done.
  - rewrite u64_id by apply (mem_load_range 8). apply word_mod. u64_eq.
  - intros r Hr. by rewrite !fn_lookup_insert_ne.
Qed.

Lemma fake_error c : seqM [PUSH_FAKE_ERROR] c = Done tt (pushed 0xbadbad c).
Proof.
  cbn [seqM]. unfold PUSH_FAKE_ERROR. generalize 0xbadbad as v. intros v.
  unfold mbind, M_bind. rewrite push_imm_run. reflexivity.
Qed.

(** The interrupted context: what the processor pushed at [sp]. *)
Definition returns_to (m : Z → Z) (sp : Z) (c' : cpu) : Prop :=
  rip c' = word m sp ∧ cs c' = word m (sp + 8) ∧ rflags c' = word m (sp + 16) ∧
  regs c' RSP = word m (sp + 24) ∧ ss c' = word m (sp + 32).

Lemma trap_spec e f c (Q : cpu → Prop) :
  regs_ok c → 0 <= ce_frame e <= 2 ^ 32 →
  (∀ c1, saved (pushed 0xbadbad c) c1 → ∃ c2, f (regs c1 RDI) c1 = Done tt c2 ∧ regs c2 = regs c1 ∧
     same_range (regs c RSP - 128) 120 (mem c1) (mem c2) ∧ Q c2) →
  ∃ c2 c', Q c2 ∧ TRAP_HANDLER e f c = Done tt c' ∧ returns_to (mem c2) (regs c RSP) c' ∧
    (∀ r, r ≠ RSP → regs c' r = regs c r) ∧ cr3 c' = cr3 c2 ∧ dr6 c' = dr6 c2 ∧ dr7 c' = dr7 c2 ∧
    same_range (regs c RSP) (2 ^ 61) (mem c2) (mem c').
Proof.
  intros Hok He Hf. set (c0 := pushed 0xbadbad c). set (sp := regs c RSP) in *.
  assert (regs c0 RSP = u64 (sp - 8)) as Hsp0 by (subst c0 sp; cbn; by x86_regs).
  assert (regs_ok c0) as Hok0.
  { intros r. unfold c0. cbn. destruct (decide (r = RSP)) as [->|]; [x86_regs; apply u64_range|].
    rewrite fn_lookup_insert_ne by done. apply Hok. }
  destruct (around_call e f c0 Q Hok0 He) as (c2 & c3 & HQ & Hrun & Hregs & Hctl & Hmem).
  { intros c1 Hsv. destruct (Hf c1 Hsv) as (c2 & ? & ? & Hk & ?). exists c2. split_and!; try done.
    eapply (same_range_sub _ 120 _ _ 0); [exact Hk|rewrite Hsp0; u64_eq|lia..]. }
  destruct (trap_return c3) as (c' & Hret & Hip & Hcs & Hfl & Hrsp & Hss & Hr & H3 & H6 & H7 & Hm).
  exists c2, c'. split; [done|].
  assert (same_range sp (2 ^ 61) (mem c2) (mem c3)) as Hm2.
  { eapply (same_range_sub _ (2 ^ 62) _ _ 8); [exact Hmem|rewrite Hsp0; u64_eq|lia..]. }
  assert (∀ d, 0 <= d <= 32 → word (mem c3) (regs c3 RSP + 8 + d) = word (mem c2) (sp + d)) as Hw.
  { intros d Hd. rewrite (word_mod _ _ (sp + d)) by (rewrite Hregs, Hsp0; u64_eq).
    apply (same_range_word sp _ _ _ _ d Hm2); [u64_eq|lia..]. }
  unfold ctl in Hctl. injection Hctl as _ _ _ Hc3 Hc6 Hc7. split_and!.
  - change (TRAP_HANDLER e f) with (seqM ([PUSH_FAKE_ERROR] ++
      ([PUSH_REGS; GET_PT_REG_PTR; CALL_TARG e f; POP_REGS] ++ [DROP_FAKE_ERROR; IRET]))).
    rewrite seqM_app. unfold mbind at 1, M_bind at 1.
    rewrite fake_error. fold c0.
    rewrite seqM_app. unfold mbind, M_bind. rewrite Hrun. exact Hret.
  - unfold returns_to. rewrite Hip, Hcs, Hfl, Hrsp, Hss.
    split; [|split_and!; apply Hw; lia].
    rewrite <- (Z.add_0_r (regs c3 RSP + 8)), <- (Z.add_0_r sp) at 1. apply Hw. lia.
  - intros r Hne. rewrite Hr, Hregs by done. unfold c0. cbn. by rewrite fn_lookup_insert_ne.
  - congruence.
  - congruence.
  - congruence.
  - by rewrite Hm.
Qed.

(** What a trap's C function finds: its argument points below the stack pointer
    of the interrupt, from which up the memory is as it was. *)
Lemma trap_saved c c1 :
  saved (pushed 0xbadbad c) c1 →
  regs c1 RDI = u64 (regs c RSP - 128) ∧ ctl c1 = ctl c ∧
  same_range (regs c RSP) (2 ^ 62) (mem c) (mem c1) ∧
  ∀ i r, popped_regs !! i = Some r → r ≠ RSP →
    word (mem c1) (regs c RSP - 128 + 8 * Z.of_nat i) = regs c r.
Proof.
  intros [Hrdi Hctl Hm Hw].
  assert (regs (pushed 0xbadbad c) RSP = u64 (regs c RSP - 8)) as Hsp by (cbn; by x86_regs).
  rewrite Hsp in *. split; [rewrite Hrdi; u64_eq|]. split; [exact Hctl|]. split.
  - eapply same_range_trans; [|eapply (same_range_sub _ _ _ _ 8); [exact Hm|u64_eq|lia..]].
    apply (same_range_store _ _ _ _ _ 8); [u64_eq|lia..].
  - intros i r Hi Hne. specialize (Hw i r Hi). cbn in Hw. rewrite fn_lookup_insert_ne in Hw by done.
    rewrite <- Hw. apply word_mod. u64_eq.
Qed.

(** The byte at [a]. *)
Definition byte (m : Z → Z) (a : Z) : Z := mem_load 1 m a.

Lemma await_int3_spin fuel ucp c :
  byte (mem c) ucp ≠ 0xcc → await_int3 fuel ucp c = NoFuel.
Proof.
  intros Hb. apply Z.eqb_neq in Hb. induction fuel as [|fuel IH]; [done|].
  cbn [await_int3]. unfold ldn, getsM, mbind, M_bind. rewrite mem_load_u64. fold (byte (mem c) ucp). by rewrite Hb.
Qed.

Lemma await_int3_ok fuel ucp c :
  byte (mem c) ucp = 0xcc → await_int3 (S fuel) ucp c = Done tt c.
Proof.
  intros Hb. apply Z.eqb_eq in Hb. cbn [await_int3].
  unfold ldn, getsM, mbind, M_bind. rewrite mem_load_u64. fold (byte (mem c) ucp). by rewrite Hb.
Qed.

Lemma byte_store_ne m n a v b :
  Z.of_nat n <= u64 (b - a) → byte (mem_store n m a v) b = byte m b.
Proof. intros H. apply mem_load_store_ne; [done|]. pose proof (u64_range (b - a)). cbn. lia. Qed.

(** The state [bp_c_entry] is in when it looks at the byte before the
    interrupted instruction. *)
Lemma bp_entry fuel sp c1 ip :
  0 <= sp < 2 ^ 64 → word (mem c1) sp = ip →
  bp_c_entry fuel (u64 (sp - 128)) c1 =
    (_ ← await_int3 fuel (u64 (ip - 1)); stn 1 (u64 (ip - 1)) 0xf)
      (set_mem (λ m, mem_store 8 m sp (u64 (ip - 1))) c1).
Proof.
  intros Hsp Hip. assert (u64 (u64 (sp - 128) + pt_ip) = sp) as Ha
    by (rewrite <- (u64_id sp) at 2 by done; unfold pt_ip; u64_eq).
  unfold bp_c_entry, ld, st, stn, getsM, modifyM. unfold mbind at 1 2 3, M_bind at 1 2 3.
  rewrite Ha, Hip. cbn. by rewrite word_store_eq, !u64_u64.
Qed.

Lemma byte_store_eq m a v : byte (mem_store 1 m a v) a = v mod 256.
Proof. unfold byte. by rewrite mem_load_store_eq by done. Qed.

Lemma byte_same lo n m m' a :
  same_range lo n m m' → u64 (a - lo) < n → byte m' a = byte m a.
Proof.
  intros H Ha. apply mem_load_ext. intros i Hi. assert (i = 0) as -> by lia. apply H.
  by rewrite Z.add_0_r, u64_sub_l.
Qed.

Lemma int3_spec e fuel c :
  let sp := regs c RSP in let t := u64 (word (mem c) sp - 1) in
  regs_ok c → 0 <= ce_frame e <= 2 ^ 32 → 40 <= u64 (t - sp) < 2 ^ 61 → byte (mem c) t = 0xcc →
  ∃ c', TRAP_HANDLER e (bp_c_entry (S fuel)) c = Done tt c' ∧
    rip c' = t ∧ cs c' = word (mem c) (sp + 8) ∧ rflags c' = word (mem c) (sp + 16) ∧
    regs c' RSP = word (mem c) (sp + 24) ∧ ss c' = word (mem c) (sp + 32) ∧
    (∀ r, r ≠ RSP → regs c' r = regs c r) ∧ byte (mem c') t = 0xf ∧
    ∀ x, 8 <= u64 (x - sp) < 2 ^ 61 → u64 x ≠ t → mem c' x = mem c x.
Proof.
  intros sp t Hok He Ht Hb.
  destruct (trap_spec e (bp_c_entry (S fuel)) c (λ c2, word (mem c2) sp = t ∧ byte (mem c2) t = 0xf ∧
    ∀ x, 8 <= u64 (x - sp) < 2 ^ 61 → u64 x ≠ t → mem c2 x = mem c x)) as
    (c2 & c' & (Hip & Hb2 & Hm2) & Hrun & (Hrip & Hcs & Hfl & Hrsp & Hss) & Hregs & _ & _ & _ & Hm); [done..| |].
  { intros c1 Hsv. destruct (trap_saved _ _ Hsv) as (-> & Hctl & Hm1 & _). fold sp.
    assert (word (mem c1) sp = word (mem c) sp) as Hw.
    { apply (same_range_word sp _ _ _ _ 0 Hm1); [u64_eq|lia..]. }
    rewrite (bp_entry (S fuel) sp c1 _ (Hok RSP) Hw). fold t.
    set (c0 := set_mem _ c1).
    assert (byte (mem c0) t = 0xcc) as Hb0.
    { unfold c0. cbn. rewrite byte_store_ne by (cbn; lia). rewrite <- Hb.
      apply (byte_same sp _ _ _ _ Hm1). lia. }
    unfold mbind, M_bind. rewrite await_int3_ok by done.
    assert (u64 t = t) as Htt by apply u64_u64.
    eexists. split; [reflexivity|]. split; [done|]. rewrite Htt. cbn. split_and!.
    - intros x Hx. rewrite !mem_store_other; [done|..]; revert Hx Ht; cbn; fold sp; u64_eq.
    - unfold word. rewrite mem_load_store_ne by (revert Ht; cbn; u64_eq).
      fold (word (mem_store 8 (mem c1) sp t) sp). by rewrite word_store_eq.
    - by rewrite byte_store_eq.
    - intros x Hx Hne. rewrite mem_store_other, mem_store_other; [|revert Hx; cbn; lia|].
      + apply Hm1. fold sp. lia.
      + cbn. pose proof (u64_range (x - t)). assert (u64 (x - t) ≠ 0); [|lia].
        intros H0. apply Hne. rewrite <- Htt. revert H0. u64_eq. }
  assert (∀ d, 8 <= d <= 32 → word (mem c2) (sp + d) = word (mem c) (sp + d)) as Hfr.
  { intros d Hd. apply mem_load_ext. intros i Hi.
    assert (u64 (sp + d + i - sp) = d + i) as Hdi
      by (replace (sp + d + i - sp) with (d + i) by lia; apply u64_id; lia).
    apply Hm2; [rewrite u64_sub_l, Hdi; lia|].
    rewrite u64_u64. intros Heq. rewrite <- Heq, u64_sub_l, Hdi in Ht. lia. }
  exists c'. fold sp in Hrip, Hcs, Hfl, Hrsp, Hss, Hm. rewrite Hfr in Hcs, Hfl, Hrsp, Hss by lia.
  split; [exact Hrun|]. split; [by rewrite Hrip|]. split; [exact Hcs|]. split; [exact Hfl|].
  split; [exact Hrsp|]. split; [exact Hss|]. split; [exact Hregs|]. split.
  - rewrite <- Hb2. apply (byte_same sp _ _ _ _ Hm). lia.
  - intros x Hx Hne. rewrite Hm by (fold sp; lia). by apply Hm2.
Qed.

(** ** The debug exception *)

(** [m'] differs from [m] at most in the [n] bytes from [lo] up. *)
Definition changes_only (lo n : Z) (m m' : Z → Z) : Prop := ∀ x, n <= u64 (x - lo) → m' x = m x.

Lemma changes_refl lo n m : changes_only lo n m m.
Proof. done. Qed.

Lemma changes_trans lo n m1 m2 m3 :
  changes_only lo n m1 m2 → changes_only lo n m2 m3 → changes_only lo n m1 m3.
Proof. intros H1 H2 x Hx. rewrite H2, H1; done. Qed.

Lemma changes_store lo n m s a v k :
  u64 (a - lo) = k → k + Z.of_nat s <= n → n <= 2 ^ 64 → changes_only lo n m (mem_store s m a v).
Proof.
  intros Ha Hk Hn x Hx. apply mem_store_other. pose proof (u64_range (a - lo)).
  assert (u64 (x - a) = u64 (x - lo) - k) as ->; [|lia].
  revert Ha Hx. intros <- Hx. revert Hx H. u64_eq.
Qed.

Lemma changes_sub lo n lo' n' k m m' :
  changes_only lo' n' m m' → u64 (lo' - lo) = k → k + n' <= n → 0 <= n' → n <= 2 ^ 64 → changes_only lo n m m'.
Proof.
  intros H Hk ? ? ? x Hx. apply H. pose proof (u64_range (lo' - lo)).
  assert (u64 (x - lo') = u64 (x - lo) - k) as ->; [|lia].
  revert Hk Hx. intros <- Hx. revert Hx H0 H3. u64_eq.
Qed.

(** Copying bytes: nothing else changes, and the copy is exact when source and
    target do not overlap. *)
Lemma copy_bytes_run n dst src c :
  Z.of_nat n <= 2 ^ 32 →
  ∃ c', copy_bytes n dst src c = Done tt c' ∧ regs c' = regs c ∧ ctl c' = ctl c ∧
    changes_only dst (Z.of_nat n) (mem c) (mem c') ∧
    (Z.of_nat n <= u64 (src - dst) <= 2 ^ 64 - Z.of_nat n →
     ∀ i, 0 <= i < Z.of_nat n → byte (mem c') (dst + i) = byte (mem c) (src + i)).
Proof.
  revert dst src c. induction n as [|n IH]; intros dst src c Hn.
  { exists c. split_and!; try done. intros _ i Hi. lia. }
  cbn [copy_bytes]. unfold ldn, stn, getsM, modifyM. unfold mbind, M_bind.
  set (c0 := set_mem _ c).
  destruct (IH (dst + 1) (src + 1) c0) as (c' & Hrun & Hregs & Hctl & Hch & Hcp); [lia|].
  exists c'. split; [exact Hrun|]. split; [by rewrite Hregs|]. split; [by rewrite Hctl|].
  assert (changes_only dst (Z.of_nat (S n)) (mem c) (mem c0)) as Hch0.
  { unfold c0. cbn -[Z.of_nat]. intros x Hx. rewrite mem_store_u64. apply mem_store_other. lia. }
  split.
  - eapply changes_trans; [exact Hch0|]. eapply (changes_sub _ _ _ _ 1); [exact Hch|u64_eq|lia..].
  - intros Hov i Hi. destruct (decide (i = 0)) as [->|].
    + rewrite !Z.add_0_r. unfold byte at 1. rewrite (mem_load_ext 1 _ (mem c0)).
      * unfold c0. cbn. rewrite <- mem_load_u64. fold (byte (mem_store 1 (mem c) (u64 dst) (mem_load 1 (mem c) (u64 src))) (u64 dst)).
        rewrite byte_store_eq, mem_load_u64. apply Z.mod_small, (mem_load_range 1).
      * intros j Hj. assert (j = 0) as -> by lia. apply Hch. revert Hn. u64_eq.
    + replace (dst + i) with (dst + 1 + (i - 1)) by lia.
      rewrite Hcp; [|replace (src + 1 - (dst + 1)) with (src - dst) by lia; lia|lia].
      replace (src + 1 + (i - 1)) with (src + i) by lia.
      unfold c0. cbn. apply byte_store_ne. rewrite u64_sub_r. revert Hov Hi Hn. cbn. u64_eq.
Qed.

Lemma mem_load_bytes n m m' a b :
  (∀ i, 0 <= i < Z.of_nat n → byte m (a + i) = byte m' (b + i)) → mem_load n m a = mem_load n m' b.
Proof.
  revert a b. induction n as [|n IH]; intros a b H; [done|].
  change (mem_load (S n) m a) with (m (u64 a) mod 256 + 256 * mem_load n m (a + 1)).
  change (mem_load (S n) m' b) with (m' (u64 b) mod 256 + 256 * mem_load n m' (b + 1)).
  rewrite (IH (a + 1) (b + 1)).
  - specialize (H 0 ltac:(lia)). rewrite !Z.add_0_r in H. unfold byte, mem_load in H. lia.
  - intros i Hi. rewrite <- !Z.add_assoc. apply H. lia.
Qed.

Lemma changes_word lo n m m' a :
  changes_only lo n m m' → n <= u64 (a - lo) <= 2 ^ 64 - 8 → word m' a = word m a.
Proof.
  intros H Ha. apply mem_load_ext. intros i Hi. apply H.
  rewrite u64_sub_l. replace (a + i - lo) with (a - lo + i) by lia. rewrite u64_shift by lia. lia.
Qed.

(** The end of [db_c_entry], after the registers were recorded. *)
Definition db_tail (sp d7 pt_r : Z) : M cpu unit :=
  dbg ← ldn 1 (sp + sp_debug);
  _ ← (if dbg =? 1 then n ← ldn 1 (sp + sp_cnt); stn 1 (sp + sp_cnt) (n + 1) else mret tt);
  rd ← ldn 1 (sp + sp_read_addr_msg);
  _ ← (if rd =? 0 then mret tt
       else src ← ld (pt_r + pt_si); copy_bytes 96 (sp + sp_addr_msg) src);
  modifyM (set_dr7 d7).

Lemma db_tail_run sp d7 pt_r c :
  ∃ c', db_tail sp d7 pt_r c = Done tt c' ∧ regs c' = regs c ∧ ctl c' = ctl (set_dr7 d7 c) ∧
    changes_only (sp + 576) 99 (mem c) (mem c').
Proof.
  set (dbg := mem_load 1 (mem c) (u64 (sp + sp_debug))).
  set (m5 := if dbg =? 1 then mem_store 1 (mem c) (u64 (sp + sp_cnt)) (mem_load 1 (mem c) (u64 (sp + sp_cnt)) + 1)
             else mem c).
  assert (((if dbg =? 1 then n ← ldn 1 (sp + sp_cnt); stn 1 (sp + sp_cnt) (n + 1) else mret tt) : M cpu unit) c
    = Done tt (set_mem (λ _, m5) c)) as H5 by (unfold m5; by destruct (dbg =? 1), c).
  assert (changes_only (sp + 576) 99 (mem c) m5) as Hm5.
  { unfold m5. destruct (dbg =? 1); [|done].
    apply (changes_store _ _ _ _ _ _ 1); [unfold sp_cnt; u64_eq|cbn; lia..]. }
  set (c5 := set_mem (λ _, m5) c) in *. unfold db_tail.
  rewrite (bind_done _ _ c dbg c) by reflexivity. step_by H5.
  rewrite (bind_done _ _ c5 (mem_load 1 (mem c5) (u64 (sp + sp_read_addr_msg))) c5) by reflexivity.
  destruct (mem_load 1 (mem c5) _ =? 0).
  { eexists. split; [reflexivity|]. by split_and!. }
  destruct (copy_bytes_run 96 (sp + sp_addr_msg) (word (mem c5) (u64 (pt_r + pt_si))) c5)
    as (c' & Hrun & Hregs & Hctl & Hch & _); [lia|].
  eexists. split.
  { erewrite bind_done; [reflexivity|]. rewrite <- Hrun. reflexivity. }
  split; [exact Hregs|]. split.
  { revert Hctl. unfold ctl. cbn. intros Hctl. injection Hctl as Hcs Hfl Hss H3 H6 _. congruence. }
  eapply changes_trans; [exact Hm5|].
  eapply (changes_sub _ _ _ _ 3); [exact Hch|unfold sp_addr_msg; u64_eq|lia..].
Qed.

Lemma db_entry_run hdl_pg p c :
  let sp := word (mem c) (hdl_pg - hdl_pg mod PAGE_SIZE + (PAGE_SIZE - 8)) in
  let '(hit, d7) := db_tests (dr6 c) (dr7 c) in
  ∃ c', db_c_entry hdl_pg p c = Done tt c' ∧ regs c' = regs c ∧ ctl c' = ctl (set_dr7 d7 c) ∧
    changes_only sp 675 (mem c) (mem c') ∧
    word (mem c') (sp + sp_dr_hit) = u64 hit ∧ word (mem c') (sp + sp_dr7) = u64 d7 ∧
    word (mem c') (sp + sp_cr3) = u64 (cr3 c) ∧
    (192 <= u64 (p - sp) <= 2 ^ 64 - 168 →
     ∀ i, 0 <= i < 21 → word (mem c') (sp + 8 * i) = word (mem c) (p + 8 * i)).
Proof.
  intros sp. destruct (db_tests (dr6 c) (dr7 c)) as [hit d7] eqn:Ht.
  set (c2 := set_mem (λ m, mem_store 8 (mem_store 8 m (u64 (sp + sp_dr_hit)) hit) (u64 (sp + sp_dr7)) d7) c).
  destruct (copy_bytes_run sizeof_pt_regs sp p c2) as (c3 & Hrun3 & Hregs3 & Hctl3 & Hch3 & Hcp); [done|].
  set (c4 := set_mem (λ m, mem_store 8 m (u64 (sp + sp_cr3)) (cr3 c)) c3).
  destruct (db_tail_run sp d7 p c4) as (c' & Hrun & Hregs & Hctl & Hch).
  exists c'. split.
  { unfold db_c_entry. rewrite !(bind_done _ _ c _ c) by reflexivity. rewrite Ht.
    rewrite (bind_done _ _ c sp c) by (unfold ld, getsM; by rewrite word_u64).
    rewrite (bind_done _ _ c tt (set_mem (λ m, mem_store 8 m (u64 (sp + sp_dr_hit)) hit) c)) by reflexivity.
    rewrite (bind_done _ _ _ tt c2) by reflexivity. step_by Hrun3.
    rewrite (bind_done _ _ _ tt c4) by reflexivity. exact Hrun. }
  split; [rewrite Hregs; exact Hregs3|]. split.
  { rewrite Hctl. revert Hctl3. unfold ctl. cbn. intros H. injection H as Hcs Hfl Hss H3 H6 _. congruence. }
  change (Z.of_nat sizeof_pt_regs) with 168 in *.
  assert (changes_only sp 675 (mem c) (mem c2)) as Hm2.
  { unfold c2. cbn. eapply changes_trans.
    - apply (changes_store _ _ _ 8 (u64 (sp + sp_dr_hit)) hit 168); [unfold sp_dr_hit; u64_eq|cbn; lia..].
    - apply (changes_store _ _ _ _ _ _ 176); [unfold sp_dr7; u64_eq|cbn; lia..]. }
  assert (changes_only (sp + 184) 8 (mem c3) (mem c4)) as Hm4.
  { unfold c4. cbn. apply (changes_store _ _ _ _ _ _ 0); [unfold sp_cr3; u64_eq|cbn; lia..]. }
  split.
  { eapply changes_trans; [exact Hm2|]. eapply changes_trans.
    { eapply (changes_sub _ _ sp _ 0); [exact Hch3|u64_eq|lia..]. }
    eapply changes_trans.
    { eapply (changes_sub _ _ _ _ 184); [exact Hm4|u64_eq|lia..]. }
    eapply (changes_sub _ _ _ _ 576); [exact Hch|u64_eq|lia..]. }
  assert (∀ d, 0 <= d <= 184 → word (mem c') (sp + d) = word (mem c4) (sp + d)) as Hw4.
  { intros d Hd. eapply changes_word; [exact Hch|]. revert Hd. u64_eq. }
  assert (∀ d, 0 <= d <= 176 → word (mem c4) (sp + d) = word (mem c3) (sp + d)) as Hw3.
  { intros d Hd. eapply changes_word; [exact Hm4|]. revert Hd. u64_eq. }
  assert (∀ d, 168 <= d <= 176 → word (mem c3) (sp + d) = word (mem c2) (sp + d)) as Hw2.
  { intros d Hd. eapply changes_word; [exact Hch3|]. revert Hd. u64_eq. }
  unfold sp_dr_hit, sp_dr7, sp_cr3 in *. split_and!.
  - rewrite Hw4, Hw3, Hw2 by lia. unfold c2. cbn.
    rewrite (word_store_ne _ _ _ _ (2 ^ 64 - 8)); [|u64_eq|lia].
    rewrite (word_mod _ _ (u64 (sp + 168))) by (by rewrite u64_u64). apply word_store_eq.
  - rewrite Hw4, Hw3, Hw2 by lia. unfold c2. cbn.
    rewrite (word_mod _ _ (u64 (sp + 176))) by (by rewrite u64_u64). apply word_store_eq.
  - rewrite Hw4 by lia. unfold c4. cbn.
    rewrite (word_mod _ _ (u64 (sp + 184))) by (by rewrite u64_u64). apply word_store_eq.
  - intros Hp i Hi. rewrite Hw4, Hw3 by lia. unfold word. apply mem_load_bytes. intros j Hj.
    cbn in Hj. rewrite <- Z.add_assoc, Hcp by lia.
    rewrite Z.add_assoc. unfold c2. cbn. rewrite !byte_store_ne; [done|..]; cbn; revert Hp Hi Hj; u64_eq.
Qed.

(** ** The debug registers *)
Lemma bf_get1 v i : 0 <= i → negb (bf_get v i 1 =? 0) = Z.testbit v i.
Proof.
  intros Hi. unfold bf_get. rewrite Z.land_ones, Z.testbit_eqb by lia. rewrite Z.shiftr_div_pow2 by done.
  change (2 ^ 1) with 2. pose proof (Z.mod_pos_bound (v / 2 ^ i) 2 ltac:(lia)).
  destruct (Z.eqb_spec ((v / 2 ^ i) mod 2) 0), (Z.eqb_spec ((v / 2 ^ i) mod 2) 1); lia || done.
Qed.

Lemma bf_clr_bit v off w k :
  0 <= off → 0 <= w → 0 <= k →
  Z.testbit (bf_clr v off w) k = Z.testbit v k && negb ((off <=? k) && (k <? off + w)).
Proof.
  intros. unfold bf_clr. rewrite Z.ldiff_spec, Z.shiftl_spec by done. f_equal. f_equal.
  destruct (Z.leb_spec off k).
  - rewrite Z.testbit_ones_nonneg by lia. cbn. destruct (Z.ltb_spec (k - off) w), (Z.ltb_spec k (off + w)); lia || done.
  - rewrite Z.testbit_neg_r by lia. done.
Qed.

(** What one test does to bit [k]. *)
Lemma db_test_bit d6 en i st k :
  0 <= en → 0 <= i → 0 <= k →
  Z.testbit (snd (db_test d6 en i st)) k
  = Z.testbit (snd st) k &&
    negb (Z.testbit d6 i && Z.testbit (snd st) en &&
          ((k =? en) || (k =? 16 + 4 * i) || (k =? 17 + 4 * i))).
Proof.
  intros. destruct st as [hit d7]. unfold db_test, DR6_B. rewrite !bf_get1 by done. cbn [snd].
  destruct (Z.testbit d6 i && Z.testbit d7 en) eqn:E; cbn [snd]; [|by rewrite andb_true_r].
  rewrite !bf_clr_bit by lia. rewrite <- andb_assoc. f_equal.
  destruct (Z.leb_spec en k), (Z.ltb_spec k (en + 1)), (Z.leb_spec (16 + 4 * i) k),
    (Z.ltb_spec k (16 + 4 * i + 2)), (Z.eqb_spec k en), (Z.eqb_spec k (16 + 4 * i)),
    (Z.eqb_spec k (17 + 4 * i)); cbn; lia || done.
Qed.

Lemma db_test_hit d6 en i st :
  0 <= en → 0 <= i →
  fst (db_test d6 en i st) = if Z.testbit d6 i && Z.testbit (snd st) en then i else fst st.
Proof.
  intros. destruct st as [hit d7]. unfold db_test, DR6_B. rewrite !bf_get1 by done. cbn [snd fst].
  by destruct (_ && _).
Qed.

Lemma db_test_skip d6 en i st k :
  0 <= en → 0 <= i → 0 <= k → k ≠ en → k ≠ 16 + 4 * i → k ≠ 17 + 4 * i →
  Z.testbit (snd (db_test d6 en i st)) k = Z.testbit (snd st) k.
Proof.
  intros ? ? ? ?%Z.eqb_neq Ha Hb. rewrite db_test_bit by done. apply Z.eqb_neq in Ha, Hb.
  by rewrite H2, Ha, Hb, !andb_false_r, andb_true_r.
Qed.

(** Evaluates the bit positions, then reads the bits test by test. *)
Ltac db_bits :=
  repeat match goal with |- context [ Z.testbit ?x ?k ] =>
    let v := eval vm_compute in k in progress change (Z.testbit x k) with (Z.testbit x v) end;
  unfold db_tests;
  repeat first [ rewrite db_test_skip by lia | rewrite db_test_hit by lia
               | rewrite db_test_bit by lia ];
  repeat match goal with |- context [ ?a =? ?b ] =>
    let v := eval vm_compute in (a =? b) in change (a =? b) with v end;
  cbn [fst snd orb andb negb].

(** Breakpoint [i] was hit and is enabled. *)
Definition triggered (d6 d7 i : Z) : bool :=
  Z.testbit d6 i && (Z.testbit d7 (2 * i) || Z.testbit d7 (2 * i + 1)).

Lemma db_tests_enable d6 d7 i j :
  i = 0 ∨ i = 1 ∨ i = 2 ∨ i = 3 → j = 0 ∨ j = 1 →
  Z.testbit (snd (db_tests d6 d7)) (2 * i + j) = Z.testbit d7 (2 * i + j) && negb (Z.testbit d6 i).
Proof. intros [->|[->|[->| ->]]] [->| ->]; db_bits; btauto. Qed.

Lemma db_tests_rw d6 d7 i j :
  i = 0 ∨ i = 1 ∨ i = 2 ∨ i = 3 → j = 0 ∨ j = 1 →
  Z.testbit (snd (db_tests d6 d7)) (16 + 4 * i + j)
  = Z.testbit d7 (16 + 4 * i + j) && negb (triggered d6 d7 i).
Proof. intros [->|[->|[->| ->]]] [->| ->]; unfold triggered; db_bits; btauto. Qed.

Lemma db_tests_other d6 d7 k :
  8 <= k < 16 ∨ 16 <= k < 32 ∧ 2 <= k mod 4 ∨ 32 <= k → Z.testbit (snd (db_tests d6 d7)) k = Z.testbit d7 k.
Proof.
  intros Hk. unfold db_tests.
  by repeat (rewrite db_test_skip; [|lia|lia|lia|lia|Z.div_mod_to_equations; lia|Z.div_mod_to_equations; lia]).
Qed.

(** Whether bit [k] of DR7 is cleared: the enable bits of the breakpoints that DR6
    reports, and the two condition bits of those of them that were enabled. The length
    bits beside the condition bits, and all others, stay. *)
Definition dr7_cleared (d6 d7 k : Z) : bool :=
  if k <? 8 then Z.testbit d6 (k / 2)
  else (16 <=? k) && (k <? 32) && (k mod 4 <? 2) && triggered d6 d7 ((k - 16) / 4).

Lemma db_tests_bit d6 d7 k :
  0 <= k → Z.testbit (snd (db_tests d6 d7)) k = Z.testbit d7 k && negb (dr7_cleared d6 d7 k).
Proof.
  intros Hk. unfold dr7_cleared. destruct (Z.ltb_spec k 8) as [H8|H8].
  { replace k with (2 * (k / 2) + k mod 2) at 1 2 by (Z.div_mod_to_equations; lia).
    apply db_tests_enable; Z.div_mod_to_equations; lia. }
  destruct (Z.leb_spec 16 k); cbn [andb]; [|rewrite andb_true_r; apply db_tests_other; lia].
  destruct (Z.ltb_spec k 32); cbn [andb]; [|rewrite andb_true_r; apply db_tests_other; lia].
  destruct (Z.ltb_spec (k mod 4) 2); cbn [andb]; [|rewrite andb_true_r; apply db_tests_other; lia].
  replace k with (16 + 4 * ((k - 16) / 4) + k mod 4) at 1 2 by (Z.div_mod_to_equations; lia).
  apply db_tests_rw; Z.div_mod_to_equations; lia.
Qed.

(** The number recorded: the highest breakpoint that is locally enabled, else the
    highest that is globally enabled, else 9. *)
Definition hit_number (d6 d7 : Z) : Z :=
  let l i := Z.testbit d6 i && Z.testbit d7 (2 * i) in
  let g i := Z.testbit d6 i && Z.testbit d7 (2 * i + 1) in
  if l 3 then 3 else if l 2 then 2 else if l 1 then 1 else if l 0 then 0 else
  if g 3 then 3 else if g 2 then 2 else if g 1 then 1 else if g 0 then 0 else 9.

Lemma db_tests_hit d6 d7 : fst (db_tests d6 d7) = hit_number d6 d7.
Proof. unfold hit_number. db_bits. done. Qed.

(** ** The four handlers *)
Lemma word_range m a : 0 <= word m a < 2 ^ 64.
Proof. apply (mem_load_range 8). Qed.

Lemma u64_lor x y : 0 <= x < 2 ^ 64 → 0 <= y < 2 ^ 64 → u64 (Z.lor x y) = Z.lor x y.
Proof.
  intros Hx Hy. apply u64_id.
  assert (0 <= Z.lor x y) by (apply Z.lor_nonneg; lia). split; [done|].
  destruct (decide (x = 0)) as [->|]; [rewrite Z.lor_0_l; lia|].
  destruct (decide (y = 0)) as [->|]; [rewrite Z.lor_0_r; lia|].
  assert (Z.lor x y ≠ 0) by (rewrite Z.lor_eq_0_iff; lia).
  apply Z.log2_lt_pow2; [lia|]. rewrite Z.log2_lor by lia.
  apply Z.max_lub_lt; apply Z.log2_lt_pow2; lia.
Qed.

(** The handler has gone on to the page fault entry with the context of [c],
    except that the error code is [code]. *)
Definition went_on (c c' : cpu) (code : Z) : Prop :=
  rip c' = PG_FT_ENTRY ∧ (∀ r, regs c' r = regs c r) ∧ ctl c' = ctl c ∧
  word (mem c') (regs c RSP) = code ∧
  ∀ x, 8 <= u64 (x - regs c RSP) < 2 ^ 62 → mem c' x = mem c x.

Lemma tf_spec e c :
  regs_ok c → 0 <= ce_frame e <= 2 ^ 32 →
  ∃ c', INTERPOSER_HANDLER e tf_c_entry c = Done tt c' ∧
    went_on c c' (Z.lor (word (mem c) (regs c RSP)) USER_FT).
Proof.
  intros Hok He.
  destruct (interposer_spec e tf_c_entry (λ x, Z.lor x USER_FT) c Hok He) as (c' & Hrun & H); [done|].
  exists c'. split; [exact Hrun|].
  assert (0 <= USER_FT < 2 ^ 64) as Hu by (split; [discriminate|reflexivity]).
  rewrite u64_lor in H; [exact H|apply word_range|exact Hu].
Qed.

Lemma df_spec e c :
  regs_ok c → 0 <= ce_frame e <= 2 ^ 32 →
  ∃ c', INTERPOSER_HANDLER e df_c_entry c = Done tt c' ∧ went_on c c' (Z.lor USER_FT WR_FT).
Proof.
  intros Hok He.
  destruct (interposer_spec e df_c_entry (λ _, Z.lor USER_FT WR_FT) c Hok He) as (c' & Hrun & H); [done|].
  exists c'. split; [exact Hrun|exact H].
Qed.

(** The page that holds the handler keeps the address of the scratchpad in its
    last word. *)
Definition scratch_slot (hdl_pg : Z) : Z := hdl_pg - hdl_pg mod PAGE_SIZE + (PAGE_SIZE - 8).

(** What the handler leaves in the scratchpad at [pad]: the breakpoint [hit], the
    value [d7] for [DR7], and [CR3], the registers and the instruction pointer of [c]. *)
Definition db_recorded (hit d7 : Z) (c : cpu) (pad : Z) (m : Z → Z) : Prop :=
  word m (pad + sp_dr_hit) = u64 hit ∧
  word m (pad + sp_dr7) = u64 d7 ∧
  word m (pad + sp_cr3) = u64 (cr3 c) ∧
  (∀ i r, popped_regs !! i = Some r → word m (pad + 8 * Z.of_nat i) = regs c r) ∧
  word m (pad + pt_ip) = word (mem c) (regs c RSP).

Lemma db_recorded_ext hit d7 c pad m m' :
  (∀ d, 0 <= d <= 192 → word m' (pad + d) = word m (pad + d)) →
  db_recorded hit d7 c pad m → db_recorded hit d7 c pad m'.
Proof.
  intros Hpw (Hhit & H7 & H3 & Hregs & Hip). unfold db_recorded.
  split; [rewrite Hpw by (unfold sp_dr_hit; lia); exact Hhit|].
  split; [rewrite Hpw by (unfold sp_dr7; lia); exact H7|].
  split; [rewrite Hpw by (unfold sp_cr3; lia); exact H3|]. split.
  - intros i r Hi. pose proof (popped_lt _ _ Hi). rewrite Hpw by lia. by apply Hregs.
  - rewrite Hpw by (unfold pt_ip; lia). exact Hip.
Qed.

(** [db_c_entry] as [TRAP_HANDLER] calls it. *)
Lemma db_called hdl_pg c c1 :
  let sp := regs c RSP in let pad := word (mem c) (scratch_slot hdl_pg) in
  u64 (scratch_slot hdl_pg - sp) < 2 ^ 61 → 40 <= u64 (pad - sp) < 2 ^ 60 →
  saved (pushed 0xbadbad c) c1 →
  ∃ c2, db_c_entry hdl_pg (regs c1 RDI) c1 = Done tt c2 ∧ regs c2 = regs c1 ∧
    same_range (regs c RSP - 128) 120 (mem c1) (mem c2) ∧
    ctl c2 = ctl (set_dr7 (snd (db_tests (dr6 c) (dr7 c))) c) ∧
    (∀ x, u64 (x - sp) < 40 → mem c2 x = mem c x) ∧ db_recorded (fst (db_tests (dr6 c) (dr7 c))) (snd (db_tests (dr6 c) (dr7 c))) c pad (mem c2).
Proof.
  intros sp pad Hslot Hpad Hsv.
  destruct (trap_saved _ _ Hsv) as (Hrdi & Hctl1 & Hm1 & Hw1). fold sp in Hrdi, Hm1, Hw1.
  rewrite Hrdi. unfold ctl in Hctl1. injection Hctl1 as Hcs Hfl Hss Hcr3 Hd6 Hd7.
  pose proof (db_entry_run hdl_pg (u64 (sp - 128)) c1) as Hdb. fold (scratch_slot hdl_pg) in Hdb.
  assert (word (mem c1) (scratch_slot hdl_pg) = pad) as Hp.
  { apply (same_range_word sp _ _ _ _ (u64 (scratch_slot hdl_pg - sp)) Hm1);
      [by rewrite u64_u64|apply u64_range|lia..]. }
  unfold db_recorded. fold sp.
  rewrite Hp, Hd6, Hd7, Hcr3 in Hdb. destruct (db_tests (dr6 c) (dr7 c)) as [hit d7'].
  destruct Hdb as (c2 & Hrun & Hregs & Hctl & Hch & Hhit & H7 & H3 & Hcp). cbn [fst snd].
  exists c2. split; [exact Hrun|]. split; [exact Hregs|]. split.
  { intros x Hx. apply Hch. revert Hx Hpad. clear. fold sp. clearbody sp pad. u64_eq. }
  split; [rewrite Hctl; unfold ctl; cbn; congruence|]. split.
  { intros x Hx. rewrite Hch; [apply Hm1; lia|]. revert Hx Hpad. clear. clearbody sp pad. u64_eq. }
  split; [exact Hhit|]. split; [exact H7|]. split; [exact H3|].
  assert (∀ i, 0 <= i < 21 → word (mem c2) (pad + 8 * i) = word (mem c1) (sp - 128 + 8 * i)) as Hcopy.
  { intros i Hi. rewrite Hcp; [apply word_mod; clearbody sp; clear; u64_eq| |done].
    revert Hpad. clear. clearbody sp pad. u64_eq. }
  split.
  - intros i r Hi. pose proof (popped_lt _ _ Hi). rewrite Hcopy by lia.
    apply Hw1; [done|]. intros ->. apply popped_no_RSP. by eapply list_elem_of_lookup_2.
  - change pt_ip with (8 * 16). rewrite Hcopy by lia.
    rewrite (word_mod _ _ sp) by (f_equal; lia).
    apply (same_range_word sp _ _ _ _ 0 Hm1); [by rewrite Z.sub_diag|lia..].
Qed.

Lemma db_spec e hdl_pg c :
  let sp := regs c RSP in let pad := word (mem c) (scratch_slot hdl_pg) in
  regs_ok c → 0 <= ce_frame e <= 2 ^ 32 →
  u64 (scratch_slot hdl_pg - sp) < 2 ^ 61 → 40 <= u64 (pad - sp) < 2 ^ 60 →
  ∃ c', TRAP_HANDLER e (db_c_entry hdl_pg) c = Done tt c' ∧ returns_to (mem c) sp c' ∧
    (∀ r, r ≠ RSP → regs c' r = regs c r) ∧
    cr3 c' = cr3 c ∧ dr6 c' = dr6 c ∧ dr7 c' = snd (db_tests (dr6 c) (dr7 c)) ∧
    db_recorded (fst (db_tests (dr6 c) (dr7 c))) (snd (db_tests (dr6 c) (dr7 c))) c pad (mem c').
Proof.
  intros sp pad Hok He Hslot Hpad.
  destruct (trap_spec e (db_c_entry hdl_pg) c (λ c2,
    ctl c2 = ctl (set_dr7 (snd (db_tests (dr6 c) (dr7 c))) c) ∧
    (∀ x, u64 (x - sp) < 40 → mem c2 x = mem c x) ∧ db_recorded (fst (db_tests (dr6 c) (dr7 c))) (snd (db_tests (dr6 c) (dr7 c))) c pad (mem c2))) as
    (c2 & c' & (Hctl & Hfr & Hrec) & Hrun & Hret & Hregs & Hc3 & Hc6 & Hc7 & Hm); [done..| |].
  { intros c1 Hsv. exact (db_called hdl_pg c c1 Hslot Hpad Hsv). }
  assert (∀ d, 0 <= d <= 32 → word (mem c2) (sp + d) = word (mem c) (sp + d)) as Hframe.
  { intros d Hd. apply mem_load_ext. intros i Hi. apply Hfr. rewrite u64_sub_l.
    replace (sp + d + i - sp) with (d + i) by lia. rewrite u64_id by lia. lia. }
  exists c'. split; [exact Hrun|]. split.
  { destruct Hret as (Ha & Hb & Hc & Hd & Hf). unfold returns_to. fold sp in Ha, Hb, Hc, Hd, Hf.
    rewrite Ha, Hb, Hc, Hd, Hf, !Hframe by lia. split; [|by split_and!].
    rewrite <- (Z.add_0_r sp) at 1 2. apply Hframe. lia. }
  split; [exact Hregs|]. unfold ctl in Hctl. injection Hctl as _ _ _ Hr3 Hr6 Hr7.
  split; [by rewrite Hc3|]. split; [by rewrite Hc6|]. split; [by rewrite Hc7|].
  revert Hrec. apply db_recorded_ext. intros d Hd.
  apply (same_range_word sp _ _ _ _ (u64 (pad - sp) + d) Hm); [|lia..].
  rewrite <- u64_shift by lia. rewrite u64_u64. f_equal. lia.
Qed.
