(* ===== verification/Idt.v ===== *)
(** * The interrupt descriptor table of the interposer module
    ([idtr_interposer/kmod/main.c])

    Tables live at addresses in kernel memory, every processor has its own table
    register. The module duplicates the table of the processor it runs on,
    redirects four vectors and loads the copy everywhere. *)
From S2P Require Import Prelude X86.

Open Scope Z_scope.

(** [struct dtr], [struct idt_entry]; bit fields hold their values. *)
Record dtr := Dtr { limit : Z; base : Z }.
Record idt_entry := IdtEntry {
  offset0 : Z;
  selector : Z;
  ist : Z;
  type : Z;
  dpl : Z;
  p : Z;
  offset1 : Z;
  offset2 : Z;
  reserved : Z;
}.
Definition sizeof_idt_entry : Z := 16.

(** What [printk] shows of an entry. *)
Record idt_line := IdtLine {
  l_index : nat; l_offset : Z; l_selector : Z; l_ist : Z; l_type_attr : Z }.

Record idtw := Idtw {
  idts : gmap Z (list idt_entry);  (* tables in memory *)
  idtrs : list dtr;                (* table register of each processor *)
  this_cpu : nat;                  (* the processor we run on *)
  old_idtr : dtr;
  log : list (list idt_line);
}.

Definition set_idts (f : gmap Z (list idt_entry) → gmap Z (list idt_entry)) (w : idtw) : idtw :=
  Idtw (f (idts w)) (idtrs w) (this_cpu w) (old_idtr w) (log w).
Definition set_idtrs (f : list dtr → list dtr) (w : idtw) : idtw :=
  Idtw (idts w) (f (idtrs w)) (this_cpu w) (old_idtr w) (log w).
Definition set_old (d : dtr) (w : idtw) : idtw :=
  Idtw (idts w) (idtrs w) (this_cpu w) d (log w).
Definition add_log (l : list idt_line) (w : idtw) : idtw :=
  Idtw (idts w) (idtrs w) (this_cpu w) (old_idtr w) (log w ++ [l]).

(** [sidt], [lidt] on the processor we run on *)
Definition sidt : M idtw dtr := w ← getM; derefM (idtrs w !! this_cpu w).
Definition lidt (d : dtr) : M idtw unit := modifyM (λ w, set_idtrs <[this_cpu w := d]> w).

Definition entry_offset (e : idt_entry) : Z :=
  Z.lor (Z.lor (Z.shiftl (offset2 e) 32) (Z.shiftl (offset1 e) 16)) (offset0 e).
Definition entry_line (i : nat) (e : idt_entry) : idt_line :=
  IdtLine i (entry_offset e) (selector e) (ist e)
    (Z.lor (Z.lor (Z.land (type e) 0x0f) (Z.shiftl (Z.land (dpl e) 0x03) 5))
       (Z.shiftl (Z.land (p e) 0x01) 7)).

Fixpoint idt_lines (n i : nat) (t : list idt_entry) : M idtw (list idt_line) :=
  match n with
  | O => mret []
  | S n => e ← derefM (t !! i); ls ← idt_lines n (S i) t; mret (entry_line i e :: ls)
  end.

Definition print_idt_entries : M idtw unit :=
  idtr ← sidt; w ← getM; t ← derefM (idts w !! base idtr);
  ls ← idt_lines 256 0 t; modifyM (add_log ls).

(** [alloc]: what [kmalloc_array] returns. *)
Definition duplicate_idt (alloc : option Z) : M idtw (option Z) :=
  idtr ← sidt;
  match alloc with
  | None => mret None
  | Some new_idt =>
      w ← getM; t ← derefM (idts w !! base idtr);
      _ ← (if (256 <=? length t)%nat then mret tt else faultM);
      _ ← modifyM (set_idts <[new_idt := take 256 t]>);
      mret (Some new_idt)
  end.

Definition set_offset (offset : Z) (e : idt_entry) : idt_entry :=
  IdtEntry (Z.land offset 0xFFFF) (selector e) (ist e) (type e) (dpl e) (p e)
    (Z.land (Z.shiftr offset 16) 0xFFFF) (Z.land (Z.shiftr offset 32) 0xFFFFFFFF) (reserved e).

Definition set_idt_entry (idt : option Z) (vector : nat) (handler_addr : Z) : M idtw unit :=
  a ← derefM idt; w ← getM; t ← derefM (idts w !! a); e ← derefM (t !! vector);
  modifyM (set_idts <[a := <[vector := set_offset handler_addr e]> t]>).

(** [on_each_cpu(load_idt_on_cpu, ...)] *)
Definition load_idt_on_cpu (d : dtr) (_ : dtr) : dtr := d.
Definition on_each_cpu (f : dtr → dtr) : M idtw unit := modifyM (set_idtrs (fmap f)).

(** Addresses of the assembly entry points. *)
Record handlers := Handlers {
  df_jmp_to_c : Z; tf_jmp_to_c : Z; int3_jmp_to_c : Z; db_jmp_to_c : Z }.

Definition setup_df_interposition (h : handlers) (alloc : option Z) : M idtw unit :=
  new_idt ← duplicate_idt alloc;
  _ ← set_idt_entry new_idt 8 (df_jmp_to_c h);
  _ ← set_idt_entry new_idt 14 (tf_jmp_to_c h);
  _ ← set_idt_entry new_idt 3 (int3_jmp_to_c h);
  _ ← set_idt_entry new_idt 1 (db_jmp_to_c h);
  let new_idtr := Dtr (u16 (sizeof_idt_entry * 256 - 1)) (default 0 new_idt) in
  on_each_cpu (load_idt_on_cpu new_idtr).

Definition greeter_init : M idtw Z := d ← sidt; _ ← modifyM (set_old d); mret 0.
Definition greeter_exit : M idtw unit := w ← getM; lidt (old_idtr w).

(** ** Offsets are split and joined without loss *)
Lemma offset_roundtrip e h : 0 <= h < 2 ^ 64 → entry_offset (set_offset h e) = h.
Proof.
  intros Hh. unfold entry_offset, set_offset. cbn [offset0 offset1 offset2].
  change 0xFFFF with (Z.ones 16). change 0xFFFFFFFF with (Z.ones 32).
  apply Z.bits_inj'. intros n Hn. rewrite !Z.lor_spec, !Z.shiftl_spec, !Z.land_spec by done.
  assert (64 <= n → Z.testbit h n = false) as Hhi.
  { intros Hge. rewrite Z.testbit_eqb by lia. rewrite Z.div_small; [done|].
    split; [lia|]. eapply Z.lt_le_trans; [apply Hh|apply Z.pow_le_mono_r; lia]. }
  destruct (Z.ltb_spec n 16), (Z.ltb_spec n 32), (Z.ltb_spec n 64); try lia;
    repeat (first [ rewrite (Z.testbit_neg_r _ (n - 32)) by lia | rewrite (Z.testbit_neg_r _ (n - 16)) by lia
                  | rewrite Z.land_spec | rewrite Z.shiftr_spec by lia | rewrite Z.testbit_ones_nonneg by lia ]);
    rewrite ?Z.sub_add;
    repeat match goal with |- context [ ?a <? ?b ] =>
      first [ rewrite (proj2 (Z.ltb_lt a b)) by lia | rewrite (proj2 (Z.ltb_ge a b)) by lia ] end;
    rewrite ?Hhi by lia; by rewrite ?andb_true_r, ?andb_false_r, ?orb_false_r.
Qed.

(** ** Setting up the interposition *)
Lemma set_idt_entry_run w a t v h :
  idts w !! a = Some t → (v < length t)%nat →
  set_idt_entry (Some a) v h w = Done tt (set_idts <[a := alter (set_offset h) v t]> w).
Proof.
  intros Ha Hv. apply lookup_lt_is_Some in Hv as [e He].
  assert (alter (set_offset h) v t = <[v := set_offset h e]> t) as ->
    by (apply list_eq; intros i; destruct (decide (i = v)) as [->|];
        [rewrite list_lookup_alter_eq, He, list_lookup_insert_eq by (by eapply lookup_lt_Some); done
        |by rewrite list_lookup_alter_ne, list_lookup_insert_ne]).
  unfold set_idt_entry, derefM. rewrite (bind_done _ _ w a w) by done.
  rewrite (bind_done _ _ w w w) by done. rewrite Ha, (bind_done _ _ w t w) by done.
  by rewrite He, (bind_done _ _ w e w).
Qed.

Definition redirect (h : handlers) (v : nat) : option Z :=
  match v with
  | 1 => Some (db_jmp_to_c h)
  | 3 => Some (int3_jmp_to_c h)
  | 8 => Some (df_jmp_to_c h)
  | 14 => Some (tf_jmp_to_c h)
  | _ => None
  end%nat.

(** The entry for vector [v] after the set-up. *)
Definition redirected (h : handlers) (v : nat) (e : idt_entry) : idt_entry :=
  match redirect h v with Some x => set_offset x e | None => e end.

Definition redirected_table (h : handlers) (t : list idt_entry) : list idt_entry :=
  alter (set_offset (db_jmp_to_c h)) 1%nat (alter (set_offset (int3_jmp_to_c h)) 3%nat
    (alter (set_offset (tf_jmp_to_c h)) 14%nat (alter (set_offset (df_jmp_to_c h)) 8%nat t))).

Lemma redirected_lookup h t v e :
  t !! v = Some e → redirected_table h t !! v = Some (redirected h v e).
Proof.
  intros Hv. unfold redirected_table, redirected, redirect.
  do 15 (destruct v as [|v]; [by rewrite ?list_lookup_alter_eq, ?list_lookup_alter_ne, ?list_lookup_alter_eq,
    ?list_lookup_alter_ne, ?list_lookup_alter_eq, ?Hv by done|]).
  by rewrite !list_lookup_alter_ne.
Qed.

Lemma setup_run h w a d t :
  idtrs w !! this_cpu w = Some d → idts w !! base d = Some t → (256 <= length t)%nat →
  setup_df_interposition h (Some a) w =
    Done tt (set_idtrs (fmap (λ _, Dtr 4095 a))
      (set_idts <[a := redirected_table h (take 256 t)]> w)).
Proof.
  intros Hd Ht Hl. unfold setup_df_interposition.
  set (t0 := take 256 t).
  assert (length t0 = 256%nat) as Hl0 by (subst t0; rewrite length_take; lia).
  rewrite (bind_done _ _ w (Some a) (set_idts <[a := t0]> w)).
  2:{ unfold duplicate_idt. rewrite (bind_done _ _ w d w)
        by (unfold sidt; rewrite (bind_done _ _ w w w) by done; by rewrite Hd).
      rewrite (bind_done _ _ w w w), Ht, (bind_done _ _ w t w) by done.
      by rewrite (proj2 (Nat.leb_le 256 (length t)) Hl). }
  do 4 (erewrite bind_done
    by (apply set_idt_entry_run; [apply lookup_insert_eq|rewrite ?length_alter; lia])).
  unfold on_each_cpu, modifyM, set_idts, set_idtrs. cbn. do 2 f_equal. by rewrite !insert_insert_eq.
Qed.

(** ** Printing, and the program ([idtr_interposer/main.c]) *)
Lemma idt_lines_run n i t w :
  (i + n <= length t)%nat →
  idt_lines n i t w = Done (imap (λ k e, entry_line (i + k) e) (take n (drop i t))) w.
Proof.
  revert i. induction n as [|n IH]; intros i Hl; cbn [idt_lines]; [done|].
  destruct (lookup_lt_is_Some_2 t i) as [e He]; [lia|]. rewrite He, (drop_S t e i He). step.
  rewrite (bind_done _ _ w _ w (IH (S i) ltac:(lia))). unfold mret, M_ret. cbn. do 2 f_equal; [f_equal; lia|].
  apply imap_ext. intros k x Hx. cbn. f_equal. lia.
Qed.

Lemma print_idt_entries_log w d t :
  idtrs w !! this_cpu w = Some d → idts w !! base d = Some t → length t = 256%nat →
  print_idt_entries w = Done tt (add_log (imap entry_line t) w).
Proof.
  intros Hd Ht Hl. unfold print_idt_entries.
  rewrite (bind_done _ _ w d w) by (unfold sidt; rewrite (bind_done _ _ w w w) by done; by rewrite Hd).
  rewrite (bind_done _ _ w w w), Ht, (bind_done _ _ w t w) by done.
  rewrite (bind_done _ _ w _ w (idt_lines_run 256 0 t w ltac:(lia))). by rewrite drop_0, take_ge by lia.
Qed.

(** [SYM_ON_KERN_STACK_DYNSYM_DO]: the work is done. *)
Class KernelWork (on : M idtw unit → M idtw unit) :=
  kernel_work : ∀ m w w', m w = Done tt w' → on m w = Done tt w'.

Section program.
Context (on : M idtw unit → M idtw unit) `{!KernelWork on}.

Definition interposer_main (h : handlers) (alloc : option Z) : M idtw Z :=
_ ← on (setup_df_interposition h alloc);
_ ← on print_idt_entries;
mret 0.

(** The program prints the table it has just put in place. *)
Lemma interposer_main_run h w a d t :
idtrs w !! this_cpu w = Some d → idts w !! base d = Some t → (256 <= length t)%nat →
∃ w', interposer_main h (Some a) w = Done 0 w' ∧
  log w' = log w ++ [imap entry_line (redirected_table h (take 256 t))] ∧
  idtrs w' = (λ _, Dtr 4095 a) <$> idtrs w.
Proof using KernelWork0.
intros Hd Ht Hl. unfold interposer_main. step_by (kernel_work _ _ _ (setup_run h w a d t Hd Ht Hl)).
set (w1 := set_idtrs _ _).
assert (print_idt_entries w1 = Done tt (add_log (imap entry_line (redirected_table h (take 256 t))) w1)) as Hp.
{ apply (print_idt_entries_log _ (Dtr 4095 a)); unfold w1; cbn.
  - by rewrite list_lookup_fmap, Hd.
  - apply lookup_insert_eq.
  - unfold redirected_table. rewrite !length_alter, length_take. lia. }
step_by (kernel_work _ _ _ Hp). by eexists.
Qed.
End program.
