(* ===== verification/IntProps.v ===== *)
(** * What the exception interposers guarantee

    The properties of [Interposer] and [Idt], proved from the lemmas of
    [InterposerSpec] and [Idt], each followed by an instance at a concrete
    input. *)
From S2P Require Import Prelude X86 Interposer InterposerSpec Idt.

Open Scope Z_scope.

(** ** A machine to try the handlers on *)

(** Every register holds [sp]; memory holds [int3] instructions from [text] on and
    zeroes elsewhere, except for one word. *)
Definition demo_cpu (sp a v : Z) (d6 d7 : Z) : cpu :=
  Cpu (λ _, sp) 0 0x10 0x202 0x18 0x5000 d6 d7 (mem_store 8 (λ x, if x <? 0x9000 then 0 else 0xcc) a v).
Definition demo_callee : callee := Callee 0x400123 256 (λ x, x mod 256) (λ _, 0xdead).

Lemma demo_regs sp a v d6 d7 : (0 <=? sp) && (sp <? 2 ^ 64) = true → regs_ok (demo_cpu sp a v d6 d7).
Proof. intros [H1%Z.leb_le H2%Z.ltb_lt]%andb_true_iff r. cbn. lia. Qed.

(** C4: the page fault and the double fault interposers give the kernel's page
    fault handler the interrupted context unchanged: every register, the control
    registers and all memory above the error code are as they were; only the
    error code differs, which has the user bit set (page fault) or says user and
    write (double fault). *)
Theorem interposers_transparent e c :
  regs_ok c → 0 <= ce_frame e <= 2 ^ 32 →
  (∃ c', INTERPOSER_HANDLER e tf_c_entry c = Done tt c' ∧
     went_on c c' (Z.lor (word (mem c) (regs c RSP)) USER_FT)) ∧
  (∃ c', INTERPOSER_HANDLER e df_c_entry c = Done tt c' ∧ went_on c c' (Z.lor USER_FT WR_FT)).
Proof. intros Hok He. split; [exact (tf_spec e c Hok He)|exact (df_spec e c Hok He)]. Qed.

Lemma interposers_transparent_witness :
  let c := demo_cpu 0x7000 0x7000 2 0 0 in
  (∃ c', INTERPOSER_HANDLER demo_callee tf_c_entry c = Done tt c' ∧
     went_on c c' (Z.lor (word (mem c) (regs c RSP)) USER_FT)) ∧
  (∃ c', INTERPOSER_HANDLER demo_callee df_c_entry c = Done tt c' ∧ went_on c c' (Z.lor USER_FT WR_FT)).
Proof.
  apply (interposers_transparent demo_callee (demo_cpu 0x7000 0x7000 2 0 0)).
  - apply demo_regs. vm_compute. reflexivity.
  - vm_compute. split; intros H; discriminate H.
Defined.

(** the breakpoint handler returns to the instruction that trapped with all
    registers and flags as they were, and has put the byte [0x0f] back in place
    of the [int3]; no other memory above the frame changed. *)
Theorem int3_trap e fuel c :
  let sp := regs c RSP in let t := u64 (word (mem c) sp - 1) in
  regs_ok c → 0 <= ce_frame e <= 2 ^ 32 → 40 <= u64 (t - sp) < 2 ^ 61 → byte (mem c) t = 0xcc →
  ∃ c', TRAP_HANDLER e (bp_c_entry (S fuel)) c = Done tt c' ∧
    rip c' = t ∧ cs c' = word (mem c) (sp + 8) ∧ rflags c' = word (mem c) (sp + 16) ∧
    regs c' RSP = word (mem c) (sp + 24) ∧ ss c' = word (mem c) (sp + 32) ∧
    (∀ r, r ≠ RSP → regs c' r = regs c r) ∧ byte (mem c') t = 0xf ∧
    ∀ x, 8 <= u64 (x - sp) < 2 ^ 61 → u64 x ≠ t → mem c' x = mem c x.
Proof. exact (int3_spec e fuel c). Qed.

Lemma int3_trap_witness :
  let c := demo_cpu 0x7000 0x7000 0x9101 0 0 in
  ∃ c', TRAP_HANDLER demo_callee (bp_c_entry 1) c = Done tt c' ∧ rip c' = 0x9100 ∧
    byte (mem c') 0x9100 = 0xf.
Proof.
  destruct (int3_trap demo_callee 0 (demo_cpu 0x7000 0x7000 0x9101 0 0)) as (c' & H1 & H2 & _ & _ & _ & _ & _ & H3 & _).
  - apply demo_regs. vm_compute. reflexivity.
  - vm_compute. split; intros H; discriminate H.
  - vm_compute. split; [intros H; discriminate H|reflexivity].
  - vm_compute. reflexivity.
  - exists c'. split; [exact H1|]. split; [exact H2|exact H3].
Defined.

(** C20: the debug exception handler, with its scratchpad above the stack it runs on and a frame of
    its C function of at most 4 GB, returns to the interrupted instruction with
    all registers, CR3 and DR6 as they were. Of DR7 it clears the enable bits of the breakpoints
    that DR6 reports, and the two condition bits of those of them that
    were enabled, and no other bit. The scratchpad records the breakpoint (the highest that is
    locally enabled, else the highest that is globally enabled, else 9), the new DR7, CR3, the
    registers and the instruction pointer. *)
Theorem debug_trap e hdl_pg c :
  let sp := regs c RSP in let pad := word (mem c) (scratch_slot hdl_pg) in
  regs_ok c → 0 <= ce_frame e <= 2 ^ 32 →
  u64 (scratch_slot hdl_pg - sp) < 2 ^ 61 → 40 <= u64 (pad - sp) < 2 ^ 60 →
  ∃ c', TRAP_HANDLER e (db_c_entry hdl_pg) c = Done tt c' ∧ returns_to (mem c) sp c' ∧
    (∀ r, r ≠ RSP → regs c' r = regs c r) ∧ cr3 c' = cr3 c ∧ dr6 c' = dr6 c ∧
    db_recorded (hit_number (dr6 c) (dr7 c)) (dr7 c') c pad (mem c') ∧
    ∀ k, 0 <= k → Z.testbit (dr7 c') k =
      Z.testbit (dr7 c) k &&
      negb (if k <? 8 then Z.testbit (dr6 c) (k / 2)
            else (16 <=? k) && (k <? 32) && (k mod 4 <? 2) && triggered (dr6 c) (dr7 c) ((k - 16) / 4)).
Proof.
  intros sp pad Hok He Hslot Hpad.
  destruct (db_spec e hdl_pg c Hok He Hslot Hpad) as (c' & Hrun & Hret & Hregs & H3 & H6 & H7 & Hrec).
  exists c'. split; [exact Hrun|]. split; [exact Hret|]. split; [exact Hregs|].
  split; [exact H3|]. split; [exact H6|]. rewrite db_tests_hit, <- H7 in Hrec. split; [exact Hrec|].
  intros k Hk. rewrite H7. by apply db_tests_bit.
Qed.

(** Breakpoint 2 is hit and locally enabled, with length bits set. *)
Lemma debug_trap_witness :
  let c := demo_cpu 0x6000 0x6ff8 0x8000 4 (Z.lor 0x300 (Z.lor (Z.shiftl 3 4) (Z.shiftl 15 24))) in
  ∃ c', TRAP_HANDLER demo_callee (db_c_entry 0x6123) c = Done tt c' ∧
    word (mem c') (0x8000 + sp_dr_hit) = 2 ∧ Z.testbit (dr7 c') 4 = false ∧
    Z.testbit (dr7 c') 24 = false ∧ Z.testbit (dr7 c') 26 = true.
Proof.
  destruct (debug_trap demo_callee 0x6123 (demo_cpu 0x6000 0x6ff8 0x8000 4 (Z.lor 0x300 (Z.lor (Z.shiftl 3 4) (Z.shiftl 15 24)))))
    as (c' & H1 & _ & _ & _ & _ & [H2 _] & H3).
  - apply demo_regs. vm_compute. reflexivity.
  - vm_compute. split; intros H; discriminate H.
  - vm_compute. reflexivity.
  - vm_compute. split; [intros H; discriminate H|reflexivity].
  - exists c'. split; [exact H1|]. split; [exact H2|].
    split; [|split]; rewrite H3 by lia; reflexivity.
Defined.

(** ** The descriptor table *)

(** The 256 vectors of a machine whose handlers are at [0x1000 * v]. *)
Definition demo_table : list idt_entry :=
  (λ v, set_offset (0x1000 * Z.of_nat v) (IdtEntry 0 0x10 0 0xe 0 1 0 0 0)) <$> seq 0 256.
Definition demo_idtw : idtw :=
  Idtw {[0xfffffe0000000000 := demo_table]} [Dtr 4095 0xfffffe0000000000; Dtr 4095 0xfffffe0000000000] 0
    (Dtr 0 0) [].
Definition demo_handlers : handlers :=
  Handlers 0xffffffffc0001000 0xffffffffc0002000 0xffffffffc0003000 0xffffffffc0004000.

(** C18: setting up the interposition loads one new table on every processor. Its
    entries for debug, breakpoint, double fault and page fault lead to the
    interposers, in full 64-bit addresses, and keep their other members; all
    other entries are those of the table that was in use, which is untouched. *)
Theorem interposition_setup h w a d t :
  idtrs w !! this_cpu w = Some d → idts w !! base d = Some t → length t = 256%nat → a ≠ base d →
  (∀ v x, redirect h v = Some x → 0 <= x < 2 ^ 64) →
  ∃ w' t', setup_df_interposition h (Some a) w = Done tt w' ∧
    idtrs w' = (λ _, Dtr 4095 a) <$> idtrs w ∧ idts w' !! a = Some t' ∧
    length t' = 256%nat ∧ idts w' !! base d = Some t ∧
    ∀ v e, t !! v = Some e → ∃ e', t' !! v = Some e' ∧
      entry_offset e' = default (entry_offset e) (redirect h v) ∧
      (redirect h v = None → e' = e) ∧ set_offset (entry_offset e) e' = set_offset (entry_offset e) e.
Proof.
  intros Hd Ht Hl Ha Hh. eexists _, (redirected_table h t).
  split; [by apply (setup_run _ _ _ d t); [..|lia]|]. rewrite take_ge by lia. cbn.
  split; [done|]. split; [apply lookup_insert_eq|].
  split; [unfold redirected_table; by rewrite !length_alter|].
  split; [by rewrite lookup_insert_ne|].
  intros v e Hv. exists (redirected h v e). split; [by apply redirected_lookup|].
  unfold redirected. destruct (redirect h v) as [x|] eqn:E; [|done]. cbn.
  split; [by apply offset_roundtrip, (Hh v)|done].
Qed.

Lemma demo_redirects v x : redirect demo_handlers v = Some x → 0 <= x < 2 ^ 64.
Proof. unfold redirect. intros H. repeat (destruct v as [|v]; try discriminate H; try (injection H as <-; vm_compute; split; [intros C; discriminate C|reflexivity])). Qed.

Lemma interposition_setup_witness :
  ∃ w' t', setup_df_interposition demo_handlers (Some 0xffff888000100000) demo_idtw = Done tt w' ∧
    idtrs w' = [Dtr 4095 0xffff888000100000; Dtr 4095 0xffff888000100000] ∧
    idts w' !! 0xffff888000100000 = Some t' ∧
    ∃ e', t' !! 14%nat = Some e' ∧ entry_offset e' = 0xffffffffc0002000.
Proof.
  destruct (interposition_setup demo_handlers demo_idtw 0xffff888000100000
    (Dtr 4095 0xfffffe0000000000) demo_table) as (w' & t' & H1 & H2 & H3 & _ & _ & H4).
  - reflexivity.
  - reflexivity.
  - reflexivity.
  - vm_compute. intros H. discriminate H.
  - apply demo_redirects.
  - exists w', t'. split; [exact H1|]. split; [exact H2|]. split; [exact H3|].
    destruct (H4 14%nat (set_offset 0xe000 (IdtEntry 0 0x10 0 0xe 0 1 0 0 0)) eq_refl) as (e' & H5 & H6 & _).
    exists e'. split; [exact H5|exact H6].
Defined.

(** C40: unloading the module puts the old table back on the processor it runs on
    only: every other processor keeps using the table the module allocated. When
    the allocation fails, the set-up writes through the null pointer. *)
Theorem interposition_unload h w a d t w1 w2 :
  idtrs w !! this_cpu w = Some d → idts w !! base d = Some t → (256 <= length t)%nat →
  greeter_init w = Done 0 w1 → setup_df_interposition h (Some a) w1 = Done tt w2 →
  setup_df_interposition h None w = Fault ∧
  ∃ w3, greeter_exit w2 = Done tt w3 ∧ idtrs w3 !! this_cpu w = Some d ∧
    ∀ k, k ≠ this_cpu w → idtrs w3 !! k = (λ _, Dtr 4095 a) <$> idtrs w !! k.
Proof.
  intros Hd Ht Hl Hinit Hset.
  assert (sidt w = Done d w) as Hsidt by (unfold sidt; rewrite (bind_done _ _ w w w) by reflexivity; by rewrite Hd).
  assert (w1 = set_old d w) as ->.
  { unfold greeter_init in Hinit. rewrite (bind_done _ _ _ _ _ Hsidt) in Hinit. by injection Hinit. }
  rewrite (setup_run h (set_old d w) a d t) in Hset by done. injection Hset as <-. split.
  { unfold setup_df_interposition. rewrite (bind_done _ _ w None w); [reflexivity|].
    unfold duplicate_idt. by step_by Hsidt. }
  eexists. split; [reflexivity|]. cbn. pose proof (lookup_lt_Some _ _ _ Hd) as Hlt. split.
  - apply list_lookup_insert_eq. by rewrite length_fmap.
  - intros k Hk. by rewrite list_lookup_insert_ne, list_lookup_fmap.
Qed.

Lemma interposition_unload_witness :
  let w1 := set_old (Dtr 4095 0xfffffe0000000000) demo_idtw in
  let w2 := set_idtrs (fmap (λ _, Dtr 4095 0x9000))
    (set_idts <[0x9000 := redirected_table demo_handlers (take 256 demo_table)]> w1) in
  ∃ w3, greeter_exit w2 = Done tt w3 ∧ idtrs w3 = [Dtr 4095 0xfffffe0000000000; Dtr 4095 0x9000].
Proof.
  cbv zeta.
  destruct (interposition_unload demo_handlers demo_idtw 0x9000 (Dtr 4095 0xfffffe0000000000) demo_table
    (set_old (Dtr 4095 0xfffffe0000000000) demo_idtw)
    (set_idtrs (fmap (λ _, Dtr 4095 0x9000))
      (set_idts <[0x9000 := redirected_table demo_handlers (take 256 demo_table)]>
        (set_old (Dtr 4095 0xfffffe0000000000) demo_idtw)))) as (_ & w3 & H1 & _ & _).
  - reflexivity.
  - reflexivity.
  - apply Nat.leb_le. reflexivity.
  - reflexivity.
  - apply (setup_run demo_handlers (set_old (Dtr 4095 0xfffffe0000000000) demo_idtw) 0x9000
      (Dtr 4095 0xfffffe0000000000) demo_table); [reflexivity..|apply Nat.leb_le; reflexivity].
  - exists w3. split; [exact H1|]. injection H1 as <-. reflexivity.
Defined.
