(* ===== verification/Adaptor.v ===== *)
(** * The fault adaptors of the kernel extension ([kcuttest/idtadaptor.h],
    [idtadaptor.kc], [efadaptor.kc], [pfadaptor.kc])

    A copy of the interrupt descriptor table is changed and loaded on every
    processor. [ef_adaptor_init] sends every vector that has no interrupt stack
    of its own to a stack the extension allocates for each processor;
    [pf_adaptor_init] puts fault handlers in front of three of the kernel's.
    Tables live at addresses; [pages] are the pages the page allocator has handed
    out. Freeing an address that was not handed out is a fault, as is any access
    through a null table. What the allocator returns is data. Printing is not
    modelled, neither is the touching of pages, which changes nothing. *)
From S2P Require Import Prelude.
From S2P Require Import X86.
From S2P Require Import Idt.

Open Scope Z_scope.

(** The kernel's [gate_desc]; bit fields hold their values. *)
Record gate_desc := Gate {
  offset_low : Z;
  segment : Z;
  g_ist : Z;
  g_zero : Z;
  g_type : Z;
  g_dpl : Z;
  g_p : Z;
  offset_middle : Z;
  offset_high : Z;
  g_reserved : Z;
}.

Definition gate_offset (g : gate_desc) : Z :=
  Z.lor (Z.lor (offset_low g) (Z.shiftl (offset_middle g) 16)) (Z.shiftl (offset_high g) 32).
Definition gate_set_offset (addr : Z) (g : gate_desc) : gate_desc :=
  Gate (u16 addr) (segment g) (g_ist g) (g_zero g) (g_type g) (g_dpl g) (g_p g)
    (u16 (Z.shiftr addr 16)) (u32 (Z.shiftr addr 32)) (g_reserved g).
Definition gate_set_ist (i : Z) (g : gate_desc) : gate_desc :=
  Gate (offset_low g) (segment g) i (g_zero g) (g_type g) (g_dpl g) (g_p g)
    (offset_middle g) (offset_high g) (g_reserved g).

Definition IDT_ENTRIES : nat := 256.
Definition IDT_LIMIT : Z := 16 * 256 - 1.
Definition IST_INDEX_EF : Z := 6.
Definition KERNEL_CS : Z := 0x10.
Definition PAGE_SIZE : Z := 4096.
Definition GATE_INTERRUPT : Z := 0xE.
Definition ENOMEM : Z := 12.
Definition EINVAL : Z := 22.
Definition X86_TRAP_DF : Z := 8.
Definition X86_TRAP_GP : Z := 13.
Definition X86_TRAP_PF : Z := 14.

(** Addresses of the assembly code. *)
Record symbols := Symbols {
  ef_adaptor_isrs : Z;
  ef_adaptor_isr_len : Z;
  ef_adaptor_tsthdlr_asm : Z;
  pf_adaptor_asm_fix_err_code_u : Z;
  pf_adaptor_asm_fix_err_code_uw : Z;
  pf_adaptor_asm_fix_err_code_gp : Z;
}.

(** The static variables of [pfadaptor.kc]: the kernel's handlers. *)
Record pfstatics := PfStatics {
  pf_adaptor_asm_exc_page_fault : Z;
  pf_adaptor_asm_exc_double_fault : Z;
  pf_adaptor_asm_exc_general_protection : Z;
  df_handler_location : Z;
}.

Record adw := Adw {
  tables : gmap Z (list gate_desc);
  pages : gset Z;
  idtr : list dtr;                (* table register of each processor *)
  cpu_id : nat;                   (* the processor we run on *)
  ists : list Z;                  (* [tss.ist[IST_INDEX_EF]] of each processor *)
  orig_idt : Z;
  current_idt : Z;
  ef_adaptor_orig_isrs : list Z;
  statics : pfstatics;
}.

Definition set_tables (f : gmap Z (list gate_desc) → gmap Z (list gate_desc)) (w : adw) : adw :=
  Adw (f (tables w)) (pages w) (idtr w) (cpu_id w) (ists w) (orig_idt w) (current_idt w)
    (ef_adaptor_orig_isrs w) (statics w).
Definition set_pages (f : gset Z → gset Z) (w : adw) : adw :=
  Adw (tables w) (f (pages w)) (idtr w) (cpu_id w) (ists w) (orig_idt w) (current_idt w)
    (ef_adaptor_orig_isrs w) (statics w).
Definition set_idtr (f : list dtr → list dtr) (w : adw) : adw :=
  Adw (tables w) (pages w) (f (idtr w)) (cpu_id w) (ists w) (orig_idt w) (current_idt w)
    (ef_adaptor_orig_isrs w) (statics w).
Definition set_ists (f : list Z → list Z) (w : adw) : adw :=
  Adw (tables w) (pages w) (idtr w) (cpu_id w) (f (ists w)) (orig_idt w) (current_idt w)
    (ef_adaptor_orig_isrs w) (statics w).
Definition set_orig_idt (v : Z) (w : adw) : adw :=
  Adw (tables w) (pages w) (idtr w) (cpu_id w) (ists w) v (current_idt w)
    (ef_adaptor_orig_isrs w) (statics w).
Definition set_current_idt (v : Z) (w : adw) : adw :=
  Adw (tables w) (pages w) (idtr w) (cpu_id w) (ists w) (orig_idt w) v
    (ef_adaptor_orig_isrs w) (statics w).
Definition set_isrs (f : list Z → list Z) (w : adw) : adw :=
  Adw (tables w) (pages w) (idtr w) (cpu_id w) (ists w) (orig_idt w) (current_idt w)
    (f (ef_adaptor_orig_isrs w)) (statics w).
Definition set_statics (f : pfstatics → pfstatics) (w : adw) : adw :=
  Adw (tables w) (pages w) (idtr w) (cpu_id w) (ists w) (orig_idt w) (current_idt w)
    (ef_adaptor_orig_isrs w) (f (statics w)).

(** ** The kernel's services *)

(** [alloc_pages] of one page, with its answer. *)
Definition alloc_page (answer : option Z) : M adw Z :=
  match answer with
  | None => mret 0
  | Some a => _ ← modifyM (set_pages (λ s, {[a]} ∪ s)); mret a
  end.
Definition free_pages (a : Z) : M adw unit :=
  if a =? 0 then mret tt else
  w ← getM;
  if decide (a ∈ pages w)
  then modifyM (λ w, set_tables (delete a) (set_pages (λ s, s ∖ {[a]}) w)) else faultM.

Definition load_table (a : Z) : M adw (list gate_desc) :=
  if a =? 0 then faultM else w ← getM; derefM (tables w !! a).
Definition load_gate (a n : Z) : M adw gate_desc :=
  t ← load_table a; if n <? 0 then faultM else derefM (t !! Z.to_nat n).
Definition write_idt_entry (a n : Z) (g : gate_desc) : M adw unit :=
  t ← load_table a;
  if (n <? 0) || (Z.of_nat (length t) <=? n) then faultM
  else modifyM (set_tables <[a := <[Z.to_nat n := g]> t]>).
Definition read_gate (idt n : Z) : M adw gate_desc := load_gate idt n.

Definition store_idt : M adw dtr := w ← getM; derefM (idtr w !! cpu_id w).

(** [on_each_cpu] for a function with effects, one processor after the other. *)
Fixpoint run_cpus (f : nat → M adw unit) (cpus : list nat) : M adw unit :=
  match cpus with [] => mret tt | c :: cpus => _ ← f c; run_cpus f cpus end.
Definition on_cpus (f : nat → M adw unit) : M adw unit :=
  w ← getM; run_cpus f (seq 0 (length (idtr w))).

(** ** [idtadaptor.kc] *)
Definition idt_adaptor_clone (answer : option Z) : M adw Z :=
  new_idt ← alloc_page answer;
  if new_idt =? 0 then mret 0 else
  w ← getM;
  src_idt ← (if negb (current_idt w =? 0) then mret (current_idt w)
             else d ← store_idt;
                  let orig := if orig_idt w =? 0 then base d else orig_idt w in
                  _ ← modifyM (set_orig_idt orig); mret orig);
  t ← load_table src_idt;
  _ ← (if (IDT_ENTRIES <=? length t)%nat then mret tt else faultM);
  _ ← modifyM (set_tables <[new_idt := take IDT_ENTRIES t]>);
  mret new_idt.

Definition load_idt_wrapper (d : dtr) (c : nat) : M adw unit := modifyM (set_idtr <[c := d]>).

Definition idt_adaptor_activate (idt : Z) : M adw unit :=
  _ ← on_cpus (load_idt_wrapper (Dtr IDT_LIMIT idt));
  w ← getM;
  _ ← (if negb (current_idt w =? 0) then free_pages (current_idt w) else mret tt);
  modifyM (set_current_idt idt).

Definition idt_adaptor_release (idt : Z) : M adw unit := free_pages idt.

(** ** [efadaptor.kc] *)
Section ef.
Context (sy : symbols).

(** [__get_free_pages] answers [stack c] on processor [c]; the shared return code
    is handed from processor to processor. *)
Definition ef_adaptor_setup_tss (stack : nat → option Z) (c : nat) (rc : Z) : M adw Z :=
w ← getM; i ← derefM (ists w !! c);
if i =? 0 then
  efstack ← alloc_page (stack c);
  if efstack =? 0 then mret (Z.lor rc (- ENOMEM))
  else _ ← modifyM (set_ists <[c := u64 (efstack + PAGE_SIZE)]>); mret rc
else mret rc.

Fixpoint setup_tss_loop (stack : nat → option Z) (cpus : list nat) (rc : Z) : M adw Z :=
match cpus with
| [] => mret rc
| c :: cpus => rc ← ef_adaptor_setup_tss stack c rc; setup_tss_loop stack cpus rc
end.

Definition ef_adaptor_cleanup_tss (c : nat) : M adw unit :=
w ← getM; i ← derefM (ists w !! c);
if negb (i =? 0) then
  _ ← modifyM (set_ists <[c := 0]>);
  w ← getM; i ← derefM (ists w !! c); free_pages (u64 (i - PAGE_SIZE))
else mret tt.

(** [cmpxchg(&ef_adaptor_orig_isrs[vec], 0, hdlr)]: the old value. *)
Definition cmpxchg_isr (vec hdlr : Z) : M adw Z :=
w ← getM; old ← derefM (ef_adaptor_orig_isrs w !! Z.to_nat vec);
_ ← (if old =? 0 then modifyM (set_isrs <[Z.to_nat vec := hdlr]>) else mret tt);
mret old.

Definition test_gate (g : gate_desc) : gate_desc :=
gate_set_offset (ef_adaptor_tsthdlr_asm sy)
  (Gate (offset_low g) KERNEL_CS 0 0 GATE_INTERRUPT 3 1 (offset_middle g) (offset_high g)
     (g_reserved g)).

Definition isr_addr (vec : Z) : Z := u64 (ef_adaptor_isrs sy + ef_adaptor_isr_len sy * vec).

Definition process_vec (idt : Z) (tsthdlr : bool) (vec : Z) : M adw Z :=
g ← read_gate idt vec;
let g := if negb (g_p g =? 0) && tsthdlr then test_gate g else g in
let hdlr := gate_offset g in
if negb (g_ist g =? 0) then mret 0
else
  let g := gate_set_ist (IST_INDEX_EF + 1) g in
  savedhdlr ← cmpxchg_isr vec hdlr;
  if negb (savedhdlr =? 0) && negb (savedhdlr =? hdlr) then mret (-1)
  else
    _ ← write_idt_entry idt vec (gate_set_offset (isr_addr vec) g);
    mret 1.

(** Both loops over vectors; [None] is [goto error]. *)
Fixpoint process_vecs (idt : Z) (tsthdlr : bool) (vecs : list Z) (dirty : Z) : M adw (option Z) :=
match vecs with
| [] => mret (Some dirty)
| v :: vecs =>
    rc ← process_vec idt tsthdlr v;
    if rc <? 0 then mret None else process_vecs idt tsthdlr vecs (dirty + rc)
end.

(** The vectors [vstart] to [vend]. *)
Definition vec_range (vstart vend : Z) : list Z :=
if (0 <=? vstart) && (vstart <? vend) then seqZ vstart (vend - vstart + 1) else [].

(** The label [error]. *)
Definition ef_adaptor_error (idt : Z) : M adw Z :=
_ ← on_cpus ef_adaptor_cleanup_tss;
_ ← (if negb (idt =? 0) then idt_adaptor_release idt else mret tt);
mret (- EINVAL).

(** [table], [stack]: what the allocator answers for the new table and for the
  stack of each processor. *)
Definition ef_adaptor_init (table : option Z) (stack : nat → option Z) (vecs : list Z)
  (vstart vend : Z) (tsthdlr : bool) : M adw Z :=
w ← getM;
rc ← setup_tss_loop stack (seq 0 (length (idtr w))) 0;
if rc <? 0 then ef_adaptor_error 0
else
  idt ← idt_adaptor_clone table;
  r ← process_vecs idt tsthdlr (vecs ++ vec_range vstart vend) 0;
  match r with
  | None => ef_adaptor_error idt
  | Some dirty =>
      _ ← (if negb (dirty =? 0) then idt_adaptor_activate idt else idt_adaptor_release idt);
      mret dirty
  end.

(** The offset of the double fault entry of the table in use. *)
Definition set_local_df_handler_location : M adw unit :=
d ← store_idt;
g ← load_gate (base d) X86_TRAP_DF;
modifyM (set_statics (λ s, PfStatics (pf_adaptor_asm_exc_page_fault s)
  (pf_adaptor_asm_exc_double_fault s) (pf_adaptor_asm_exc_general_protection s) (gate_offset g))).

Definition extension_init (table : option Z) (stack : nat → option Z) : M adw Z :=
_ ← set_local_df_handler_location;
ret ← ef_adaptor_init table stack [] 0 255 false;
mret (if 0 <? ret then 0 else ret).

(** ** [pfadaptor.kc] *)

(** One of the three vectors: whether the table was changed, [None] for [goto
  error]. *)
Definition install (idt vec orig new : Z) : M adw (option bool) :=
g ← read_gate idt vec;
if negb (gate_offset g =? orig) then
  mret (if negb (gate_offset g =? new) then None else Some false)
else
  _ ← write_idt_entry idt vec (gate_set_offset new g); mret (Some true).

(** A static variable keeps the first value it is given. *)
Definition keep (old new : Z) : Z := if old =? 0 then new else old.

Definition pf_adaptor_init (table : option Z) (exc_pf exc_df exc_gp : Z) : M adw Z :=
idt ← idt_adaptor_clone table;
_ ← modifyM (set_statics (λ s, PfStatics (keep (pf_adaptor_asm_exc_page_fault s) exc_pf)
      (pf_adaptor_asm_exc_double_fault s) (pf_adaptor_asm_exc_general_protection s)
      (df_handler_location s)));
r1 ← install idt X86_TRAP_PF exc_pf (pf_adaptor_asm_fix_err_code_u sy);
match r1 with
| None => _ ← idt_adaptor_release idt; mret 0
| Some d1 =>
    _ ← modifyM (set_statics (λ s, PfStatics (pf_adaptor_asm_exc_page_fault s)
          (keep (pf_adaptor_asm_exc_double_fault s) exc_df)
          (pf_adaptor_asm_exc_general_protection s) (df_handler_location s)));
    r2 ← install idt X86_TRAP_DF exc_df (pf_adaptor_asm_fix_err_code_uw sy);
    match r2 with
    | None => _ ← idt_adaptor_release idt; mret 0
    | Some d2 =>
        _ ← modifyM (set_statics (λ s, PfStatics (pf_adaptor_asm_exc_page_fault s)
              (pf_adaptor_asm_exc_double_fault s)
              (keep (pf_adaptor_asm_exc_general_protection s) exc_gp) (df_handler_location s)));
        r3 ← install idt X86_TRAP_GP exc_gp (pf_adaptor_asm_fix_err_code_gp sy);
        match r3 with
        | None => _ ← idt_adaptor_release idt; mret 0
        | Some d3 =>
            _ ← (if d1 || d2 || d3 then idt_adaptor_activate idt else idt_adaptor_release idt);
            mret 1
        end
    end
end.
End ef.
