(* ===== verification/AdaptorSpec.v ===== *)
(** * What the fault adaptors do to the descriptor tables

    [in_use a t w]: the table [t] at address [a] is loaded on every processor and
    is the one the adaptors copy next. The adaptors replace it by a copy in which
    chosen entries are changed, and own exactly one page for it. *)
From S2P Require Import X86.
From S2P Require Import Idt.
From S2P Require Import Adaptor.
From S2P Require Import Prelude.

Open Scope Z_scope.

Record in_use (a : Z) (t : list gate_desc) (w : adw) : Prop := {
  iu_null : a ≠ 0;
  iu_table : tables w !! a = Some t;
  iu_len : length t = IDT_ENTRIES;
  iu_idtr : ∀ d, d ∈ idtr w → base d = a;
  iu_cpu : (cpu_id w < length (idtr w))%nat;
  iu_ists : length (ists w) = length (idtr w);
  iu_isrs : length (ef_adaptor_orig_isrs w) = IDT_ENTRIES;
  iu_owner : (current_idt w = a ∧ a ∈ pages w) ∨
             (current_idt w = 0 ∧ (orig_idt w = 0 ∨ orig_idt w = a) ∧ a ∉ pages w);
}.

(** A page the allocator may hand out. *)
Definition fresh_page (q : Z) (w : adw) : Prop := q ≠ 0 ∧ q ∉ pages w ∧ tables w !! q = None.

Lemma gate_offset_set addr g : 0 <= addr < 2 ^ 64 → gate_offset (gate_set_offset addr g) = addr.
Proof.
  intros H. etransitivity; [|apply (offset_roundtrip (IdtEntry 0 0 0 0 0 0 0 0 0) addr H)].
  unfold gate_offset, gate_set_offset, entry_offset, set_offset. cbn.
  change 0xFFFF with (Z.ones 16). change 0xFFFFFFFF with (Z.ones 32).
  rewrite !Z.land_ones by lia. fold (u16 addr) (u16 (Z.shiftr addr 16)) (u32 (Z.shiftr addr 32)).
  by rewrite Z.lor_comm, (Z.lor_comm (u16 addr)), Z.lor_assoc.
Qed.

(** ** Copies *)

(** The state with a copy of [t] at [q]. *)
Definition cloned (q a : Z) (t : list gate_desc) (w : adw) : adw :=
  set_tables <[q := t]>
    ((if current_idt w =? 0 then set_orig_idt a else id) (set_pages (λ s, {[q]} ∪ s) w)).

Lemma load_table_run a t w : a ≠ 0 → tables w !! a = Some t → load_table a w = Done t w.
Proof.
  intros Ha Ht. unfold load_table. rewrite (proj2 (Z.eqb_neq _ _) Ha). step. by rewrite Ht.
Qed.

Lemma load_gate_run a t w v g :
  a ≠ 0 → tables w !! a = Some t → t !! v = Some g → load_gate a (Z.of_nat v) w = Done g w.
Proof.
  intros Ha Ht Hv. unfold load_gate. step_by (load_table_run a t w Ha Ht).
  rewrite (proj2 (Z.ltb_ge _ _)) by lia. by rewrite Nat2Z.id, Hv.
Qed.

Lemma write_gate_run a t w v g :
  a ≠ 0 → tables w !! a = Some t → (v < length t)%nat →
  write_idt_entry a (Z.of_nat v) g w = Done tt (set_tables <[a := <[v := g]> t]> w).
Proof.
  intros Ha Ht Hv. unfold write_idt_entry. step_by (load_table_run a t w Ha Ht).
  rewrite (proj2 (Z.ltb_ge _ _)), (proj2 (Z.leb_gt _ _)) by lia. by rewrite Nat2Z.id.
Qed.

Lemma store_idt_run a t w : in_use a t w → ∃ d, store_idt w = Done d w ∧ base d = a.
Proof.
  intros Hu. destruct (lookup_lt_is_Some_2 _ _ (iu_cpu _ _ _ Hu)) as [d Hd].
  exists d. unfold store_idt. step. rewrite Hd. split; [done|].
  eapply iu_idtr; [exact Hu|]. by eapply list_elem_of_lookup_2.
Qed.

Lemma clone_run q a t w :
  in_use a t w → fresh_page q w → idt_adaptor_clone (Some q) w = Done q (cloned q a t w).
Proof.
  intros Hu (Hq & Hp & Hf). unfold idt_adaptor_clone.
  erewrite bind_done by (unfold alloc_page; by step). rewrite (proj2 (Z.eqb_neq _ _) Hq). step.
  set (w1 := set_pages _ w).
  assert (∃ w2, (if negb (current_idt w1 =? 0) then mret (current_idt w1)
    else d ← store_idt; let orig := if orig_idt w1 =? 0 then base d else orig_idt w1 in
         _ ← modifyM (set_orig_idt orig); mret orig) w1 = Done a w2 ∧
    w2 = (if current_idt w =? 0 then set_orig_idt a else id) w1) as (w2 & Hsrc & Hw2).
  { destruct (iu_owner _ _ _ Hu) as [[Hc _]|(Hc & Ho & _)].
    - exists w1. cbn. rewrite Hc, (proj2 (Z.eqb_neq _ _) (iu_null _ _ _ Hu)). done.
    - destruct (store_idt_run a t w Hu) as (d & Hd & Hb). exists (set_orig_idt a w1).
      cbn. rewrite Hc. cbn. split; [|done].
      assert (store_idt w1 = Done d w1) as Hd1.
      { revert Hd. unfold store_idt. cbn. unfold mbind, M_bind. cbn.
        destruct (idtr w !! cpu_id w); [|done]. by intros [= ->]. }
      step_by Hd1. rewrite Hb. destruct Ho as [->| ->]; cbn; [done|].
      rewrite (proj2 (Z.eqb_neq _ _) (iu_null _ _ _ Hu)). done. }
  step_by Hsrc.
  assert (tables w2 !! a = Some t) as Ht
    by (rewrite Hw2; destruct (current_idt w =? 0); apply (iu_table _ _ _ Hu)).
  step_by (load_table_run a t w2 (iu_null _ _ _ Hu) Ht).
  rewrite (iu_len _ _ _ Hu). step. step. unfold mret, M_ret.
  rewrite take_ge by (by rewrite (iu_len _ _ _ Hu)). by rewrite Hw2.
Qed.

(** ** Moving vectors to the exception stack *)
Section move.
Context (sy : symbols).

(** The entry of a vector that used the ordinary stack, afterwards. *)
Definition moved (v : nat) (g : gate_desc) : gate_desc :=
gate_set_offset (isr_addr sy (Z.of_nat v)) (gate_set_ist (IST_INDEX_EF + 1) g).

(** The vector has no interrupt stack. *)
Definition unstacked (t : list gate_desc) (v : nat) : bool :=
match t !! v with Some g => g_ist g =? 0 | None => false end.

Definition set_entries (q : Z) (t : list gate_desc) (isrs : list Z) (w : adw) : adw :=
set_tables <[q := t]> (set_isrs (λ _, isrs) w).

(** What moving the vectors [vs] makes of the table and the saved handlers. *)
Definition moves (vs : list nat) (t t' : list gate_desc) (s s' : list Z) : Prop :=
length t' = length t ∧ length s' = length s ∧
∀ v g h, t !! v = Some g → s !! v = Some h →
  if decide (v ∈ vs ∧ g_ist g = 0)
  then t' !! v = Some (moved v g) ∧ s' !! v = Some (gate_offset g)
  else t' !! v = Some g ∧ s' !! v = Some h.

(** The handlers saved earlier are those in the table. *)
Definition consistent (vs : list nat) (t : list gate_desc) (s : list Z) : Prop :=
∀ v g h, v ∈ vs → t !! v = Some g → s !! v = Some h → g_ist g = 0 → h = 0 ∨ h = gate_offset g.

Lemma process_vec_skip q t w v g :
q ≠ 0 → tables w !! q = Some t → t !! v = Some g → g_ist g ≠ 0 →
process_vec sy q false (Z.of_nat v) w = Done 0 w.
Proof.
intros Hq Ht Hv Hi. unfold process_vec, read_gate. step_by (load_gate_run q t w v g Hq Ht Hv).
rewrite andb_false_r. cbn. by rewrite (proj2 (Z.eqb_neq _ _) Hi).
Qed.

Lemma cmpxchg_run w v h x :
ef_adaptor_orig_isrs w !! v = Some h → h = 0 ∨ h = x →
cmpxchg_isr (Z.of_nat v) x w = Done h (set_isrs <[v := x]> w).
Proof.
intros Hh Hx. unfold cmpxchg_isr. step. rewrite Nat2Z.id, Hh. step.
destruct Hx as [->| ->]; [done|]. destruct (Z.eqb_spec x 0) as [->|Hne]; [done|].
step. unfold mret, M_ret, set_isrs. rewrite list_insert_id by done. by destruct w.
Qed.

Lemma process_vec_move q t w v g h :
q ≠ 0 → tables w !! q = Some t → t !! v = Some g → g_ist g = 0 →
ef_adaptor_orig_isrs w !! v = Some h → h = 0 ∨ h = gate_offset g →
process_vec sy q false (Z.of_nat v) w =
  Done 1 (set_entries q (<[v := moved v g]> t) (<[v := gate_offset g]> (ef_adaptor_orig_isrs w)) w).
Proof.
intros Hq Ht Hv Hi Hh Hx. unfold process_vec, read_gate. step_by (load_gate_run q t w v g Hq Ht Hv).
rewrite andb_false_r. cbn. rewrite Hi. cbn. step_by (cmpxchg_run w v h _ Hh Hx).
assert (negb (h =? 0) && negb (h =? gate_offset g) = false) as ->.
{ destruct Hx as [->| ->]; [done|]. rewrite Z.eqb_refl. apply andb_false_r. }
erewrite bind_done; [done|]. apply write_gate_run; [done|exact Ht|by eapply lookup_lt_Some].
Qed.

Lemma process_vec_mismatch q t w v g h :
q ≠ 0 → tables w !! q = Some t → t !! v = Some g → g_ist g = 0 →
ef_adaptor_orig_isrs w !! v = Some h → h ≠ 0 → h ≠ gate_offset g →
process_vec sy q false (Z.of_nat v) w = Done (-1) w.
Proof.
intros Hq Ht Hv Hi Hh H0 Hx. unfold process_vec, read_gate. step_by (load_gate_run q t w v g Hq Ht Hv).
rewrite andb_false_r. cbn. rewrite Hi. cbn.
erewrite bind_done by (unfold cmpxchg_isr; step; rewrite Nat2Z.id, Hh; step;
  rewrite (proj2 (Z.eqb_neq _ _) H0); by step).
by rewrite (proj2 (Z.eqb_neq _ _) H0), (proj2 (Z.eqb_neq _ _) Hx).
Qed.

Lemma moves_nil t s : moves [] t t s s.
Proof.
split; [done|]. split; [done|]. intros v g h Hg Hh. rewrite decide_False; [done|].
intros [H _]. by apply elem_of_nil in H.
Qed.

Lemma moves_skip v vs t t' s s' g :
t !! v = Some g → g_ist g ≠ 0 → moves vs t t' s s' → moves (v :: vs) t t' s s'.
Proof.
intros Hg Hi (Hl & Hs & H). split; [done|]. split; [done|]. intros v' g' h' Hg' Hh'. specialize (H v' g' h' Hg' Hh').
destruct (decide (v' = v)) as [->|Hne].
- assert (g' = g) as -> by congruence. rewrite decide_False in H by naive_solver.
  by rewrite decide_False by naive_solver.
- destruct (decide (v' ∈ vs ∧ g_ist g' = 0)); [rewrite decide_True by set_solver|rewrite decide_False by set_solver]; done.
Qed.

Lemma moves_step v vs t t' s s' g :
t !! v = Some g → g_ist g = 0 → (v < length s)%nat →
moves vs (<[v := moved v g]> t) t' (<[v := gate_offset g]> s) s' → moves (v :: vs) t t' s s'.
Proof.
intros Hg Hi Hlt (Hl & Hs & H). rewrite length_insert in Hl. rewrite length_insert in Hs. split; [done|]. split; [done|].
intros v' g' h' Hg' Hh'. destruct (decide (v' = v)) as [->|Hne].
- assert (g' = g) as -> by congruence. rewrite decide_True by (split; [left|done]).
  specialize (H v (moved v g) (gate_offset g)).
  rewrite !list_lookup_insert_eq in H by (done || by eapply lookup_lt_Some).
  specialize (H eq_refl eq_refl). by rewrite decide_False in H by (intros [_ ?]; done).
- specialize (H v' g' h'). rewrite !list_lookup_insert_ne in H by done. specialize (H Hg' Hh').
  destruct (decide (v' ∈ vs ∧ g_ist g' = 0)); [rewrite decide_True by set_solver|rewrite decide_False by set_solver]; done.
Qed.

Definition moved_count (vs : list nat) (t : list gate_desc) : nat := length (filter (unstacked t) vs).

Lemma moved_count_insert v g vs t : v ∉ vs → moved_count vs (<[v := g]> t) = moved_count vs t.
Proof.
intros Hv. unfold moved_count. induction vs as [|u vs IH]; [done|].
apply not_elem_of_cons in Hv as [Hne Hv]. rewrite !filter_cons.
assert (unstacked (<[v := g]> t) u = unstacked t u) as ->
  by (unfold unstacked; by rewrite list_lookup_insert_ne by done).
destruct (decide _); cbn; by rewrite IH.
Qed.

Lemma moved_count_cons v vs t g :
t !! v = Some g →
moved_count (v :: vs) t = ((if decide (g_ist g = 0%Z) then 1 else 0) + moved_count vs t)%nat.
Proof.
intros Hg. unfold moved_count. rewrite filter_cons.
assert (unstacked t v = (g_ist g =? 0)) as -> by (unfold unstacked; by rewrite Hg).
destruct (Z.eqb_spec (g_ist g) 0) as [E|E]; cbn; repeat case_decide; done.
Qed.

Lemma set_entries_id q t w : tables w !! q = Some t → set_entries q t (ef_adaptor_orig_isrs w) w = w.
Proof.
intros Ht. unfold set_entries, set_tables, set_isrs. cbn. rewrite insert_id by done. by destruct w.
Qed.

Lemma set_entries_twice q t s t' s' w : set_entries q t' s' (set_entries q t s w) = set_entries q t' s' w.
Proof. unfold set_entries, set_tables, set_isrs. cbn. by rewrite insert_insert_eq. Qed.

(** Processing a list of vectors. *)
Lemma process_vecs_run q vs t w n :
q ≠ 0 → tables w !! q = Some t → length t = IDT_ENTRIES →
length (ef_adaptor_orig_isrs w) = IDT_ENTRIES → Forall (λ v, v < IDT_ENTRIES)%nat vs → NoDup vs →
consistent vs t (ef_adaptor_orig_isrs w) →
∃ t' s', moves vs t t' (ef_adaptor_orig_isrs w) s' ∧
  process_vecs sy q false (Z.of_nat <$> vs) n w =
    Done (Some (n + Z.of_nat (moved_count vs t))) (set_entries q t' s' w).
Proof.
intros Hq. revert t w n. induction vs as [|v vs IH]; intros t w n Ht Hl Hs Hvs Hnd Hc.
{ exists t, (ef_adaptor_orig_isrs w). split; [apply moves_nil|]. cbn. rewrite Z.add_0_r.
  by rewrite set_entries_id. }
apply Forall_cons in Hvs as [Hv Hvs]. apply NoDup_cons in Hnd as [Hnv Hnd].
destruct (lookup_lt_is_Some_2 t v ltac:(lia)) as [g Hg].
destruct (lookup_lt_is_Some_2 (ef_adaptor_orig_isrs w) v ltac:(lia)) as [h Hh].
rewrite fmap_cons, (moved_count_cons v vs t g Hg). cbn [process_vecs].
destruct (decide (g_ist g = 0)) as [Hi|Hi].
- specialize (Hc v g h ltac:(left) Hg Hh Hi) as Hx.
  step_by (process_vec_move q t w v g h Hq Ht Hg Hi Hh Hx). cbn [Z.ltb Z.compare].
  set (t1 := <[v := moved v g]> t). set (s1 := <[v := gate_offset g]> (ef_adaptor_orig_isrs w)).
  destruct (IH t1 (set_entries q t1 s1 w) (n + 1)) as (t' & s' & Hm & Hrun); try done.
  + cbn. apply lookup_insert_eq.
  + by unfold t1; rewrite length_insert.
  + by cbn; unfold s1; rewrite length_insert.
  + intros v' g' h' Hin. cbn. unfold t1, s1. rewrite !list_lookup_insert_ne by (intros ->; done).
    apply Hc. by right.
  + exists t', s'. split; [eapply moves_step; try done; lia|].
    rewrite Hrun, set_entries_twice. unfold t1. rewrite moved_count_insert by done. do 2 f_equal. lia.
- step_by (process_vec_skip q t w v g Hq Ht Hg Hi). cbn [Z.ltb Z.compare]. rewrite Z.add_0_r.
  destruct (IH t w n) as (t' & s' & Hm & Hrun); try done; [intros ? ? ? ?; apply Hc; by right|].
  exists t', s'. split; [by eapply moves_skip|]. by rewrite Hrun.
Qed.
End move.

(** ** Loading and releasing tables *)
Lemma load_cpus_run d k n w :
  (k + n)%nat = length (idtr w) →
  run_cpus (load_idt_wrapper d) (seq k n) w = Done tt (set_idtr (λ l, take k l ++ replicate n d) w).
Proof.
  revert k w. induction n as [|n IH]; intros k w Hl; cbn [seq run_cpus].
  - unfold set_idtr. rewrite take_ge, app_nil_r by lia. by destruct w.
  - erewrite bind_done by reflexivity. rewrite IH by (cbn; rewrite length_insert; lia).
    unfold set_idtr. cbn. do 2 f_equal.
    rewrite (take_S_r _ k d) by (apply list_lookup_insert_eq; lia).
    rewrite take_insert, decide_False by lia. by rewrite <- app_assoc.
Qed.

Lemma on_cpus_load d w :
  on_cpus (load_idt_wrapper d) w = Done tt (set_idtr (fmap (λ _, d)) w).
Proof.
  unfold on_cpus. step. rewrite load_cpus_run by done. unfold set_idtr. cbn. do 2 f_equal.
  apply replicate_as_Forall. rewrite length_fmap. split; [done|]. by apply Forall_fmap, Forall_true.
Qed.

(** The processors switch to the table at [q]; the page of the one before is
    given back. *)
Definition activated (q : Z) (w : adw) : adw :=
  set_current_idt q (set_idtr (fmap (λ _, Dtr IDT_LIMIT q))
    (if current_idt w =? 0 then w
     else set_tables (delete (current_idt w)) (set_pages (λ s, s ∖ {[current_idt w]}) w))).

Lemma free_run a w :
  a ≠ 0 → a ∈ pages w →
  free_pages a w = Done tt (set_tables (delete a) (set_pages (λ s, s ∖ {[a]}) w)).
Proof.
  intros Ha Hp. unfold free_pages. rewrite (proj2 (Z.eqb_neq _ _) Ha). step. by rewrite decide_True.
Qed.

Lemma activate_run q a t w :
  in_use a t w → idt_adaptor_activate q w = Done tt (activated q w).
Proof.
  intros Hu. unfold idt_adaptor_activate, activated. step_by (on_cpus_load (Dtr IDT_LIMIT q) w). step. cbn.
  destruct (iu_owner _ _ _ Hu) as [[Hc Hp]|[Hc _]].
  - rewrite Hc, (proj2 (Z.eqb_neq _ _) (iu_null _ _ _ Hu)). cbn.
    erewrite bind_done by (apply free_run; [by apply (iu_null _ _ _ Hu)|exact Hp]). done.
  - by rewrite Hc.
Qed.

(** A copy that is dropped again leaves everything as it was, but for the
    address of the original table. *)
Lemma cloned_in_use q a t w : in_use a t w → fresh_page q w → in_use a t (cloned q a t w).
Proof.
  intros Hu (Hq & Hp & Hf). pose proof (iu_table _ _ _ Hu).
  assert (q ≠ a) by congruence. destruct Hu as [? ? ? ? ? ? ? Ho]. unfold cloned.
  split; try done; destruct (Z.eqb_spec (current_idt w) 0) as [E|E]; cbn; try done;
    try (by rewrite lookup_insert_ne).
  - right. split; [done|]. split; [by right|]. destruct Ho as [[? ?]|(? & ? & ?)]; [congruence|set_solver].
  - left. destruct Ho as [[? ?]|[? _]]; [set_solver|done].
Qed.

(** Entries of a table that is not loaded. *)
Lemma set_entries_in_use q t' s' a t w :
  in_use a t w → q ≠ a → length s' = IDT_ENTRIES → in_use a t (set_entries q t' s' w).
Proof.
  intros Hu Hq Hs. destruct Hu. split; try done. cbn. by rewrite lookup_insert_ne.
Qed.

(** After activation the new table is in use. *)
Lemma activated_in_use q t' a t w :
  in_use a t w → q ≠ a → q ≠ 0 → q ∈ pages w → tables w !! q = Some t' → length t' = IDT_ENTRIES →
  in_use q t' (activated q w).
Proof.
  intros Hu Hqa Hq Hp Ht Hl. destruct Hu as [? ? ? ? ? ? ? Ho]. unfold activated.
  split; try done; destruct (Z.eqb_spec (current_idt w) 0) as [E|E]; cbn; rewrite ?length_fmap; try done.
  - destruct Ho as [[? ?]|[? _]]; [|done]. rewrite lookup_delete_ne by congruence. done.
  - intros d (? & -> & _)%list_elem_of_fmap. done.
  - intros d (? & -> & _)%list_elem_of_fmap. done.
  - by left.
  - left. split; [done|]. destruct Ho as [[? ?]|[? _]]; [|done]. set_solver.
Qed.

(** ** The exception stacks *)
Section stacks.
Context (stack : nat → option Z).

Definition new_ist (c : nat) (i : Z) : Z :=
if i =? 0 then match stack c with Some p => u64 (p + PAGE_SIZE) | None => 0 end else i.
Definition new_page (c : nat) (i : Z) : gset Z :=
if i =? 0 then match stack c with Some p => {[p]} | None => ∅ end else ∅.
(** The pages processors [k] and up get, their stack registers being [l]. *)
Fixpoint stack_pages (k : nat) (l : list Z) : gset Z :=
match l with [] => ∅ | i :: l => new_page k i ∪ stack_pages (S k) l end.
Fixpoint granted (k : nat) (l : list Z) : bool :=
match l with
| [] => true
| i :: l => (negb (i =? 0) || bool_decide (is_Some (stack k))) && granted (S k) l
end.

(** A stack page has an address that is not null. *)
Definition stacks_ok : Prop := ∀ c p, stack c = Some p → 0 < p < 2 ^ 64 - PAGE_SIZE.

Definition stacked (w : adw) : adw :=
set_ists (imap new_ist) (set_pages (λ s, stack_pages 0 (ists w) ∪ s) w).

Lemma setup_tss_run c i rc w :
stacks_ok → ists w !! c = Some i → rc = 0 ∨ rc = - ENOMEM →
ef_adaptor_setup_tss stack c rc w =
  Done (if negb (i =? 0) || bool_decide (is_Some (stack c)) then rc else - ENOMEM)
    (set_ists <[c := new_ist c i]> (set_pages (λ s, new_page c i ∪ s) w)).
Proof.
intros Hs Hc Hrc. unfold ef_adaptor_setup_tss, new_ist, new_page. step. rewrite Hc. step.
destruct (Z.eqb_spec i 0) as [->|Hi]; cbn.
- destruct (stack c) as [p|] eqn:Hp; cbn.
  + specialize (Hs c p Hp). step. rewrite (proj2 (Z.eqb_neq p 0)) by lia. by step.
  + step. cbn. unfold mret, M_ret. f_equal.
    * destruct Hrc as [->| ->]; [done|apply Z.lor_diag].
    * unfold set_ists, set_pages. cbn. rewrite list_insert_id, union_empty_l_L by done. by destruct w.
- unfold mret, M_ret, set_ists, set_pages. cbn. rewrite list_insert_id, union_empty_l_L by done.
  by destruct w.
Qed.

Lemma setup_loop_run l1 l2 rc w :
stacks_ok → ists w = l1 ++ l2 → rc = 0 ∨ rc = - ENOMEM →
setup_tss_loop stack (seq (length l1) (length l2)) rc w =
  Done (if granted (length l1) l2 then rc else - ENOMEM)
    (set_ists (λ _, l1 ++ imap (λ j, new_ist (length l1 + j)) l2)
      (set_pages (λ s, stack_pages (length l1) l2 ∪ s) w)).
Proof.
intros Hs. revert l1 rc w. induction l2 as [|i l2 IH]; intros l1 rc w Hl Hrc; cbn [seq length setup_tss_loop].
- cbn. unfold mret, M_ret, set_ists, set_pages. cbn. rewrite union_empty_l_L, <- Hl. by destruct w.
- step_by (setup_tss_run (length l1) i rc w Hs
    ltac:(rewrite Hl; by apply list_lookup_middle) Hrc).
  set (w1 := set_ists _ _). set (rc1 := if _ || _ then rc else _).
  specialize (IH (l1 ++ [new_ist (length l1) i]) rc1 w1).
  rewrite length_app in IH. cbn [length] in IH. rewrite Nat.add_1_r in IH. rewrite IH.
  + f_equal.
    * cbn [granted]. unfold rc1. by destruct (_ || _), (granted _ _).
    * unfold w1, set_ists, set_pages. cbn. f_equal.
      -- rewrite (assoc_L (∪)). by rewrite (comm_L (∪) (stack_pages _ _)).
      -- rewrite <- app_assoc. cbn. rewrite Nat.add_0_r. do 2 f_equal. apply imap_ext.
         intros j x _. cbn. by rewrite Nat.add_succ_r.
  + unfold w1. cbn. rewrite Hl, insert_app_r_alt, Nat.sub_diag by done. by rewrite <- app_assoc.
  + unfold rc1. destruct (_ || _); [done|by right].
Qed.

Lemma setup_stacks_run w :
stacks_ok → length (ists w) = length (idtr w) →
setup_tss_loop stack (seq 0 (length (idtr w))) 0 w =
  Done (if granted 0 (ists w) then 0 else - ENOMEM) (stacked w).
Proof.
intros Hs Hl. rewrite <- Hl. etransitivity; [exact (setup_loop_run [] (ists w) 0 w Hs eq_refl ltac:(by left))|done].
Qed.
End stacks.

(** Cleaning up: the stack pointer is cleared before the page is computed from
    it, so the first processor with a stack ends the kernel. *)
Lemma cleanup_cpus_none k n w :
  (k + n <= length (ists w))%nat → (∀ c, (k <= c)%nat → (c < k + n)%nat → ists w !! c = Some 0) →
  run_cpus ef_adaptor_cleanup_tss (seq k n) w = Done tt w.
Proof.
  revert k. induction n as [|n IH]; intros k Hl H0; [done|]. cbn [seq run_cpus].
  erewrite bind_done; [apply IH; [lia|intros c ? ?; apply H0; lia]|].
  unfold ef_adaptor_cleanup_tss. step. by rewrite H0 by lia.
Qed.

Lemma cleanup_cpus_fault k n w c i :
  u64 (- PAGE_SIZE) ∉ pages w → (k + n <= length (ists w))%nat →
  (k <= c)%nat → (c < k + n)%nat → ists w !! c = Some i → i ≠ 0 →
  run_cpus ef_adaptor_cleanup_tss (seq k n) w = Fault.
Proof.
  intros Hp. revert k. induction n as [|n IH]; intros k Hl Hk Hn Hc Hi; [lia|]. cbn [seq run_cpus].
  destruct (lookup_lt_is_Some_2 (ists w) k ltac:(lia)) as [j Hj].
  destruct (decide (j = 0)) as [->|Hj0].
  - erewrite bind_done; [apply IH; try done; try lia; destruct (decide (c = k)); [congruence|lia]|].
    unfold ef_adaptor_cleanup_tss. step. by rewrite Hj.
  - unfold mbind at 1, M_bind at 1.
    assert (ef_adaptor_cleanup_tss k w = Fault) as ->; [|done].
    unfold ef_adaptor_cleanup_tss. step. rewrite Hj. step. rewrite (proj2 (Z.eqb_neq _ _) Hj0). cbn [negb].
    step. step. cbn [ists set_ists]. rewrite list_lookup_insert_eq by lia. step.
    unfold free_pages. change (u64 (0 - PAGE_SIZE) =? 0) with false. cbv beta iota. step. by rewrite decide_False.
Qed.

(** ** Initialisation of the exception frame adaptor *)
Section init.
Context (sy : symbols) (stack : nat → option Z).

(** The pages for the stacks are fresh. *)
Definition stacks_fresh (w : adw) : Prop :=
∀ p, p ∈ stack_pages stack 0 (ists w) → p ∉ pages w ∧ tables w !! p = None.

Lemma stacked_in_use a t w : in_use a t w → stacks_fresh w → in_use a t (stacked stack w).
Proof.
intros Hu Hf. destruct Hu as [? Ht ? ? ? ? ? Ho]. unfold stacked. split; try done; cbn.
- by rewrite length_imap.
- destruct Ho as [[? ?]|(? & ? & ?)]; [left; set_solver|right]. split_and!; try done.
  intros [Hin|?]%elem_of_union; [|done]. apply Hf in Hin as [_ Hin]. congruence.
Qed.

(** Every vector asked for. *)
Definition asks (vecs : list Z) (vstart vend : Z) (vs : list nat) : Prop :=
vecs ++ vec_range vstart vend = Z.of_nat <$> vs ∧ NoDup vs ∧ Forall (λ v, v < IDT_ENTRIES)%nat vs.

Definition released (q : Z) (w : adw) : adw :=
set_tables (delete q) (set_pages (λ s, s ∖ {[q]}) w).

(** The table the call builds. *)
Definition built (q a : Z) (t t' : list gate_desc) (s' : list Z) (w : adw) : adw :=
set_entries q t' s' (cloned q a t (stacked stack w)).

Lemma built_fields q a t t' s' w :
tables (built q a t t' s' w) = <[q := t']> (tables w) ∧
pages (built q a t t' s' w) = {[q]} ∪ (stack_pages stack 0 (ists w) ∪ pages w) ∧
ists (built q a t t' s' w) = imap (new_ist stack) (ists w) ∧
idtr (built q a t t' s' w) = idtr w ∧ ef_adaptor_orig_isrs (built q a t t' s' w) = s' ∧
current_idt (built q a t t' s' w) = current_idt w ∧ statics (built q a t t' s' w) = statics w.
Proof.
unfold built, cloned, stacked, set_entries. cbn.
destruct (current_idt w =? 0); cbn; rewrite insert_insert_eq; done.
Qed.

Lemma ef_init_run q a t w vecs vstart vend vs :
in_use a t w → stacks_ok stack → stacks_fresh w → granted stack 0 (ists w) = true →
fresh_page q (stacked stack w) → asks vecs vstart vend vs → consistent vs t (ef_adaptor_orig_isrs w) →
∃ t' s', moves sy vs t t' (ef_adaptor_orig_isrs w) s' ∧
  in_use a t (built q a t t' s' w) ∧
  ef_adaptor_init sy (Some q) stack vecs vstart vend false w =
    Done (Z.of_nat (moved_count vs t))
      (if Z.of_nat (moved_count vs t) =? 0 then released q (built q a t t' s' w)
       else activated q (built q a t t' s' w)).
Proof.
intros Hu Hok Hfr Hg Hq (Hvs & Hnd & Hlt) Hc.
pose proof (stacked_in_use a t w Hu Hfr) as Hu1. pose proof (cloned_in_use q a t _ Hu1 Hq) as Hu2.
set (w2 := cloned q a t (stacked stack w)) in *.
assert (tables w2 !! q = Some t) as Ht by (apply lookup_insert_eq).
assert (ef_adaptor_orig_isrs w2 = ef_adaptor_orig_isrs w) as Hisrs
  by (unfold w2, cloned; destruct (_ =? 0); done).
destruct Hq as (Hq0 & Hqp & Hqt).
destruct (process_vecs_run sy q vs t w2 0) as (t' & s' & Hm & Hrun); try done;
  [apply (iu_len _ _ _ Hu)|rewrite Hisrs; apply (iu_isrs _ _ _ Hu)|by rewrite Hisrs|].
rewrite Hisrs in Hm. exists t', s'. split; [done|].
assert (q ≠ a) as Hqa by (intros ->; pose proof (iu_table _ _ _ Hu1); congruence).
assert (in_use a t (built q a t t' s' w)) as Hu3.
{ apply set_entries_in_use; [done..|]. destruct Hm as (_ & -> & _). apply (iu_isrs _ _ _ Hu). }
split; [done|]. unfold ef_adaptor_init. step.
step_by (setup_stacks_run stack w Hok (iu_ists _ _ _ Hu)). rewrite Hg. cbn [Z.ltb Z.compare].
step_by (clone_run q a t _ Hu1 (conj Hq0 (conj Hqp Hqt))). rewrite Hvs.
step_by Hrun. rewrite Z.add_0_l. destruct (Z.eqb_spec (Z.of_nat (moved_count vs t)) 0) as [E|E]; cbn [negb].
- erewrite bind_done; [done|]. unfold idt_adaptor_release. apply free_run; [done|].
  fold w2. unfold built, w2, cloned. destruct (_ =? 0); cbn; set_solver.
- by step_by (activate_run q a t _ Hu3).
Qed.

(** The failures end in the clean-up, which faults. *)
Lemma ef_error_fault idt w c i :
u64 (- PAGE_SIZE) ∉ pages w → length (ists w) = length (idtr w) → ists w !! c = Some i → i ≠ 0 →
ef_adaptor_error idt w = Fault.
Proof.
intros Hp Hl Hc Hi. unfold ef_adaptor_error, mbind at 1, M_bind at 1. unfold on_cpus at 1.
rewrite (bind_done _ _ w w w) by done.
by rewrite (cleanup_cpus_fault 0 (length (idtr w)) w c i) by (try done; try lia; by apply lookup_lt_Some in Hc; lia).
Qed.
End init.

(** ** Failures *)
Definition mismatch (t : list gate_desc) (s : list Z) (v : nat) : Prop :=
  ∃ g h, t !! v = Some g ∧ s !! v = Some h ∧ g_ist g = 0 ∧ h ≠ 0 ∧ h ≠ gate_offset g.

Lemma process_vecs_mismatch sy q vs t w n v :
  q ≠ 0 → tables w !! q = Some t → length t = IDT_ENTRIES →
  length (ef_adaptor_orig_isrs w) = IDT_ENTRIES → Forall (λ v, v < IDT_ENTRIES)%nat vs → NoDup vs →
  v ∈ vs → mismatch t (ef_adaptor_orig_isrs w) v →
  ∃ t' s', process_vecs sy q false (Z.of_nat <$> vs) n w = Done None (set_entries q t' s' w).
Proof.
  intros Hq. revert t w n. induction vs as [|u vs IH]; intros t w n Ht Hl Hs Hvs Hnd Hv Hm.
  { by apply elem_of_nil in Hv. }
  apply Forall_cons in Hvs as [Hu Hvs]. apply NoDup_cons in Hnd as [Hnu Hnd].
  destruct (lookup_lt_is_Some_2 t u ltac:(lia)) as [g Hg].
  destruct (lookup_lt_is_Some_2 (ef_adaptor_orig_isrs w) u ltac:(lia)) as [h Hh].
  rewrite fmap_cons. cbn [process_vecs].
  assert (u ≠ v → v ∈ vs) as Hin by set_solver.
  destruct (decide (g_ist g = 0)) as [Hi|Hi].
  2:{ step_by (process_vec_skip sy q t w u g Hq Ht Hg Hi). cbn [Z.ltb Z.compare].
      apply (IH t); try done. apply Hin. intros ->. destruct Hm as (g' & ? & ? & _ & ? & _). congruence. }
  destruct (decide (h = 0 ∨ h = gate_offset g)) as [Hx|Hx].
  - step_by (process_vec_move sy q t w u g h Hq Ht Hg Hi Hh Hx). cbn [Z.ltb Z.compare].
    assert (u ≠ v) as Hne by (intros ->; destruct Hm as (? & ? & ? & ? & ? & ? & ?); naive_solver congruence).
    edestruct (IH (<[u := moved sy u g]> t) (set_entries q (<[u := moved sy u g]> t)
      (<[u := gate_offset g]> (ef_adaptor_orig_isrs w)) w) (n + 1)) as (t' & s' & Hrun); try done.
    + cbn. apply lookup_insert_eq.
    + by rewrite length_insert.
    + cbn. by rewrite length_insert.
    + by apply Hin.
    + destruct Hm as (g' & h' & Hg' & Hh' & ?). exists g', h'. cbn. by rewrite !list_lookup_insert_ne.
    + exists t', s'. by rewrite Hrun, set_entries_twice.
  - apply Decidable.not_or in Hx as [Hx0 Hx].
    step_by (process_vec_mismatch sy q t w u g h Hq Ht Hg Hi Hh Hx0 Hx).
    exists t, (ef_adaptor_orig_isrs w). by rewrite set_entries_id.
Qed.

Section failures.
Context (sy : symbols) (stack : nat → option Z).

(** No memory for a stack: the processors that have one are cleaned up. *)
Lemma ef_init_no_stack table vecs vstart vend w c i :
stacks_ok stack → length (ists w) = length (idtr w) → granted stack 0 (ists w) = false →
u64 (- PAGE_SIZE) ∉ pages (stacked stack w) → ists (stacked stack w) !! c = Some i → i ≠ 0 →
ef_adaptor_init sy table stack vecs vstart vend false w = Fault.
Proof.
intros Hok Hl Hg Hp Hc Hi. unfold ef_adaptor_init. step. step_by (setup_stacks_run stack w Hok Hl).
rewrite Hg. change (- ENOMEM <? 0) with true. cbv beta iota.
apply (ef_error_fault _ _ c i); try done. cbn. by rewrite length_imap.
Qed.

(** No memory for the table. *)
Lemma ef_init_no_table v vs vecs vstart vend w :
vecs ++ vec_range vstart vend = v :: vs → stacks_ok stack → length (ists w) = length (idtr w) → granted stack 0 (ists w) = true →
ef_adaptor_init sy None stack vecs vstart vend false w = Fault.
Proof.
intros Hv Hok Hl Hg. unfold ef_adaptor_init. step. step_by (setup_stacks_run stack w Hok Hl).
rewrite Hg, Hv. done.
Qed.

(** Two processors' tables do not agree with the handlers saved. *)
Lemma ef_init_mismatch q a t w vecs vstart vend vs v c i :
in_use a t w → stacks_ok stack → stacks_fresh stack w → granted stack 0 (ists w) = true →
fresh_page q (stacked stack w) → asks vecs vstart vend vs → v ∈ vs → mismatch t (ef_adaptor_orig_isrs w) v →
u64 (- PAGE_SIZE) ∉ {[q]} ∪ pages (stacked stack w) →
ists (stacked stack w) !! c = Some i → i ≠ 0 →
ef_adaptor_init sy (Some q) stack vecs vstart vend false w = Fault.
Proof.
intros Hu Hok Hfr Hg Hq (Hvs & Hnd & Hlt) Hv Hm Hp Hc Hi.
pose proof (stacked_in_use stack a t w Hu Hfr) as Hu1.
unfold ef_adaptor_init. step. step_by (setup_stacks_run stack w Hok (iu_ists _ _ _ Hu)). rewrite Hg.
cbn [Z.ltb Z.compare]. step_by (clone_run q a t _ Hu1 Hq). rewrite Hvs.
set (w2 := cloned q a t (stacked stack w)).
assert (ef_adaptor_orig_isrs w2 = ef_adaptor_orig_isrs w) as Hisrs
  by (unfold w2, cloned; destruct (_ =? 0); done).
assert (idtr w2 = idtr w ∧ ists w2 = ists (stacked stack w) ∧
  pages w2 = {[q]} ∪ pages (stacked stack w)) as (Hw1 & Hw2 & Hw3)
  by (unfold w2, cloned; destruct (_ =? 0); done).
destruct (process_vecs_mismatch sy q vs t w2 0 v) as (t' & s' & Hrun); try done;
  [apply Hq|apply lookup_insert_eq|apply (iu_len _ _ _ Hu)
  |rewrite Hisrs; apply (iu_isrs _ _ _ Hu)|by rewrite Hisrs|].
step_by Hrun. apply (ef_error_fault _ _ c i); try done.
- change (u64 (- PAGE_SIZE) ∉ pages w2). by rewrite Hw3.
- change (length (ists w2) = length (idtr w2)). rewrite Hw1, Hw2. apply (iu_ists _ _ _ Hu1).
- change (ists w2 !! c = Some i). by rewrite Hw2.
Qed.
End failures.

(** ** The page fault adaptor *)

(** Everything but the address of the first table and the static variables is as
    before. *)
Definition same_setup (w w' : adw) : Prop :=
  tables w' = tables w ∧ pages w' = pages w ∧ idtr w' = idtr w ∧ ists w' = ists w ∧
  ef_adaptor_orig_isrs w' = ef_adaptor_orig_isrs w ∧ current_idt w' = current_idt w.

Definition installed (o n : Z) (g : gate_desc) : gate_desc :=
  if gate_offset g =? o then gate_set_offset n g else g.
Definition known (o n : Z) (g : gate_desc) : Prop := gate_offset g = o ∨ gate_offset g = n.

Lemma install_known q t w v o n g :
  q ≠ 0 → tables w !! q = Some t → t !! v = Some g → known o n g →
  install q (Z.of_nat v) o n w =
    Done (Some (gate_offset g =? o)) (set_tables <[q := <[v := installed o n g]> t]> w).
Proof.
  intros Hq Ht Hv Hk. unfold install, read_gate, installed. step_by (load_gate_run q t w v g Hq Ht Hv).
  destruct (Z.eqb_spec (gate_offset g) o) as [E|E]; cbn [negb].
  - erewrite bind_done; [done|]. apply write_gate_run; [done..|by eapply lookup_lt_Some].
  - destruct Hk as [?|Hn]; [done|]. rewrite Hn, Z.eqb_refl. cbn. unfold mret, M_ret, set_tables.
    rewrite list_insert_id, insert_id by done. by destruct w.
Qed.

Lemma install_unknown q t w v o n g :
  q ≠ 0 → tables w !! q = Some t → t !! v = Some g → ¬ known o n g →
  install q (Z.of_nat v) o n w = Done None w.
Proof.
  intros Hq Ht Hv Hk. unfold install, read_gate. step_by (load_gate_run q t w v g Hq Ht Hv).
  unfold known in Hk. destruct (Z.eqb_spec (gate_offset g) o), (Z.eqb_spec (gate_offset g) n); naive_solver.
Qed.

Lemma set_statics_in_use f a t w : in_use a t w → in_use a t (set_statics f w).
Proof. intros []. by split. Qed.

Lemma set_tables_statics f g w : set_tables f (set_statics g w) = set_statics g (set_tables f w).
Proof. done. Qed.
Lemma set_statics_twice f g w : set_statics f (set_statics g w) = set_statics (λ s, f (g s)) w.
Proof. done. Qed.
Lemma set_table_twice q t t' w :
  set_tables <[q := t']> (set_tables <[q := t]> w) = set_tables <[q := t']> w.
Proof. unfold set_tables. cbn. by rewrite insert_insert_eq. Qed.

Section pf.
Context (sy : symbols) (exc_pf exc_df exc_gp : Z).

(** The table with the three entries replaced. *)
Definition pf_installed (g14 g8 g13 : gate_desc) (t : list gate_desc) : list gate_desc :=
<[13%nat := installed exc_gp (pf_adaptor_asm_fix_err_code_gp sy) g13]>
  (<[8%nat := installed exc_df (pf_adaptor_asm_fix_err_code_uw sy) g8]>
    (<[14%nat := installed exc_pf (pf_adaptor_asm_fix_err_code_u sy) g14]> t)).

Definition known3 (g14 g8 g13 : gate_desc) : Prop :=
known exc_pf (pf_adaptor_asm_fix_err_code_u sy) g14 ∧
known exc_df (pf_adaptor_asm_fix_err_code_uw sy) g8 ∧
known exc_gp (pf_adaptor_asm_fix_err_code_gp sy) g13.

Definition pf_statics (s : pfstatics) : pfstatics :=
PfStatics (keep (pf_adaptor_asm_exc_page_fault s) exc_pf) (keep (pf_adaptor_asm_exc_double_fault s) exc_df)
  (keep (pf_adaptor_asm_exc_general_protection s) exc_gp) (df_handler_location s).

Lemma pf_init_run q a t w g14 g8 g13 :
in_use a t w → fresh_page q w → t !! 14%nat = Some g14 → t !! 8%nat = Some g8 → t !! 13%nat = Some g13 →
known3 g14 g8 g13 →
let w1 := set_statics pf_statics
  (set_tables <[q := pf_installed g14 g8 g13 t]> (cloned q a t w)) in
in_use a t w1 ∧
pf_adaptor_init sy (Some q) exc_pf exc_df exc_gp w =
  Done 1 (if (gate_offset g14 =? exc_pf) || (gate_offset g8 =? exc_df) || (gate_offset g13 =? exc_gp)
          then activated q w1 else released q w1).
Proof.
intros Hu Hq H14 H8 H13 (K14 & K8 & K13) w1. pose proof (cloned_in_use q a t w Hu Hq) as Hu1.
assert (q ≠ a) as Hqa by (intros ->; destruct Hq as (_ & _ & ?), Hu; congruence).
assert (in_use a t w1) as Hu2.
{ unfold w1. apply set_statics_in_use. destruct Hu1. split; try done. cbn. by rewrite lookup_insert_ne. }
split; [done|]. unfold pf_adaptor_init. step_by (clone_run q a t w Hu Hq). step.
destruct Hq as (Hq0 & Hqp & Hqt).
assert (∀ f t0 w0, tables (set_statics f (set_tables <[q := t0]> w0)) !! q = Some t0) as Hlk
  by (intros; apply lookup_insert_eq).
erewrite bind_done; [|apply (install_known q t _ 14 _ _ g14); try done; apply lookup_insert_eq].
cbv beta iota. step. erewrite bind_done; [|eapply (install_known q _ _ 8 _ _ g8); [done|apply Hlk|by rewrite list_lookup_insert_ne|done]].
cbv beta iota. step. erewrite bind_done; [|eapply (install_known q _ _ 13 _ _ g13); [done|apply Hlk|by rewrite !list_lookup_insert_ne|done]].
rewrite !set_tables_statics, !set_table_twice, !set_statics_twice.
change (set_statics _ (set_tables _ _)) with w1.
destruct ((_ =? _) || _ || _).
- by step_by (activate_run q a t w1 Hu2).
- erewrite bind_done; [done|]. apply free_run; [done|]. unfold w1, cloned. destruct (_ =? 0); cbn; set_solver.
Qed.

(** The copy is dropped. *)
Lemma pf_release q a t w f t' :
in_use a t w → fresh_page q w →
∃ w', idt_adaptor_release q (set_statics f (set_tables <[q := t']> (cloned q a t w))) = Done tt w' ∧
  same_setup w w'.
Proof.
intros Hu (Hq & Hp & Ht). eexists. split.
- apply free_run; [done|]. unfold cloned. destruct (_ =? 0); cbn; set_solver.
- unfold same_setup, cloned. destruct (_ =? 0); cbn; rewrite insert_insert_eq, delete_insert_id by done;
    split_and!; try done; set_solver.
Qed.

(** A handler that is neither the kernel's nor the adaptor's. *)
Lemma pf_init_refuse q a t w g14 g8 g13 :
in_use a t w → fresh_page q w → t !! 14%nat = Some g14 → t !! 8%nat = Some g8 → t !! 13%nat = Some g13 →
¬ known3 g14 g8 g13 →
∃ w', pf_adaptor_init sy (Some q) exc_pf exc_df exc_gp w = Done 0 w' ∧ same_setup w w'.
Proof.
intros Hu Hq H14 H8 H13 Hk. unfold pf_adaptor_init. step_by (clone_run q a t w Hu Hq). step.
assert (q ≠ 0) as Hq0 by apply Hq.
assert (∀ f t0 w0, tables (set_statics f (set_tables <[q := t0]> w0)) !! q = Some t0) as Hlk
  by (intros; apply lookup_insert_eq).
assert (∀ f t0 w0, w0 = set_statics f (set_tables <[q := t0]> (cloned q a t w)) →
  ∃ w', (_ ← idt_adaptor_release q; mret 0) w0 = Done 0 w' ∧ same_setup w w') as Hend.
{ intros f t0 w0 ->. destruct (pf_release q a t w f t0 Hu Hq) as (w' & Hr & Hw). exists w'.
  by step_by Hr. }
assert (cloned q a t w = set_tables <[q := t]> (cloned q a t w)) as Hid
  by (unfold cloned; by rewrite set_table_twice).
assert (tables (cloned q a t w) !! q = Some t) as Hc by apply lookup_insert_eq.
destruct (decide (known exc_pf (pf_adaptor_asm_fix_err_code_u sy) g14)) as [K14|K14].
2:{ erewrite bind_done by (apply (install_unknown q t _ 14 _ _ g14); done). cbv beta iota.
    eapply Hend. by rewrite Hid at 1. }
erewrite bind_done by (apply (install_known q t _ 14 _ _ g14); done). cbv beta iota. step.
destruct (decide (known exc_df (pf_adaptor_asm_fix_err_code_uw sy) g8)) as [K8|K8].
2:{ erewrite bind_done by (eapply (install_unknown q _ _ 8 _ _ g8); [done|apply Hlk|by rewrite list_lookup_insert_ne|done]).
    cbv beta iota. eapply Hend. by rewrite !set_tables_statics, !set_statics_twice. }
erewrite bind_done by (eapply (install_known q _ _ 8 _ _ g8); [done|apply Hlk|by rewrite list_lookup_insert_ne|done]).
cbv beta iota. step.
erewrite bind_done by (eapply (install_unknown q _ _ 13 _ _ g13);
  [done|apply Hlk|by rewrite !list_lookup_insert_ne|intros ?; by apply Hk]).
cbv beta iota. eapply Hend. by rewrite !set_tables_statics, !set_table_twice, !set_statics_twice.
Qed.

(** The adaptor's handlers are in place. *)
Lemma pf_init_idle q a t w g14 g8 g13 :
in_use a t w → fresh_page q w → t !! 14%nat = Some g14 → t !! 8%nat = Some g8 → t !! 13%nat = Some g13 →
gate_offset g14 = pf_adaptor_asm_fix_err_code_u sy → gate_offset g14 ≠ exc_pf →
gate_offset g8 = pf_adaptor_asm_fix_err_code_uw sy → gate_offset g8 ≠ exc_df →
gate_offset g13 = pf_adaptor_asm_fix_err_code_gp sy → gate_offset g13 ≠ exc_gp →
∃ w', pf_adaptor_init sy (Some q) exc_pf exc_df exc_gp w = Done 1 w' ∧ same_setup w w'.
Proof.
intros Hu Hq H14 H8 H13 E14 N14 E8 N8 E13 N13.
destruct (pf_init_run q a t w g14 g8 g13) as [_ Hrun]; try done; [split_and!; by right|].
rewrite !(proj2 (Z.eqb_neq _ _)) in Hrun by done. cbn [orb] in Hrun.
destruct (pf_release q a t w pf_statics (pf_installed g14 g8 g13 t) Hu Hq) as (w' & Hr & Hw).
exists w'. split; [|done]. rewrite Hrun. f_equal. unfold idt_adaptor_release in Hr.
rewrite free_run in Hr; [by injection Hr|apply Hq|].
unfold cloned. destruct (_ =? 0); cbn; set_solver.
Qed.
End pf.
