(* ===== verification/AdaptorProps.v ===== *)
(** * What the fault adaptors guarantee

    The properties of [Adaptor], proved from the lemmas of [AdaptorSpec], each
    followed by an instance at a concrete machine. *)
From S2P Require Import X86.
From S2P Require Import Idt.
From S2P Require Import Adaptor.
From S2P Require Import AdaptorSpec.
From S2P Require Import Prelude.

Open Scope Z_scope.

Definition all_vectors : list nat := seq 0 IDT_ENTRIES.

Lemma asks_all : asks [] 0 255 all_vectors.
Proof.
  split_and!; [by vm_compute|apply NoDup_seq|].
  apply Forall_forall. intros v Hv%elem_of_seq. unfold IDT_ENTRIES in *. lia.
Qed.

(** The state after the handler's address has been noted. *)
Lemma df_location_run a t w g8 :
  in_use a t w → t !! 8%nat = Some g8 →
  ∃ w', set_local_df_handler_location w = Done tt w' ∧
    w' = set_statics (λ s, PfStatics (pf_adaptor_asm_exc_page_fault s)
      (pf_adaptor_asm_exc_double_fault s) (pf_adaptor_asm_exc_general_protection s) (gate_offset g8)) w.
Proof.
  intros Hu Hg. destruct (store_idt_run a t w Hu) as (d & Hd & Hb). eexists. split; [|done].
  unfold set_local_df_handler_location. step_by Hd. rewrite Hb.
  by step_by (load_gate_run a t w 8 g8 (iu_null _ _ _ Hu) (iu_table _ _ _ Hu) Hg).
Qed.

Lemma granted_all stack k l :
  granted stack k l = true → stacks_ok stack → ∀ j i, l !! j = Some i → new_ist stack (k + j) i ≠ 0.
Proof.
  revert k. induction l as [|i0 l IH]; intros k Hg Hok j i Hj; [done|].
  cbn in Hg. apply andb_true_iff in Hg as [H0 Hg]. destruct j as [|j].
  - injection Hj as <-. rewrite Nat.add_0_r. unfold new_ist.
    destruct (Z.eqb_spec i0 0) as [->|]; [|done]. cbn in H0. apply bool_decide_eq_true in H0 as [p Hp].
    rewrite Hp. specialize (Hok k p Hp). unfold PAGE_SIZE in *. rewrite u64_id by lia. lia.
  - rewrite Nat.add_succ_r. apply (IH (S k)); done.
Qed.

(** The table after the extension is loaded: every vector that had no interrupt
    stack has the extension's, and enters at its own entry point. *)
Definition extended (sy : symbols) (t t' : list gate_desc) : Prop :=
  ∀ v g, t !! v = Some g →
    ∃ g', t' !! v = Some g' ∧
      if decide (g_ist g = 0)
      then g_ist g' = 7 ∧ gate_offset g' = isr_addr sy (Z.of_nat v) ∧ g_type g' = g_type g ∧
           g_dpl g' = g_dpl g ∧ g_p g' = g_p g ∧ segment g' = segment g
      else g' = g.

Lemma moves_extended sy t t' s s' :
  length t = IDT_ENTRIES → length s = IDT_ENTRIES → moves sy all_vectors t t' s s' →
  extended sy t t' ∧ ∀ v g h, t !! v = Some g → s !! v = Some h →
    s' !! v = Some (if decide (g_ist g = 0) then gate_offset g else h).
Proof.
  intros Ht Hs (_ & _ & Hm).
  assert (∀ v g, t !! v = Some g → v ∈ all_vectors) as Hin.
  { intros v g Hv. apply elem_of_seq. apply lookup_lt_Some in Hv. lia. }
  split.
  - intros v g Hg. destruct (lookup_lt_is_Some_2 s v) as [h Hh]; [apply lookup_lt_Some in Hg; lia|].
    specialize (Hm v g h Hg Hh). destruct (decide (g_ist g = 0)) as [Hi|Hi].
    + rewrite decide_True in Hm by (split; [by eapply Hin|done]). destruct Hm as [Hm _].
      eexists. split; [exact Hm|]. split; [done|]. split; [|done].
      apply gate_offset_set, u64_range.
    + rewrite decide_False in Hm by naive_solver. destruct Hm as [Hm _]. by exists g.
  - intros v g h Hg Hh. specialize (Hm v g h Hg Hh). destruct (decide (g_ist g = 0)) as [Hi|Hi].
    + rewrite decide_True in Hm by (split; [by eapply Hin|done]). apply Hm.
    + rewrite decide_False in Hm by naive_solver. apply Hm.
Qed.

Section props.
Context (sy : symbols).

(** The conditions under which the extension is loaded: memory for the stacks and
  the table, and saved handlers that agree with the table. *)
Record loadable (a : Z) (t : list gate_desc) (q : Z) (stack : nat → option Z) (w : adw) : Prop := {
ld_use : in_use a t w;
ld_ok : stacks_ok stack;
ld_fresh : stacks_fresh stack w;
ld_granted : granted stack 0 (ists w) = true;
ld_table : fresh_page q (stacked stack w);
ld_saved : consistent all_vectors t (ef_adaptor_orig_isrs w);
}.

Lemma loadable_statics f a t q stack w :
loadable a t q stack w → loadable a t q stack (set_statics f w).
Proof. intros [Hu ? ? ? ? ?]. split; try done. by apply set_statics_in_use. Qed.

Lemma extension_init_run a t q stack w :
loadable a t q stack w →
∃ w0 t' s', moves sy all_vectors t t' (ef_adaptor_orig_isrs w) s' ∧ in_use a t w0 ∧
  (∃ f, w0 = built stack q a t t' s' (set_statics f w)) ∧
  (∀ g8, t !! 8%nat = Some g8 → df_handler_location (statics w0) = gate_offset g8) ∧
  extension_init sy (Some q) stack w =
    Done 0 (if Z.of_nat (moved_count all_vectors t) =? 0 then released q w0 else activated q w0).
Proof.
intros Hl. pose proof (ld_use _ _ _ _ _ Hl) as Hu.
destruct (lookup_lt_is_Some_2 t 8) as [g8 Hg8]; [rewrite (iu_len _ _ _ Hu); unfold IDT_ENTRIES; lia|].
destruct (df_location_run a t w g8 Hu Hg8) as (w1 & Hrun1 & Hw1).
unfold extension_init. step_by Hrun1. rewrite Hw1.
destruct (loadable_statics (λ s, PfStatics (pf_adaptor_asm_exc_page_fault s)
  (pf_adaptor_asm_exc_double_fault s) (pf_adaptor_asm_exc_general_protection s) (gate_offset g8)) _ _ _ _ _ Hl)
  as [Hu1 H1 H2 H3 H4 H5].
destruct (ef_init_run sy stack q a t _ [] 0 255 all_vectors Hu1 H1 H2 H3 H4 asks_all H5)
  as (t' & s' & Hm & Hu2 & Hrun). step_by Hrun.
eexists _, t', s'. split; [exact Hm|]. split; [exact Hu2|]. split; [by eexists|]. split.
- intros g8' Hg'. assert (g8' = g8) as -> by congruence.
  destruct (built_fields stack q a t t' s' (set_statics (λ s, PfStatics (pf_adaptor_asm_exc_page_fault s)
    (pf_adaptor_asm_exc_double_fault s) (pf_adaptor_asm_exc_general_protection s) (gate_offset g8)) w))
    as (_ & _ & _ & _ & _ & _ & ->). done.
- unfold mret, M_ret. f_equal. destruct (Z.ltb_spec 0 (Z.of_nat (moved_count all_vectors t))); lia.
Qed.

(** What loading the extension does when some vector has no interrupt stack. *)
Lemma extension_loaded a t q stack w :
loadable a t q stack w → (0 < moved_count all_vectors t)%nat →
∃ w' t', extension_init sy (Some q) stack w = Done 0 w' ∧ in_use q t' w' ∧ extended sy t t' ∧
  (∀ v g h, t !! v = Some g → ef_adaptor_orig_isrs w !! v = Some h →
     ef_adaptor_orig_isrs w' !! v = Some (if decide (g_ist g = 0) then gate_offset g else h)) ∧
  ists w' = imap (new_ist stack) (ists w) ∧ Forall (λ i, i ≠ 0) (ists w') ∧
  (∀ g8, t !! 8%nat = Some g8 → df_handler_location (statics w') = gate_offset g8) ∧
  (∀ p, p ∈ pages w' ↔ p = q ∨ p ∈ stack_pages stack 0 (ists w) ∨ (p ∈ pages w ∧ p ≠ a)).
Proof.
intros Hl Hn. destruct (extension_init_run a t q stack w Hl) as (w0 & t' & s' & Hm & Hu0 & (f & Hw0) & Hdf & Hrun).
destruct Hl as [Hu Hok Hfr Hg (Hq0 & Hqp & Hqt) Hc].
destruct (built_fields stack q a t t' s' (set_statics f w)) as (B1 & B2 & B3 & B4 & B5 & B6 & B7).
rewrite <- Hw0 in B1, B2, B3, B4, B5, B6, B7. cbn in B1, B2, B3, B4, B6.
rewrite (proj2 (Z.eqb_neq _ _)) in Hrun by lia.
destruct (moves_extended sy t t' _ s' (iu_len _ _ _ Hu) (iu_isrs _ _ _ Hu) Hm) as [He Hs].
assert (q ≠ a) as Hqa by (intros ->; pose proof (iu_table _ _ _ Hu); cbn in Hqt; congruence).
exists (activated q w0), t'. split; [done|]. split.
{ eapply activated_in_use; [exact Hu0|done|done|rewrite B2; set_solver|rewrite B1; apply lookup_insert_eq|].
  destruct Hm as [-> _]. apply (iu_len _ _ _ Hu). }
assert (∀ A (p : adw → A), (∀ f w, p (set_current_idt f w) = p w) → (∀ f w, p (set_idtr f w) = p w) →
  (∀ f w, p (set_tables f w) = p w) → (∀ f w, p (set_pages f w) = p w) → p (activated q w0) = p w0) as Hkeep.
{ intros A p H1 H2 H3 H4. unfold activated. destruct (_ =? 0); by rewrite H1, H2, ?H3, ?H4. }
split; [done|]. split; [|split; [|split; [|split]]].
- rewrite (Hkeep _ ef_adaptor_orig_isrs) by done. by rewrite B5.
- rewrite (Hkeep _ ists) by done. by rewrite B3.
- rewrite (Hkeep _ ists) by done. rewrite B3. apply Forall_lookup. intros j i Hj.
  apply list_lookup_imap_Some in Hj as (i0 & Hi0 & ->). by apply (granted_all stack 0 (ists w)).
- rewrite (Hkeep _ statics) by done. exact Hdf.
- intros p. assert (p ∈ stack_pages stack 0 (ists w) → p ≠ a) as Hpa.
  { intros Hp%Hfr ->. destruct Hp as [_ Hp]. pose proof (iu_table _ _ _ Hu). congruence. }
  unfold activated. destruct (iu_owner _ _ _ Hu) as [[Hca Hap]|(Hca & _ & Hap)]; rewrite B6, Hca.
  + rewrite (proj2 (Z.eqb_neq _ _) (iu_null _ _ _ Hu)). cbn. rewrite B2. clear -Hpa Hqa. set_solver.
  + cbn. rewrite B2. clear -Hpa Hap. set_solver.
Qed.

(** Nothing is left to do. *)
Definition idle (t : list gate_desc) (w : adw) : Prop :=
(∀ v g, t !! v = Some g → g_ist g ≠ 0) ∧ Forall (λ i, i ≠ 0) (ists w).

Lemma idle_stacks stack k l : Forall (λ i, i ≠ 0) l →
stack_pages stack k l = ∅ ∧ granted stack k l = true ∧ ∀ f, (∀ j i, f j i = new_ist stack (k + j) i) → imap f l = l.
Proof.
intros Hl. revert k. induction Hl as [|i l Hi Hl IH]; intros k; [done|].
destruct (IH (S k)) as (H1 & H2 & H3). cbn. unfold new_page. rewrite (proj2 (Z.eqb_neq _ _) Hi), H1, H2.
split_and!; [set_solver|done|]. intros f Hf. rewrite Hf. f_equal.
- unfold new_ist. by rewrite (proj2 (Z.eqb_neq _ _) Hi).
- apply H3. intros j x. cbn. rewrite Hf. f_equal. lia.
Qed.

Lemma idle_count t vs : (∀ v g, t !! v = Some g → g_ist g ≠ 0) → moved_count vs t = 0%nat.
Proof.
intros H. unfold moved_count. induction vs as [|v vs IH]; [done|]. rewrite filter_cons.
rewrite decide_False; [exact IH|]. unfold unstacked. destruct (t !! v) as [g|] eqn:E; [|by intros []].
specialize (H v g E). rewrite (proj2 (Z.eqb_neq _ _) H). by intros [].
Qed.

Lemma extension_idle a t q stack w :
in_use a t w → stacks_ok stack → fresh_page q w → idle t w →
∃ w', extension_init sy (Some q) stack w = Done 0 w' ∧ same_setup w w'.
Proof.
intros Hu Hok Hq [Ht Hi]. destruct (idle_stacks stack 0 (ists w) Hi) as (Hp & Hg & Himap).
assert (stacked stack w = w) as Hst.
{ unfold stacked, set_ists, set_pages. cbn. rewrite Hp, union_empty_l_L, Himap by done. by destruct w. }
assert (loadable a t q stack w) as Hl.
{ split; try done; [intros p; rewrite Hp; set_solver|by rewrite Hst|].
  intros v g h _ Hg0 _ ?. by destruct (Ht v g Hg0). }
destruct (extension_init_run a t q stack w Hl) as (w0 & t' & s' & Hm & Hu0 & (f & Hw0) & _ & Hrun).
rewrite (idle_count t _ Ht) in Hrun. cbn in Hrun. exists (released q w0). split; [done|].
destruct (built_fields stack q a t t' s' (set_statics f w)) as (B1 & B2 & B3 & B4 & B5 & B6 & _).
rewrite <- Hw0 in B1, B2, B3, B4, B5, B6. cbn in B1, B2, B3, B4, B6.
destruct Hq as (Hq0 & Hqp & Hqt). unfold same_setup, released. cbn.
rewrite B1, B2, B3, B4, B5, B6, delete_insert_id, Hp by done. split_and!; try done.
- set_solver.
- by apply Himap.
- destruct (moves_extended sy t t' _ s' (iu_len _ _ _ Hu) (iu_isrs _ _ _ Hu) Hm) as [_ Hs].
  apply list_eq. intros v. destruct (ef_adaptor_orig_isrs w !! v) as [h|] eqn:Eh.
  + destruct (lookup_lt_is_Some_2 t v) as [g Eg].
    { rewrite (iu_len _ _ _ Hu), <- (iu_isrs _ _ _ Hu). by eapply lookup_lt_Some. }
    rewrite (Hs v g h Eg Eh), decide_False by by eapply Ht. done.
  + apply lookup_ge_None in Eh. apply lookup_ge_None. destruct Hm as (_ & -> & _). done.
Qed.

Lemma extended_idle t t' : length t' = length t → extended sy t t' → ∀ v g, t' !! v = Some g → g_ist g ≠ 0.
Proof.
intros Hl He v g Hg. destruct (lookup_lt_is_Some_2 t v) as [g0 Hg0]; [rewrite <- Hl; by eapply lookup_lt_Some|].
destruct (He v g0 Hg0) as (g' & Hg' & H). assert (g' = g) as -> by congruence.
destruct (decide (g_ist g0 = 0)); [|by rewrite H]. destruct H as [-> _]. done.
Qed.
End props.

Lemma moved_count_pos v g t : t !! v = Some g → g_ist g = 0 → length t = IDT_ENTRIES → (0 < moved_count all_vectors t)%nat.
Proof.
  intros Hv Hi Hl. unfold moved_count.
  assert (v ∈ filter (unstacked t) all_vectors) as Hin.
  { apply list_elem_of_filter. split; [unfold unstacked; by rewrite Hv, Hi|].
    apply elem_of_seq. apply lookup_lt_Some in Hv. lia. }
  destruct (filter _ _); [by apply elem_of_nil in Hin|cbn; lia].
Qed.

Section theorems.
Context (sy : symbols).

(** C9: Loading the extension gives every processor an exception stack and a table
  in which each vector without an interrupt stack is sent to that stack and to
  its own entry point, all other fields and all other vectors being as before; the
  kernel's handlers are saved, every processor runs on the new table, and the
  pages held are the stacks, the new table and those held before except the
  table replaced. *)
Theorem exception_stacks a t q stack w :
loadable a t q stack w → (0 < moved_count all_vectors t)%nat →
∃ w' t', extension_init sy (Some q) stack w = Done 0 w' ∧ in_use q t' w' ∧ extended sy t t' ∧
  (∀ v g h, t !! v = Some g → ef_adaptor_orig_isrs w !! v = Some h →
     ef_adaptor_orig_isrs w' !! v = Some (if decide (g_ist g = 0) then gate_offset g else h)) ∧
  ists w' = imap (new_ist stack) (ists w) ∧ Forall (λ i, i ≠ 0) (ists w') ∧
  (∀ g8, t !! 8%nat = Some g8 → df_handler_location (statics w') = gate_offset g8) ∧
  (∀ p, p ∈ pages w' ↔ p = q ∨ p ∈ stack_pages stack 0 (ists w) ∨ (p ∈ pages w ∧ p ≠ a)).
Proof. apply extension_loaded. Qed.

(** Loading the extension a second time succeeds and changes neither the
  table in use nor the stacks, the saved handlers or the pages held. *)
Theorem exception_stacks_once a t q stack w q' stack' :
loadable a t q stack w → (0 < moved_count all_vectors t)%nat → stacks_ok stack' →
∃ w', extension_init sy (Some q) stack w = Done 0 w' ∧
  (fresh_page q' w' →
   ∃ w'', extension_init sy (Some q') stack' w' = Done 0 w'' ∧ same_setup w' w'').
Proof.
intros Hl Hn Hok. destruct (extension_loaded sy a t q stack w Hl Hn) as (w' & t' & Hrun & Hu & He & _ & _ & Hi & _).
exists w'. split; [done|]. intros Hq. apply (extension_idle sy q t' q'); try done. split; [|done].
apply (extended_idle sy t); [|done]. rewrite (iu_len _ _ _ Hu). symmetry. apply (ld_use _ _ _ _ _ Hl).
Qed.

(** The error paths of the adaptor do not return: when a stack cannot be
  allocated on one processor and another has one, when there is no memory for
  the table, and when a vector's handler differs from the one saved, loading the
  extension ends in a fault of the kernel. *)
Theorem adaptor_failures_fault a t q stack w :
in_use a t w → stacks_ok stack → stacks_fresh stack w →
u64 (- PAGE_SIZE) ∉ {[q]} ∪ pages (stacked stack w) →
(∀ c i table, granted stack 0 (ists w) = false → ists (stacked stack w) !! c = Some i → i ≠ 0 →
   extension_init sy table stack w = Fault) ∧
(granted stack 0 (ists w) = true → extension_init sy None stack w = Fault) ∧
(∀ v, granted stack 0 (ists w) = true → fresh_page q (stacked stack w) → v ∈ all_vectors →
   mismatch t (ef_adaptor_orig_isrs w) v → extension_init sy (Some q) stack w = Fault).
Proof.
intros Hu Hok Hfr Hp.
destruct (lookup_lt_is_Some_2 t 8) as [g8 Hg8]; [rewrite (iu_len _ _ _ Hu); unfold IDT_ENTRIES; lia|].
destruct (df_location_run a t w g8 Hu Hg8) as (w1 & Hrun1 & Hw1).
assert (∀ table, ef_adaptor_init sy table stack [] 0 255 false w1 = Fault →
  extension_init sy table stack w = Fault) as Hext.
{ intros table Hf. unfold extension_init. step_by Hrun1. unfold mbind, M_bind. by rewrite Hf. }
assert (in_use a t w1) as Hu1 by (rewrite Hw1; by apply set_statics_in_use).
split_and!.
- intros c i table Hg Hc Hi. apply Hext. subst w1.
  apply (ef_init_no_stack sy stack table [] 0 255 _ c i); try done; [apply (iu_ists _ _ _ Hu)|set_solver].
- intros Hg. apply Hext. subst w1. 
  eapply (ef_init_no_table sy stack); try done. apply (iu_ists _ _ _ Hu).
- intros v Hg Hq Hv Hm. apply Hext.
  destruct (lookup_lt_is_Some_2 (ists (stacked stack w)) 0) as [i Hi].
  { cbn. rewrite length_imap, (iu_ists _ _ _ Hu). pose proof (iu_cpu _ _ _ Hu). lia. }
  assert (i ≠ 0) as Hi0.
  { cbn in Hi. apply list_lookup_imap_Some in Hi as (i0 & Hi0 & ->). by apply (granted_all stack 0 (ists w)). }
  subst w1. apply (ef_init_mismatch sy stack q a t _ [] 0 255 all_vectors v 0 i); try done. apply asks_all.
Qed.

(** C22: When the three fault vectors have the kernel's handlers, installing the
  page fault adaptor puts its handlers in front of them on every processor,
  leaves the other fields and vectors as they were and notes the kernel's
  handlers; installing it again changes nothing. *)
Theorem fault_handlers_installed a t q q' w g14 g8 g13 exc_pf exc_df exc_gp :
in_use a t w → fresh_page q w →
t !! 14%nat = Some g14 → t !! 8%nat = Some g8 → t !! 13%nat = Some g13 →
gate_offset g14 = exc_pf → gate_offset g8 = exc_df → gate_offset g13 = exc_gp →
∃ w' t', pf_adaptor_init sy (Some q) exc_pf exc_df exc_gp w = Done 1 w' ∧ in_use q t' w' ∧
  (∀ v g, t !! v = Some g → t' !! v = Some
    (if decide (v = 14%nat) then gate_set_offset (pf_adaptor_asm_fix_err_code_u sy) g
     else if decide (v = 8%nat) then gate_set_offset (pf_adaptor_asm_fix_err_code_uw sy) g
     else if decide (v = 13%nat) then gate_set_offset (pf_adaptor_asm_fix_err_code_gp sy) g else g)) ∧
  statics w' = pf_statics exc_pf exc_df exc_gp (statics w) ∧
  (0 <= pf_adaptor_asm_fix_err_code_u sy < 2 ^ 64 → 0 <= pf_adaptor_asm_fix_err_code_uw sy < 2 ^ 64 →
   0 <= pf_adaptor_asm_fix_err_code_gp sy < 2 ^ 64 →
   pf_adaptor_asm_fix_err_code_u sy ≠ exc_pf → pf_adaptor_asm_fix_err_code_uw sy ≠ exc_df →
   pf_adaptor_asm_fix_err_code_gp sy ≠ exc_gp → fresh_page q' w' →
   ∃ w'', pf_adaptor_init sy (Some q') exc_pf exc_df exc_gp w' = Done 1 w'' ∧ same_setup w' w'').
Proof.
intros Hu Hq H14 H8 H13 E14 E8 E13.
destruct (pf_init_run sy exc_pf exc_df exc_gp q a t w g14 g8 g13) as [Hu1 Hrun]; try done.
{ split_and!; by left. }
rewrite E14, E8, E13, !Z.eqb_refl in Hrun. cbn [orb] in Hrun.
set (t' := pf_installed sy exc_pf exc_df exc_gp g14 g8 g13 t) in *.
set (w1 := set_statics _ _) in *.
assert (q ≠ a) as Hqa by (intros ->; destruct Hq as (_ & _ & ?), Hu; congruence).
assert (in_use q t' (activated q w1)) as Hu2.
{ eapply activated_in_use; [exact Hu1|done|apply Hq| | |].
  - unfold w1, cloned. destruct (_ =? 0); cbn; set_solver.
  - apply lookup_insert_eq.
  - unfold t', pf_installed. rewrite !length_insert. apply (iu_len _ _ _ Hu). }
assert (∀ v g, t !! v = Some g → t' !! v = Some
  (if decide (v = 14%nat) then gate_set_offset (pf_adaptor_asm_fix_err_code_u sy) g
   else if decide (v = 8%nat) then gate_set_offset (pf_adaptor_asm_fix_err_code_uw sy) g
   else if decide (v = 13%nat) then gate_set_offset (pf_adaptor_asm_fix_err_code_gp sy) g else g)) as Hlook.
{ intros v g Hg. unfold t', pf_installed, installed. rewrite E14, E8, E13, !Z.eqb_refl.
  assert (v < length t)%nat by by eapply lookup_lt_Some.
  destruct (decide (v = 14%nat)) as [->|]; [|destruct (decide (v = 8%nat)) as [->|];
    [|destruct (decide (v = 13%nat)) as [->|]]];
    rewrite ?list_lookup_insert_ne by done; rewrite ?list_lookup_insert_eq by (rewrite ?length_insert; done);
    congruence. }
exists (activated q w1), t'. split; [done|]. split; [done|]. split; [done|]. split.
- unfold activated, w1, cloned. destruct (_ =? 0), (_ =? 0); done.
- intros R1 R2 R3 N1 N2 N3 Hq'.
  eapply (pf_init_idle sy exc_pf exc_df exc_gp q' q t' _
    (gate_set_offset (pf_adaptor_asm_fix_err_code_u sy) g14)
    (gate_set_offset (pf_adaptor_asm_fix_err_code_uw sy) g8)
    (gate_set_offset (pf_adaptor_asm_fix_err_code_gp sy) g13)); try done;
    rewrite ?gate_offset_set by done; try done; [apply (Hlook 14%nat)|apply (Hlook 8%nat)|apply (Hlook 13%nat)]; done.
Qed.

(** The two adaptors exclude each other: once the extension is loaded the
  page fault vector leads to its entry point, and installing the page fault
  adaptor is refused, with the table in use and the pages held unchanged. *)
Theorem adaptors_exclude a t q q' stack w g14 exc_pf exc_df exc_gp :
loadable a t q stack w → t !! 14%nat = Some g14 → g_ist g14 = 0 →
isr_addr sy 14 ≠ exc_pf → isr_addr sy 14 ≠ pf_adaptor_asm_fix_err_code_u sy →
∃ w', extension_init sy (Some q) stack w = Done 0 w' ∧
  (fresh_page q' w' →
   ∃ w'', pf_adaptor_init sy (Some q') exc_pf exc_df exc_gp w' = Done 0 w'' ∧ same_setup w' w'').
Proof.
intros Hl H14 Hi Hne1 Hne2.
assert (0 < moved_count all_vectors t)%nat as Hn by (apply (moved_count_pos 14 g14); [done..|apply (iu_len _ _ _ (ld_use _ _ _ _ _ Hl))]).
destruct (extension_loaded sy a t q stack w Hl Hn) as (w' & t' & Hrun & Hu & He & _).
exists w'. split; [done|]. intros Hq.
destruct (He 14%nat g14 H14) as (g & Hg & Hg'). rewrite decide_True in Hg' by done.
destruct (lookup_lt_is_Some_2 t' 8) as [g8 H8]; [rewrite (iu_len _ _ _ Hu); unfold IDT_ENTRIES; lia|].
destruct (lookup_lt_is_Some_2 t' 13) as [g13 H13]; [rewrite (iu_len _ _ _ Hu); unfold IDT_ENTRIES; lia|].
apply (pf_init_refuse sy exc_pf exc_df exc_gp q' q t' w' g g8 g13); try done.
intros [[K|K] _]; destruct Hg' as (_ & Ho & _); rewrite Ho in K; done.
Qed.
End theorems.

(** ** Instances: two processors, the kernel's table at 4096 *)
Definition boot_gate (v : nat) : gate_desc :=
  gate_set_offset (0xffffffff81000000 + 16 * Z.of_nat v)
    (Gate 0 KERNEL_CS (if decide (v ∈ [1; 2; 8; 18]%nat) then 1 else 0) 0 GATE_INTERRUPT 0 1 0 0 0).
Definition boot_table : list gate_desc := boot_gate <$> all_vectors.
Definition boot : adw :=
  Adw {[4096 := boot_table]} ∅ [Dtr IDT_LIMIT 4096; Dtr IDT_LIMIT 4096] 0 [0; 0] 0 0
    (replicate IDT_ENTRIES 0) (PfStatics 0 0 0 0).
Definition boot_syms : symbols :=
  Symbols 0xffffffffc0001000 32 0xffffffffc0000800 0xffffffffc0000100 0xffffffffc0000200 0xffffffffc0000300.
Definition boot_stack (c : nat) : option Z := if decide (c < 2)%nat then Some (0x10000 + 4096 * Z.of_nat c) else None.

Lemma boot_in_use : in_use 4096 boot_table boot.
Proof.
  split; try done.
  - intros d. cbn. rewrite !elem_of_cons, elem_of_nil. by intros [->|[->|[]]].
  - cbn. lia.
  - right. split_and!; [done|by left|set_solver].
Defined.

Lemma boot_stacks : stacks_ok boot_stack.
Proof.
  intros c p. unfold boot_stack. case_decide; [|done]. intros [= <-]. unfold PAGE_SIZE. lia.
Qed.

Lemma boot_fresh p : p ∈ ([0x10000; 0x11000; 0x20000] : list Z) → p ∉ pages boot ∧ tables boot !! p = None.
Proof. rewrite !elem_of_cons, elem_of_nil. intros [->|[->|[->|[]]]]; (split; [set_solver|done]). Qed.

Lemma boot_stacked : pages (stacked boot_stack boot) = {[0x10000; 0x11000]}.
Proof. reflexivity. Qed.

Lemma boot_loadable : loadable 4096 boot_table 0x20000 boot_stack boot.
Proof.
  split.
  - apply boot_in_use.
  - apply boot_stacks.
  - intros p. assert (stack_pages boot_stack 0 (ists boot) = {[0x10000; 0x11000]}) as -> by reflexivity.
    intros Hp. apply boot_fresh. set_solver.
  - reflexivity.
  - split; [done|]. rewrite boot_stacked. split; [set_solver|]. apply (boot_fresh 0x20000). set_solver.
  - intros v g h _ _ Hh _. left. by apply lookup_replicate in Hh as [-> _].
Qed.

Lemma exception_stacks_witness :
  (0 < moved_count all_vectors boot_table)%nat ∧
  ∃ w' t', extension_init boot_syms (Some 0x20000) boot_stack boot = Done 0 w' ∧ in_use 0x20000 t' w'.
Proof.
  split; [by apply Nat.ltb_lt; vm_compute|].
  destruct (exception_stacks boot_syms 4096 boot_table 0x20000 boot_stack boot) as (w' & t' & H1 & H2 & _).
  - apply boot_loadable.
  - by apply Nat.ltb_lt; vm_compute.
  - exists w', t'. split; [exact H1|exact H2].
Defined.

Lemma exception_stacks_once_witness :
  ∃ w', extension_init boot_syms (Some 0x20000) boot_stack boot = Done 0 w' ∧
    (fresh_page 0x30000 w' →
     ∃ w'', extension_init boot_syms (Some 0x30000) boot_stack w' = Done 0 w'' ∧ same_setup w' w'').
Proof.
  apply (exception_stacks_once boot_syms 4096 boot_table 0x20000 boot_stack boot).
  - apply boot_loadable.
  - by apply Nat.ltb_lt; vm_compute.
  - apply boot_stacks.
Defined.

Lemma adaptor_failures_fault_witness :
  extension_init boot_syms None boot_stack boot = Fault.
Proof.
  apply (adaptor_failures_fault boot_syms 4096 boot_table 0x20000 boot_stack boot).
  - apply boot_in_use.
  - apply boot_stacks.
  - apply (ld_fresh _ _ _ _ _ boot_loadable).
  - rewrite boot_stacked. by apply (bool_decide_unpack _).
  - reflexivity.
Defined.

Lemma fault_handlers_installed_witness :
  ∃ w' t', pf_adaptor_init boot_syms (Some 0x20000) 0xffffffff810000e0 0xffffffff81000080
    0xffffffff810000d0 boot = Done 1 w' ∧ in_use 0x20000 t' w'.
Proof.
  destruct (fault_handlers_installed boot_syms 4096 boot_table 0x20000 0x30000 boot
    (boot_gate 14) (boot_gate 8) (boot_gate 13) 0xffffffff810000e0 0xffffffff81000080 0xffffffff810000d0)
    as (w' & t' & H1 & H2 & _); try reflexivity.
  - apply boot_in_use.
  - split; [done|]. apply (boot_fresh 0x20000). set_solver.
  - exists w', t'. split; [exact H1|exact H2].
Defined.

Lemma adaptors_exclude_witness :
  ∃ w', extension_init boot_syms (Some 0x20000) boot_stack boot = Done 0 w' ∧
    (fresh_page 0x30000 w' →
     ∃ w'', pf_adaptor_init boot_syms (Some 0x30000) 0xffffffff810000e0 0xffffffff81000080
       0xffffffff810000d0 w' = Done 0 w'' ∧ same_setup w' w'').
Proof.
  apply (adaptors_exclude boot_syms 4096 boot_table 0x20000 0x30000 boot_stack boot (boot_gate 14));
    [apply boot_loadable|reflexivity..| |]; by apply (bool_decide_unpack _).
Defined.
