(* ===== verification/AdaptorAsm.v ===== *)
(** * The entry code of the fault adaptors ([kcuttest/efasm.kS], [pfasm.kS])

    Every vector that was moved to the exception stack enters at its own stub,
    which notes the kernel's handler and goes on to common code that copies the
    exception frame to the stack the handler expects and returns into the handler.
    The page fault adaptor's handlers change the error code of a fault that an
    elevated thread takes. The machine is that of [X86] with the two GS bases and
    CR2; of the flags only the direction and interrupt flags are kept, and a
    conditional jump is a conditional on the value that was tested. Jumps to the
    labels that only mark an unexpected state and come straight back are left
    out. Memory is flat: an access does not fault. *)
From S2P Require Import X86.
From S2P Require Import Prelude.

Open Scope Z_scope.

Record acpu := Acpu { core : cpu; gs_base : Z; kernel_gs_base : Z; cr2 : Z }.

Definition on_core {A} (m : M cpu A) : M acpu A := λ a,
  match m (core a) with
  | Done x c => Done x (Acpu c (gs_base a) (kernel_gs_base a) (cr2 a))
  | Exited k c => Exited k (Acpu c (gs_base a) (kernel_gs_base a) (cr2 a))
  | Aborted => Aborted | Fault => Fault | NoFuel => NoFuel
  end.

(** Addresses the linker knows, offsets in the kernel's structures. *)
Record asm_symbols := AsmSymbols {
  ef_adaptor_orig_isrs_at : Z;
  cpu_tss_rw : Z;
  TSS_sp0 : Z;
  current_task : Z;
  TASK_symbiote_elevated : Z;
  THREAD_SIZE : Z;
  df_handler_location_at : Z;
  exc_page_fault_at : Z;
  exc_double_fault_at : Z;
  exc_general_protection_at : Z;
  pf_cnt_at : Z;
  df_cnt_at : Z;
  gp_cnt_at : Z;
}.

Definition ERRCODE_PF_WRITE : Z := Z.shiftl 1 1.
Definition ERRCODE_PF_USER : Z := Z.shiftl 1 2.
Definition RFLAGS_SWAPPED_GS : Z := Z.shiftl 1 29.
Definition RFLAGS_SWAPPED_GS_MASK : Z := u32 (Z.lnot (Z.shiftl 1 29)).
Definition USER_CS : Z := 0x33.
Definition USER_SS : Z := 0x2b.

(** ** Instructions *)

(** The sign flag after a test of a quad word. *)
Definition sign (v : Z) : bool := Z.testbit v 63.

Definition set_rflags (f : Z → Z) (c : cpu) : cpu := set_frame (rip c) (cs c) (f (rflags c)) (ss c) c.
Definition cld : M acpu unit := on_core (modifyM (set_rflags (λ f, Z.clearbit f 10))).
Definition sti : M acpu unit := on_core (modifyM (set_rflags (λ f, Z.setbit f 9))).
Definition cli : M acpu unit := on_core (modifyM (set_rflags (λ f, Z.clearbit f 9))).

(** [movq off(%a),%r], [movq %r,off(%a)], [movq $v,off(%a)], [movq sym(%rip),%r] *)
Definition load_from (off : Z) (a r : reg) : M acpu unit :=
  on_core (p ← getr a; v ← ld (p + off); setr r v).
Definition store_to (r : reg) (off : Z) (a : reg) : M acpu unit :=
  on_core (p ← getr a; v ← getr r; st (p + off) v).
Definition store_imm (v off : Z) (a : reg) : M acpu unit := on_core (p ← getr a; st (p + off) v).
Definition load_sym (addr : Z) (r : reg) : M acpu unit := on_core (v ← ld addr; setr r v).
(** [orl $v,off(%a)], [andl $v,off(%a)]: four bytes *)
Definition orl (v off : Z) (a : reg) : M acpu unit :=
  on_core (p ← getr a; x ← ldn 4 (p + off); stn 4 (p + off) (Z.lor x v)).
Definition andl (v off : Z) (a : reg) : M acpu unit :=
  on_core (p ← getr a; x ← ldn 4 (p + off); stn 4 (p + off) (Z.land x v)).
(** The value [testl $v,off(%a)] tests. *)
Definition testl (v off : Z) (a : reg) : M acpu Z :=
  on_core (p ← getr a; x ← ldn 4 (p + off); mret (Z.land x v)).
(** [and $v,%r], [lea sym(%rip),%r], [lea off(%a),%r] *)
Definition and_imm (v : Z) (r : reg) : M acpu unit := on_core (x ← getr r; setr r (Z.land x v)).
Definition lea (addr : Z) (r : reg) : M acpu unit := on_core (setr r addr).
Definition lea_off (off : Z) (a r : reg) : M acpu unit := on_core (p ← getr a; setr r (p + off)).
Definition pushq (r : reg) : M acpu unit := on_core (push r).
Definition popq (r : reg) : M acpu unit := on_core (pop r).
Definition movq (r r' : reg) : M acpu unit := on_core (mov r r').
Definition movq_imm (v : Z) (r : reg) : M acpu unit := on_core (mov_imm v r).
Definition addq (v : Z) (r : reg) : M acpu unit := on_core (add_imm v r).
Definition reg_of (r : reg) : M acpu Z := on_core (getr r).
Definition retq : M acpu unit := on_core ret.
(** [jmp *sym], [incq sym] *)
Definition jmp_at (addr : Z) : M acpu unit := on_core (v ← ld addr; modifyM (set_rip v)).
Definition incq (addr : Z) : M acpu unit := on_core (v ← ld addr; st addr (v + 1)).

Definition rdgsbase (r : reg) : M acpu unit := a ← getM; on_core (setr r (gs_base a)).
Definition swapgs : M acpu unit :=
  modifyM (λ a, Acpu (core a) (kernel_gs_base a) (gs_base a) (cr2 a)).
Definition mov_cr2 (r : reg) : M acpu unit := a ← getM; on_core (setr r (cr2 a)).
(** [movq %gs:off,%r] and [movq %gs:off(%a),%r] *)
Definition gs_load (off : Z) (r : reg) : M acpu unit :=
  a ← getM; on_core (v ← ld (gs_base a + off); setr r v).
Definition gs_load_from (off : Z) (b r : reg) : M acpu unit := p ← reg_of b; gs_load (p + off) r.
(** The byte [testb $1,off(%a)] tests. *)
Definition testb1 (off : Z) (a : reg) : M acpu Z :=
  on_core (p ← getr a; x ← ldn 1 (p + off); mret (Z.land x 1)).

(** [rep movsq]; the direction flag says which way. *)
Fixpoint movsq (n : nat) (d : Z) : M cpu unit :=
  match n with
  | O => mret tt
  | S n =>
      s ← getr RSI; t ← getr RDI; v ← ld s; _ ← st t v;
      _ ← setr RSI (s + d); _ ← setr RDI (t + d); c ← getr RCX; _ ← setr RCX (c - 1); movsq n d
  end.
Definition rep_movsq : M acpu unit :=
  on_core (n ← getr RCX; f ← getsM rflags; movsq (Z.to_nat n) (if Z.testbit f 10 then -8 else 8)).

(** ** [pfasm.kS] *)
Section asm.
Context (sy : asm_symbols).

(** Label [.Lerr_c_skip_set_dest] and what follows; RDI is the destination. *)
Definition err_code_copy : M acpu unit :=
_ ← gs_load (current_task sy) RSI;
e ← testb1 (TASK_symbiote_elevated sy) RSI;
_ ← (if e =? 0 then mret tt
     else _ ← mov_cr2 RCX; v ← reg_of RCX;
          if sign v then mret tt
          else seqM [orl ERRCODE_PF_USER 0x20 RSP; store_imm USER_CS 0x30 RSP; store_imm USER_SS 0x48 RSP]);
_ ← seqM [addq (-0x50) RDI; movq RSP RSI; movq_imm 10 RCX; rep_movsq; lea_off (-0x50) RDI RSP];
f ← testl RFLAGS_SWAPPED_GS 0x38 RSP;
_ ← (if f =? 0 then mret tt
     else seqM [swapgs; andl RFLAGS_SWAPPED_GS_MASK 0x38 RSP]);
seqM [popq RCX; popq RSI; popq RDI; retq].

Definition pf_adaptor_asm_fix_ist_no_err_code : M acpu unit :=
_ ← seqM [pushq RDI; movq_imm 0 RDI; movq RSP RDI; and_imm 0xfff RDI;
          load_from 0x28 RSP RDI; pushq RSI; pushq RCX];
v ← reg_of RDI;
_ ← (if sign v then mret tt
     else _ ← rdgsbase RDI; g ← reg_of RDI;
          if sign g then _ ← lea (cpu_tss_rw sy) RDI; gs_load_from (TSS_sp0 sy) RDI RDI
          else seqM [swapgs; lea (cpu_tss_rw sy) RDI; gs_load_from (TSS_sp0 sy) RDI RDI; swapgs]);
seqM [addq (-0x48) RDI; movq RSP RSI; movq_imm 9 RCX; rep_movsq; lea_off (-0x48) RDI RSP;
      popq RCX; popq RSI; popq RDI; retq].

Definition pf_adaptor_asm_fix_ist_err_code : M acpu unit :=
_ ← cld;
sp ← reg_of RSP;
if Z.land sp 8 =? 0 then pf_adaptor_asm_fix_ist_no_err_code
else
  _ ← seqM [pushq RDI; movq_imm 0 RDI; movq RSP RDI; and_imm 0xfff RDI;
            load_from 0x30 RSP RDI; pushq RSI; pushq RCX; rdgsbase RCX];
  g ← reg_of RCX;
  _ ← (if sign g then mret tt else _ ← swapgs; orl RFLAGS_SWAPPED_GS 0x38 RSP);
  d ← reg_of RDI;
  if negb (sign d) then
    _ ← seqM [lea (cpu_tss_rw sy) RDI; gs_load_from (TSS_sp0 sy) RDI RDI]; err_code_copy
  else
    _ ← seqM [lea (cpu_tss_rw sy) RSI; gs_load_from (TSS_sp0 sy) RSI RSI;
              addq (- (THREAD_SIZE sy + 0x1000)) RSI; mov_cr2 RCX; and_imm 0xfffffffffffff000 RCX];
    x ← reg_of RCX; y ← reg_of RSI;
    if negb (sign (Z.land x y)) then err_code_copy
    else seqM [popq RCX; popq RSI; popq RDI; addq 8 RSP; jmp_at (df_handler_location_at sy)].

(** [efasm.kS]: the stub of vector [i]. *)
Definition ef_isr (i : Z) : M acpu unit :=
_ ← seqM [addq (-8) RSP; pushq RDI; load_sym (ef_adaptor_orig_isrs_at sy + 8 * i) RDI;
          store_to RDI 8 RSP; popq RDI];
pf_adaptor_asm_fix_ist_err_code.

(** The stack is touched when it is a user stack. *)
Definition stack_touch : M acpu unit :=
sp ← reg_of RSP;
if sign sp then mret tt
else seqM [sti; on_core (p ← getr RSP; stn 1 (p - 0x1000) 1); cli].

(** Whether the fault was taken by an elevated thread; RAX is lost. *)
Definition elevated : M acpu bool :=
_ ← rdgsbase RAX; g ← reg_of RAX;
if negb (sign g) then mret false
else _ ← gs_load (current_task sy) RAX;
     e ← testb1 (TASK_symbiote_elevated sy) RAX; mret (negb (e =? 0)).

Definition pf_adaptor_asm_fix_err_code_u : M acpu unit :=
_ ← incq (pf_cnt_at sy);
_ ← stack_touch;
_ ← pushq RAX;
e ← elevated;
_ ← (if e : bool then orl ERRCODE_PF_USER 8 RSP else mret tt);
_ ← popq RAX;
jmp_at (exc_page_fault_at sy).

Definition pf_adaptor_asm_fix_err_code_uw : M acpu unit :=
_ ← incq (df_cnt_at sy);
_ ← pushq RAX;
e ← elevated;
if e : bool then
  _ ← orl (Z.lor ERRCODE_PF_USER ERRCODE_PF_WRITE) 8 RSP; _ ← popq RAX; jmp_at (exc_page_fault_at sy)
else _ ← popq RAX; jmp_at (exc_double_fault_at sy).

Definition pf_adaptor_asm_fix_err_code_gp : M acpu unit :=
_ ← incq (gp_cnt_at sy); _ ← stack_touch; jmp_at (exc_general_protection_at sy).
End asm.
