(* ===== verification/AdaptorAsmSpec.v ===== *)
(** * What the entry code of the adaptors does

    A small program logic for the entry code: [here b m0 R ws k a] says that the
    registers of [a] are [R], that the words from [b] up are [ws], that memory
    elsewhere is as in [m0], and that the control state is [k]. Each instruction
    has a rule that updates [R] and [ws]. *)
From S2P Require Import X86.
From S2P Require Import Interposer.
From S2P Require Import InterposerSpec.
From S2P Require Import AdaptorAsm.
From S2P Require Import Prelude.

Open Scope Z_scope.

(** Flags, GS bases, CR2, and the registers the code does not touch. *)
Record ctx := Ctx { k_flags : Z; k_gs : Z; k_kgs : Z; k_cr2 : Z; k_rest : Z * Z * Z * Z * Z }.
Definition ctx_of (a : acpu) : ctx :=
  Ctx (rflags (core a)) (gs_base a) (kernel_gs_base a) (cr2 a)
    (cs (core a), ss (core a), cr3 (core a), dr6 (core a), dr7 (core a)).
Definition flagged (f : Z) (k : ctx) : ctx := Ctx f (k_gs k) (k_kgs k) (k_cr2 k) (k_rest k).
Definition swapped (k : ctx) : ctx := Ctx (k_flags k) (k_kgs k) (k_gs k) (k_cr2 k) (k_rest k).

Record here (b : Z) (m0 : Z → Z) (R : reg → Z) (ws : list Z) (k : ctx) (a : acpu) : Prop := {
  h_regs : ∀ r, regs (core a) r = R r;
  h_range : ∀ r, 0 <= R r < 2 ^ 64;
  h_words : ∀ i x, ws !! i = Some x → word (mem (core a)) (b + 8 * Z.of_nat i) = x;
  h_else : changes_only b (8 * Z.of_nat (length ws)) m0 (mem (core a));
  h_len : (length ws <= 16)%nat;
  h_ctx : ctx_of a = k;
}.

(** ** Weakest preconditions of sequences *)
Lemma wp_seq {S} (i : M S unit) l Q s : wp i (λ _, wp (seqM l) Q) s → wp (seqM (i :: l)) Q s.
Proof. apply wp_bind. Qed.

Lemma wp_bind3 {S A B C D} (m : M S A) (f : A → M S B) (h : A → B → M S C) (g : C → M S D) Q s :
  wp (x ← m; y ← f x; h x y) (λ z, wp (g z) Q) s → wp (x ← m; y ← f x; z ← h x y; g z) Q s.
Proof.
  unfold wp, mbind, M_bind. destruct (m s) as [x s1| | | |]; try done.
  destruct (f x s1) as [y s2| | | |]; try done. by destruct (h x y s2).
Qed.

Lemma wp_core {A} (m : M cpu A) Q a x c :
  m (core a) = Done x c → Q x (Acpu c (gs_base a) (kernel_gs_base a) (cr2 a)) → wp (on_core m) Q a.
Proof. intros Hm HQ. unfold wp, on_core. by rewrite Hm. Qed.

Definition with_core (f : cpu → cpu) (a : acpu) : acpu :=
  Acpu (f (core a)) (gs_base a) (kernel_gs_base a) (cr2 a).

(** ** Changing the state *)
Section here.
Context (b : Z) (m0 : Z → Z).

Lemma here_reg R ws k a r v :
here b m0 R ws k a →
here b m0 (<[r := u64 v]> R) ws k (with_core (set_regs (λ f, <[r := u64 v]> f)) a).
Proof.
intros [Hr Hk Hw He Hl Hc]. split; try done.
- intros r'. cbn. destruct (decide (r' = r)) as [->|]; [by rewrite !fn_lookup_insert|].
  by rewrite !fn_lookup_insert_ne.
- intros r'. destruct (decide (r' = r)) as [->|]; [rewrite fn_lookup_insert; apply u64_range|].
  by rewrite fn_lookup_insert_ne.
Qed.

Lemma here_word R ws k a i x p :
here b m0 R ws k a → ws !! i = Some x → u64 p = u64 (b + 8 * Z.of_nat i) →
word (mem (core a)) p = x.
Proof. intros H Hi Hp. rewrite (word_mod _ p (b + 8 * Z.of_nat i)) by done. by apply (h_words _ _ _ _ _ _ H). Qed.

(** Memory changed so that word [i] is [v] and nothing else differs. *)
Lemma here_update R ws k a i p m v n :
here b m0 R ws k a → (i < length ws)%nat → u64 p = u64 (b + 8 * Z.of_nat i) → (n <= 8)%nat →
m = mem_store n (mem (core a)) p v →
here b m0 R (<[i := word m p]> ws) k (with_core (set_mem (λ _, m)) a).
Proof.
intros [Hr Hk Hw He Hl Hc] Hi Hp Hn ->. split; try done.
- intros j x Hj. cbn [core with_core mem set_mem]. destruct (decide (j = i)) as [->|Hne].
  + rewrite list_lookup_insert_eq in Hj by done. injection Hj as <-. by apply word_mod.
  + rewrite list_lookup_insert_ne in Hj by done. rewrite <- (Hw j x Hj).
    assert (j < length ws)%nat by by eapply lookup_lt_Some.
    apply mem_load_store_ne.
    * replace (u64 (b + 8 * Z.of_nat j - p)) with (u64 (8 * (Z.of_nat j - Z.of_nat i))) by u64_eq.
      unfold u64. destruct (decide (i < j)%nat); [rewrite Z.mod_small by lia; lia|].
      rewrite <- (Z.mod_add _ 1) by lia. rewrite Z.mod_small by lia. lia.
    * replace (u64 (b + 8 * Z.of_nat j - p)) with (u64 (8 * (Z.of_nat j - Z.of_nat i))) by u64_eq.
      unfold u64. destruct (decide (i < j)%nat); [rewrite Z.mod_small by lia; lia|].
      rewrite <- (Z.mod_add _ 1) by lia. rewrite Z.mod_small by lia. lia.
- rewrite length_insert. eapply changes_trans; [exact He|].
  apply (changes_store _ _ _ _ _ _ (8 * Z.of_nat i)); [|lia..].
  replace (u64 (p - b)) with (u64 (8 * Z.of_nat i)) by u64_eq. apply u64_id. lia.
- by rewrite length_insert.
Qed.

(** A word away from the area. *)
Definition away (ws : list Z) (p : Z) : Prop := 8 * Z.of_nat (length ws) <= u64 (p - b) <= 2 ^ 64 - 8.

Lemma here_away R ws k a p :
here b m0 R ws k a → away ws p → word (mem (core a)) p = word m0 p.
Proof. intros H Hp. apply (changes_word b _ _ _ _ (h_else _ _ _ _ _ _ H)). exact Hp. Qed.
End here.

(** ** The low half of a quad word *)
Lemma word_split m p : word m p = mem_load 4 m p + 2 ^ 32 * mem_load 4 m (p + 4).
Proof.
  unfold word, mem_load. replace (p + 4) with (p + 1 + 1 + 1 + 1) by lia. ring.
Qed.

Lemma word_low m p : mem_load 4 m p = word m p mod 2 ^ 32.
Proof.
  rewrite word_split, Z.mul_comm, Z.mod_add by lia. rewrite Z.mod_small; [done|]. apply (mem_load_range 4).
Qed.

Lemma word_store4 m p v : word (mem_store 4 m p v) p = u32 v + 2 ^ 32 * (word m p / 2 ^ 32).
Proof.
  rewrite word_split, mem_load_store_eq by lia. f_equal. f_equal.
  rewrite (mem_load_store_ne 4 4); [|replace (p + 4 - p) with 4 by lia; by rewrite u64_id by lia..].
  pose proof (mem_load_range 4 m p) as Hr. change (256 ^ Z.of_nat 4) with (2 ^ 32) in Hr.
  rewrite (word_split m p), Z.mul_comm, Z.div_add by lia. rewrite Z.div_small by lia. lia.
Qed.

Lemma half_bits a b n : 0 <= a < 2 ^ 32 → 0 <= n →
  Z.testbit (a + 2 ^ 32 * b) n = if n <? 32 then Z.testbit a n else Z.testbit b (n - 32).
Proof.
  intros Ha Hn. destruct (Z.ltb_spec n 32) as [H|H].
  - rewrite <- (Z.mod_pow2_bits_low (a + 2 ^ 32 * b) 32 n) by lia.
    rewrite Z.mul_comm, Z.mod_add by lia. by rewrite Z.mod_small.
  - rewrite <- (Z.sub_add 32 n) at 1. rewrite <- Z.div_pow2_bits by lia.
    rewrite Z.mul_comm, Z.div_add by lia. by rewrite Z.div_small.
Qed.

Lemma low_bits a n : 0 <= a < 2 ^ 32 → 32 <= n → Z.testbit a n = false.
Proof.
  intros Ha Hn. rewrite <- (Z.mod_small a (2 ^ 32)) by done. by apply Z.mod_pow2_bits_high.
Qed.

(** Four byte operations on a quad word whose result fits. *)
Lemma half_lor x v : 0 <= v < 2 ^ 32 →
  u32 (Z.lor (x mod 2 ^ 32) v) + 2 ^ 32 * (x / 2 ^ 32) = Z.lor x v.
Proof.
  intros Hv. apply Z.bits_inj'. intros n Hn. rewrite half_bits by (done || apply Z.mod_pos_bound; lia).
  rewrite Z.lor_spec. unfold u32. destruct (Z.ltb_spec n 32).
  - rewrite !Z.mod_pow2_bits_low by lia. by rewrite Z.lor_spec, Z.mod_pow2_bits_low by lia.
  - rewrite Z.div_pow2_bits by lia. rewrite Z.sub_add. rewrite (low_bits v) by done. by rewrite orb_false_r.
Qed.

Lemma half_clear x i : 0 <= i < 32 →
  u32 (Z.land (x mod 2 ^ 32) (u32 (Z.lnot (Z.shiftl 1 i)))) + 2 ^ 32 * (x / 2 ^ 32) = Z.clearbit x i.
Proof.
  intros Hi. apply Z.bits_inj'. intros n Hn. rewrite half_bits by (done || apply Z.mod_pos_bound; lia).
  rewrite Z.clearbit_eqb by lia. unfold u32. destruct (Z.ltb_spec n 32).
  - rewrite !Z.mod_pow2_bits_low by lia. rewrite Z.land_spec, !Z.mod_pow2_bits_low by lia.
    f_equal. rewrite Z.lnot_spec by lia. f_equal. rewrite Z.shiftl_spec by lia.
    destruct (Z.eqb_spec i n) as [->|]; [by rewrite Z.sub_diag|].
    destruct (decide (n < i)); [by rewrite Z.testbit_neg_r by lia|]. by rewrite Z.bits_above_log2 by (cbn; lia).
  - rewrite Z.div_pow2_bits by lia. rewrite Z.sub_add.
    destruct (Z.eqb_spec i n); [lia|]. by rewrite andb_true_r.
Qed.

(** ** Rules for the instructions *)
Section rules.
Context (b : Z) (m0 : Z → Z) (R : reg → Z) (ws : list Z) (k : ctx) (a : acpu).
Context (H : here b m0 R ws k a).
Context (Q : unit → acpu → Prop).

(** Instructions that set a register. *)
Lemma wp_setreg m r v :
m (core a) = Done tt (set_regs (λ f, <[r := u64 v]> f) (core a)) →
(∀ a', here b m0 (<[r := u64 v]> R) ws k a' → Q tt a') → wp (on_core m) Q a.
Proof using H. intros Hm HQ. eapply wp_core; [exact Hm|]. apply HQ. by apply (here_reg b m0 R ws k a r v). Qed.

Ltac setreg := eapply wp_setreg; [reflexivity|]; cbv beta; rewrite ?(h_regs _ _ _ _ _ _ H).

Lemma wp_movq r r' :
(∀ a', here b m0 (<[r' := u64 (R r)]> R) ws k a' → Q tt a') → wp (movq r r') Q a.
Proof using H. intros HQ. by setreg. Qed.
Lemma wp_movq_imm v r :
(∀ a', here b m0 (<[r := u64 v]> R) ws k a' → Q tt a') → wp (movq_imm v r) Q a.
Proof using H. intros HQ. by setreg. Qed.
Lemma wp_addq v r :
(∀ a', here b m0 (<[r := u64 (R r + v)]> R) ws k a' → Q tt a') → wp (addq v r) Q a.
Proof using H. intros HQ. by setreg. Qed.
Lemma wp_and_imm v r :
(∀ a', here b m0 (<[r := u64 (Z.land (R r) v)]> R) ws k a' → Q tt a') → wp (and_imm v r) Q a.
Proof using H. intros HQ. by setreg. Qed.
Lemma wp_lea x r :
(∀ a', here b m0 (<[r := u64 x]> R) ws k a' → Q tt a') → wp (lea x r) Q a.
Proof using H. intros HQ. by setreg. Qed.
Lemma wp_lea_off off r r' :
(∀ a', here b m0 (<[r' := u64 (R r + off)]> R) ws k a' → Q tt a') → wp (lea_off off r r') Q a.
Proof using H. intros HQ. by setreg. Qed.
Lemma here_gs : gs_base a = k_gs k.
Proof using H. by rewrite <- (h_ctx _ _ _ _ _ _ H). Qed.
Lemma here_cr2 : cr2 a = k_cr2 k.
Proof using H. by rewrite <- (h_ctx _ _ _ _ _ _ H). Qed.
Lemma wp_rdgsbase r :
(∀ a', here b m0 (<[r := u64 (k_gs k)]> R) ws k a' → Q tt a') → wp (rdgsbase r) Q a.
Proof using H.
intros HQ. apply wp_bind, wp_get. rewrite here_gs. by setreg.
Qed.
Lemma wp_mov_cr2 r :
(∀ a', here b m0 (<[r := u64 (k_cr2 k)]> R) ws k a' → Q tt a') → wp (mov_cr2 r) Q a.
Proof using H.
intros HQ. apply wp_bind, wp_get. rewrite here_cr2. by setreg.
Qed.

(** A word of the area, away from it. *)
Lemma wp_load_from off r r' i x :
ws !! i = Some x → u64 (R r + off) = u64 (b + 8 * Z.of_nat i) →
(∀ a', here b m0 (<[r' := u64 x]> R) ws k a' → Q tt a') → wp (load_from off r r') Q a.
Proof using H.
intros Hi Hp HQ. rewrite <- (h_regs _ _ _ _ _ _ H) in Hp.
rewrite <- (here_word b m0 R ws k a i x _ H Hi Hp), <- word_u64 in HQ. by eapply wp_setreg.
Qed.
Lemma wp_load_sym p r :
away b ws p → (∀ a', here b m0 (<[r := u64 (word m0 p)]> R) ws k a' → Q tt a') → wp (load_sym p r) Q a.
Proof using H.
intros Hp HQ. rewrite <- (here_away b m0 R ws k a p H Hp), <- word_u64 in HQ. by eapply wp_setreg.
Qed.
Lemma wp_gs_load off r :
away b ws (k_gs k + off) →
(∀ a', here b m0 (<[r := u64 (word m0 (k_gs k + off))]> R) ws k a' → Q tt a') → wp (gs_load off r) Q a.
Proof using H.
intros Hp HQ. apply wp_bind, wp_get. rewrite here_gs.
rewrite <- (here_away b m0 R ws k a _ H Hp), <- word_u64 in HQ. by eapply wp_setreg.
Qed.
Lemma wp_gs_load_from off r r' :
away b ws (k_gs k + (R r + off)) →
(∀ a', here b m0 (<[r' := u64 (word m0 (k_gs k + (R r + off)))]> R) ws k a' → Q tt a') →
wp (gs_load_from off r r') Q a.
Proof using H.
intros Hp HQ. apply wp_bind. eapply wp_core; [reflexivity|].
replace (Acpu _ _ _ _) with a by by destruct a. rewrite (h_regs _ _ _ _ _ _ H). by apply wp_gs_load.
Qed.

(** Stores. *)
Lemma wp_stored m p i v :
m (core a) = Done tt (set_mem (λ m, mem_store 8 m p v) (core a)) → (i < length ws)%nat →
u64 p = u64 (b + 8 * Z.of_nat i) →
(∀ a', here b m0 R (<[i := u64 v]> ws) k a' → Q tt a') → wp (on_core m) Q a.
Proof using H.
intros Hm Hi Hp HQ. eapply wp_core; [exact Hm|]. apply HQ.
rewrite <- (word_store_eq (mem (core a)) p v). by eapply (here_update b m0 R ws k a i p _ v 8).
Qed.
Lemma wp_store_to r off r' i :
(i < length ws)%nat → u64 (R r' + off) = u64 (b + 8 * Z.of_nat i) →
(∀ a', here b m0 R (<[i := R r]> ws) k a' → Q tt a') → wp (store_to r off r') Q a.
Proof using H.
intros Hi Hp HQ. rewrite <- (h_regs _ _ _ _ _ _ H) in Hp. rewrite <- (u64_id (R r)) in HQ by apply H.
rewrite <- (h_regs _ _ _ _ _ _ H r) in HQ. eapply wp_stored; [reflexivity|done| |exact HQ]. by rewrite u64_u64.
Qed.
Lemma wp_store_imm v off r i :
(i < length ws)%nat → u64 (R r + off) = u64 (b + 8 * Z.of_nat i) →
(∀ a', here b m0 R (<[i := u64 v]> ws) k a' → Q tt a') → wp (store_imm v off r) Q a.
Proof using H.
intros Hi Hp HQ. rewrite <- (h_regs _ _ _ _ _ _ H) in Hp.
eapply wp_stored; [reflexivity|done| |exact HQ]. by rewrite u64_u64.
Qed.
Lemma wp_stored4 m p i x v :
ws !! i = Some x → m (core a) = Done tt (set_mem (λ m, mem_store 4 m p v) (core a)) →
u64 p = u64 (b + 8 * Z.of_nat i) →
(∀ a', here b m0 R (<[i := u32 v + 2 ^ 32 * (x / 2 ^ 32)]> ws) k a' → Q tt a') → wp (on_core m) Q a.
Proof using H.
intros Hi Hm Hp HQ. eapply wp_core; [exact Hm|]. apply HQ.
rewrite <- (here_word b m0 R ws k a i x p H Hi Hp), <- word_store4.
eapply (here_update b m0 R ws k a i p _ v 4); try done; [by eapply lookup_lt_Some|lia].
Qed.

(** The low half of word [i]. *)
Lemma here_low i x p :
ws !! i = Some x → u64 p = u64 (b + 8 * Z.of_nat i) →
mem_load 4 (mem (core a)) (u64 p) = x mod 2 ^ 32.
Proof using H.
intros Hi Hp. rewrite word_low, word_u64. by rewrite (here_word b m0 R ws k a i x p H Hi Hp).
Qed.
Lemma wp_orl v off r i x :
0 <= v < 2 ^ 32 → ws !! i = Some x → u64 (R r + off) = u64 (b + 8 * Z.of_nat i) →
(∀ a', here b m0 R (<[i := Z.lor x v]> ws) k a' → Q tt a') → wp (orl v off r) Q a.
Proof using H.
intros Hv Hi Hp HQ. rewrite <- (h_regs _ _ _ _ _ _ H) in Hp. rewrite <- half_lor in HQ by done.
rewrite <- (here_low i x _ Hi Hp) in HQ. eapply wp_stored4; [done|reflexivity|by rewrite u64_u64|exact HQ].
Qed.
Lemma wp_andl j off r i x :
0 <= j < 32 → ws !! i = Some x → u64 (R r + off) = u64 (b + 8 * Z.of_nat i) →
(∀ a', here b m0 R (<[i := Z.clearbit x j]> ws) k a' → Q tt a') →
wp (andl (u32 (Z.lnot (Z.shiftl 1 j))) off r) Q a.
Proof using H.
intros Hv Hi Hp HQ. rewrite <- (h_regs _ _ _ _ _ _ H) in Hp. rewrite <- half_clear in HQ by done.
rewrite <- (here_low i x _ Hi Hp) in HQ. eapply wp_stored4; [done|reflexivity|by rewrite u64_u64|exact HQ].
Qed.

(** The stack. *)
Lemma wp_swapgs : (∀ a', here b m0 R ws (swapped k) a' → Q tt a') → wp swapgs Q a.
Proof using H.
intros HQ. apply wp_modify, HQ. destruct H as [? ? ? ? ? <-]. by split.
Qed.
Lemma wp_cld : (∀ a', here b m0 R ws (flagged (Z.clearbit (k_flags k) 10) k) a' → Q tt a') → wp cld Q a.
Proof using H.
intros HQ. eapply wp_core; [reflexivity|]. apply HQ. destruct H as [? ? ? ? ? <-]. by split.
Qed.
Lemma wp_nop : (here b m0 R ws k a → Q tt a) → wp (mret tt) Q a.
Proof using H. intros HQ. by apply wp_ret, HQ. Qed.
Lemma wp_seq_nil : (here b m0 R ws k a → Q tt a) → wp (seqM []) Q a.
Proof using H. intros HQ. by apply wp_ret, HQ. Qed.
End rules.

Lemma core_same a : Acpu (core a) (gs_base a) (kernel_gs_base a) (cr2 a) = a.
Proof. by destruct a. Qed.

(** ** Rules for reads, the stack and the ends of the code *)
Section reads.
Context (b : Z) (m0 : Z → Z) (R : reg → Z) (ws : list Z) (k : ctx) (a : acpu).
Context (H : here b m0 R ws k a).

Lemma wp_reg_of r Q : (here b m0 R ws k a → Q (R r) a) → wp (reg_of r) Q a.
Proof using H.
intros HQ. eapply wp_core; [reflexivity|]. rewrite core_same. cbv beta.
rewrite (h_regs _ _ _ _ _ _ H). by apply HQ.
Qed.

(** The byte at [p] is away from the area. *)
Lemma wp_testb1 off r Q :
8 * Z.of_nat (length ws) <= u64 (R r + off - b) →
(here b m0 R ws k a → Q (Z.land (mem_load 1 m0 (R r + off)) 1) a) → wp (testb1 off r) Q a.
Proof using H.
intros Hp HQ. eapply wp_core; [reflexivity|]. rewrite core_same. cbv beta.
rewrite (h_regs _ _ _ _ _ _ H), mem_load_u64.
rewrite (mem_load_ext 1 _ m0); [by apply HQ|]. intros i Hi. apply (h_else _ _ _ _ _ _ H).
assert (i = 0) as -> by lia. by rewrite Z.add_0_r, u64_sub_l.
Qed.
Lemma wp_testl v off r i x Q :
ws !! i = Some x → u64 (R r + off) = u64 (b + 8 * Z.of_nat i) →
(here b m0 R ws k a → Q (Z.land (x mod 2 ^ 32) v) a) → wp (testl v off r) Q a.
Proof using H.
intros Hi Hp HQ. rewrite <- (h_regs _ _ _ _ _ _ H) in Hp. eapply wp_core; [reflexivity|].
rewrite core_same. cbv beta. rewrite (here_low b m0 R ws k a H i x _ Hi Hp). by apply HQ.
Qed.

Lemma wp_pushq r i Q :
(i < length ws)%nat → u64 (R RSP - 8) = u64 (b + 8 * Z.of_nat i) →
(∀ a', here b m0 (<[RSP := u64 (R RSP - 8)]> R) (<[i := R r]> ws) k a' → Q tt a') → wp (pushq r) Q a.
Proof using H.
intros Hi Hp HQ. eapply wp_core; [apply push_run|]. apply HQ. unfold pushed.
rewrite !(h_regs _ _ _ _ _ _ H). rewrite (u64_id (R r)) by apply H.
rewrite <- (u64_id (R r)) at 1 by apply H.
rewrite <- (word_store_eq (mem (core a)) (u64 (R RSP - 8)) (R r)).
eapply (here_update b m0 _ ws k _ i _ _ (R r) 8 (here_reg b m0 R ws k a RSP (R RSP - 8) H)); try done.
by rewrite u64_u64.
Qed.

Lemma area_range i x : ws !! i = Some x → 0 <= x < 2 ^ 64.
Proof using H. intros Hi. rewrite <- (h_words _ _ _ _ _ _ H i x Hi). apply word_range. Qed.

Lemma wp_popq r i x Q :
ws !! i = Some x → u64 (R RSP) = u64 (b + 8 * Z.of_nat i) →
(∀ a', here b m0 (<[r := x]> (<[RSP := u64 (R RSP + 8)]> R)) ws k a' → Q tt a') → wp (popq r) Q a.
Proof using H.
intros Hi Hp HQ. eapply (wp_core _ _ _ tt); [unfold pop; rewrite (bind_done _ _ _ _ _ (pop_val_run (core a))); reflexivity|].
apply HQ. rewrite (h_regs _ _ _ _ _ _ H), (here_word b m0 R ws k a i x _ H Hi Hp).
rewrite <- (u64_id x) at 1 by by eapply area_range.
apply (here_reg b m0 _ ws k (with_core popped a) r x).
change (with_core popped a) with (with_core (set_regs (λ f, <[RSP := u64 (regs (core a) RSP + 8)]> f)) a).
rewrite (h_regs _ _ _ _ _ _ H).
by apply here_reg.
Qed.

Lemma wp_retq i x Q :
ws !! i = Some x → u64 (R RSP) = u64 (b + 8 * Z.of_nat i) →
(∀ a', here b m0 (<[RSP := u64 (R RSP + 8)]> R) ws k a' → rip (core a') = x → Q tt a') → wp retq Q a.
Proof using H.
intros Hi Hp HQ. eapply (wp_core _ _ _ tt); [unfold ret; rewrite (bind_done _ _ _ _ _ (pop_val_run (core a))); reflexivity|].
apply HQ.
- pose proof (here_reg b m0 R ws k a RSP (R RSP + 8) H) as H'. unfold popped.
  rewrite (h_regs _ _ _ _ _ _ H). destruct H'. by split.
- cbn. rewrite (h_regs _ _ _ _ _ _ H). apply (here_word b m0 R ws k a i x _ H Hi Hp).
Qed.
Lemma wp_jmp_at p Q :
away b ws p → (∀ a', here b m0 R ws k a' → rip (core a') = word m0 p → Q tt a') → wp (jmp_at p) Q a.
Proof using H.
intros Hp HQ. eapply wp_core; [reflexivity|]. apply HQ.
- destruct H. by split.
- cbn. rewrite word_u64. apply (here_away b m0 R ws k a p H Hp).
Qed.
End reads.

(** ** Copying words *)

(** Ranges of [n] bytes at [s] and [t] that do not overlap. *)
Definition apart (s t n : Z) : Prop := n <= u64 (s - t) <= 2 ^ 64 - n.

Lemma movsq_run n s t c :
  regs_ok c → regs c RSI = u64 s → regs c RDI = u64 t → (n <= 16)%nat →
  ∃ c', movsq n 8 c = Done tt c' ∧ ctl c' = ctl c ∧ regs_ok c' ∧
    regs c' RSI = u64 (s + 8 * Z.of_nat n) ∧ regs c' RDI = u64 (t + 8 * Z.of_nat n) ∧
    regs c' RCX = u64 (regs c RCX - Z.of_nat n) ∧
    (∀ r, r ≠ RSI → r ≠ RDI → r ≠ RCX → regs c' r = regs c r) ∧
    changes_only t (8 * Z.of_nat n) (mem c) (mem c') ∧
    (apart s t (8 * Z.of_nat n) →
     ∀ i, (i < n)%nat → word (mem c') (t + 8 * Z.of_nat i) = word (mem c) (s + 8 * Z.of_nat i)).
Proof.
  revert s t c. induction n as [|n IH]; intros s t c Hok Hs Ht Hn.
  { exists c. rewrite !Z.add_0_r, Z.sub_0_r, Hs, Ht, (u64_id (regs c RCX)) by apply Hok.
    split_and!; try done. intros _ i Hi. lia. }
  cbn [movsq]. 
  set (c1 := set_regs (λ f, <[RCX := u64 (regs c RCX - 1)]> (<[RDI := u64 (t + 8)]> (<[RSI := u64 (s + 8)]> f)))
    (set_mem (λ m, mem_store 8 m (u64 t) (word (mem c) (u64 s))) c)).
  assert (movsq (S n) 8 c = movsq n 8 c1) as Hstep.
  { cbn [movsq]. unfold getr, setr, ld, st, stn, getsM, modifyM, mbind, M_bind. cbn.
    rewrite !fn_lookup_insert_ne by done. rewrite Hs, Ht, !u64_u64. unfold c1, set_regs, set_mem. cbn.
    by rewrite !u64_add_l. }
  cbn [movsq] in Hstep. rewrite Hstep. clear Hstep.
  assert (regs_ok c1) as Hok1.
  { intros r. unfold c1. cbn. destruct (decide (r = RCX)) as [->|]; [rewrite fn_lookup_insert; apply u64_range|].
    rewrite fn_lookup_insert_ne by done.
    destruct (decide (r = RDI)) as [->|]; [rewrite fn_lookup_insert; apply u64_range|].
    rewrite fn_lookup_insert_ne by done.
    destruct (decide (r = RSI)) as [->|]; [rewrite fn_lookup_insert; apply u64_range|].
    by rewrite fn_lookup_insert_ne. }
  destruct (IH (s + 8) (t + 8) c1 Hok1) as (c' & Hrun & Hctl & Hok' & Hsi & Hdi & Hcx & Hoth & Hch & Hcp); [| |lia|].
  { unfold c1. cbn. by rewrite !fn_lookup_insert_ne, fn_lookup_insert by done. }
  { unfold c1. cbn. by rewrite fn_lookup_insert_ne, fn_lookup_insert by done. }
  assert (regs c1 RCX = u64 (regs c RCX - 1)) as Hcx1 by (unfold c1; cbn; by rewrite fn_lookup_insert).
  assert (mem c1 = mem_store 8 (mem c) (u64 t) (word (mem c) (u64 s))) as Hm1 by done.
  exists c'. split; [exact Hrun|]. split; [done|]. split; [done|]. rewrite Nat2Z.inj_succ.
  split; [rewrite Hsi; f_equal; lia|]. split; [rewrite Hdi; f_equal; lia|].
  split; [rewrite Hcx, Hcx1, u64_sub_l; f_equal; lia|]. split; [|split].
  - intros r ? ? ?. rewrite Hoth by done. unfold c1. cbn. by rewrite !fn_lookup_insert_ne.
  - apply (changes_trans _ _ _ (mem c1)).
    + rewrite Hm1. eapply (changes_store _ _ _ 8 _ _ 0); [rewrite u64_sub_l, Z.sub_diag; by apply u64_id|lia..].
    + eapply (changes_sub _ _ _ _ 8); [exact Hch|by replace (t + 8 - t) with 8 by lia; apply u64_id; lia|lia..].
  - intros [Hap1 Hap2] [|i] Hi.
    + change (8 * Z.of_nat 0) with 0. rewrite !Z.add_0_r.
      rewrite (changes_word (t + 8) _ _ _ _ Hch).
      * rewrite Hm1, <- word_u64, word_store_eq, word_u64. apply u64_id, word_range.
      * replace (t - (t + 8)) with (-8) by lia. change (u64 (-8)) with (2 ^ 64 - 8). lia.
    + rewrite Nat2Z.inj_succ. replace (t + 8 * Z.succ (Z.of_nat i)) with (t + 8 + 8 * Z.of_nat i) by lia.
      rewrite Hcp by (unfold apart; replace (s + 8 - (t + 8)) with (s - t) by lia; lia).
      replace (s + 8 + 8 * Z.of_nat i) with (s + 8 * Z.succ (Z.of_nat i)) by lia.
      rewrite Hm1. apply (word_store_ne _ _ _ _ (u64 (s - t) + 8 * Z.succ (Z.of_nat i))); [|lia].
      rewrite u64_sub_r, u64_add_l. f_equal. lia.
Qed.

(** The whole area is copied to [d]. *)
Lemma wp_rep_movsq b m0 R ws k a d Q :
  here b m0 R ws k a → Z.testbit (k_flags k) 10 = false → R RCX = Z.of_nat (length ws) →
  R RSI = u64 b → R RDI = u64 d → apart b d (8 * Z.of_nat (length ws)) →
  (∀ a', here d (mem (core a)) (<[RCX := 0]> (<[RDI := u64 (d + 8 * Z.of_nat (length ws))]>
     (<[RSI := u64 (b + 8 * Z.of_nat (length ws))]> R))) ws k a' → Q tt a') →
  wp rep_movsq Q a.
Proof.
  intros H Hdf Hcx Hsi Hdi Hap HQ. pose proof (h_len _ _ _ _ _ _ H) as Hlen.
  destruct (movsq_run (length ws) b d (core a)) as (c' & Hrun & Hctl & Hok & Hsi' & Hdi' & Hcx' & Hoth & Hch & Hcp);
    [intros r; rewrite (h_regs _ _ _ _ _ _ H); apply H|by rewrite (h_regs _ _ _ _ _ _ H)..|done|].
  eapply wp_core.
  - unfold getr, getsM, mbind, M_bind. cbv beta iota.
    rewrite (h_regs _ _ _ _ _ _ H), Hcx, Nat2Z.id.
    assert (rflags (core a) = k_flags k) as -> by (by rewrite <- (h_ctx _ _ _ _ _ _ H)). rewrite Hdf. exact Hrun.
  - apply HQ. split; cbn [core]; try done.
    + intros r. destruct (decide (r = RCX)) as [->|].
      { rewrite fn_lookup_insert, Hcx', (h_regs _ _ _ _ _ _ H), Hcx, Z.sub_diag. done. }
      rewrite fn_lookup_insert_ne by done. destruct (decide (r = RDI)) as [->|].
      { by rewrite fn_lookup_insert. }
      rewrite fn_lookup_insert_ne by done. destruct (decide (r = RSI)) as [->|].
      { by rewrite fn_lookup_insert. }
      rewrite fn_lookup_insert_ne by done. rewrite Hoth by done. apply (h_regs _ _ _ _ _ _ H).
    + intros r. destruct (decide (r = RCX)) as [->|]; [by rewrite fn_lookup_insert|].
      rewrite fn_lookup_insert_ne by done.
      destruct (decide (r = RDI)) as [->|]; [rewrite fn_lookup_insert; apply u64_range|].
      rewrite fn_lookup_insert_ne by done.
      destruct (decide (r = RSI)) as [->|]; [rewrite fn_lookup_insert; apply u64_range|].
      rewrite fn_lookup_insert_ne by done. apply H.
    + intros i x Hi. rewrite Hcp by (done || by eapply lookup_lt_Some). by apply (h_words _ _ _ _ _ _ H).
    + rewrite <- (h_ctx _ _ _ _ _ _ H). unfold ctl in Hctl. unfold ctx_of. cbn. injection Hctl as E1 E2 E3 E4 E5 E6. by rewrite E1, E2, E3, E4, E5, E6.
Qed.

(** ** Paths through the code *)
Lemma flag_bit x i : 0 <= i < 32 → Z.land (x mod 2 ^ 32) (Z.shiftl 1 i) =? 0 = negb (Z.testbit x i).
Proof.
  intros Hi. rewrite Z.shiftl_1_l, Z.land_comm. destruct (Z.testbit x i) eqn:E; cbn.
  - apply Z.eqb_neq. intros H0. assert (Z.testbit (Z.land (2 ^ i) (x mod 2 ^ 32)) i = true) as Ht.
    { rewrite Z.land_spec, Z.pow2_bits_true, Z.mod_pow2_bits_low by lia. by rewrite E. }
    by rewrite H0, Z.bits_0 in Ht.
  - apply Z.eqb_eq. apply Z.bits_inj'. intros n Hn. rewrite Z.bits_0, Z.land_spec, Z.pow2_bits_eqb by lia.
    destruct (Z.eqb_spec i n) as [->|]; [|done]. by rewrite Z.mod_pow2_bits_low, E by lia.
Qed.
Lemma here_ext b m0 R R' ws k a :
  here b m0 R ws k a → (∀ r, R r = R' r) → here b m0 R' ws k a.
Proof. intros [] HR. split; try done; intros r; rewrite <- HR; done. Qed.

(** [seq_step lem] runs one instruction with its rule, [mem_at] shows which word an
    address is, [reg_at] what a register holds. *)
Ltac flat := repeat first [rewrite <- Z.add_opp_r | rewrite u64_add_l | rewrite u64_u64 | rewrite <- Z.add_assoc].
Ltac reg_at := x86_regs; flat; try done.
Ltac mem_at HR := x86_regs; rewrite ?HR; x86_regs; flat; f_equal; lia.

Section paths.
Context (sy : asm_symbols).

(** The registers when the handler is entered. *)
Definition restored (R : reg → Z) (rcx rsi rdi sp : Z) : reg → Z := λ r,
match r with RSP => sp | RCX => rcx | RSI => rsi | RDI => rdi | _ => R r end.

(** The thread is elevated and the fault address is a user address. *)
Definition fix_frame (m : Z → Z) (k : ctx) : bool :=
negb (Z.land (mem_load 1 m (word m (k_gs k + current_task sy) + TASK_symbiote_elevated sy)) 1 =? 0)
  && negb (sign (u64 (k_cr2 k))).

Lemma copy_tail b m0 R k a rcx rsi rdi h err ip c fl osp oss d :
here b m0 R [rcx; rsi; rdi; h; err; ip; c; fl; osp; oss] k a →
R RSP = u64 b → R RDI = u64 d → Z.testbit (k_flags k) 10 = false → apart b (d - 80) 80 →
wp (_ ← seqM [addq (-0x50) RDI; movq RSP RSI; movq_imm 10 RCX; rep_movsq; lea_off (-0x50) RDI RSP];
    f ← testl RFLAGS_SWAPPED_GS 0x38 RSP;
    _ ← (if f =? 0 then mret tt
         else seqM [swapgs; andl RFLAGS_SWAPPED_GS_MASK 0x38 RSP]);
    seqM [popq RCX; popq RSI; popq RDI; retq])
  (λ _ a', rip (core a') = h ∧ ∃ m1, changes_only b 80 m0 m1 ∧
     here (d - 80) m1 (restored R rcx rsi rdi (u64 (d - 48)))
       [rcx; rsi; rdi; h; err; ip; c; if Z.testbit fl 29 then Z.clearbit fl 29 else fl; osp; oss]
       (if Z.testbit fl 29 then swapped k else k) a') a.
Proof.
intros H Hsp Hdi Hdf Hap. apply wp_bind.
apply wp_seq. eapply wp_addq; [exact H|]. intros a1 H1.
apply wp_seq. eapply wp_movq; [exact H1|]. intros a2 H2.
apply wp_seq. eapply wp_movq_imm; [exact H2|]. intros a3 H3.
apply wp_seq. eapply (wp_rep_movsq _ _ _ _ _ _ (d - 80)); [exact H3|done| | | |done|].
{ reg_at. } { reg_at. by rewrite Hsp, u64_u64. } { reg_at. rewrite Hdi. by flat. }
cbn [length]. intros a4 H4. apply wp_seq. eapply wp_lea_off; [exact H4|]. intros a5 H5. apply wp_ret.
apply wp_bind. eapply (wp_testl _ _ _ _ _ _ H5 _ _ _ 7 fl); [done|mem_at Hsp|]. intros _.
assert (Z.land (fl mod 2 ^ 32) RFLAGS_SWAPPED_GS =? 0 = negb (Z.testbit fl 29)) as ->.
{ apply flag_bit. lia. }
apply wp_bind. apply (wp_mono _ (λ _ a', here (d - 80) (mem (core a3))
  (restored R 0 (u64 (b + 80)) (u64 d) (u64 (d - 80)))
  [rcx; rsi; rdi; h; err; ip; c; if Z.testbit fl 29 then Z.clearbit fl 29 else fl; osp; oss]
  (if Z.testbit fl 29 then swapped k else k) a')).
{ apply (here_ext _ _ _ (restored R 0 (u64 (b + 80)) (u64 d) (u64 (d - 80)))) in H5.
  2:{ intros []; cbn; x86_regs; flat; try done; f_equal; lia. }
  destruct (Z.testbit fl 29); cbn [negb]; [|by apply wp_ret].
  apply wp_seq. eapply wp_swapgs; [exact H5|]. intros a6 H6.
  apply wp_seq. eapply (wp_andl _ _ _ _ _ _ H6 _ 29 _ _ 7); [lia|done|cbn; mem_at Hsp|].
  intros a7 H7. by apply wp_ret. }
intros _ a6 H6.
apply wp_seq. eapply (wp_popq _ _ _ _ _ _ H6 _ 0); [done|cbn; mem_at Hsp|]. intros a7 H7.
apply wp_seq. eapply (wp_popq _ _ _ _ _ _ H7 _ 1); [done|cbn; mem_at Hsp|]. intros a8 H8.
apply wp_seq. eapply (wp_popq _ _ _ _ _ _ H8 _ 2); [done|cbn; mem_at Hsp|]. intros a9 H9.
apply wp_seq. eapply (wp_retq _ _ _ _ _ _ H9 3); [done|cbn; mem_at Hsp|]. intros a10 H10 Hrip.
apply wp_ret. split; [done|]. exists (mem (core a3)). split; [apply (h_else _ _ _ _ _ _ H3)|].
eapply here_ext; [exact H10|]. intros []; cbn; x86_regs; cbn; flat; try done; f_equal; lia.
Qed.

(** What the code reads away from the area: the pointer to the current task and its
  flag. *)
Definition task_away (b : Z) (m : Z → Z) (k : ctx) : Prop :=
let p := k_gs k + current_task sy in
80 <= u64 (p - b) <= 2 ^ 64 - 8 ∧ 80 <= u64 (word m p + TASK_symbiote_elevated sy - b).

Lemma err_code_copy_spec b m0 R k a rcx rsi rdi h err ip c fl osp oss d :
here b m0 R [rcx; rsi; rdi; h; err; ip; c; fl; osp; oss] k a →
R RSP = u64 b → R RDI = u64 d → Z.testbit (k_flags k) 10 = false → apart b (d - 80) 80 →
task_away b m0 k →
wp (err_code_copy sy)
  (λ _ a', rip (core a') = h ∧ ∃ m1, changes_only b 80 m0 m1 ∧
     here (d - 80) m1 (restored R rcx rsi rdi (u64 (d - 48)))
       [rcx; rsi; rdi; h; if fix_frame m0 k then Z.lor err ERRCODE_PF_USER else err; ip;
        if fix_frame m0 k then USER_CS else c;
        if Z.testbit fl 29 then Z.clearbit fl 29 else fl; osp;
        if fix_frame m0 k then USER_SS else oss]
       (if Z.testbit fl 29 then swapped k else k) a') a.
Proof.
intros H Hsp Hdi Hdf Hap [Haw1 Haw2]. unfold err_code_copy.
apply wp_bind. eapply wp_gs_load; [exact H|exact Haw1|]. intros a1 H1.
set (task := word m0 (k_gs k + current_task sy)) in *.
assert (0 <= task < 2 ^ 64) as Htask by apply word_range.
rewrite u64_id in H1 by done.
apply wp_bind. eapply (wp_testb1 _ _ _ _ _ _ H1); [x86_regs; exact Haw2|]. intros _. x86_regs.
apply wp_bind. apply (wp_mono _ (λ _ a', ∃ R', here b m0 R'
  [rcx; rsi; rdi; h; if fix_frame m0 k then Z.lor err ERRCODE_PF_USER else err; ip;
   if fix_frame m0 k then USER_CS else c; fl; osp; if fix_frame m0 k then USER_SS else oss] k a' ∧
  ∀ r, r ≠ RSI → r ≠ RCX → R' r = R r)).
{ unfold fix_frame. fold task. destruct (_ =? 0); cbn [negb andb].
  { apply wp_ret. eexists. split; [exact H1|]. intros r ? ?. by rewrite fn_lookup_insert_ne. }
  apply wp_bind. eapply wp_mov_cr2; [exact H1|]. intros a2 H2.
  apply wp_bind. eapply (wp_reg_of _ _ _ _ _ _ H2). intros _. x86_regs.
  destruct (sign (u64 (k_cr2 k))); cbn [negb].
  { apply wp_ret. eexists. split; [exact H2|]. intros r ? ?. by rewrite !fn_lookup_insert_ne. }
  apply wp_seq. eapply (wp_orl _ _ _ _ _ _ H2 _ _ _ _ 4); [done|done|mem_at Hsp|]. intros a3 H3.
  apply wp_seq. eapply (wp_store_imm _ _ _ _ _ _ H3 _ _ _ _ 6); [cbn; lia|mem_at Hsp|]. intros a4 H4.
  apply wp_seq. eapply (wp_store_imm _ _ _ _ _ _ H4 _ _ _ _ 9); [cbn; lia|mem_at Hsp|]. intros a5 H5.
  apply wp_ret. eexists. split; [exact H5|]. intros r ? ?. by rewrite !fn_lookup_insert_ne. }
intros _ a2 (R' & H2 & HR').
eapply wp_mono; [eapply copy_tail; [exact H2|by rewrite HR'..|done|exact Hap]|].
intros _ a' (Hrip & m1 & Hm1 & H'). split; [done|]. exists m1. split; [done|].
eapply here_ext; [exact H'|]. intros []; cbn; try done; by apply HR'.
Qed.

(** The stub: the area holds the handler below the frame. *)
Lemma stub_spec i a fr :
let sp := regs (core a) RSP in
let h := word (mem (core a)) (ef_adaptor_orig_isrs_at sy + 8 * i) in
regs_ok (core a) → (length fr <= 6)%nat →
(∀ j x, fr !! j = Some x → word (mem (core a)) (sp + 8 * Z.of_nat j) = x) →
32 + 8 * Z.of_nat (length fr) <= u64 (ef_adaptor_orig_isrs_at sy + 8 * i - (sp - 32)) <= 2 ^ 64 - 8 →
wp (seqM [addq (-8) RSP; pushq RDI; load_sym (ef_adaptor_orig_isrs_at sy + 8 * i) RDI;
          store_to RDI 8 RSP; popq RDI])
  (λ _ a', ∃ w0 w1, here (sp - 32) (mem (core a)) (<[RSP := u64 (sp - 8)]> (regs (core a)))
     (w0 :: w1 :: regs (core a) RDI :: h :: fr) (ctx_of a) a') a.
Proof.
intros sp h Hok Hlen Hfr Haw. set (b := sp - 32).
set (w := λ j, word (mem (core a)) (b + 8 * j)).
assert (here b (mem (core a)) (regs (core a)) (w 0 :: w 1 :: w 2 :: w 3 :: fr) (ctx_of a) a) as H.
{ split; try done; [|cbn; lia]. intros j x Hj. do 4 (destruct j as [|j]; [by injection Hj as <-|]).
  rewrite <- (Hfr j x Hj). f_equal. unfold b. lia. }
assert (0 <= h < 2 ^ 64) as Hh by apply word_range.
apply wp_seq. eapply wp_addq; [exact H|]. intros a1 H1.
apply wp_seq. eapply (wp_pushq _ _ _ _ _ _ H1 _ 2); [cbn; lia|x86_regs; flat; f_equal; unfold b, sp; lia|].
intros a2 H2. cbn in H2. x86_regs.
apply wp_seq. eapply wp_load_sym; [exact H2|unfold away; cbn [length]; unfold b; lia|]. intros a3 H3.
rewrite u64_id in H3 by done.
apply wp_seq. eapply (wp_store_to _ _ _ _ _ _ H3 _ _ _ _ 3); [cbn; lia|x86_regs; flat; f_equal; unfold b, sp; lia|].
intros a4 H4. cbn in H4.
apply wp_seq. eapply (wp_popq _ _ _ _ _ _ H4 _ 2); [done|x86_regs; flat; f_equal; unfold b, sp; lia|].
intros a5 H5. apply wp_ret. exists (w 0), (w 1). fold b.
rewrite !fn_lookup_insert, !fn_lookup_insert_ne, ?fn_lookup_insert in H5 by done.
eapply here_ext; [exact H5|]. intros []; cbn; x86_regs; flat; try done; f_equal; unfold sp; lia.
Qed.

(** *** Exceptions with an error code *)

Lemma bit3 x : Z.land x 8 =? 0 = negb (Z.testbit x 3).
Proof.
change 8 with (2 ^ 3). rewrite Z.land_comm. destruct (Z.testbit x 3) eqn:E; cbn [negb].
- apply Z.eqb_neq. intros H0. assert (Z.testbit (Z.land (2 ^ 3) x) 3 = true) as Ht by by rewrite Z.land_spec, E.
  by rewrite H0 in Ht.
- apply Z.eqb_eq. apply Z.bits_inj'. intros n Hn. rewrite Z.bits_0, Z.land_spec, Z.pow2_bits_eqb by lia.
  by destruct (Z.eqb_spec 3 n) as [<-|].
Qed.

Lemma bit3_mod x : Z.testbit (u64 x) 3 = (8 <=? x mod 16).
Proof.
rewrite Z.testbit_eqb by lia. unfold u64. destruct (Z.leb_spec 8 (x mod 16)).
- apply Z.eqb_eq. Z.div_mod_to_equations. lia.
- apply Z.eqb_neq. Z.div_mod_to_equations. lia.
Qed.

Lemma swap_mark fl : Z.testbit fl 29 = false →
Z.testbit (Z.lor fl RFLAGS_SWAPPED_GS) 29 = true ∧ Z.clearbit (Z.lor fl RFLAGS_SWAPPED_GS) 29 = fl.
Proof.
intros Hfl. split; [by rewrite Z.lor_spec, Hfl|]. apply Z.bits_inj'. intros n Hn.
unfold RFLAGS_SWAPPED_GS. rewrite Z.shiftl_1_l, Z.clearbit_eqb, Z.lor_spec, Z.pow2_bits_eqb by lia.
destruct (Z.eqb_spec 29 n) as [<-|]; [by rewrite Hfl|]. by rewrite orb_false_r, andb_true_r.
Qed.

(** The stack switch: the kernel's GS base is in place, the frame notes whether it had
  to be swapped in. *)
Definition kernel_ctx (k : ctx) : ctx := if sign (k_gs k) then k else swapped k.
Definition marked (k : ctx) (fl : Z) : Z := if sign (k_gs k) then fl else Z.lor fl RFLAGS_SWAPPED_GS.

(** The stack top in the task state segment. *)
Definition sp0_at (k : ctx) : Z := k_gs k + (u64 (cpu_tss_rw sy) + TSS_sp0 sy).

Lemma err_entry b m0 R k a w0 w1 w2 h err ip c fl osp oss :
here b m0 R [w0; w1; w2; h; err; ip; c; fl; osp; oss] k a →
R RSP = u64 (b + 24) → 0 <= k_gs k < 2 ^ 64 → 0 <= osp < 2 ^ 64 →
wp (_ ← seqM [pushq RDI; movq_imm 0 RDI; movq RSP RDI; and_imm 0xfff RDI;
              load_from 0x30 RSP RDI; pushq RSI; pushq RCX; rdgsbase RCX];
    g ← reg_of RCX;
    if sign g then mret tt else _ ← swapgs; orl RFLAGS_SWAPPED_GS 0x38 RSP)
  (λ _ a', ∃ R', here b m0 R'
     [R RCX; R RSI; R RDI; h; err; ip; c; marked k fl; osp; oss] (kernel_ctx k) a' ∧
     R' RSP = u64 b ∧ R' RDI = osp ∧ ∀ r, r ≠ RSP → r ≠ RDI → r ≠ RCX → R' r = R r) a.
Proof.
intros H Hsp Hg Hosp. apply wp_bind.
apply wp_seq. eapply (wp_pushq _ _ _ _ _ _ H _ 2); [cbn; lia|mem_at Hsp|]. intros a1 H1. cbn in H1.
apply wp_seq. eapply wp_movq_imm; [exact H1|]. intros a2 H2.
apply wp_seq. eapply wp_movq; [exact H2|]. intros a3 H3.
apply wp_seq. eapply wp_and_imm; [exact H3|]. intros a4 H4.
apply wp_seq. eapply (wp_load_from _ _ _ _ _ _ H4 _ _ _ _ 8); [done|mem_at Hsp|]. intros a5 H5.
apply wp_seq. eapply (wp_pushq _ _ _ _ _ _ H5 _ 1); [cbn; lia|mem_at Hsp|]. intros a6 H6. cbn in H6.
apply wp_seq. eapply (wp_pushq _ _ _ _ _ _ H6 _ 0); [cbn; lia|mem_at Hsp|]. intros a7 H7. cbn in H7.
apply wp_seq. eapply wp_rdgsbase; [exact H7|]. intros a8 H8. apply wp_ret.
apply wp_bind. eapply (wp_reg_of _ _ _ _ _ _ H8). intros _. x86_regs. rewrite u64_id by done.
set (R8 := <[RCX := k_gs k]> (<[RSP := u64 b]> (<[RDI := osp]> R))).
assert (here b m0 R8 [R RCX; R RSI; R RDI; h; err; ip; c; fl; osp; oss] k a8) as H9.
{ refine (here_ext _ _ _ R8 _ _ _ H8 _). unfold R8. intros []; x86_regs; try done.
  - by rewrite u64_id.
  - by rewrite u64_id.
  - rewrite Hsp. flat. f_equal. lia. }
assert (R8 RSP = u64 b ∧ R8 RDI = osp ∧ ∀ r, r ≠ RSP → r ≠ RDI → r ≠ RCX → R8 r = R r) as HR8.
{ unfold R8. split_and!; [by x86_regs..|]. intros r ? ? ?. by rewrite !fn_lookup_insert_ne. }
unfold marked, kernel_ctx. destruct (sign (k_gs k)).
{ apply wp_ret. by exists R8. }
apply wp_bind. eapply wp_swapgs; [exact H9|]. intros a9 H10.
eapply (wp_orl _ _ _ _ _ _ H10 _ _ _ _ 7); [done|done|rewrite (proj1 HR8); mem_at Hsp|]. intros a10 H11.
by exists R8.
Qed.

Lemma kernel_ctx_fields k :
k_flags (kernel_ctx k) = k_flags k ∧ k_cr2 (kernel_ctx k) = k_cr2 k.
Proof. unfold kernel_ctx. by destruct (sign _). Qed.

(** The frame is as before, and the GS bases are back, when the copy is done. *)
Lemma unmark k fl :
Z.testbit fl 29 = false →
(if Z.testbit (marked k fl) 29 then Z.clearbit (marked k fl) 29 else marked k fl) = fl ∧
(if Z.testbit (marked k fl) 29 then swapped (kernel_ctx k) else kernel_ctx k) = k.
Proof.
intros Hfl. unfold marked, kernel_ctx. destruct (sign (k_gs k)); [by rewrite Hfl|].
destruct (swap_mark fl Hfl) as [-> ->]. by destruct k.
Qed.

(** Whether the code takes a fault on the kernel stack for a double fault. *)
Definition taken_for_df (m : Z → Z) (k : ctx) (osp : Z) : bool :=
sign osp && sign (Z.land (u64 (Z.land (u64 (k_cr2 k)) 0xfffffffffffff000))
  (u64 (word m (sp0_at k) + - (THREAD_SIZE sy + 0x1000)))).

(** The stack the handler runs on. *)
Definition handler_stack (m : Z → Z) (k : ctx) (osp : Z) : Z :=
if sign osp then osp else word m (sp0_at k).

Lemma err_path b m0 R k a w0 w1 w2 h err ip c fl osp oss :
here b m0 R [w0; w1; w2; h; err; ip; c; fl; osp; oss] k a →
let k1 := flagged (Z.clearbit (k_flags k) 10) k in
let d := handler_stack m0 (kernel_ctx k1) osp in
let fix_it := fix_frame m0 (kernel_ctx k1) in
R RSP = u64 (b + 24) → 8 <= (b + 24) mod 16 → 0 <= k_gs k < 2 ^ 64 → Z.testbit fl 29 = false →
taken_for_df m0 (kernel_ctx k1) osp = false →
80 <= u64 (sp0_at (kernel_ctx k1) - b) <= 2 ^ 64 - 8 → task_away b m0 (kernel_ctx k1) →
apart b (d - 80) 80 →
wp (pf_adaptor_asm_fix_ist_err_code sy)
  (λ _ a', rip (core a') = h ∧ ∃ m1, changes_only b 80 m0 m1 ∧
     here (d - 80) m1 (<[RSP := u64 (d - 48)]> R)
       [R RCX; R RSI; R RDI; h; if fix_it then Z.lor err ERRCODE_PF_USER else err; ip;
        if fix_it then USER_CS else c; fl; osp; if fix_it then USER_SS else oss] k1 a') a.
Proof.
intros H k1 d fix_it Hsp Hal Hg Hfl Hdf Hsp0 Htask Hap. unfold pf_adaptor_asm_fix_ist_err_code.
apply wp_bind. eapply wp_cld; [exact H|]. intros a1 H1. fold k1 in H1.
apply wp_bind. eapply (wp_reg_of _ _ _ _ _ _ H1). intros _. rewrite Hsp, bit3, bit3_mod.
rewrite (proj2 (Z.leb_le _ _) Hal). cbn [negb].
assert (0 <= osp < 2 ^ 64) as Hosp by (by apply (area_range _ _ _ _ _ _ H 8)).
apply (wp_bind3 (seqM _) (λ _, reg_of RCX) (λ _ g, if sign g then _ else _)).
eapply wp_mono; [apply (err_entry _ _ _ _ _ _ _ _ _ _ _ _ _ _ _ H1 Hsp Hg Hosp)|].
intros _ a2 (R2 & H2 & Hsp2 & Hdi2 & HR2).
apply wp_bind. eapply (wp_reg_of _ _ _ _ _ _ H2). intros _. rewrite Hdi2.
destruct (unmark k1 fl Hfl) as [Efl Ek].
assert (∀ a3 R3, here b m0 R3 [R RCX; R RSI; R RDI; h; err; ip; c; marked k1 fl; osp; oss] (kernel_ctx k1) a3 →
  R3 RSP = u64 b → R3 RDI = u64 d → (∀ r, r ≠ RSP → r ≠ RDI → r ≠ RCX → r ≠ RSI → R3 r = R r) →
  wp (err_code_copy sy) (λ _ a', rip (core a') = h ∧ ∃ m1, changes_only b 80 m0 m1 ∧
     here (d - 80) m1 (<[RSP := u64 (d - 48)]> R)
       [R RCX; R RSI; R RDI; h; if fix_it then Z.lor err ERRCODE_PF_USER else err; ip;
        if fix_it then USER_CS else c; fl; osp; if fix_it then USER_SS else oss] k1 a') a3) as Hcopy.
{ intros a3 R3 H3 Hsp3 Hdi3 HR3. eapply wp_mono; [eapply (err_code_copy_spec _ _ _ _ _ _ _ _ _ _ _ _ _ _ _ d H3); try done|].
  - rewrite (proj1 (kernel_ctx_fields k1)). change (k_flags k1) with (Z.clearbit (k_flags k) 10). rewrite Z.clearbit_eqb by lia. apply andb_false_r.
  - rewrite Efl, Ek. intros _ a' (Hrip & m1 & Hm1 & H'). split; [done|]. exists m1. split; [done|].
    eapply here_ext; [exact H'|]. intros []; cbn; x86_regs; try done; by apply HR3. }
assert (d = if sign osp then osp else word m0 (sp0_at (kernel_ctx k1))) as Hd by done. clearbody d.
unfold taken_for_df in Hdf. destruct (sign osp) eqn:Es; cbn [negb andb] in Hdf |- *; subst d.
- apply wp_bind. apply wp_seq. eapply wp_lea; [exact H2|]. intros a3 H3.
  apply wp_seq. eapply (wp_gs_load_from _ _ _ _ _ _ H3); [x86_regs; exact Hsp0|]. intros a4 H4.
  apply wp_seq. eapply wp_addq; [exact H4|]. intros a5 H5.
  apply wp_seq. eapply wp_mov_cr2; [exact H5|]. intros a6 H6.
  apply wp_seq. eapply wp_and_imm; [exact H6|]. intros a7 H7. apply wp_ret.
  apply wp_bind. eapply (wp_reg_of _ _ _ _ _ _ H7). intros _.
  apply wp_bind. eapply (wp_reg_of _ _ _ _ _ _ H7). intros _. x86_regs.
  change (k_gs (kernel_ctx k1) + (u64 (cpu_tss_rw sy) + TSS_sp0 sy)) with (sp0_at (kernel_ctx k1)).
  rewrite (u64_id (word m0 _)) by apply word_range. rewrite Hdf. cbn [negb].
  eapply Hcopy; [exact H7|by x86_regs| |].
  + x86_regs. rewrite Hdi2. symmetry. by apply u64_id.
  + intros r ? ? ? ?. rewrite !fn_lookup_insert_ne by done. by apply HR2.
- apply wp_bind. apply wp_seq. eapply wp_lea; [exact H2|]. intros a3 H3.
  apply wp_seq. eapply (wp_gs_load_from _ _ _ _ _ _ H3); [x86_regs; exact Hsp0|]. intros a4 H4. apply wp_ret.
  eapply Hcopy; [exact H4|by x86_regs..|].
  intros r ? ? ? ?. rewrite !fn_lookup_insert_ne by done. by apply HR2.
Qed.

(** A fault on the kernel stack that is taken for a double fault: the frame stays
  where it is and the kernel's double fault handler is entered. *)
Lemma df_path b m0 R k a w0 w1 w2 h err ip c fl osp oss :
here b m0 R [w0; w1; w2; h; err; ip; c; fl; osp; oss] k a →
let k1 := flagged (Z.clearbit (k_flags k) 10) k in
R RSP = u64 (b + 24) → 8 <= (b + 24) mod 16 → 0 <= k_gs k < 2 ^ 64 →
taken_for_df m0 (kernel_ctx k1) osp = true →
80 <= u64 (sp0_at (kernel_ctx k1) - b) <= 2 ^ 64 - 8 →
80 <= u64 (df_handler_location_at sy - b) <= 2 ^ 64 - 8 →
wp (pf_adaptor_asm_fix_ist_err_code sy)
  (λ _ a', rip (core a') = word m0 (df_handler_location_at sy) ∧
     here b m0 (<[RSP := u64 (b + 32)]> R)
       [R RCX; R RSI; R RDI; h; err; ip; c; marked k1 fl; osp; oss] (kernel_ctx k1) a') a.
Proof.
intros H k1 Hsp Hal Hg Hdf Hsp0 Hloc. unfold pf_adaptor_asm_fix_ist_err_code.
apply wp_bind. eapply wp_cld; [exact H|]. intros a1 H1. fold k1 in H1.
apply wp_bind. eapply (wp_reg_of _ _ _ _ _ _ H1). intros _. rewrite Hsp, bit3, bit3_mod.
rewrite (proj2 (Z.leb_le _ _) Hal). cbn [negb].
assert (0 <= osp < 2 ^ 64) as Hosp by (by apply (area_range _ _ _ _ _ _ H 8)).
apply (wp_bind3 (seqM _) (λ _, reg_of RCX) (λ _ g, if sign g then _ else _)).
eapply wp_mono; [apply (err_entry _ _ _ _ _ _ _ _ _ _ _ _ _ _ _ H1 Hsp Hg Hosp)|].
intros _ a2 (R2 & H2 & Hsp2 & Hdi2 & HR2).
apply wp_bind. eapply (wp_reg_of _ _ _ _ _ _ H2). intros _. rewrite Hdi2.
unfold taken_for_df in Hdf. apply andb_true_iff in Hdf as [Es Hdf]. rewrite Es. cbn [negb].
apply wp_bind. apply wp_seq. eapply wp_lea; [exact H2|]. intros a3 H3.
apply wp_seq. eapply (wp_gs_load_from _ _ _ _ _ _ H3); [x86_regs; exact Hsp0|]. intros a4 H4.
apply wp_seq. eapply wp_addq; [exact H4|]. intros a5 H5.
apply wp_seq. eapply wp_mov_cr2; [exact H5|]. intros a6 H6.
apply wp_seq. eapply wp_and_imm; [exact H6|]. intros a7 H7. apply wp_ret.
apply wp_bind. eapply (wp_reg_of _ _ _ _ _ _ H7). intros _.
apply wp_bind. eapply (wp_reg_of _ _ _ _ _ _ H7). intros _. x86_regs.
change (k_gs (kernel_ctx k1) + (u64 (cpu_tss_rw sy) + TSS_sp0 sy)) with (sp0_at (kernel_ctx k1)).
rewrite (u64_id (word m0 _)) by apply word_range. rewrite Hdf. cbn [negb].
apply wp_seq. eapply (wp_popq _ _ _ _ _ _ H7 _ 0); [done|mem_at Hsp2|]. intros a8 H8.
apply wp_seq. eapply (wp_popq _ _ _ _ _ _ H8 _ 1); [done|mem_at Hsp2|]. intros a9 H9.
apply wp_seq. eapply (wp_popq _ _ _ _ _ _ H9 _ 2); [done|mem_at Hsp2|]. intros a10 H10.
apply wp_seq. eapply wp_addq; [exact H10|]. intros a11 H11.
apply wp_seq. eapply (wp_jmp_at _ _ _ _ _ _ H11); [exact Hloc|]. intros a12 H12 Hrip. apply wp_ret.
split; [done|]. eapply here_ext; [exact H12|].
intros []; x86_regs; try done; try (by apply HR2). rewrite Hsp2. flat; f_equal; lia.
Qed.

(** *** Exceptions without an error code *)

(** The choice of the stack: that of the interrupted kernel code, or the task's. *)
Lemma no_err_stack b m0 R ws k a osp :
here b m0 (<[RDI := osp]> R) ws k a → 0 <= osp < 2 ^ 64 → 0 <= k_gs k < 2 ^ 64 →
away b ws (sp0_at (kernel_ctx k)) →
wp (if sign osp then mret tt
    else _ ← rdgsbase RDI; g ← reg_of RDI;
         if sign g then _ ← lea (cpu_tss_rw sy) RDI; gs_load_from (TSS_sp0 sy) RDI RDI
         else seqM [swapgs; lea (cpu_tss_rw sy) RDI; gs_load_from (TSS_sp0 sy) RDI RDI; swapgs])
  (λ _ a', here b m0 (<[RDI := u64 (handler_stack m0 (kernel_ctx k) osp)]> R) ws k a') a.
Proof.
intros H Hosp Hg Hsp0. unfold handler_stack. destruct (sign osp).
{ apply wp_ret. eapply here_ext; [exact H|]. intros []; x86_regs; try done. by rewrite u64_id. }
apply wp_bind. eapply wp_rdgsbase; [exact H|]. intros a1 H1.
apply wp_bind. eapply (wp_reg_of _ _ _ _ _ _ H1). intros _. x86_regs.
rewrite (u64_id (k_gs k)) by done. unfold kernel_ctx in *. destruct (sign (k_gs k)) eqn:Eg.
- apply wp_bind. eapply wp_lea; [exact H1|]. intros a2 H2.
  eapply (wp_gs_load_from _ _ _ _ _ _ H2); [x86_regs; exact Hsp0|]. intros a3 H3.
  eapply here_ext; [exact H3|]. intros []; x86_regs; done.
- apply wp_seq. eapply wp_swapgs; [exact H1|]. intros a2 H2.
  apply wp_seq. eapply wp_lea; [exact H2|]. intros a3 H3.
  apply wp_seq. eapply (wp_gs_load_from _ _ _ _ _ _ H3); [x86_regs; exact Hsp0|]. intros a4 H4.
  apply wp_seq. eapply wp_swapgs; [exact H4|]. intros a5 H5. apply wp_ret.
  replace (swapped (swapped k)) with k in H5 by by destruct k.
  eapply here_ext; [exact H5|]. intros []; x86_regs; done.
Qed.

Lemma no_err_path b m0 R k a w0 w1 w2 h ip c fl osp oss :
here b m0 R [w0; w1; w2; h; ip; c; fl; osp; oss] k a →
let k1 := flagged (Z.clearbit (k_flags k) 10) k in
let d := handler_stack m0 (kernel_ctx k1) osp in
R RSP = u64 (b + 24) → (b + 24) mod 16 < 8 → 0 <= k_gs k < 2 ^ 64 →
72 <= u64 (sp0_at (kernel_ctx k1) - b) <= 2 ^ 64 - 8 → apart b (d - 72) 72 →
wp (pf_adaptor_asm_fix_ist_err_code sy)
  (λ _ a', rip (core a') = h ∧ ∃ m1, changes_only b 72 m0 m1 ∧
     here (d - 72) m1 (<[RSP := u64 (d - 40)]> R)
       [R RCX; R RSI; R RDI; h; ip; c; fl; osp; oss] k1 a') a.
Proof.
intros H k1 d Hsp Hal Hg Hsp0 Hap. unfold pf_adaptor_asm_fix_ist_err_code, pf_adaptor_asm_fix_ist_no_err_code.
apply wp_bind. eapply wp_cld; [exact H|]. intros a1 H1. fold k1 in H1.
apply wp_bind. eapply (wp_reg_of _ _ _ _ _ _ H1). intros _. rewrite Hsp, bit3, bit3_mod.
rewrite (proj2 (Z.leb_gt _ _) Hal). cbn [negb].
assert (0 <= osp < 2 ^ 64) as Hosp by (by apply (area_range _ _ _ _ _ _ H 7)).
apply wp_bind. apply wp_seq. eapply (wp_pushq _ _ _ _ _ _ H1 _ 2); [cbn; lia|mem_at Hsp|]. intros a2 H2. cbn in H2.
apply wp_seq. eapply wp_movq_imm; [exact H2|]. intros a3 H3.
apply wp_seq. eapply wp_movq; [exact H3|]. intros a4 H4.
apply wp_seq. eapply wp_and_imm; [exact H4|]. intros a5 H5.
apply wp_seq. eapply (wp_load_from _ _ _ _ _ _ H5 _ _ _ _ 7); [done|mem_at Hsp|]. intros a6 H6.
apply wp_seq. eapply (wp_pushq _ _ _ _ _ _ H6 _ 1); [cbn; lia|mem_at Hsp|]. intros a7 H7. cbn in H7.
apply wp_seq. eapply (wp_pushq _ _ _ _ _ _ H7 _ 0); [cbn; lia|mem_at Hsp|]. intros a8 H8. cbn in H8.
apply wp_ret. apply wp_bind. eapply (wp_reg_of _ _ _ _ _ _ H8). intros _. x86_regs. rewrite u64_id by done.
assert (here b m0 (<[RDI := osp]> (<[RSP := u64 b]> R)) [R RCX; R RSI; R RDI; h; ip; c; fl; osp; oss] k1 a8) as H9.
{ refine (here_ext _ _ _ _ _ _ _ H8 _). intros []; x86_regs; try done; [by rewrite u64_id|].
  rewrite Hsp. flat. f_equal. lia. }
clear H8. apply wp_bind.
eapply wp_mono; [apply (no_err_stack _ _ _ _ _ _ _ H9 Hosp Hg Hsp0)|]. cbv beta. fold d.
intros _ a9 H10.
apply wp_seq. eapply wp_addq; [exact H10|]. intros a10 H11.
apply wp_seq. eapply wp_movq; [exact H11|]. intros a11 H12.
apply wp_seq. eapply wp_movq_imm; [exact H12|]. intros a12 H13.
apply wp_seq. eapply (wp_rep_movsq _ _ _ _ _ _ (d - 72)); [exact H13| | | | |done|].
{ change (k_flags k1) with (Z.clearbit (k_flags k) 10). rewrite Z.clearbit_eqb by lia. apply andb_false_r. }
{ reg_at. } { reg_at. } { reg_at. }
cbn [length]. intros a13 H14. apply wp_seq. eapply wp_lea_off; [exact H14|]. intros a14 H15.
apply wp_seq. eapply (wp_popq _ _ _ _ _ _ H15 _ 0); [done|mem_at Hsp|]. intros a15 H16.
apply wp_seq. eapply (wp_popq _ _ _ _ _ _ H16 _ 1); [done|mem_at Hsp|]. intros a16 H17.
apply wp_seq. eapply (wp_popq _ _ _ _ _ _ H17 _ 2); [done|mem_at Hsp|]. intros a17 H18.
apply wp_seq. eapply (wp_retq _ _ _ _ _ _ H18 3); [done|mem_at Hsp|]. intros a18 H19 Hrip.
apply wp_ret. split; [done|]. exists (mem (core a12)). split; [apply (h_else _ _ _ _ _ _ H13)|].
eapply here_ext; [exact H19|]. intros []; x86_regs; try done. flat; f_equal; lia.
Qed.
End paths.

(** ** The handlers of the page fault adaptor *)

(** A store away from the area. *)
Definition range_away (b : Z) (ws : list Z) (p : Z) (n : nat) : Prop :=
  8 * Z.of_nat (length ws) <= u64 (p - b) ∧ u64 (p - b) + Z.of_nat n <= 2 ^ 64.

Lemma u64_flip y j : 0 <= j < u64 y → u64 (j - y) = 2 ^ 64 + j - u64 y.
Proof.
  intros Hj. pose proof (u64_range y). unfold u64 in *. symmetry.
  apply (Z.mod_unique_pos _ _ (- (y / 2 ^ 64) - 1)); [lia|]. pose proof (Z_div_mod_eq_full y (2 ^ 64)). lia.
Qed.

Lemma here_poke b m0 R ws k a p n v :
  here b m0 R ws k a → range_away b ws p n → (n <= 8)%nat →
  here b (mem_store n m0 p v) R ws k (with_core (set_mem (λ m, mem_store n m p v)) a).
Proof.
  intros [Hr Hk Hw He Hl Hc] [Hp1 Hp2] Hn. split; try done.
  - intros i x Hi. rewrite <- (Hw i x Hi). assert (i < length ws)%nat by by eapply lookup_lt_Some.
    assert (u64 (b + 8 * Z.of_nat i - p) = 2 ^ 64 + 8 * Z.of_nat i - u64 (p - b)) as Heq.
    { replace (b + 8 * Z.of_nat i - p) with (8 * Z.of_nat i - (p - b)) by lia. apply u64_flip; lia. }
    pose proof (u64_range (p - b)). apply mem_load_store_ne; rewrite Heq; lia.
  - intros x Hx. cbn. unfold mem_store. destruct (_ <? _); [done|]. by apply He.
Qed.

Section handlers.
Context (sy : asm_symbols).

(** Memory after a counter was incremented, after the stack was touched. *)
Definition counted (p : Z) (m : Z → Z) : Z → Z := mem_store 8 m (u64 p) (word m p + 1).
Definition touched (sp : Z) (m : Z → Z) : Z → Z :=
if sign sp then m else mem_store 1 m (u64 (sp - 0x1000)) 1.
Definition touched_ctx (sp : Z) (k : ctx) : ctx :=
if sign sp then k else flagged (Z.clearbit (Z.setbit (k_flags k) 9) 9) k.

(** The thread runs with the kernel's GS base and is marked as elevated. *)
Definition is_elevated (m : Z → Z) (k : ctx) : bool :=
sign (k_gs k) &&
negb (Z.land (mem_load 1 m (word m (k_gs k + current_task sy) + TASK_symbiote_elevated sy)) 1 =? 0).
Definition task_away_from (b : Z) (ws : list Z) (m : Z → Z) (k : ctx) : Prop :=
let p := k_gs k + current_task sy in
away b ws p ∧ 8 * Z.of_nat (length ws) <= u64 (word m p + TASK_symbiote_elevated sy - b).

Lemma wp_incq b m0 R ws k a p Q :
here b m0 R ws k a → range_away b ws p 8 →
(∀ a', here b (counted p m0) R ws k a' → Q tt a') → wp (incq p) Q a.
Proof.
intros H Hp HQ. eapply wp_core; [reflexivity|]. apply HQ. unfold counted.
assert (away b ws p) as Hp' by (destruct Hp as [? ?]; split; lia).
cbv beta. rewrite word_u64, (here_away b m0 R ws k a p H Hp').
apply here_poke; [done| |lia]. unfold range_away. by rewrite u64_sub_l.
Qed.

Lemma here_flags b m0 R ws k a f :
here b m0 R ws k a → here b m0 R ws (flagged (f (k_flags k)) k) (with_core (set_rflags f) a).
Proof. intros [? ? ? ? ? <-]. by split. Qed.

Lemma wp_stack_touch b m0 R ws k a Q :
here b m0 R ws k a → range_away b ws (R RSP - 0x1000) 1 →
(∀ a', here b (touched (R RSP) m0) R ws (touched_ctx (R RSP) k) a' → Q tt a') →
wp stack_touch Q a.
Proof.
intros H Hp HQ. unfold stack_touch, touched, touched_ctx in *.
apply wp_bind. eapply (wp_reg_of _ _ _ _ _ _ H). intros _. destruct (sign (R RSP)); [by apply wp_ret, HQ|].
apply wp_seq. eapply wp_core; [reflexivity|]. pose proof (here_flags _ _ _ _ _ _ (λ f, Z.setbit f 9) H) as H1.
apply wp_seq. eapply wp_core; [reflexivity|].
apply (here_poke _ _ _ _ _ _ (u64 (R RSP - 0x1000)) 1 1) in H1; [|by unfold range_away; rewrite u64_sub_l|lia].
apply wp_seq. eapply wp_core; [reflexivity|]. apply wp_ret, HQ.
apply (here_flags _ _ _ _ _ _ (λ f, Z.clearbit f 9)) in H1. cbn in *.
rewrite (h_regs _ _ _ _ _ _ H). exact H1.
Qed.

Lemma wp_elevated b m0 R ws k a Q :
here b m0 R ws k a → 0 <= k_gs k < 2 ^ 64 → (sign (k_gs k) = true → task_away_from b ws m0 k) →
(∀ a' R', here b m0 R' ws k a' → (∀ r, r ≠ RAX → R' r = R r) → Q (is_elevated m0 k) a') →
wp (elevated sy) Q a.
Proof.
intros H Hg Haw HQ. unfold elevated, is_elevated in *.
apply wp_bind. eapply wp_rdgsbase; [exact H|]. intros a1 H1.
apply wp_bind. eapply (wp_reg_of _ _ _ _ _ _ H1). intros _. x86_regs. rewrite u64_id by done.
destruct (sign (k_gs k)); cbn [negb andb] in *.
2:{ apply wp_ret. eapply HQ; [exact H1|]. intros r Hr. by rewrite fn_lookup_insert_ne. }
destruct Haw as [Haw1 Haw2]; [done|].
apply wp_bind. eapply (wp_gs_load _ _ _ _ _ _ H1); [exact Haw1|]. intros a2 H2.
rewrite (u64_id (word m0 _)) in H2 by apply word_range.
apply wp_bind. eapply (wp_testb1 _ _ _ _ _ _ H2); [x86_regs; exact Haw2|]. intros _. x86_regs.
apply wp_ret. eapply HQ; [exact H2|]. intros r Hr. by rewrite !fn_lookup_insert_ne.
Qed.

(** The stack of a handler: the word that is pushed and the error code. *)
Lemma handler_area a :
regs_ok (core a) →
here (regs (core a) RSP - 8) (mem (core a)) (regs (core a))
  [word (mem (core a)) (regs (core a) RSP - 8); word (mem (core a)) (regs (core a) RSP)] (ctx_of a) a.
Proof.
intros Hok. split; try done; [|cbn; lia].
intros [|[|j]] x Hj; cbn in Hj; [injection Hj as <-; f_equal; lia|injection Hj as <-; f_equal; lia|done].
Qed.

(** The conditions for the handlers: where they look is not where they push. *)
Record handler_ok (a : acpu) (m : Z → Z) (k : ctx) : Prop := {
ho_regs : regs_ok (core a);
ho_gs : 0 <= gs_base a < 2 ^ 64;
ho_task : sign (gs_base a) = true →
  task_away_from (regs (core a) RSP - 8) [0; 0] m k;
}.

(** Adjusting the error code and leaving through [p]. *)
Lemma adjust_spec b m0 R w0 rax err k a v p :
here b m0 R [w0; err] k a → R RSP = u64 b → w0 = rax → 0 <= v < 2 ^ 32 → away b [w0; err] p →
(∀ Q, (∀ a', rip (core a') = word m0 p → here b m0 (<[RAX := rax]> (<[RSP := u64 (b + 8)]> R)) [w0; Z.lor err v] k a' → Q tt a') →
   wp (_ ← orl v 8 RSP; _ ← popq RAX; jmp_at p) Q a) ∧
(∀ Q, (∀ a', rip (core a') = word m0 p → here b m0 (<[RAX := rax]> (<[RSP := u64 (b + 8)]> R)) [w0; err] k a' → Q tt a') →
   wp (_ ← popq RAX; jmp_at p) Q a).
Proof.
intros H Hsp -> Hv Hp.
assert (∀ a' err' Q, here b m0 R [rax; err'] k a' →
  (∀ a', rip (core a') = word m0 p → here b m0 (<[RAX := rax]> (<[RSP := u64 (b + 8)]> R)) [rax; err'] k a' → Q tt a') →
  wp (_ ← popq RAX; jmp_at p) Q a') as Hpop.
{ intros a' err' Q H' HQ. apply wp_bind. eapply (wp_popq _ _ _ _ _ _ H' _ 0); [done|mem_at Hsp|]. intros a1 H1.
  eapply (wp_jmp_at _ _ _ _ _ _ H1); [exact Hp|]. intros a2 H2 Hrip. apply HQ; [done|].
  eapply here_ext; [exact H2|]. intros r. destruct (decide (r = RAX)) as [->|]; [by x86_regs|].
  rewrite !(fn_lookup_insert_ne _ RAX) by done. destruct (decide (r = RSP)) as [->|]; [|by rewrite !fn_lookup_insert_ne].
  x86_regs. rewrite Hsp. by flat. }
split; intros Q HQ.
- apply wp_bind. eapply (wp_orl _ _ _ _ _ _ H _ _ _ _ 1); [done|done|mem_at Hsp|]. intros a1 H1.
  by eapply Hpop.
- by eapply Hpop.
Qed.
End handlers.
