(* ===== verification/EntryProps.v ===== *)
(** * What the entry code of the adaptors guarantees

    The properties of [AdaptorAsm], proved from the lemmas of [AdaptorAsmSpec],
    each followed by an instance at a concrete machine. *)
From S2P Require Import X86.
From S2P Require Import Interposer.
From S2P Require Import InterposerSpec.
From S2P Require Import AdaptorAsm.
From S2P Require Import AdaptorAsmSpec.
From S2P Require Import Prelude.

Open Scope Z_scope.

Section entry.
Context (sy : asm_symbols).

(** The hardware has pushed the frame [fr] on the exception stack and entered stub
  [i]; the code finds the kernel's data elsewhere than where it writes. [kk] is the
  control state with the kernel's GS base, [d] the stack the handler expects. *)
Record stub_entry (i : Z) (fr : list Z) (kk : ctx) (d : Z) (a : acpu) : Prop := {
se_regs : regs_ok (core a);
se_gs : 0 <= gs_base a < 2 ^ 64;
se_ctx : kk = kernel_ctx (flagged (Z.clearbit (rflags (core a)) 10) (ctx_of a));
se_frame : ∀ j x, fr !! j = Some x → word (mem (core a)) (regs (core a) RSP + 8 * Z.of_nat j) = x;
se_handler : 32 + 8 * Z.of_nat (length fr) <=
  u64 (ef_adaptor_orig_isrs_at sy + 8 * i - (regs (core a) RSP - 32)) <= 2 ^ 64 - 8;
se_sp0 : 32 + 8 * Z.of_nat (length fr) <= u64 (sp0_at sy kk - (regs (core a) RSP - 32)) <= 2 ^ 64 - 8;
se_apart : apart (regs (core a) RSP - 32) (d - (32 + 8 * Z.of_nat (length fr)))
  (32 + 8 * Z.of_nat (length fr));
}.

(** The handler [h] runs on the stack that ends at [d] and finds the frame [fr']
  there; of memory only the two stacks have changed. *)
Definition delivered (h d : Z) (fr' : list Z) (a a' : acpu) : Prop :=
let n := 8 * Z.of_nat (length fr') in
rip (core a') = h ∧ regs (core a') RSP = u64 (d - n) ∧
(∀ r, r ≠ RSP → regs (core a') r = regs (core a) r) ∧
(∀ j x, fr' !! j = Some x → word (mem (core a')) (d - n + 8 * Z.of_nat j) = x) ∧
ctx_of a' = flagged (Z.clearbit (rflags (core a)) 10) (ctx_of a) ∧
(∀ x, 32 + n <= u64 (x - (regs (core a) RSP - 32)) → 32 + n <= u64 (x - (d - (32 + n))) →
   mem (core a') x = mem (core a) x).

(** From the logic of the code to the statement. *)
Lemma delivered_here a a' b m1 d w0 w1 w2 h fr :
b = regs (core a) RSP - 32 → (length fr <= 6)%nat → rip (core a') = h →
changes_only b (32 + 8 * Z.of_nat (length fr)) (mem (core a)) m1 →
here (d - (32 + 8 * Z.of_nat (length fr))) m1
  (<[RSP := u64 (d - 8 * Z.of_nat (length fr))]> (<[RSP := u64 (b + 24)]> (regs (core a))))
  (w0 :: w1 :: w2 :: h :: fr) (flagged (Z.clearbit (rflags (core a)) 10) (ctx_of a)) a' →
delivered h d fr a a'.
Proof.
intros -> Hlen Hrip Hm1 [Hr _ Hw He _ Hc]. split; [done|]. split; [by rewrite Hr, fn_lookup_insert|]. split.
{ intros r Hne. by rewrite Hr, !fn_lookup_insert_ne. }
split; [|split].
- intros j x Hj. rewrite <- (Hw (4 + j)%nat x Hj). f_equal. lia.
- exact Hc.
- intros x Hx1 Hx2. rewrite He by (cbn [length]; lia). by apply Hm1.
Qed.

(** From the stub to the handler. *)
Lemma error_delivered i err ip c fl osp oss kk a :
let d := handler_stack sy (mem (core a)) kk osp in
let fix_it := fix_frame sy (mem (core a)) kk in
stub_entry i [err; ip; c; fl; osp; oss] kk d a → regs (core a) RSP mod 16 = 0 →
Z.testbit fl 29 = false → taken_for_df sy (mem (core a)) kk osp = false →
task_away sy (regs (core a) RSP - 32) (mem (core a)) kk →
wp (ef_isr sy i) (λ _ a', delivered (word (mem (core a)) (ef_adaptor_orig_isrs_at sy + 8 * i)) d
  [if fix_it then Z.lor err ERRCODE_PF_USER else err; ip; if fix_it then USER_CS else c; fl; osp;
   if fix_it then USER_SS else oss] a a') a.
Proof.
intros d fix_it [Hok Hg Hkk Hfr Hh Hs0 Hap] Hal Hfl Hdf Htask. unfold ef_isr. apply wp_bind.
eapply wp_mono; [apply (stub_spec sy i a [err; ip; c; fl; osp; oss]); (done || cbn; lia)|].
intros _ a1 (w0 & w1 & H1). subst kk.
eapply wp_mono; [eapply (err_path sy _ _ _ _ _ _ _ _ _ _ _ _ _ _ _ H1); try done|].
- rewrite fn_lookup_insert. f_equal. lia.
- Z.div_mod_to_equations. lia.
- intros _ a' (Hrip & m1 & Hm1 & H').
  eapply (delivered_here _ _ _ m1); [reflexivity|cbn; lia|done|exact Hm1|].
  refine (here_ext _ _ _ _ _ _ _ H' _). intros []; x86_regs; try done.
Qed.

(** An exception without an error code, an interrupt for instance, is delivered
  in the same way, with the frame unchanged. *)
Theorem interrupt_delivered i ip c fl osp oss kk a :
let d := handler_stack sy (mem (core a)) kk osp in
stub_entry i [ip; c; fl; osp; oss] kk d a → regs (core a) RSP mod 16 = 8 →
wp (ef_isr sy i) (λ _ a', delivered (word (mem (core a)) (ef_adaptor_orig_isrs_at sy + 8 * i)) d
  [ip; c; fl; osp; oss] a a') a.
Proof.
intros d [Hok Hg Hkk Hfr Hh Hs0 Hap] Hal. unfold ef_isr. apply wp_bind.
eapply wp_mono; [apply (stub_spec sy i a [ip; c; fl; osp; oss]); (done || cbn; lia)|].
intros _ a1 (w0 & w1 & H1). subst kk.
eapply wp_mono; [eapply (no_err_path sy _ _ _ _ _ _ _ _ _ _ _ _ _ _ H1); try done|].
- rewrite fn_lookup_insert. f_equal. lia.
- Z.div_mod_to_equations. lia.
- intros _ a' (Hrip & m1 & Hm1 & H').
  eapply (delivered_here _ _ _ m1); [reflexivity|cbn; lia|done|exact Hm1|].
  refine (here_ext _ _ _ _ _ _ _ H' _). intros []; x86_regs; try done.
Qed.

(** The double fault handler finds the frame [fr] where the hardware pushed it. *)
Definition to_double_fault (fr : list Z) (kk : ctx) (a a' : acpu) : Prop :=
rip (core a') = word (mem (core a)) (df_handler_location_at sy) ∧
(∀ r, regs (core a') r = regs (core a) r) ∧
(∀ j x, fr !! j = Some x → word (mem (core a')) (regs (core a) RSP + 8 * Z.of_nat j) = x) ∧
ctx_of a' = kk ∧ changes_only (regs (core a) RSP - 32) (32 + 8 * Z.of_nat (length fr)) (mem (core a)) (mem (core a')).

(** The test for a double fault looks at no page: the interrupted code was on a kernel
  stack, and CR2 and the address below that stack are kernel addresses. *)
Lemma taken_for_df_bits m k osp :
taken_for_df sy m k osp =
sign osp && sign (k_cr2 k) && sign (u64 (word m (sp0_at sy k) - (THREAD_SIZE sy + 0x1000))).
Proof.
unfold taken_for_df, sign. rewrite <- andb_assoc. f_equal. rewrite Z.land_spec, Z.add_opp_r. f_equal.
unfold u64. rewrite !Z.mod_pow2_bits_low, Z.land_spec, Z.mod_pow2_bits_low by lia. by rewrite andb_true_r.
Qed.

Lemma df_delivered i err ip c fl osp oss kk d a :
stub_entry i [err; ip; c; fl; osp; oss] kk d a → regs (core a) RSP mod 16 = 0 →
taken_for_df sy (mem (core a)) kk osp = true →
80 <= u64 (df_handler_location_at sy - (regs (core a) RSP - 32)) <= 2 ^ 64 - 8 →
wp (ef_isr sy i) (λ _, to_double_fault [err; ip; c; marked (ctx_of a) fl; osp; oss] kk a) a.
Proof.
intros [Hok Hg Hkk Hfr Hh Hs0 Hap] Hal Hdf Hloc. unfold ef_isr. apply wp_bind.
eapply wp_mono; [apply (stub_spec sy i a [err; ip; c; fl; osp; oss]); (done || cbn; lia)|].
intros _ a1 (w0 & w1 & H1). subst kk.
eapply wp_mono; [eapply (df_path sy _ _ _ _ _ _ _ _ _ _ _ _ _ _ _ H1); try done|].
- rewrite fn_lookup_insert. f_equal. lia.
- Z.div_mod_to_equations. lia.
- intros _ a' [Hrip H']. split; [done|]. split; [|split; [|split]].
  + intros r. rewrite (h_regs _ _ _ _ _ _ H'). destruct (decide (r = RSP)) as [->|].
    * rewrite fn_lookup_insert. replace (regs (core a) RSP - 32 + 32) with (regs (core a) RSP) by lia.
      by apply u64_id.
    * by rewrite !fn_lookup_insert_ne.
  + intros j x Hj. apply (here_word _ _ _ _ _ _ (4 + j) x _ H'); [exact Hj|f_equal; lia].
  + apply (h_ctx _ _ _ _ _ _ H').
  + exact (h_else _ _ _ _ _ _ H').
Qed.

(** C8: an exception with an error code that arrives on its own stack, aligned as the
  hardware aligns it, with a frame whose bit 29 of the flags (reserved) is clear, and with the
  kernel's data elsewhere than on the stacks. When code on a kernel stack was interrupted while CR2 holds a
  kernel address, be it the address of this fault or a left over, and the address below the
  kernel stack is one too, the double fault handler the kernel had installed is entered,
  with all registers as they were interrupted and the frame where the hardware put it,
  but with the GS base of the kernel, which is marked in the saved flags when it had to be
  swapped. In all other cases the exception is delivered to the handler the kernel had
  installed for it, on the stack the kernel would have used: all registers are as they
  were interrupted, the frame is a copy of the one the hardware pushed, except
  that a fault of an elevated thread at a user address looks like one from user
  mode, and the GS base is as it was. *)
Theorem exception_delivered i err ip c fl osp oss kk a :
let d := handler_stack sy (mem (core a)) kk osp in
let fix_it := fix_frame sy (mem (core a)) kk in
let below := u64 (word (mem (core a)) (sp0_at sy kk) - (THREAD_SIZE sy + 0x1000)) in
stub_entry i [err; ip; c; fl; osp; oss] kk d a → regs (core a) RSP mod 16 = 0 →
Z.testbit fl 29 = false → task_away sy (regs (core a) RSP - 32) (mem (core a)) kk →
80 <= u64 (df_handler_location_at sy - (regs (core a) RSP - 32)) <= 2 ^ 64 - 8 →
wp (ef_isr sy i) (λ _ a',
  if sign osp && sign (cr2 a) && sign below
  then to_double_fault [err; ip; c; marked (ctx_of a) fl; osp; oss] kk a a'
  else delivered (word (mem (core a)) (ef_adaptor_orig_isrs_at sy + 8 * i)) d
    [if fix_it then Z.lor err ERRCODE_PF_USER else err; ip; if fix_it then USER_CS else c; fl; osp;
     if fix_it then USER_SS else oss] a a') a.
Proof.
intros d fix_it below He Hal Hfl Htask Hloc.
assert (taken_for_df sy (mem (core a)) kk osp = sign osp && sign (cr2 a) && sign below) as Hdf.
{ rewrite taken_for_df_bits. do 3 f_equal. rewrite (se_ctx _ _ _ _ _ He). by rewrite (proj2 (kernel_ctx_fields _)). }
destruct (sign osp && sign (cr2 a) && sign below); [by apply (df_delivered i err ip c fl osp oss kk d)|].
by apply error_delivered.
Qed.

(** The state a handler of the page fault adaptor leaves. *)
Definition handed_on (a : acpu) (m : Z → Z) (k : ctx) (p err' : Z) (a' : acpu) : Prop :=
let sp := regs (core a) RSP in
rip (core a') = word m p ∧ (∀ r, regs (core a') r = regs (core a) r) ∧ word (mem (core a')) sp = err' ∧
changes_only (sp - 8) 16 m (mem (core a')) ∧ ctx_of a' = k.

Lemma handed_on_here a a' m k p err' R :
let sp := regs (core a) RSP in
regs_ok (core a) → rip (core a') = word m p →
(∀ r, r ≠ RAX → R r = <[RSP := u64 (sp - 8)]> (regs (core a)) r) →
here (sp - 8) m (<[RAX := regs (core a) RAX]> (<[RSP := u64 (sp - 8 + 8)]> R)) [regs (core a) RAX; err'] k a' →
handed_on a m k p err' a'.
Proof.
intros sp Hok Hrip HR H'. split; [done|]. fold sp. split; [|split; [|split]].
- intros r. rewrite (h_regs _ _ _ _ _ _ H'). destruct (decide (r = RAX)) as [->|]; [by rewrite fn_lookup_insert|].
  rewrite fn_lookup_insert_ne by done. destruct (decide (r = RSP)) as [->|].
  + rewrite fn_lookup_insert. replace (sp - 8 + 8) with sp by lia. by apply u64_id.
  + rewrite fn_lookup_insert_ne, HR by done. by rewrite fn_lookup_insert_ne.
- apply (here_word _ _ _ _ _ _ 1 err' _ H'); [done|]. f_equal. lia.
- apply (h_else _ _ _ _ _ _ H').
- apply (h_ctx _ _ _ _ _ _ H').
Qed.


(** The double fault handler of the adaptor turns a double fault of an elevated
  thread into a page fault of user mode on a write, and hands every other double
  fault on unchanged; every register is as it was. *)
Theorem double_fault_adjusted a :
let sp := regs (core a) RSP in
let m := counted (df_cnt_at sy) (mem (core a)) in
let k := ctx_of a in
let err := word (mem (core a)) sp in
handler_ok sy a m k → range_away (sp - 8) [0; 0] (df_cnt_at sy) 8 →
away (sp - 8) [0; 0] (exc_page_fault_at sy) → away (sp - 8) [0; 0] (exc_double_fault_at sy) →
wp (pf_adaptor_asm_fix_err_code_uw sy) (λ _, if is_elevated sy m k
  then handed_on a m k (exc_page_fault_at sy) (Z.lor err (Z.lor ERRCODE_PF_USER ERRCODE_PF_WRITE))
  else handed_on a m k (exc_double_fault_at sy) err) a.
Proof.
intros sp m k err [Hok Hg Htask] Hcnt Hpf Hdf. pose proof (handler_area a Hok) as H. fold sp err in H.
set (w0 := word (mem (core a)) (sp - 8)) in H. unfold pf_adaptor_asm_fix_err_code_uw.
apply wp_bind. eapply (wp_incq _ _ _ _ _ _ _ _ H Hcnt). intros a1 H1. fold m k in H1.
apply wp_bind. eapply (wp_pushq _ _ _ _ _ _ H1 _ 0); [cbn; lia|fold sp; f_equal; lia|]. intros a2 H2. fold sp in H2.
cbn [list_insert insert] in H2.
apply wp_bind. eapply (wp_elevated sy _ _ _ _ _ _ _ H2); [done|exact Htask|]. intros a3 R3 H3 HR3.
assert (R3 RSP = u64 (sp - 8)) as Hsp by (rewrite HR3 by done; by rewrite fn_lookup_insert).
destruct (is_elevated sy m k).
- eapply (adjust_spec _ _ _ _ (regs (core a) RAX) _ _ _ _ (exc_page_fault_at sy) H3); try done.
  intros a' ? ?. by eapply handed_on_here.
- eapply (adjust_spec _ _ _ _ (regs (core a) RAX) _ _ _ 0 (exc_double_fault_at sy) H3); try done.
  intros a' ? ?. by eapply handed_on_here.
Qed.
End entry.

(** ** Instances *)
Definition syms0 : asm_symbols :=
  AsmSymbols 0xffffffffc0005000 0x6000 4 0x1fc00 0x10 0x4000 0xffffffffc0006000 0xffffffffc0006008
    0xffffffffc0006010 0xffffffffc0006018 0xffffffffc0006020 0xffffffffc0006028 0xffffffffc0006030.

(** The words of memory, all others being 0. *)
Fixpoint words_mem (l : list (Z * Z)) : Z → Z :=
  match l with [] => λ _, 0 | (p, v) :: l => mem_store 8 (words_mem l) p v end.

(** The kernel's data: saved handlers, stack top, current task and its flag. *)
Definition kernel_data : list (Z * Z) :=
  [(0xffffffffc0005000 + 8 * 14, 0xffffffff81001290); (0xffffffffc0005000 + 8 * 32, 0xffffffff81001900);
   (0xffff888000006004, 0xffffc90000010000); (0xffff88800001fc00, 0xffff888100000000);
   (0xffff888100000010, 1); (0xffffffffc0006000, 0xffffffff81001100);
   (0xffffffffc0006008, 0xffffffff81001290); (0xffffffffc0006010, 0xffffffff81001100)].

(** The words [l] from the stack pointer [sp] up. *)
Fixpoint frame_at (sp : Z) (l : list Z) : list (Z * Z) :=
  match l with [] => [] | x :: l => (sp, x) :: frame_at (sp + 8) l end.

(** An elevated thread interrupted with [fr] pushed at [sp]. *)
Definition machine0 (sp fault : Z) (fr : list Z) : acpu :=
  Acpu (Cpu (<[RSP := sp]> (λ _, 7)) 0 0x10 0x46 0 0 0 0 (words_mem (frame_at sp fr ++ kernel_data)))
    0xffff888000000000 0 fault.

Definition sp_err : Z := 0xffffc90000001fd0.
Definition user_fault : list Z := [6; 0x401000; 0x10; 0x202; 0x7ffe0000; 0x18].
Definition kernel_fault : list Z := [0; 0xffffffff81234567; 0x10; 0x202; 0xffffc90000008000; 0x18].
Definition user_irq : list Z := [0x401000; 0x33; 0x202; 0x7ffe0000; 0x2b].

Definition kk0 (a : acpu) : ctx := kernel_ctx (flagged (Z.clearbit (rflags (core a)) 10) (ctx_of a)).

Ltac concrete := vm_compute; (reflexivity || done || (split; (reflexivity || discriminate))).

Lemma machine0_regs sp fault fr : 0 <= sp < 2 ^ 64 → regs_ok (core (machine0 sp fault fr)).
Proof.
  intros Hsp r. cbn. destruct (decide (r = RSP)) as [->|]; [by rewrite fn_lookup_insert|].
  rewrite fn_lookup_insert_ne by done. lia.
Qed.

Lemma entry_user_fault :
  stub_entry syms0 14 user_fault (kk0 (machine0 sp_err 0x1000 user_fault)) 0xffffc90000010000
    (machine0 sp_err 0x1000 user_fault).
Proof.
  split; [by apply machine0_regs|by vm_compute|reflexivity| |concrete..].
  intros j x Hj. do 6 (destruct j as [|j]; [injection Hj as <-; concrete|]). done.
Qed.

Lemma entry_kernel_fault :
  stub_entry syms0 14 kernel_fault (kk0 (machine0 sp_err 0xffffffff82000000 kernel_fault)) 0xffffc90000008000
    (machine0 sp_err 0xffffffff82000000 kernel_fault).
Proof.
  split; [by apply machine0_regs|by vm_compute|reflexivity| |concrete..].
  intros j x Hj. do 6 (destruct j as [|j]; [injection Hj as <-; concrete|]). done.
Qed.

Lemma entry_irq :
  stub_entry syms0 32 user_irq (kk0 (machine0 (sp_err + 8) 0 user_irq)) 0xffffc90000010000
    (machine0 (sp_err + 8) 0 user_irq).
Proof.
  split; [by apply machine0_regs|by vm_compute|reflexivity| |concrete..].
  intros j x Hj. do 5 (destruct j as [|j]; [injection Hj as <-; concrete|]). done.
Qed.

(** A fault of a user page; and one of a kernel page that is far from the stack. *)
Lemma exception_delivered_witness :
  (let a := machine0 sp_err 0x1000 user_fault in
   wp (ef_isr syms0 14) (λ _ a', delivered 0xffffffff81001290 0xffffc90000010000
     [6; 0x401000; USER_CS; 0x202; 0x7ffe0000; USER_SS] a a') a) ∧
  (let a := machine0 sp_err 0xffffffff82000000 kernel_fault in
   wp (ef_isr syms0 14) (λ _ a', to_double_fault syms0 kernel_fault (kk0 a) a a') a).
Proof.
  split.
  - refine (exception_delivered syms0 14 6 0x401000 0x10 0x202 0x7ffe0000 0x18
      (kk0 (machine0 sp_err 0x1000 user_fault)) (machine0 sp_err 0x1000 user_fault) _ _ _ _ _);
      [exact entry_user_fault|concrete|concrete| |concrete].
    split; concrete.
  - refine (exception_delivered syms0 14 0 0xffffffff81234567 0x10 0x202 0xffffc90000008000 0x18
      (kk0 (machine0 sp_err 0xffffffff82000000 kernel_fault)) (machine0 sp_err 0xffffffff82000000 kernel_fault) _ _ _ _ _);
      [exact entry_kernel_fault|concrete|concrete| |concrete].
    split; concrete.
Defined.

Lemma interrupt_delivered_witness :
  let a := machine0 (sp_err + 8) 0 user_irq in
  wp (ef_isr syms0 32) (λ _ a', delivered 0xffffffff81001900 0xffffc90000010000 user_irq a a') a.
Proof.
  refine (interrupt_delivered syms0 32 0x401000 0x33 0x202 0x7ffe0000 0x2b
    (kk0 (machine0 (sp_err + 8) 0 user_irq)) (machine0 (sp_err + 8) 0 user_irq) _ _);
    [exact entry_irq|concrete].
Defined.


Lemma double_fault_adjusted_witness :
  let a := machine0 0x7ffdff80 0x1000 kernel_fault in
  wp (pf_adaptor_asm_fix_err_code_uw syms0) (λ _, handed_on a (counted 0xffffffffc0006028 (mem (core a)))
    (ctx_of a) 0xffffffffc0006008 6) a.
Proof.
  refine (double_fault_adjusted syms0 (machine0 0x7ffdff80 0x1000 kernel_fault) _ _ _ _); [|concrete..].
  split; [by apply machine0_regs|by vm_compute|]. intros _. split; concrete.
Defined.
