(* ===== verification/ExceptionPath.v ===== *)
(** * From the processor to the kernel's handler

    The tables of [Adaptor] and the entry code of [AdaptorAsm] together: when the
    extension is loaded, an exception of ordinary code takes a detour over the exception
    stack and its stub and arrives at the handler as if the table had not been changed.
    How the processor enters a handler through a gate is the definition [hw_deliver],
    after the architecture manual: the stack is that of the interrupt stack table if the
    gate names one, that of the task state segment if the privilege level changes, and
    otherwise the current one; it is aligned to 16 bytes before the frame is pushed. *)
From S2P Require Import X86.
From S2P Require Import Interposer.
From S2P Require Import InterposerSpec.
From S2P Require Import AdaptorAsm.
From S2P Require Import AdaptorAsmSpec.
From S2P Require Import EntryProps.
From S2P Require Adaptor.
From S2P Require AdaptorSpec.
From S2P Require AdaptorProps.
From S2P Require Import Prelude.

Open Scope Z_scope.

(** ** The processor *)
Definition user_mode (c : cpu) : bool := negb (Z.land (cs c) 3 =? 0).

(** The frame from its lowest address up. *)
Definition hw_frame (err : option Z) (c : cpu) : list Z :=
  let fr := [rip c; cs c; rflags c; regs c RSP; ss c] in match err with Some e => e :: fr | None => fr end.

Definition hw_stack (g : Adaptor.gate_desc) (ist sp0 : Z) (c : cpu) : Z :=
  let s := if negb (Adaptor.g_ist g =? 0) then ist else if user_mode c then sp0 else regs c RSP in
  s - s mod 16.

(** TF, NT, RF and VM are cleared, and IF by an interrupt gate. *)
Definition hw_flags (g : Adaptor.gate_desc) (f : Z) : Z :=
  let f := Z.clearbit (Z.clearbit (Z.clearbit (Z.clearbit f 8) 14) 16) 17 in
  if Adaptor.g_type g =? Adaptor.GATE_INTERRUPT then Z.clearbit f 9 else f.

Definition hw_push (top : Z) (fr : list Z) : M cpu unit :=
  _ ← setr RSP top; seqM (push_imm <$> reverse fr).

Definition hw_deliver (g : Adaptor.gate_desc) (ist sp0 : Z) (err : option Z) : M acpu unit :=
  on_core (c ← getM;
    _ ← hw_push (hw_stack g ist sp0 c) (hw_frame err c);
    modifyM (set_frame (Adaptor.gate_offset g) (Adaptor.segment g) (hw_flags g (rflags c))
      (if user_mode c then 0 else ss c))).

(** What pushing a frame does. *)
Lemma push_frame top fr c :
  regs_ok c → regs c RSP = u64 top → (length fr <= 6)%nat → Forall (λ x, 0 <= x < 2 ^ 64) fr →
  ∃ c', seqM (push_imm <$> reverse fr) c = Done tt c' ∧ ctl c' = ctl c ∧ regs_ok c' ∧
    regs c' RSP = u64 (top - 8 * Z.of_nat (length fr)) ∧ (∀ r, r ≠ RSP → regs c' r = regs c r) ∧
    (∀ j x, fr !! j = Some x → word (mem c') (top - 8 * Z.of_nat (length fr) + 8 * Z.of_nat j) = x) ∧
    changes_only (top - 8 * Z.of_nat (length fr)) (8 * Z.of_nat (length fr)) (mem c) (mem c').
Proof.
  intros Hok Hsp. induction fr as [|x fr IH]; intros Hlen Hfr.
  { exists c. rewrite Z.sub_0_r. by split_and!. }
  apply Forall_cons in Hfr as [Hx Hfr]. destruct IH as (c1 & Hrun & Hctl & Hok1 & Hsp1 & Hoth & Hw & Hch); [cbn in Hlen; lia|done|].
  exists (pushed x c1). rewrite reverse_cons, fmap_app, seqM_app. rewrite (bind_done _ _ _ _ _ Hrun).
  cbn [fmap list_fmap seqM length]. rewrite (bind_done _ _ _ _ _ (push_imm_run x c1)).
  rewrite Nat2Z.inj_succ. set (n := Z.of_nat (length fr)) in *.
  assert (0 <= n <= 5) as Hn by (unfold n; cbn in Hlen; lia).
  assert (u64 (regs c1 RSP - 8) = u64 (top - 8 * Z.succ n)) as Hnew by (rewrite Hsp1, u64_sub_l; f_equal; lia).
  split; [done|]. split; [done|]. split.
  { intros r. cbn. destruct (decide (r = RSP)) as [->|]; [rewrite fn_lookup_insert; apply u64_range|].
    by rewrite fn_lookup_insert_ne. }
  split; [cbn; by rewrite fn_lookup_insert|]. split.
  { intros r Hr. cbn. rewrite fn_lookup_insert_ne by done. by apply Hoth. }
  assert (mem (pushed x c1) = mem_store 8 (mem c1) (u64 (top - 8 * Z.succ n)) (u64 x)) as Hm by (cbn; by rewrite Hnew).
  split.
  - intros [|j] y Hj.
    + injection Hj as <-. rewrite Hm, Z.add_0_r, <- word_u64, word_store_eq, u64_u64. by apply u64_id.
    + rewrite Hm. rewrite <- (Hw j y Hj). rewrite (word_store_ne _ _ _ _ (8 + 8 * Z.of_nat j)).
      * f_equal. lia.
      * rewrite u64_sub_r. f_equal. lia.
      * apply lookup_lt_Some in Hj. cbn in Hj, Hlen. lia.
  - apply (changes_trans _ _ _ (mem c1)).
    + eapply (changes_sub _ _ _ _ 8); [exact Hch| |lia..].
      match goal with |- u64 ?y = _ => replace y with 8 by lia end. by apply u64_id.
    + rewrite Hm. apply (changes_store _ _ _ 8 _ _ 0); [rewrite u64_sub_l, Z.sub_diag; by apply u64_id|lia..].
Qed.

(** What entering through a gate does, in terms of the frame [fr] and the stack [s]. *)
Definition entered (g : Adaptor.gate_desc) (s : Z) (fr : list Z) (a a' : acpu) : Prop :=
  let n := 8 * Z.of_nat (length fr) in
  rip (core a') = Adaptor.gate_offset g ∧ regs_ok (core a') ∧
  regs (core a') RSP = u64 (s - n) ∧ (∀ r, r ≠ RSP → regs (core a') r = regs (core a) r) ∧
  (∀ j x, fr !! j = Some x → word (mem (core a')) (s - n + 8 * Z.of_nat j) = x) ∧
  changes_only (s - n) n (mem (core a)) (mem (core a')) ∧
  ctx_of a' = Ctx (hw_flags g (rflags (core a))) (gs_base a) (kernel_gs_base a) (cr2 a)
    (Adaptor.segment g, if user_mode (core a) then 0 else ss (core a), cr3 (core a), dr6 (core a), dr7 (core a)).

Lemma hw_deliver_run g ist sp0 err a :
  regs_ok (core a) → Forall (λ x, 0 <= x < 2 ^ 64) (hw_frame err (core a)) →
  ∃ a', hw_deliver g ist sp0 err a = Done tt a' ∧
    entered g (hw_stack g ist sp0 (core a)) (hw_frame err (core a)) a a'.
Proof.
  intros Hok Hfr. set (s := hw_stack g ist sp0 (core a)). set (fr := hw_frame err (core a)) in *.
  set (c0 := set_regs (λ f, <[RSP := u64 s]> f) (core a)).
  assert (regs_ok c0) as Hok0.
  { intros r. cbn. destruct (decide (r = RSP)) as [->|]; [rewrite fn_lookup_insert; apply u64_range|].
    by rewrite fn_lookup_insert_ne. }
  destruct (push_frame s fr c0 Hok0) as (c1 & Hrun & Hctl & Hok1 & Hsp & Hoth & Hw & Hch);
    [cbn; by rewrite fn_lookup_insert|unfold fr, hw_frame; destruct err; cbn; lia|done|].
  eexists. split.
  - unfold hw_deliver, on_core. unfold hw_push. unfold getM. unfold mbind at 1, M_bind at 1. cbv beta.
    fold s fr. unfold setr at 1, modifyM at 1.
    rewrite (bind_done _ _ (core a) tt c1).
    2:{ unfold mbind, M_bind. change (set_regs (λ f, <[RSP := u64 s]> f) (core a)) with c0. exact Hrun. }
    unfold modifyM. reflexivity.
  - unfold ctl in Hctl. cbn in Hctl. injection Hctl as E1 E2 E3 E4 E5 E6.
    split_and!; cbn; try done.
    + intros r Hr. rewrite Hoth by done. cbn. by rewrite fn_lookup_insert_ne.
    + unfold ctx_of. cbn. by rewrite E4, E5, E6.
Qed.

(** ** The detour *)
Section path.
Context (asy : asm_symbols).

(** The lowest address the detour writes on the exception stack, and the stack the
  kernel's handler runs on. *)
Definition detour_low (ist : Z) (fr : list Z) : Z := ist - ist mod 16 - 8 * Z.of_nat (length fr) - 32.
Definition kernel_stack (sp0 : Z) (c : cpu) : Z := if user_mode c then sp0 else regs c RSP.

(** A word at [p] is not on that part of the exception stack. *)
Definition off_stack (ist : Z) (fr : list Z) (p : Z) : Prop :=
32 + 8 * Z.of_nat (length fr) <= u64 (p - detour_low ist fr) <= 2 ^ 64 - 8.

(** Ordinary code is interrupted: user code on a user stack or kernel code on an aligned
  kernel stack, not an elevated thread, and not what the entry code takes for a double
  fault; the kernel's data is not on the exception stack. *)
Record ordinary (ist sp0 v : Z) (err : option Z) (a : acpu) : Prop := {
od_regs : regs_ok (core a);
od_gs : 0 <= gs_base a < 2 ^ 64;
od_ist : 128 <= ist < 2 ^ 64;
od_frame : Forall (λ x, 0 <= x < 2 ^ 64) (hw_frame err (core a));
od_mode : if user_mode (core a) then sign (regs (core a) RSP) = false ∧ sp0 mod 16 = 0
          else sign (regs (core a) RSP) = true ∧ regs (core a) RSP mod 16 = 0;
od_sp0 : word (mem (core a)) (sp0_at asy (kernel_ctx (ctx_of a))) = sp0;
od_mark : Z.testbit (rflags (core a)) 29 = false;
od_handler : off_stack ist (hw_frame err (core a)) (ef_adaptor_orig_isrs_at asy + 8 * v);
od_sp0_away : off_stack ist (hw_frame err (core a)) (sp0_at asy (kernel_ctx (ctx_of a)));
od_apart : let n := 32 + 8 * Z.of_nat (length (hw_frame err (core a))) in
  apart (detour_low ist (hw_frame err (core a))) (kernel_stack sp0 (core a) - n) n;
od_plain : is_Some err →
  fix_frame asy (mem (core a)) (kernel_ctx (ctx_of a)) = false ∧
  taken_for_df asy (mem (core a)) (kernel_ctx (ctx_of a)) (regs (core a) RSP) = false ∧
  task_away asy (detour_low ist (hw_frame err (core a))) (mem (core a)) (kernel_ctx (ctx_of a));
}.

(** The handler finds what it would have found: all registers, the frame, the control
  registers and GS bases, with the direction flag cleared; memory differs at most on the
  exception stack and in the 32 bytes below the frame. *)
Definition as_direct (ist d : Z) (fr : list Z) (ad a' : acpu) : Prop :=
let n := 32 + 8 * Z.of_nat (length fr) in
rip (core a') = rip (core ad) ∧ (∀ r, regs (core a') r = regs (core ad) r) ∧
(∀ j, (j < length fr)%nat →
   word (mem (core a')) (regs (core ad) RSP + 8 * Z.of_nat j) =
   word (mem (core ad)) (regs (core ad) RSP + 8 * Z.of_nat j)) ∧
ctx_of a' = flagged (Z.clearbit (rflags (core ad)) 10) (ctx_of ad) ∧
(∀ x, n <= u64 (x - detour_low ist fr) → n <= u64 (x - (d - n)) → mem (core a') x = mem (core ad) x).

(** What the code looks at is where it was. *)
Lemma detour_word ist fr m m' p :
changes_only (ist - ist mod 16 - 8 * Z.of_nat (length fr)) (8 * Z.of_nat (length fr)) m m' →
(length fr <= 6)%nat → off_stack ist fr p → word m' p = word m p.
Proof.
intros Hch Hlen Hp. eapply (changes_word (detour_low ist fr)); [|exact Hp].
eapply (changes_sub _ _ _ _ 32); [exact Hch| |lia..].
unfold detour_low. match goal with |- u64 ?y = _ => replace y with 32 by lia end. by apply u64_id.
Qed.

Lemma kernel_gs_of f a a' :
gs_base a' = gs_base a → kernel_gs_base a' = kernel_gs_base a → cr2 a' = cr2 a →
k_gs (kernel_ctx (flagged f (ctx_of a'))) = k_gs (kernel_ctx (ctx_of a)) ∧
k_cr2 (kernel_ctx (flagged f (ctx_of a'))) = k_cr2 (kernel_ctx (ctx_of a)).
Proof.
intros H1 H2 H3. unfold kernel_ctx. cbn [k_gs flagged ctx_of]. rewrite H1.
destruct (sign (gs_base a)); split; cbn; congruence.
Qed.

(** Delivery as [EntryProps] states it is delivery as the processor does it. *)
Lemma delivered_direct g ist fr d a a1 a' ad :
(length fr <= 6)%nat → 0 <= d < 2 ^ 64 → entered g d fr a ad →
regs (core a1) RSP = ist - ist mod 16 - 8 * Z.of_nat (length fr) →
(∀ r, r ≠ RSP → regs (core a1) r = regs (core a) r) →
changes_only (ist - ist mod 16 - 8 * Z.of_nat (length fr)) (8 * Z.of_nat (length fr)) (mem (core a)) (mem (core a1)) →
ctx_of a1 = ctx_of ad →
delivered (Adaptor.gate_offset g) d fr a1 a' → as_direct ist d fr ad a'.
Proof.
intros Hlen Hd (Hrip & Hok & Hsp & Hoth & Hw & Hch & Hctx) Hsp1 Hoth1 Hch1 Hc1 (Hrip' & Hsp' & Hoth' & Hw' & Hctx' & Hmem').
split_and!.
- by rewrite Hrip'.
- intros r. destruct (decide (r = RSP)) as [->|Hr]; [by rewrite Hsp', Hsp|].
  by rewrite Hoth', Hoth1, Hoth.
- intros j Hj. destruct (lookup_lt_is_Some_2 fr j Hj) as [x Hx].
  rewrite Hsp, !(word_mod _ (u64 _ + _) (d - 8 * Z.of_nat (length fr) + 8 * Z.of_nat j)) by (by rewrite u64_add_l).
  by rewrite (Hw j x Hx), (Hw' j x Hx).
- rewrite Hctx', Hc1. by replace (rflags (core a1)) with (k_flags (ctx_of a1)) by done; rewrite Hc1.
- intros x Hx1 Hx2. rewrite Hmem'.
  + rewrite Hch1, Hch; [done| |].
    * revert Hx2 Hlen. clear. intros. u64_eq.
    * revert Hx1 Hlen. unfold detour_low. clear. intros. u64_eq.
  + rewrite Hsp1. exact Hx1.
  + exact Hx2.
Qed.

(** The state in which the stub is entered. *)
Lemma detour_entry ist sp0 v err a g' a1 :
let fr := hw_frame err (core a) in
let kk := kernel_ctx (flagged (Z.clearbit (rflags (core a1)) 10) (ctx_of a1)) in
ordinary ist sp0 v err a → entered g' (ist - ist mod 16) fr a a1 →
regs (core a1) RSP = ist - ist mod 16 - 8 * Z.of_nat (length fr) ∧
handler_stack asy (mem (core a1)) kk (regs (core a) RSP) = kernel_stack sp0 (core a) ∧
stub_entry asy v fr kk (kernel_stack sp0 (core a)) a1 ∧
(is_Some err →
  fix_frame asy (mem (core a1)) kk = false ∧ taken_for_df asy (mem (core a1)) kk (regs (core a) RSP) = false ∧
  task_away asy (regs (core a1) RSP - 32) (mem (core a1)) kk).
Proof.
intros fr kk Ho (_ & Hok & Hsp & Hoth & Hw & Hch & Hctx).
assert (length fr <= 6)%nat as Hlen by (unfold fr, hw_frame; destruct err; cbn; lia).
assert (regs (core a1) RSP = ist - ist mod 16 - 8 * Z.of_nat (length fr)) as Hsp1.
{ rewrite Hsp. apply u64_id. pose proof (od_ist _ _ _ _ _ Ho). pose proof (Z.mod_pos_bound ist 16). lia. }
assert (gs_base a1 = gs_base a ∧ kernel_gs_base a1 = kernel_gs_base a ∧ cr2 a1 = cr2 a) as (Eg & Ek & Ec)
  by (unfold ctx_of in Hctx; injection Hctx; done).
destruct (kernel_gs_of (Z.clearbit (rflags (core a1)) 10) a a1 Eg Ek Ec) as [Hkg Hkc]. fold kk in Hkg, Hkc.
assert (sp0_at asy kk = sp0_at asy (kernel_ctx (ctx_of a))) as Hs0 by (unfold sp0_at; by rewrite Hkg).
assert (∀ p, off_stack ist fr p → word (mem (core a1)) p = word (mem (core a)) p) as Hword
  by (intros p Hp; by apply (detour_word ist fr)).
assert (word (mem (core a1)) (sp0_at asy kk) = sp0) as Hsp0.
{ rewrite Hs0, Hword by apply (od_sp0_away _ _ _ _ _ Ho). apply (od_sp0 _ _ _ _ _ Ho). }
assert (regs (core a1) RSP - 32 = detour_low ist fr) as Hlow by (unfold detour_low; lia).
split; [done|]. split; [|split].
- unfold handler_stack, kernel_stack. rewrite Hsp0. pose proof (od_mode _ _ _ _ _ Ho) as Hm.
  destruct (user_mode (core a)); by destruct Hm as [-> _].
- split; rewrite ?Hlow, ?Hs0; try done.
  + rewrite Eg. apply (od_gs _ _ _ _ _ Ho).
  + intros j x Hj. rewrite Hsp1. by apply Hw.
  + apply (od_handler _ _ _ _ _ Ho).
  + apply (od_sp0_away _ _ _ _ _ Ho).
  + apply (od_apart _ _ _ _ _ Ho).
- intros He. destruct (od_plain _ _ _ _ _ Ho He) as (Hfix & Hdf & Ht1 & Ht2). fold fr in Ht1, Ht2.
  rewrite Hlow. destruct err as [e|]; [|by destruct He].
  assert (word (mem (core a1)) (k_gs kk + current_task asy) =
          word (mem (core a)) (k_gs (kernel_ctx (ctx_of a)) + current_task asy)) as Htask by (rewrite Hkg; by apply Hword).
  split_and!.
  + rewrite <- Hfix. unfold fix_frame. rewrite Htask, Hkc. do 4 f_equal. apply mem_load_ext. intros i Hi.
    assert (i = 0) as -> by (change (Z.of_nat 1) with 1 in Hi; lia). apply Hch. unfold detour_low in Ht2.
    change (length fr) with 6%nat in *. rewrite u64_sub_l, Z.add_0_r. revert Ht2. clear.
    generalize (ist - ist mod 16) as top. intros. u64_eq.
  + rewrite <- Hdf. unfold taken_for_df. by rewrite Hkc, Hs0, Hword by apply (od_sp0_away _ _ _ _ _ Ho).
  + unfold task_away. rewrite Htask, Hkg. done.
Qed.

(** The detour of one exception through a redirected gate [g'] instead of [g]. *)
Lemma detour g g' ist sp0 v err a :
Adaptor.g_ist g = 0 → Adaptor.g_ist g' ≠ 0 → Adaptor.g_type g' = Adaptor.g_type g →
Adaptor.segment g' = Adaptor.segment g → ordinary ist sp0 v err a →
word (mem (core a)) (ef_adaptor_orig_isrs_at asy + 8 * v) = Adaptor.gate_offset g →
∃ ad, hw_deliver g ist sp0 err a = Done tt ad ∧
  wp (hw_deliver g' ist sp0 err) (λ _ a1, rip (core a1) = Adaptor.gate_offset g' ∧
    wp (ef_isr asy v) (λ _ a', as_direct ist (kernel_stack sp0 (core a)) (hw_frame err (core a)) ad a') a1) a.
Proof.
intros Hg Hg' Hty Hseg Ho Hh. set (fr := hw_frame err (core a)). set (d := kernel_stack sp0 (core a)).
assert (length fr <= 6)%nat as Hlen by (unfold fr, hw_frame; destruct err; cbn; lia).
assert (hw_stack g ist sp0 (core a) = d ∧ 0 <= d < 2 ^ 64) as [Hst Hd].
{ unfold hw_stack, d, kernel_stack. rewrite Hg. cbn [Z.eqb negb]. pose proof (od_mode _ _ _ _ _ Ho) as Hm.
  destruct (user_mode (core a)); destruct Hm as [_ ->]; (split; [lia|]);
    [rewrite <- (od_sp0 _ _ _ _ _ Ho); apply word_range|apply (od_regs _ _ _ _ _ Ho)]. }
destruct (hw_deliver_run g ist sp0 err a (od_regs _ _ _ _ _ Ho) (od_frame _ _ _ _ _ Ho)) as (ad & Had & Ead).
rewrite Hst in Ead. exists ad. split; [done|].
destruct (hw_deliver_run g' ist sp0 err a (od_regs _ _ _ _ _ Ho) (od_frame _ _ _ _ _ Ho)) as (a1 & Ha1 & Ea1).
unfold hw_stack in Ea1. rewrite (proj2 (Z.eqb_neq _ _) Hg') in Ea1. cbn [negb] in Ea1.
apply wp_done. exists tt, a1. split; [done|]. split; [apply Ea1|].
destruct (detour_entry ist sp0 v err a g' a1 Ho Ea1) as (Hsp1 & Hhs & Hse & Hplain).
destruct Ea1 as (_ & _ & _ & Hoth1 & _ & Hch1 & Hctx1). fold fr d in Hsp1, Hhs, Hse, Hch1.
assert (ctx_of a1 = ctx_of ad) as Hc1.
{ destruct Ead as (_ & _ & _ & _ & _ & _ & ->). rewrite Hctx1. unfold hw_flags. by rewrite Hty, Hseg. }
assert (word (mem (core a1)) (ef_adaptor_orig_isrs_at asy + 8 * v) = Adaptor.gate_offset g) as Hh1.
{ rewrite <- Hh. apply (detour_word ist fr); [done..|]. apply (od_handler _ _ _ _ _ Ho). }
match type of Hhs with ?hs = _ =>
  assert (∀ a', delivered (word (mem (core a1)) (ef_adaptor_orig_isrs_at asy + 8 * v)) hs fr a1 a' →
    as_direct ist d fr ad a') as Hfin
    by (rewrite Hhs, Hh1; intros a'; by apply (delivered_direct g ist fr d a a1 a' ad)) end.
rewrite <- Hhs in Hse. pose proof (Z_div_mod_eq_full ist 16) as Hdm.
unfold fr, hw_frame in Hfin, Hse, Hsp1. destruct err as [e|]; cbn [length] in Hsp1.
- destruct (Hplain ltac:(by eexists)) as (Hfix & Hdf & Htask).
  eapply wp_mono; [eapply (error_delivered asy v _ _ _ _ _ _ _ a1 Hse); try done|].
  + rewrite Hsp1. match goal with |- ?x mod _ = _ => replace x with ((ist / 16 - 3) * 16) by lia end. apply Z_mod_mult.
  + apply (od_mark _ _ _ _ _ Ho).
  + cbv zeta. rewrite Hfix. intros _ a'. apply Hfin.
- eapply wp_mono; [eapply (interrupt_delivered asy v _ _ _ _ _ _ a1 Hse)|].
  + rewrite Hsp1. match goal with |- ?x mod _ = _ => replace x with (8 + (ist / 16 - 3) * 16) by lia end.
    by rewrite Z_mod_plus_full.
  + intros [] a'. apply Hfin.
Qed.
End path.

(** C3: with the extension loaded, whatever the vector and whether there is an error code,
    an exception of ordinary code enters at the stub of its vector, on the exception
    stack of its processor, and arrives at the handler the kernel had installed exactly
    as if the processor had entered it through the old table: same stack, frame,
    registers, control registers and GS base, the direction flag being clear. *)
Theorem extension_transparent sy asy a t q stack w :
  AdaptorProps.loadable a t q stack w →
  (0 < AdaptorSpec.moved_count AdaptorProps.all_vectors t)%nat →
  ∃ w' t', Adaptor.extension_init sy (Some q) stack w = Done 0 w' ∧ AdaptorSpec.in_use q t' w' ∧
    Adaptor.ists w' = imap (AdaptorSpec.new_ist stack) (Adaptor.ists w) ∧
    ∀ v g, t !! v = Some g → Adaptor.g_ist g = 0 →
    ∃ g', t' !! v = Some g' ∧ Adaptor.ef_adaptor_orig_isrs w' !! v = Some (Adaptor.gate_offset g) ∧
      ∀ cpu ist sp0 err ac, Adaptor.ists w' !! cpu = Some ist →
        ordinary asy ist sp0 (Z.of_nat v) err ac →
        word (mem (core ac)) (ef_adaptor_orig_isrs_at asy + 8 * Z.of_nat v) = Adaptor.gate_offset g →
        ∃ ad, hw_deliver g ist sp0 err ac = Done tt ad ∧
          wp (hw_deliver g' ist sp0 err) (λ _ a1, rip (core a1) = Adaptor.isr_addr sy (Z.of_nat v) ∧
            wp (ef_isr asy (Z.of_nat v)) (λ _ a', as_direct ist (kernel_stack sp0 (core ac))
              (hw_frame err (core ac)) ad a') a1) ac.
Proof.
  intros Hl Hn.
  destruct (AdaptorProps.extension_loaded sy a t q stack w Hl Hn) as (w' & t' & Hrun & Hu & He & Hs & Hi & _).
  exists w', t'. split; [done|]. split; [done|]. split; [done|]. intros v g Hg Hist.
  destruct (He v g Hg) as (g' & Hg' & Hf). rewrite decide_True in Hf by done.
  destruct Hf as (Hi' & Hoff & Hty & _ & _ & Hseg). exists g'. split; [done|]. split.
  - destruct (lookup_lt_is_Some_2 (Adaptor.ef_adaptor_orig_isrs w) v) as [h Hh].
    { rewrite (AdaptorSpec.iu_isrs _ _ _ (AdaptorProps.ld_use _ _ _ _ _ Hl)).
      rewrite <- (AdaptorSpec.iu_len _ _ _ (AdaptorProps.ld_use _ _ _ _ _ Hl)). by eapply lookup_lt_Some. }
    rewrite (Hs v g h Hg Hh). by rewrite decide_True.
  - intros cpu ist sp0 err ac _ Ho Hh. rewrite <- Hoff.
    apply (detour asy g g'); try done. by rewrite Hi'.
Qed.

(** User code on the first processor is interrupted; vector 32. *)
Definition user_code : acpu :=
  Acpu (Cpu (<[RSP := 0x7ffe0000]> (λ _, 7)) 0x401000 0x33 0x202 0x2b 0 0 0
    (words_mem [(0xffffffffc0005000 + 8 * 32, 0xffffffff81000200); (0xffff888000006004, 0xffffc90000010000)]))
    0 0xffff888000000000 0.

Lemma user_code_ordinary : ordinary syms0 0x11000 0xffffc90000010000 32 None user_code.
Proof.
  split.
  - intros r. cbn. destruct (decide (r = RSP)) as [->|]; [by rewrite fn_lookup_insert|].
    rewrite fn_lookup_insert_ne by done. lia.
  - cbn. lia.
  - lia.
  - repeat constructor; concrete.
  - concrete.
  - concrete.
  - concrete.
  - concrete.
  - concrete.
  - concrete.
  - by intros [].
Qed.

Lemma extension_transparent_witness :
  ∃ w' (t' : list Adaptor.gate_desc) g' ad, Adaptor.extension_init AdaptorProps.boot_syms (Some 0x20000) AdaptorProps.boot_stack AdaptorProps.boot
      = Done 0 w' ∧ t' !! 32%nat = Some g' ∧
    hw_deliver (AdaptorProps.boot_gate 32) 0x11000 0xffffc90000010000 None user_code = Done tt ad ∧
    wp (hw_deliver g' 0x11000 0xffffc90000010000 None)
      (λ _ a1, rip (core a1) = Adaptor.isr_addr AdaptorProps.boot_syms 32 ∧
        wp (ef_isr syms0 32) (λ _ a', as_direct 0x11000 (kernel_stack 0xffffc90000010000 (core user_code))
          (hw_frame None (core user_code)) ad a') a1) user_code.
Proof.
  destruct (extension_transparent AdaptorProps.boot_syms syms0 4096 AdaptorProps.boot_table 0x20000
    AdaptorProps.boot_stack AdaptorProps.boot) as (w' & t' & H1 & _ & Hi & H2).
  - apply AdaptorProps.boot_loadable.
  - by apply Nat.ltb_lt; vm_compute.
  - destruct (H2 32%nat (AdaptorProps.boot_gate 32)) as (g' & Hg' & _ & H3); [reflexivity|reflexivity|].
    destruct (H3 0%nat 0x11000 0xffffc90000010000 None user_code) as (ad & Had & Hw).
    + rewrite Hi. reflexivity.
    + exact user_code_ordinary.
    + vm_compute. reflexivity.
    + exists w', t', g', ad. split; [exact H1|]. split; [exact Hg'|]. split; [exact Had|exact Hw].
Defined.
