(* ===== verification/PfDemo.v ===== *)
(** * The first form of the entry code ([pfdemo/pftest.S])

    The code from which [pfasm.kS] was developed, on the machine of [AdaptorAsm] and
    with the logic of [AdaptorAsmSpec]. It copies the exception frame to the stack of
    the interrupted code and jumps to the handler. The lines that would have loaded
    the kernel's stack are comments in the source. *)
From S2P Require Import X86.
From S2P Require Import Interposer.
From S2P Require Import InterposerSpec.
From S2P Require Import AdaptorAsm.
From S2P Require Import AdaptorAsmSpec.
From S2P Require Import Prelude.

Open Scope Z_scope.

Section demo.
(** Where the pointer [pf_adaptor_asm_exc_page_fault] is. *)
Context (handler_at : Z).

Definition demo_fix_ist_err_code : M acpu unit :=
_ ← seqM [pushq RDI; load_from 0x28 RSP RDI; pushq RSI; pushq RCX; movq RSP RSI];
v ← reg_of RDI;
_ ← (if sign v then mret tt else mret tt);
seqM [addq (-0x40) RDI; movq_imm 9 RCX; rep_movsq; lea_off (-0x48) RDI RSP;
      popq RDI; popq RSI; popq RCX; jmp_at handler_at].

Definition demo_fix_ist_no_err_code : M acpu unit :=
_ ← seqM [pushq RDI; load_from 0x20 RSP RDI; pushq RSI; pushq RCX];
v ← reg_of RDI;
_ ← (if sign v then mret tt
     else _ ← rdgsbase RDI; g ← reg_of RDI; if sign g then mret tt else mret tt);
seqM [addq (-0x38) RDI; movq RSP RSI; movq_imm 8 RCX; rep_movsq; lea_off (-0x40) RDI RSP;
      popq RDI; popq RSI; popq RCX; jmp_at handler_at].

(** The registers at the handler: RDI and RCX have been exchanged, as they are popped
  in the order in which they were pushed. *)
Definition exchanged (R : reg → Z) (sp : Z) : reg → Z := λ r,
match r with RSP => sp | RDI => R RCX | RCX => R RDI | _ => R r end.

Lemma demo_err_path b m0 R k a w0 w1 w2 err ip c fl osp oss :
here b m0 R [w0; w1; w2; err; ip; c; fl; osp; oss] k a →
R RSP = u64 (b + 24) → Z.testbit (k_flags k) 10 = false →
72 <= u64 (handler_at - b) <= 2 ^ 64 - 8 → 72 <= u64 (handler_at - (osp - 64)) <= 2 ^ 64 - 8 →
apart b (osp - 64) 72 →
wp demo_fix_ist_err_code
  (λ _ a', rip (core a') = word m0 handler_at ∧ ∃ m1, changes_only b 72 m0 m1 ∧
     here (osp - 64) m1 (exchanged R (u64 (osp - 40))) [R RCX; R RSI; R RDI; err; ip; c; fl; osp; oss] k a') a.
Proof.
intros H Hsp Hdf Hh1 Hh2 Hap. unfold demo_fix_ist_err_code.
assert (0 <= osp < 2 ^ 64) as Hosp by (by apply (area_range _ _ _ _ _ _ H 7)).
apply wp_bind. apply wp_seq. eapply (wp_pushq _ _ _ _ _ _ H _ 2); [cbn; lia|mem_at Hsp|]. intros a1 H1. cbn in H1.
apply wp_seq. eapply (wp_load_from _ _ _ _ _ _ H1 _ _ _ _ 7); [done|mem_at Hsp|]. intros a2 H2.
apply wp_seq. eapply (wp_pushq _ _ _ _ _ _ H2 _ 1); [cbn; lia|mem_at Hsp|]. intros a3 H3. cbn in H3.
apply wp_seq. eapply (wp_pushq _ _ _ _ _ _ H3 _ 0); [cbn; lia|mem_at Hsp|]. intros a4 H4. cbn in H4.
apply wp_seq. eapply wp_movq; [exact H4|]. intros a5 H5. apply wp_ret.
apply wp_bind. eapply (wp_reg_of _ _ _ _ _ _ H5). intros _.
apply wp_bind. apply (wp_mono _ (λ _ a', a' = a5)); [destruct (sign _); by apply wp_ret|]. intros _ ? ->.
apply wp_seq. eapply wp_addq; [exact H5|]. intros a6 H6.
apply wp_seq. eapply wp_movq_imm; [exact H6|]. intros a7 H7.
apply wp_seq. eapply (wp_rep_movsq _ _ _ _ _ _ (osp - 64)); [exact H7|done| | | |done|].
{ reg_at. } { x86_regs. rewrite Hsp. flat. f_equal. lia. } { x86_regs. by flat. }
cbn [length]. intros a8 H8. apply wp_seq. eapply wp_lea_off; [exact H8|]. intros a9 H9.
apply wp_seq. eapply (wp_popq _ _ _ _ _ _ H9 _ 0); [done|mem_at Hsp|]. intros a10 H10.
apply wp_seq. eapply (wp_popq _ _ _ _ _ _ H10 _ 1); [done|mem_at Hsp|]. intros a11 H11.
apply wp_seq. eapply (wp_popq _ _ _ _ _ _ H11 _ 2); [done|mem_at Hsp|]. intros a12 H12.
apply wp_seq. eapply (wp_jmp_at _ _ _ _ _ _ H12); [exact Hh2|]. intros a13 H13 Hrip. apply wp_ret.
split.
- rewrite Hrip. by apply (here_away _ _ _ _ _ _ _ H7).
- exists (mem (core a7)). split; [apply (h_else _ _ _ _ _ _ H7)|].
  refine (here_ext _ _ _ _ _ _ _ H13 _). intros []; cbn; x86_regs; try done; flat; try done; f_equal; lia.
Qed.

(** So the handler does not see the interrupted context: two registers are exchanged, and
  the word the interrupted code had on top of its stack is lost. *)
Theorem demo_err_clobbers b m0 R k a w0 w1 w2 err ip c fl osp oss :
here b m0 R [w0; w1; w2; err; ip; c; fl; osp; oss] k a →
R RSP = u64 (b + 24) → Z.testbit (k_flags k) 10 = false →
72 <= u64 (handler_at - b) <= 2 ^ 64 - 8 → 72 <= u64 (handler_at - (osp - 64)) <= 2 ^ 64 - 8 →
apart b (osp - 64) 72 →
wp demo_fix_ist_err_code
  (λ _ a', regs (core a') RDI = R RCX ∧ regs (core a') RCX = R RDI ∧ word (mem (core a')) osp = oss) a.
Proof.
intros H Hsp Hdf Hh1 Hh2 Hap. eapply wp_mono; [by apply (demo_err_path b m0 R k a w0 w1 w2 err ip c fl osp oss)|].
intros _ a' (_ & m1 & _ & H'). rewrite !(h_regs _ _ _ _ _ _ H'). split; [done|]. split; [done|].
rewrite <- (h_words _ _ _ _ _ _ H' 8 oss eq_refl). f_equal. lia.
Qed.

(** The stack the frame is copied to: that of interrupted kernel code, and otherwise the
  address in the GS base, which is not a stack. *)
Definition demo_stack (k : ctx) (osp : Z) : Z := if sign osp then osp else k_gs k.

Lemma demo_no_err_path b m0 R k a w0 w1 w2 ip c fl osp oss :
here b m0 R [w0; w1; w2; ip; c; fl; osp; oss] k a →
let d := demo_stack k osp in
R RSP = u64 (b + 24) → Z.testbit (k_flags k) 10 = false → 0 <= k_gs k < 2 ^ 64 →
64 <= u64 (handler_at - b) <= 2 ^ 64 - 8 → 64 <= u64 (handler_at - (d - 56)) <= 2 ^ 64 - 8 →
apart b (d - 56) 64 →
wp demo_fix_ist_no_err_code
  (λ _ a', rip (core a') = word m0 handler_at ∧ ∃ m1, changes_only b 64 m0 m1 ∧
     here (d - 56) m1 (exchanged R (u64 (d - 32))) [R RCX; R RSI; R RDI; ip; c; fl; osp; oss] k a') a.
Proof.
intros H d Hsp Hdf Hg Hh1 Hh2 Hap. unfold demo_fix_ist_no_err_code.
assert (0 <= osp < 2 ^ 64) as Hosp by (by apply (area_range _ _ _ _ _ _ H 6)).
apply wp_bind. apply wp_seq. eapply (wp_pushq _ _ _ _ _ _ H _ 2); [cbn; lia|mem_at Hsp|]. intros a1 H1. cbn in H1.
apply wp_seq. eapply (wp_load_from _ _ _ _ _ _ H1 _ _ _ _ 6); [done|mem_at Hsp|]. intros a2 H2.
apply wp_seq. eapply (wp_pushq _ _ _ _ _ _ H2 _ 1); [cbn; lia|mem_at Hsp|]. intros a3 H3. cbn in H3.
apply wp_seq. eapply (wp_pushq _ _ _ _ _ _ H3 _ 0); [cbn; lia|mem_at Hsp|]. intros a4 H4. cbn in H4.
apply wp_ret. apply wp_bind. eapply (wp_reg_of _ _ _ _ _ _ H4). intros _. x86_regs. rewrite u64_id by done.
assert (here b m0 (<[RDI := osp]> (<[RSP := u64 b]> R)) [R RCX; R RSI; R RDI; ip; c; fl; osp; oss] k a4) as H5.
{ refine (here_ext _ _ _ _ _ _ _ H4 _). intros []; x86_regs; try done; [by rewrite u64_id|].
  rewrite Hsp. flat. f_equal. lia. }
apply wp_bind. apply (wp_mono _ (λ _ a', here b m0 (<[RDI := u64 d]> (<[RSP := u64 b]> R))
  [R RCX; R RSI; R RDI; ip; c; fl; osp; oss] k a')).
{ unfold d, demo_stack. destruct (sign osp).
  - apply wp_ret. refine (here_ext _ _ _ _ _ _ _ H5 _). intros []; x86_regs; try done. by rewrite u64_id.
  - apply wp_bind. eapply wp_rdgsbase; [exact H5|]. intros a5 H6.
    apply wp_bind. eapply (wp_reg_of _ _ _ _ _ _ H6). intros _.
    apply (wp_mono _ (λ _ a', a' = a5)); [destruct (sign _); by apply wp_ret|]. intros _ ? ->.
    refine (here_ext _ _ _ _ _ _ _ H6 _). intros []; x86_regs; done. }
intros _ a5 H6.
apply wp_seq. eapply wp_addq; [exact H6|]. intros a6 H7.
apply wp_seq. eapply wp_movq; [exact H7|]. intros a7 H8.
apply wp_seq. eapply wp_movq_imm; [exact H8|]. intros a8 H9.
apply wp_seq. eapply (wp_rep_movsq _ _ _ _ _ _ (d - 56)); [exact H9|done| | | |done|].
{ reg_at. } { reg_at. } { reg_at. }
cbn [length]. intros a9 H10. apply wp_seq. eapply wp_lea_off; [exact H10|]. intros a10 H11.
apply wp_seq. eapply (wp_popq _ _ _ _ _ _ H11 _ 0); [done|mem_at Hsp|]. intros a11 H12.
apply wp_seq. eapply (wp_popq _ _ _ _ _ _ H12 _ 1); [done|mem_at Hsp|]. intros a12 H13.
apply wp_seq. eapply (wp_popq _ _ _ _ _ _ H13 _ 2); [done|mem_at Hsp|]. intros a13 H14.
apply wp_seq. eapply (wp_jmp_at _ _ _ _ _ _ H14); [exact Hh2|]. intros a14 H15 Hrip. apply wp_ret.
split.
- rewrite Hrip. by apply (here_away _ _ _ _ _ _ _ H9).
- exists (mem (core a8)). split; [apply (h_else _ _ _ _ _ _ H9)|].
  refine (here_ext _ _ _ _ _ _ _ H15 _). intros []; cbn; x86_regs; try done; flat; try done; f_equal; lia.
Qed.
End demo.
