(* ===== verification/TestHandler.v ===== *)
(** * The test handler of the exception stack adaptor ([kcuttest/efadaptor.kc])

    A handler that can be installed on vectors the kernel does not use. It records the
    exception frame in data of the processor it runs on and returns. The wrapper is
    modelled on the machine of [AdaptorAsm], the C function it calls as the functions
    of [Interposer]: besides its body it may change the registers a C function need not
    preserve and the stack below it ([callee]). *)
From S2P Require Import X86.
From S2P Require Import Interposer.
From S2P Require Import InterposerSpec.
From S2P Require Import AdaptorAsm.
From S2P Require Import AdaptorAsmSpec.
From S2P Require Import Prelude.

Open Scope Z_scope.

Definition NR_TSTHDLR_DATA : nat := 5.

Section handler.
(** The symbol [ef_adaptor_tsthdlr_data], where the kernel keeps a processor's offset
  relative to the GS base, and the compiled function. *)
Context (data_sym this_cpu_off : Z) (e : callee).

(** [this_cpu_ptr(&sym)] with GS base [gs] *)
Definition this_cpu_ptr (gs sym : Z) : M cpu Z := o ← ld (gs + this_cpu_off); mret (sym + o).

Fixpoint record_from (n i : nat) (data rsp : Z) : M cpu unit :=
match n with
| O => mret tt
| S n =>
    v ← ld (rsp + 8 * (Z.of_nat i + 1)); _ ← st (data + 8 * Z.of_nat i) v;
    record_from n (S i) data rsp
end.

Definition ef_adaptor_tsthdlr (gs rsp : Z) : M cpu unit :=
data ← this_cpu_ptr gs data_sym; record_from NR_TSTHDLR_DATA 0 data rsp.

Definition call_tsthdlr : M acpu unit :=
a ← getM; on_core (CALL_TARG e (ef_adaptor_tsthdlr (gs_base a))).

Definition ef_adaptor_tsthdlr_asm : M acpu unit :=
seqM [cld; swapgs; pushq RDI; movq RSP RDI; call_tsthdlr; popq RDI; swapgs; on_core iretq].

(** The words it prints: the pointer to this processor's data is computed and not
  used. *)
Definition ef_adaptor_print_tsthdlr_data : M cpu (list Z) :=
getsM (λ c, (λ i, word (mem c) (data_sym + 8 * Z.of_nat i)) <$> seq 0 NR_TSTHDLR_DATA).

(** ** The copy *)
Lemma record_from_run n i data rsp c :
(i + n <= 16)%nat →
∃ m', record_from n i data rsp c = Done tt (set_mem (λ _, m') c) ∧
  changes_only (data + 8 * Z.of_nat i) (8 * Z.of_nat n) (mem c) m' ∧
  (8 * Z.of_nat (i + n) <= u64 (rsp + 8 - data) <= 2 ^ 64 - 8 * Z.of_nat (i + n) →
   ∀ j, (i <= j < i + n)%nat →
   word m' (data + 8 * Z.of_nat j) = word (mem c) (rsp + 8 * (Z.of_nat j + 1))).
Proof.
revert i c. induction n as [|n IH]; intros i c Hn.
{ exists (mem c). split; [by destruct c|]. split; [done|]. intros _ j Hj. lia. }
cbn [record_from]. unfold ld, st, stn, getsM, modifyM, mbind, M_bind.
set (v := word _ _). set (c1 := set_mem _ c). destruct (IH (S i) c1) as (m' & Hrun & Hch & Hw); [lia|].
assert (mem c1 = mem_store 8 (mem c) (u64 (data + 8 * Z.of_nat i)) v) as Hm1 by done.
exists m'. split; [exact Hrun|]. rewrite Nat2Z.inj_succ in Hch. split.
- apply (changes_trans _ _ _ (mem c1)).
  + rewrite Hm1. apply (changes_store _ _ _ 8 _ _ 0); [rewrite u64_sub_l, Z.sub_diag; by apply u64_id|lia..].
  + eapply (changes_sub _ _ _ _ 8); [exact Hch| |lia..].
    match goal with |- u64 ?x = _ => replace x with 8 by lia end. by apply u64_id.
- intros Hap j Hj. destruct (decide (j = i)) as [->|].
  + rewrite (changes_word _ _ _ _ _ Hch).
    * rewrite Hm1, <- word_u64, word_store_eq, u64_id by apply word_range. apply word_u64.
    * match goal with |- _ <= u64 ?x <= _ => replace x with (-8) by lia end. change (u64 (-8)) with (2 ^ 64 - 8). lia.
  + rewrite Hw by (rewrite Nat.add_succ_l, <- Nat.add_succ_r; lia). rewrite Hm1.
    apply (word_store_ne _ _ _ _ (u64 (rsp + 8 - data) + 8 * (Z.of_nat j - Z.of_nat i))); [|lia].
    rewrite u64_sub_r, u64_add_l. f_equal. lia.
Qed.

(** ** The call *)

(** The registers a C function hands back. *)
Definition returned (R : reg → Z) : reg → Z := λ r, if caller_saved r then u64 (ce_scratch e r) else R r.

Lemma here_push_imm b m0 R ws k a v i :
here b m0 R ws k a → (i < length ws)%nat → u64 (R RSP - 8) = u64 (b + 8 * Z.of_nat i) →
here b m0 (<[RSP := u64 (R RSP - 8)]> R) (<[i := u64 v]> ws) k (with_core (pushed v) a).
Proof.
intros H Hi Hp. unfold pushed, with_core. rewrite !(h_regs _ _ _ _ _ _ H).
rewrite <- (u64_u64 v) at 1. rewrite <- (word_store_eq (mem (core a)) (u64 (R RSP - 8)) (u64 v)).
eapply (here_update b m0 _ ws k _ i _ _ (u64 v) 8 (here_reg b m0 R ws k a RSP (R RSP - 8) H)); try done.
by rewrite u64_u64.
Qed.

(** Where this processor's data is, and that it lies apart from the stack area of
  seven words at [b] and from the frame of the function below it. *)
Definition recorded_at (m : Z → Z) (gs : Z) : Z := data_sym + word m (gs + this_cpu_off).
Definition data_apart (b d : Z) : Prop :=
0 <= ce_frame e ∧ ce_frame e + 56 <= u64 (d - (b - ce_frame e)) <= 2 ^ 64 - 40.

(** Nothing changes but the stack, the frame below it and the data at [d]. *)
Definition elsewhere (b d : Z) (m m' : Z → Z) : Prop :=
∀ x, ce_frame e + 56 <= u64 (x - (b - ce_frame e)) → 40 <= u64 (x - d) → m' x = m x.

Lemma left_below b c m :
regs c RSP = u64 b → 0 <= ce_frame e → ce_frame e + 56 <= 2 ^ 64 →
changes_only (b - ce_frame e) (ce_frame e) m (mem (leave e (set_mem (λ _, m) c))).
Proof.
intros Hsp ? ? x Hx. cbn. rewrite Hsp.
replace (u64 (x - (u64 b - ce_frame e))) with (u64 (x - (b - ce_frame e))) by u64_eq.
by rewrite (proj2 (Z.ltb_ge _ _)).
Qed.

Lemma wp_call_tsthdlr b m0 R k a w0 rdi ip c fl sp s Q :
here b m0 R [w0; rdi; ip; c; fl; sp; s] k a →
R RSP = u64 (b + 8) → R RDI = u64 (b + 8) →
away b [w0; rdi; ip; c; fl; sp; s] (k_gs k + this_cpu_off) →
let d := recorded_at m0 (k_gs k) in
data_apart b d →
(∀ a', here b (mem (core a')) (returned R) [u64 (ce_ret e); rdi; ip; c; fl; sp; s] k a' →
  (∀ j x, [ip; c; fl; sp; s] !! j = Some x → word (mem (core a')) (d + 8 * Z.of_nat j) = x) →
  elsewhere b d m0 (mem (core a')) → Q tt a') →
wp call_tsthdlr Q a.
Proof.
intros H Hsp Hdi Haw d [Hf Hd] HQ.
pose proof (here_push_imm b m0 R _ k a (ce_ret e) 0 H ltac:(cbn; lia) ltac:(rewrite Hsp; flat; f_equal; lia)) as H1.
set (a1 := with_core (pushed (ce_ret e)) a) in H1. cbn [insert list_insert] in H1.
assert (regs (core a1) RSP = u64 b) as Hsp1.
{ rewrite (h_regs _ _ _ _ _ _ H1). x86_regs. rewrite Hsp. flat. f_equal. lia. }
assert (regs (core a1) RDI = u64 (b + 8)) as Hdi1 by (rewrite (h_regs _ _ _ _ _ _ H1); by x86_regs).
assert (word (mem (core a1)) (k_gs k + this_cpu_off) = word m0 (k_gs k + this_cpu_off)) as Hoff
  by (eapply here_away; [exact H1|exact Haw]).
destruct (record_from_run NR_TSTHDLR_DATA 0 d (u64 (b + 8)) (core a1) ltac:(unfold NR_TSTHDLR_DATA; lia)) as (m2 & Hrun & Hch & Hw).
set (c3 := leave e (set_mem (λ _, m2) (core a1))).
pose proof (left_below b (core a1) m2 Hsp1 Hf ltac:(lia)) as Hlow. fold c3 in Hlow.
rewrite Z.add_0_r in Hch. change (8 * Z.of_nat NR_TSTHDLR_DATA) with 40 in Hch.
assert (same_range b 56 (mem (core a1)) (mem c3)) as Hsame.
{ intros x Hx. rewrite Hlow, Hch; [done| |]; revert Hf Hd Hx; u64_eq. }
assert (CALL_TARG e (ef_adaptor_tsthdlr (gs_base a)) (core a) = Done tt (set_rip (word (mem c3) (regs c3 RSP)) (popped c3))) as Hcall.
{ unfold CALL_TARG. step_by (push_imm_run _ _). change (pushed (ce_ret e) (core a)) with (core a1).
  unfold getr, getsM. step. rewrite Hdi1, (here_gs _ _ _ _ _ _ H).
  assert (this_cpu_ptr (k_gs k) data_sym (core a1) = Done d (core a1)) as Hptr
    by (unfold this_cpu_ptr, ld, getsM; step; by rewrite word_u64, Hoff).
  unfold ef_adaptor_tsthdlr. erewrite bind_done; [|step_by Hptr; exact Hrun].
  step. fold c3. unfold ret. by step_by (pop_val_run c3). }
apply (wp_core _ _ _ _ _ Hcall). apply HQ.
- split; try done.
  + intros r. unfold returned. destruct (decide (r = RSP)) as [->|Hr].
    * assert (regs c3 RSP = u64 b) as Hsp3 by exact Hsp1.
      cbn [core set_rip popped set_regs regs]. by rewrite fn_lookup_insert, Hsp3, u64_add_l, Hsp.
    * cbn -[caller_saved]. rewrite fn_lookup_insert_ne by done. destruct (caller_saved r); [done|].
      rewrite fn_lookup_insert_ne by done. apply (h_regs _ _ _ _ _ _ H).
  + intros r. unfold returned. destruct (caller_saved r); [apply u64_range|apply H].
  + intros i x Hi. pose proof (lookup_lt_Some _ _ _ Hi) as Hlt. cbn in Hlt.
    rewrite <- (h_words _ _ _ _ _ _ H1 i x Hi).
    apply (same_range_word b 56 _ _ _ (8 * Z.of_nat i) Hsame); [f_equal; lia|lia..].
  + cbn. lia.
  + apply H.
- intros j x Hj. pose proof (lookup_lt_Some _ _ _ Hj) as Hlt. cbn in Hlt. cbn [core mem set_rip popped set_regs].
  rewrite (changes_word _ _ _ _ _ Hlow), Hw; [|change (8 * Z.of_nat (0 + NR_TSTHDLR_DATA)) with 40; clear - Hf Hd; u64_eq|unfold NR_TSTHDLR_DATA; lia|].
  + rewrite <- (h_words _ _ _ _ _ _ H1 (j + 2) x); [apply word_mod; rewrite u64_add_l; f_equal; lia|].
    by rewrite Nat.add_comm.
  + replace (d + 8 * Z.of_nat j - (b - ce_frame e)) with (d - (b - ce_frame e) + 8 * Z.of_nat j) by lia.
    rewrite u64_shift by lia. lia.
- intros x Hx1 Hx2. cbn [core mem set_rip popped set_regs]. rewrite Hlow, Hch by (done || lia).
  apply (h_else _ _ _ _ _ _ H1). cbn [length]. clear - Hf Hx1. u64_eq.
Qed.

Lemma returned_rsp R : returned R RSP = R RSP.
Proof. done. Qed.

Lemma iretq_run c :
∃ c', iretq c = Done tt c' ∧ rip c' = word (mem c) (regs c RSP) ∧ cs c' = word (mem c) (regs c RSP + 8) ∧
  rflags c' = word (mem c) (regs c RSP + 16) ∧ ss c' = word (mem c) (regs c RSP + 32) ∧
  mem c' = mem c ∧ ∀ r, regs c' r = if decide (r = RSP) then word (mem c) (regs c RSP + 24) else regs c r.
Proof.
eexists. split.
{ unfold iretq. do 5 step_by (pop_val_run _). step. reflexivity. }
cbn. x86_regs. flat. split_and!; try done; [apply word_mod; rewrite u64_add_l; f_equal; lia..|].
intros r. case_decide; subst; x86_regs; [|by rewrite !fn_lookup_insert_ne].
rewrite u64_id by apply word_range. apply word_mod. rewrite u64_add_l. f_equal. lia.
Qed.

(** ** The handler *)

(** Recording and returning: the frame is in this processor's data, the interrupted
  code goes on where it was, with the GS base it had. But only RDI is saved around the
  call: the other registers a C function may change are not those of the interrupted
  code. *)
Theorem test_handler_returns b m0 R k a w0 w1 ip c fl sp s :
here b m0 R [w0; w1; ip; c; fl; sp; s] k a →
R RSP = u64 (b + 16) →
away b [w0; w1; ip; c; fl; sp; s] (k_kgs k + this_cpu_off) →
let d := recorded_at m0 (k_kgs k) in
data_apart b d →
wp ef_adaptor_tsthdlr_asm
  (λ _ a', rip (core a') = ip ∧ cs (core a') = c ∧ rflags (core a') = fl ∧ ss (core a') = s ∧
     gs_base a' = k_gs k ∧ kernel_gs_base a' = k_kgs k ∧
     (∀ r, regs (core a') r =
        if decide (r = RSP) then sp else if decide (r = RDI) then R RDI else returned R r) ∧
     (∀ j x, [ip; c; fl; sp; s] !! j = Some x → word (mem (core a')) (d + 8 * Z.of_nat j) = x) ∧
     elsewhere b d m0 (mem (core a'))) a.
Proof.
intros H Hsp Haw d Hd. unfold ef_adaptor_tsthdlr_asm.
apply wp_seq. eapply wp_cld; [exact H|]. intros a1 H1.
apply wp_seq. eapply wp_swapgs; [exact H1|]. intros a2 H2.
apply wp_seq. eapply (wp_pushq _ _ _ _ _ _ H2 _ 1); [cbn; lia|mem_at Hsp|]. intros a3 H3. cbn in H3.
apply wp_seq. eapply wp_movq; [exact H3|]. intros a4 H4.
apply wp_seq. eapply (wp_call_tsthdlr _ _ _ _ _ _ _ _ _ _ _ _ _ H4); [mem_at Hsp|mem_at Hsp|done|done|].
intros a5 H5 Hrec Hels.
apply wp_seq. eapply (wp_popq _ _ _ _ _ _ H5 _ 1); [done|rewrite returned_rsp; mem_at Hsp|]. intros a6 H6.
apply wp_seq. eapply wp_swapgs; [exact H6|]. intros a7 H7.
destruct (iretq_run (core a7)) as (c' & Hrun & Hip & Hcs & Hfl & Hss & Hmem & Hregs).
apply wp_seq. eapply wp_core; [exact Hrun|]. apply wp_ret.
assert (regs (core a7) RSP = u64 (b + 16)) as Hsp7.
{ rewrite (h_regs _ _ _ _ _ _ H7). x86_regs. rewrite returned_rsp. mem_at Hsp. }
assert (∀ i x, [u64 (ce_ret e); R RDI; ip; c; fl; sp; s] !! (i + 2)%nat = Some x →
  word (mem (core a7)) (regs (core a7) RSP + 8 * Z.of_nat i) = x) as Hpop.
{ intros i x Hi. rewrite Hsp7. apply (here_word _ _ _ _ _ _ _ _ _ H7 Hi). rewrite u64_add_l. f_equal. lia. }
pose proof (h_ctx _ _ _ _ _ _ H7) as Hctx. unfold swapped, flagged in Hctx. cbn in Hctx.
cbn [core gs_base kernel_gs_base]. rewrite Hip, Hcs, Hfl, Hss, Hmem. split_and!.
- rewrite <- (Z.add_0_r (regs _ _)). by apply (Hpop 0%nat).
- by apply (Hpop 1%nat).
- by apply (Hpop 2%nat).
- by apply (Hpop 4%nat).
- by injection Hctx.
- by injection Hctx.
- intros r. rewrite Hregs. case_decide; [by apply (Hpop 3%nat)|]. rewrite (h_regs _ _ _ _ _ _ H7).
  case_decide; [subst; by x86_regs|]. rewrite !fn_lookup_insert_ne by done. unfold returned.
  by rewrite !fn_lookup_insert_ne.
- intros j x Hj. rewrite (here_away _ _ _ _ _ _ _ H7); [by apply Hrec|].
  pose proof (lookup_lt_Some _ _ _ Hj) as Hlt. destruct Hd as [Hf Hd]. unfold away. cbn [length] in *.
  clear - Hf Hd Hlt. u64_eq.
- intros x Hx1 Hx2. rewrite (h_else _ _ _ _ _ _ H7); [by apply Hels|]. destruct Hd as [Hf Hd]. cbn [length].
  clear - Hf Hx1. u64_eq.
Qed.

(** What is printed is not what was recorded: the words at the address of the symbol
  itself, which the handler does not change. *)
Lemma test_data_not_printed b m0 R k a w0 w1 ip c fl sp s :
here b m0 R [w0; w1; ip; c; fl; sp; s] k a →
R RSP = u64 (b + 16) →
away b [w0; w1; ip; c; fl; sp; s] (k_kgs k + this_cpu_off) →
let d := recorded_at m0 (k_kgs k) in
data_apart b d → data_apart b data_sym → 40 <= u64 (data_sym - d) <= 2 ^ 64 - 40 →
wp (_ ← ef_adaptor_tsthdlr_asm; on_core ef_adaptor_print_tsthdlr_data)
  (λ l _, l = (λ i, word m0 (data_sym + 8 * Z.of_nat i)) <$> seq 0 5) a.
Proof.
intros H Hsp Haw d Hd Hs Hap. apply wp_bind.
eapply wp_mono; [by apply (test_handler_returns b m0 R k a w0 w1 ip c fl sp s)|].
intros _ a' (_ & _ & _ & _ & _ & _ & _ & _ & Hels). eapply wp_core; [reflexivity|]. cbv beta.
apply list_fmap_ext. intros j i Hi%lookup_seq. destruct Hi as [-> Hi]. unfold NR_TSTHDLR_DATA in Hi.
apply mem_load_ext. intros o Ho. fold d in Hels. destruct Hs as [Hf Hs].
apply Hels; rewrite u64_sub_l; clear - Hf Hs Hap Hi Ho; u64_eq.
Qed.
End handler.
