(* ===== verification/Dpld.v ===== *)
(** * Resolution of kernel extension symbols ([tools/src/dpld.c],
    [idtr_interposer/load_mod.c])

    A program linked against kernel code resolves the symbols of its extension
    modules when they are first bound: the resolver loads the modules that are
    embedded in the executable, once, hands the extension the table of the
    program's own functions, and asks the kernel for the symbol. Kernel code can
    be called only while the thread is elevated; [kcall] faults otherwise.
    [LOAD_ALL_MODULES] and [SET_ALL_GOT_ENTRIES] are the loops the build
    generates over the embedded modules and the program's functions. *)
From S2P Require Import Prelude.

Open Scope Z_scope.

Definition EEXIST : Z := 17.

(** What the loader and the kernel answer: [dlsym] ([None] when [dlerror]
    reports an error), the errno of [init_module] (0 for success),
    [kallsyms_lookup_name] given the modules that are loaded, the address
    [vmalloc_noprof] returns, whether [DPLD_DEBUG] is set; and what the build
    generated: the embedded modules, and the program's functions with their
    addresses ([None] when there are none to export). *)
Record dsys := Dsys {
  ds_dlsym : string → option Z;
  ds_init : string → Z;
  ds_kallsyms : list string → string → Z;
  ds_vmalloc : Z;
  ds_debug : bool;
  ds_modules : list string;
  ds_got : option (list (string * Z));
}.

Record dpldw := Dpldw {
  module_loaded : bool;
  verbose : bool;
  ktos_offset : Z;
  loaded : list string;                     (* modules in the kernel *)
  elevated : bool;
  app_got : option (list (string * Z));     (* what the extension was given *)
}.
Definition dpldw0 : dpldw := Dpldw false false 0 [] false None.

Definition set_loaded (b : bool) (w : dpldw) : dpldw :=
  Dpldw b (verbose w) (ktos_offset w) (loaded w) (elevated w) (app_got w).
Definition set_verbose (w : dpldw) : dpldw :=
  Dpldw (module_loaded w) true (ktos_offset w) (loaded w) (elevated w) (app_got w).
Definition set_ktos (v : Z) (w : dpldw) : dpldw :=
  Dpldw (module_loaded w) (verbose w) v (loaded w) (elevated w) (app_got w).
Definition add_module (m : string) (w : dpldw) : dpldw :=
  Dpldw (module_loaded w) (verbose w) (ktos_offset w) (loaded w ++ [m]) (elevated w) (app_got w).
Definition set_elevated (b : bool) (w : dpldw) : dpldw :=
  Dpldw (module_loaded w) (verbose w) (ktos_offset w) (loaded w) b (app_got w).
Definition give_got (g : list (string * Z)) (w : dpldw) : dpldw :=
  Dpldw (module_loaded w) (verbose w) (ktos_offset w) (loaded w) (elevated w) (Some g).

Section dpld.
Context (sy : dsys).

Definition sym_elevate : M dpldw unit := modifyM (set_elevated true).
Definition symbi_fast_lower : M dpldw unit := modifyM (set_elevated false).

(** Code of the kernel, called directly or through [stack_switch_kcall]. *)
Definition kcall {A} (f : M dpldw A) : M dpldw A :=
w ← getM; if elevated w then f else faultM.

Definition kallsyms_lookup_name (name : string) : M dpldw Z :=
kcall (getsM (λ w, ds_kallsyms sy (loaded w) name)).

(** The system call: a module that is there already is not an error. *)
Definition init_module (m : string) : M dpldw Z :=
let errno := ds_init sy m in
if errno =? 0 then _ ← modifyM (add_module m); mret 0
else if errno =? EEXIST then mret 0 else mret (-1).

(** Returns whether the symbol was found, and the value stored. *)
Definition resolve_sym (name : string) : bool * Z :=
match ds_dlsym sy name with Some v => (true, v) | None => (false, 0) end.

Definition force_symres_now : bool :=
if negb (resolve_sym "cpu_current_top_of_stack").1 then false
else if negb (resolve_sym "kallsyms_lookup_name").1 then false
else if negb (resolve_sym "vmalloc_noprof").1 then false
else if negb (resolve_sym "exit").1 then false else true.

Fixpoint load_all_modules (ms : list string) (ret : Z) : M dpldw Z :=
match ms with
| [] => mret ret
| m :: ms => rc ← init_module m; load_all_modules ms (i32 (ret + rc))
end.

Definition load_ext_module : M dpldw Z :=
_ ← assertM force_symres_now;
_ ← assertM (resolve_sym "cpu_current_top_of_stack").1;
_ ← assertM (resolve_sym "asm_exc_page_fault").1;
_ ← assertM (resolve_sym "asm_exc_double_fault").1;
_ ← assertM (resolve_sym "asm_exc_general_protection").1;
load_all_modules (ds_modules sy) 0.

Definition elevated_app_got_init (funcs : list (string * Z)) : M dpldw Z :=
set_app_got ← kallsyms_lookup_name "set_app_got";
if set_app_got =? 0 then mret (-1)
else got ← kcall (mret (ds_vmalloc sy));
     if got =? 0 then mret (-2)
     else _ ← kcall (modifyM (give_got funcs)); mret 0.

Definition app_got_init (funcs : list (string * Z)) : M dpldw Z :=
_ ← sym_elevate; rc ← kcall (elevated_app_got_init funcs); _ ← symbi_fast_lower;
if rc =? -1 then exitM 1 else if rc =? -2 then exitM 1 else mret rc.

(** The first part of [dpld_resolver]: the stack offset. *)
Definition find_ktos : M dpldw unit :=
w ← getM;
if ktos_offset w =? 0 then
  let '(ok, v) := resolve_sym "cpu_current_top_of_stack" in
  _ ← modifyM (set_ktos v); assertM ok
else mret tt.

(** The modules are loaded at the first resolution. *)
Definition load_once : M dpldw unit :=
w ← getM;
if module_loaded w then mret tt
else rc ← load_ext_module;
     _ ← (if rc =? 0 then mret tt else exitM (-1));
     _ ← match ds_got sy with
         | Some funcs => rc ← app_got_init funcs; assertM (rc =? 0)
         | None => mret tt
         end;
     modifyM (set_loaded true).

Definition dpld_resolver (symbol_name : string) : M dpldw Z :=
w ← getM;
_ ← (if negb (verbose w) && ds_debug sy then modifyM set_verbose else mret tt);
_ ← find_ktos;
_ ← load_once;
_ ← sym_elevate;
addr ← kcall (kallsyms_lookup_name symbol_name);
_ ← symbi_fast_lower;
if addr =? 0 then exitM 1 else mret addr.

(** *** [idtr_interposer/load_mod.c] *)
Definition mod_force_symres_now : bool :=
if negb (resolve_sym "__x64_sys_init_module").1 then false
else if negb (resolve_sym "cpu_current_top_of_stack").1 then false else true.

(** [SYM_ON_KERN_STACK_DYNSYM_DO] elevates around the call. The kernel function
  returns 0 or a negative errno. *)
Definition do_load_module (m : string) : M dpldw Z :=
_ ← sym_elevate;
ret ← kcall (let errno := ds_init sy m in
             if errno =? 0 then _ ← modifyM (add_module m); mret 0 else mret (- errno));
_ ← symbi_fast_lower; mret ret.

Definition load_included_module : M dpldw Z :=
if negb mod_force_symres_now then mret 0
else _ ← modifyM (set_ktos (resolve_sym "cpu_current_top_of_stack").2);
     do_load_module "greeter".

Definition base_resolver (symbol_name : string) : M dpldw Z :=
w ← getM;
_ ← (if module_loaded w then mret tt
     else rc ← load_included_module;
          _ ← (if rc =? 0 then mret tt else exitM 1);
          modifyM (set_loaded true));
_ ← sym_elevate; addr ← kallsyms_lookup_name symbol_name; _ ← symbi_fast_lower;
if addr =? 0 then exitM 1 else mret addr.

Fixpoint resolve_all (resolver : string → M dpldw Z) (names : list string) : M dpldw (list Z) :=
match names with
| [] => mret []
| n :: names => a ← resolver n; l ← resolve_all resolver names; mret (a :: l)
end.
End dpld.

(** ** What resolution does *)
Section spec.
Context (sy : dsys).

(** The symbols that must be there for the modules to be loaded. *)
Definition needed : list string :=
["cpu_current_top_of_stack"; "kallsyms_lookup_name"; "vmalloc_noprof"; "exit";
 "asm_exc_page_fault"; "asm_exc_double_fault"; "asm_exc_general_protection"].
Definition linked : bool := forallb (λ n, (resolve_sym sy n).1) needed.

Definition init_ok (m : string) : bool := (ds_init sy m =? 0) || (ds_init sy m =? EEXIST).
(** The modules that [init_module] adds, in order. *)
Definition newly (ms : list string) : list string := filter (λ m, ds_init sy m = 0) ms.

Lemma load_all_run ms ret w :
- 2 ^ 31 <= ret - Z.of_nat (length ms) → ret <= 0 →
∃ rc, load_all_modules sy ms ret w
  = Done rc (Dpldw (module_loaded w) (verbose w) (ktos_offset w) (loaded w ++ newly ms)
               (elevated w) (app_got w)) ∧
  rc <= ret ∧ (rc = ret ↔ forallb init_ok ms = true).
Proof.
revert ret w. induction ms as [|m ms IH]; intros ret w Hlo Hhi.
{ exists ret. split; [|by split]. cbn. rewrite app_nil_r. by destruct w. }
cbn [length] in Hlo. cbn [load_all_modules forallb]. unfold init_module, init_ok at 1, newly.
rewrite filter_cons. destruct (Z.eqb_spec (ds_init sy m) 0) as [E|E].
- step. rewrite i32_id by lia. rewrite Z.add_0_r.
  destruct (IH ret (add_module m w)) as (rc & Hrun & Hle & Hiff); [lia..|].
  exists rc. rewrite decide_True by done. cbn in Hrun. rewrite <- app_assoc in Hrun. by split_and!.
- rewrite decide_False by done. destruct (Z.eqb_spec (ds_init sy m) EEXIST) as [E'|E'].
  + step. rewrite i32_id by lia. rewrite Z.add_0_r.
    destruct (IH ret w) as (rc & Hrun & Hle & Hiff); [lia..|]. exists rc. by split_and!.
  + step. rewrite i32_id by lia.
    destruct (IH (ret + -1) w) as (rc & Hrun & Hle & Hiff); [lia..|].
    exists rc. split_and!; [done|lia|split; [lia|done]].
Qed.

Lemma linked_spec n : linked = true → n ∈ needed → (resolve_sym sy n).1 = true.
Proof. unfold linked. rewrite forallb_forall. intros H Hn. apply H. by apply list_elem_of_In. Qed.

Lemma load_ext_run w :
linked = true → (Z.of_nat (length (ds_modules sy)) <= 2 ^ 31) →
∃ rc, load_ext_module sy w
  = Done rc (Dpldw (module_loaded w) (verbose w) (ktos_offset w) (loaded w ++ newly (ds_modules sy))
               (elevated w) (app_got w)) ∧
  (rc = 0 ↔ forallb init_ok (ds_modules sy) = true).
Proof.
intros Hl Hlen. unfold load_ext_module, force_symres_now.
rewrite !(linked_spec _ Hl) by (apply (bool_decide_unpack _); by vm_compute). cbn [negb].
do 5 (rewrite (bind_done _ _ w tt w) by reflexivity).
destruct (load_all_run (ds_modules sy) 0 w) as (rc & Hrun & _ & Hiff); [lia..|]. by exists rc.
Qed.

(** The program's functions can be handed over. *)
Definition got_ok (mods : list string) : bool :=
match ds_got sy with
| None => true
| Some _ => negb (ds_kallsyms sy mods "set_app_got" =? 0) && negb (ds_vmalloc sy =? 0)
end.

(** The state after a successful first resolution. *)
Definition resolved (w : dpldw) : dpldw :=
Dpldw true (verbose w || ds_debug sy)
  (if ktos_offset w =? 0 then (resolve_sym sy "cpu_current_top_of_stack").2 else ktos_offset w)
  (if module_loaded w then loaded w else loaded w ++ newly (ds_modules sy)) false
  (if module_loaded w then app_got w else match ds_got sy with Some g => Some g | None => app_got w end).

Definition can_load (w : dpldw) : bool :=
module_loaded w || (forallb init_ok (ds_modules sy) && got_ok (loaded w ++ newly (ds_modules sy))).

Lemma app_got_run g w :
elevated w = false →
app_got_init sy g w =
  if negb (ds_kallsyms sy (loaded w) "set_app_got" =? 0) && negb (ds_vmalloc sy =? 0)
  then Done 0 (Dpldw (module_loaded w) (verbose w) (ktos_offset w) (loaded w) false (Some g))
  else Exited 1 w.
Proof.
intros He. destruct w as [ml v k ld e ag]. cbn in He. subst e.
unfold app_got_init, elevated_app_got_init, kallsyms_lookup_name, kcall, sym_elevate,
  symbi_fast_lower, getM, getsM, modifyM, mbind, M_bind. cbn.
destruct (ds_kallsyms sy ld "set_app_got" =? 0); cbn; [done|].
destruct (ds_vmalloc sy =? 0); done.
Qed.

Lemma load_once_run w :
linked = true → (Z.of_nat (length (ds_modules sy)) <= 2 ^ 31) → elevated w = false →
if can_load w
then load_once sy w = Done tt (Dpldw true (verbose w) (ktos_offset w)
       (if module_loaded w then loaded w else loaded w ++ newly (ds_modules sy)) false
       (if module_loaded w then app_got w
        else match ds_got sy with Some g => Some g | None => app_got w end))
else ∃ c w', load_once sy w = Exited c w' ∧ elevated w' = false.
Proof.
intros Hl Hlen He. unfold load_once, can_load. rewrite (bind_done _ _ w w w) by reflexivity.
destruct (module_loaded w) eqn:Eml; cbn [orb].
{ destruct w as [ml v k ld e ag]; cbn in *. by subst. }
destruct (load_ext_run w Hl Hlen) as (rc & Hrun & Hiff). step_by Hrun.
set (w1 := Dpldw _ _ _ _ _ _). unfold got_ok.
destruct (forallb init_ok (ds_modules sy)) eqn:Eok; cbn [andb].
2:{ assert (rc =? 0 = false) as -> by (apply Z.eqb_neq; intros H0; discriminate (proj1 Hiff H0)).
    by eexists _, _. }
rewrite (proj2 Hiff eq_refl), Z.eqb_refl. rewrite (bind_done _ _ w1 tt w1) by reflexivity.
destruct (ds_got sy) as [g|]; cbn [andb].
- pose proof (app_got_run g w1 He) as Hgot.
  change (loaded w1) with (loaded w ++ newly (ds_modules sy)) in Hgot.
  destruct (_ && _) in *.
  + rewrite (bind_done _ _ _ tt _) by (step_by Hgot; reflexivity). done.
  + eexists 1, w1. unfold mbind, M_bind. rewrite Hgot. by split.
- rewrite (bind_done _ _ w1 tt w1) by reflexivity. unfold w1, modifyM, set_loaded. cbn. by rewrite He.
Qed.

(** The kernel is asked while the thread is elevated, and it is lowered again. *)
Lemma ask_run name w :
elevated w = false →
(_ ← sym_elevate; addr ← kcall (kallsyms_lookup_name sy name); _ ← symbi_fast_lower;
 if addr =? 0 then exitM 1 else mret addr) w =
if ds_kallsyms sy (loaded w) name =? 0 then Exited 1 w else Done (ds_kallsyms sy (loaded w) name) w.
Proof.
destruct w as [ml v k ld e ag]. cbn. intros ->.
unfold kallsyms_lookup_name, kcall, sym_elevate, symbi_fast_lower, getM, getsM, modifyM, mbind, M_bind. cbn.
by destruct (ds_kallsyms sy ld name =? 0).
Qed.

(** [dpld_resolver] on a lowered thread, on every branch. *)
Lemma resolver_run name w :
linked = true → (Z.of_nat (length (ds_modules sy)) <= 2 ^ 31) → elevated w = false →
if can_load w && negb (ds_kallsyms sy (loaded (resolved w)) name =? 0)
then dpld_resolver sy name w = Done (ds_kallsyms sy (loaded (resolved w)) name) (resolved w)
else ∃ c w', dpld_resolver sy name w = Exited c w' ∧ elevated w' = false.
Proof.
intros Hl Hlen He. unfold dpld_resolver.
set (w1 := Dpldw (module_loaded w) (verbose w || ds_debug sy) (ktos_offset w) (loaded w) false (app_got w)).
rewrite (bind_done _ _ w w w) by reflexivity.
rewrite (bind_done _ _ w tt w1).
2:{ unfold w1. destruct w as [ml v k ld e ag]; cbn in *. subst e. by destruct v, (ds_debug sy). }
set (k := if ktos_offset w =? 0 then (resolve_sym sy "cpu_current_top_of_stack").2 else ktos_offset w).
set (w2 := Dpldw (module_loaded w) (verbose w || ds_debug sy) k (loaded w) false (app_got w)).
rewrite (bind_done _ _ w1 tt w2).
2:{ unfold find_ktos. rewrite (bind_done _ _ w1 w1 w1) by reflexivity. unfold w2, k. cbn [ktos_offset w1].
    pose proof (linked_spec "cpu_current_top_of_stack" Hl) as Hk.
    destruct (ktos_offset w =? 0); [|done]. destruct (resolve_sym _ _) as [ok v]. cbn in *.
    by rewrite Hk by (apply (bool_decide_unpack _); by vm_compute). }
pose proof (load_once_run w2 Hl Hlen eq_refl) as Hload.
change (can_load w2) with (can_load w) in Hload.
destruct (can_load w); cbn [andb].
- assert (load_once sy w2 = Done tt (resolved w)) as Hrun by exact Hload.
  step_by Hrun. rewrite ask_run by done.
  by destruct (ds_kallsyms sy (loaded (resolved w)) name =? 0); [eexists _, _|].
- destruct Hload as (c & w' & Hrun & Hw'). exists c, w'. unfold mbind, M_bind. by rewrite Hrun.
Qed.

Lemma can_load_resolved w : can_load (resolved w) = true.
Proof. done. Qed.

(** A resolution after the first: the modules are not touched again. *)
Lemma resolved_again w : resolved (resolved w) = resolved w.
Proof.
unfold resolved. cbn. f_equal; [by destruct (verbose w), (ds_debug sy)|].
destruct (ktos_offset w =? 0) eqn:E; [|by rewrite E].
by destruct ((resolve_sym sy "cpu_current_top_of_stack").2 =? 0) eqn:E'.
Qed.

Lemma resolve_all_run names w :
linked = true → (Z.of_nat (length (ds_modules sy)) <= 2 ^ 31) → elevated w = false →
can_load w = true → Forall (λ n, ds_kallsyms sy (loaded (resolved w)) n ≠ 0) names → names ≠ [] →
resolve_all (dpld_resolver sy) names w
= Done (ds_kallsyms sy (loaded (resolved w)) <$> names) (resolved w).
Proof.
intros Hl Hlen He Hc Hn Hne.
destruct names as [|n names]; [done|]. clear Hne. revert n w He Hc Hn.
induction names as [|n' names IH]; intros n w He Hc [H1 Hn]%Forall_cons; cbn [resolve_all];
  pose proof (resolver_run n w Hl Hlen He) as Hrun; rewrite Hc in Hrun; cbn [andb] in Hrun;
  rewrite (proj2 (Z.eqb_neq _ _) H1) in Hrun; cbn [negb] in Hrun.
{ by step_by Hrun. }
step_by Hrun.
erewrite bind_done; [|apply (IH n' (resolved w)); [done..|by rewrite resolved_again]].
by rewrite resolved_again.
Qed.
End spec.
