(* ===== verification/EchoServer.v ===== *)
(** * The echo server ([kcuttcp/esrv.c])

    A single threaded server on edge triggered epoll. What the system calls
    answer is data that comes with each event: the connections [accept] returns,
    the results of [read], and for each of them the results of [write]. A run
    that uses up these lists without leaving its loop yields [NoFuel]: the server
    is still in the call. The server is compiled against [read] and [write] or
    against [kcut_tcp_read] and [kcut_tcp_write]; both are a result and an
    errno. *)
From S2P Require Import Prelude.

Open Scope Z_scope.

Definition EAGAIN : Z := 11.
Definition EINTR : Z := 4.
Definition EPOLLIN : Z := 1.
Definition EPOLLERR : Z := 8.
Definition EPOLLHUP : Z := 16.
Definition BUF_SIZE : Z := 4096.

Abbreviation bytes := (list Z).

(** A result of [read] (with the bytes it put into the buffer) and of [write]. *)
Record rd := Rd { rd_nr : Z; rd_errno : Z; rd_data : bytes }.
Record wr := Wr { wr_nw : Z; wr_errno : Z }.
(** A result of [accept] (a connection gets the lowest free descriptor), and
    whether [fcntl] and [epoll_ctl] succeed for it. *)
Inductive acc := Conn (nonblock_ok epoll_ok : bool) | NoConn (errno : Z).

Record event := Event {
  ev_fd : Z;
  ev_events : Z;
  ev_accepts : list acc;
  ev_reads : list (rd * list wr);
}.
Inductive wait := Events (l : list event) | WaitErr (errno : Z).

(** Open descriptors, the interest list of the epoll instance, and what was read
    from and written to each connection since it was accepted. *)
Record esrv := Esrv {
  es_open : gset Z;
  es_epoll : gset Z;
  es_in : gmap Z bytes;
  es_out : gmap Z bytes;
}.

Definition set_open (f : gset Z → gset Z) (s : esrv) : esrv :=
  Esrv (f (es_open s)) (es_epoll s) (es_in s) (es_out s).
Definition set_epoll (f : gset Z → gset Z) (s : esrv) : esrv :=
  Esrv (es_open s) (f (es_epoll s)) (es_in s) (es_out s).
Definition received (fd : Z) (b : bytes) (s : esrv) : esrv :=
  Esrv (es_open s) (es_epoll s) (<[fd := default [] (es_in s !! fd) ++ b]> (es_in s)) (es_out s).
Definition wrote (fd : Z) (b : bytes) (s : esrv) : esrv :=
  Esrv (es_open s) (es_epoll s) (es_in s) (<[fd := default [] (es_out s !! fd) ++ b]> (es_out s)).
Definition accepted (cfd : Z) (s : esrv) : esrv :=
  Esrv ({[cfd]} ∪ es_open s) (es_epoll s) (<[cfd := []]> (es_in s)) (<[cfd := []]> (es_out s)).

Definition close (fd : Z) : M esrv unit := modifyM (set_open (λ o, o ∖ {[fd]})).
Definition close_fd (fd : Z) : M esrv unit :=
  _ ← modifyM (set_epoll (λ e, e ∖ {[fd]})); close fd.

(** [write(fd, buf + sent, nr - sent)] with result [w]: a pointer outside the
    buffer is a fault. *)
Definition do_write (fd : Z) (buf : bytes) (sent : Z) (w : wr) : M esrv unit :=
  if (sent <? 0) || (Z.of_nat (length buf) <? sent) then faultM
  else if 0 <? wr_nw w
  then modifyM (wrote fd (take (Z.to_nat (wr_nw w)) (drop (Z.to_nat sent) buf))) else mret tt.

(** [while (sent < nr)]; returns [closed]. *)
Fixpoint echo (fd : Z) (buf : bytes) (nr : Z) (ws : list wr) (sent : Z) : M esrv bool :=
  if sent <? nr then
    match ws with
    | [] => nofuelM
    | w :: ws =>
        _ ← do_write fd buf sent w;
        if wr_nw w =? -1 then
          if wr_errno w =? EAGAIN then echo fd buf nr ws sent else mret true
        else echo fd buf nr ws (sent + wr_nw w)
    end
  else mret false.

(** The loop that drains a connection; returns [closed]. *)
Fixpoint drain (fd : Z) (rs : list (rd * list wr)) : M esrv bool :=
  match rs with
  | [] => nofuelM
  | (r, ws) :: rs =>
      if rd_nr r =? -1 then mret (negb (rd_errno r =? EAGAIN))
      else if rd_nr r =? 0 then mret true
      else _ ← (if 0 <? rd_nr r then modifyM (received fd (rd_data r)) else mret tt);
           closed ← echo fd (rd_data r) (rd_nr r) ws 0;
           if closed : bool then mret true else drain fd rs
  end.

(** The loop that accepts connections. *)
Fixpoint accept_all (l : list acc) : M esrv unit :=
  match l with
  | [] => nofuelM
  | NoConn _ :: _ => mret tt
  | Conn nonblock_ok epoll_ok :: l =>
      cfd ← getsM (λ s, lowest_fd (es_open s));
      _ ← modifyM (accepted cfd);
      _ ← (if nonblock_ok then
             if epoll_ok then modifyM (set_epoll (λ e, {[cfd]} ∪ e)) else close cfd
           else close cfd);
      accept_all l
  end.

Definition handle (lfd : Z) (e : event) : M esrv unit :=
  if ev_fd e =? lfd then accept_all (ev_accepts e)
  else if negb (Z.land (ev_events e) (Z.lor EPOLLERR EPOLLHUP) =? 0) then close_fd (ev_fd e)
  else if negb (Z.land (ev_events e) EPOLLIN =? 0) then
    closed ← drain (ev_fd e) (ev_reads e);
    if closed : bool then close_fd (ev_fd e) else mret tt
  else mret tt.

Fixpoint handle_all (lfd : Z) (l : list event) : M esrv unit :=
  match l with [] => mret tt | e :: l => _ ← handle lfd e; handle_all lfd l end.

(** The main loop: [None] while it waits for more. *)
Fixpoint serve (lfd : Z) (ws : list wait) : M esrv (option unit) :=
  match ws with
  | [] => mret None
  | WaitErr e :: ws => if e =? EINTR then serve lfd ws else mret (Some tt)
  | Events l :: ws => _ ← handle_all lfd l; serve lfd ws
  end.

(** What the start-up calls return: the listening socket and the epoll instance
    (-1 for failure), and whether [bind], [listen], [fcntl] and [epoll_ctl]
    succeed. *)
Record start := Start {
  st_lfd : Z; st_epfd : Z; st_bind : bool; st_listen : bool; st_nonblock : bool; st_add : bool }.

Definition main (st : start) (ws : list wait) : M esrv (option Z) :=
  if st_lfd st =? -1 then mret (Some 1) else
  _ ← modifyM (set_open (λ o, {[st_lfd st]} ∪ o));
  if negb (st_bind st) then mret (Some 1) else
  if negb (st_listen st) then mret (Some 1) else
  if negb (st_nonblock st) then mret (Some 1) else
  if st_epfd st =? -1 then mret (Some 1) else
  _ ← modifyM (set_open (λ o, {[st_epfd st]} ∪ o));
  if negb (st_add st) then mret (Some 1) else
  _ ← modifyM (set_epoll (λ e, {[st_lfd st]} ∪ e));
  r ← serve (st_lfd st) ws;
  match r with
  | None => mret None
  | Some _ => _ ← close (st_epfd st); _ ← close (st_lfd st); mret (Some 0)
  end.

(** ** What the server guarantees *)

(** [write] takes at most what it is given. *)
Fixpoint writes_ok (count : Z) (ws : list wr) : bool :=
  match ws with
  | [] => true
  | w :: ws =>
      if wr_nw w =? -1 then writes_ok count ws
      else (0 <=? wr_nw w) && (wr_nw w <=? count) && writes_ok (count - wr_nw w) ws
  end.
(** The results of [write] end the loop: the connection fails, or [count] bytes are
    taken. *)
Definition wr_hard (w : wr) : bool := (wr_nw w =? -1) && negb (wr_errno w =? EAGAIN).
Definition wr_count (w : wr) : Z := if wr_nw w =? -1 then 0 else wr_nw w.
Definition writes_end (count : Z) (ws : list wr) : bool :=
  existsb wr_hard ws || (count <=? foldr (λ w n, wr_count w + n) 0 ws).
(** [read] fails, or fills at most the buffer. *)
Definition read_ok (r : rd) : bool :=
  (rd_nr r =? -1) || ((0 <=? rd_nr r) && (rd_nr r <=? BUF_SIZE) &&
                      bool_decide (Z.of_nat (length (rd_data r)) = rd_nr r)).
Definition exchange_conforms (p : rd * list wr) : bool := read_ok p.1 && writes_ok (rd_nr p.1) p.2.
Definition exchange_ok (p : rd * list wr) : bool := exchange_conforms p && writes_end (rd_nr p.1) p.2.
(** The reads come to an end, and so do the writes that answer each of them. *)
Definition reads_end (rs : list (rd * list wr)) : bool :=
  forallb (λ p, writes_end (rd_nr p.1) p.2) rs && existsb (λ p, rd_nr p.1 <=? 0) rs.
(** The system calls the handling of an event makes conform; and they come to an end:
    there is no further connection to accept, no more to read, and what is written is
    taken in the end. *)
Definition is_noconn (a : acc) : bool := match a with NoConn _ => true | _ => false end.
Definition event_conforms (lfd : Z) (e : event) : bool :=
  (ev_fd e =? lfd) || forallb exchange_conforms (ev_reads e).
Definition event_ends (lfd : Z) (e : event) : bool :=
  if ev_fd e =? lfd then existsb is_noconn (ev_accepts e) else reads_end (ev_reads e).

(** What a computation does when it ends, or what is known when it does not. *)
Definition wpl {S A} (B : Prop) (m : M S A) (Q : A → S → Prop) (s : S) : Prop :=
  match m s with Done a s' => Q a s' | NoFuel => B | _ => False end.

Lemma wpl_bind {S A C} B (m : M S A) (f : A → M S C) Q s :
  wpl B m (λ a, wpl B (f a) Q) s → wpl B (m ≫= f) Q s.
Proof. unfold wpl, mbind, M_bind. by destruct (m s). Qed.
Lemma wpl_mono {S A} (B B' : Prop) (m : M S A) (P Q : A → S → Prop) s :
  wpl B m P s → (B → B') → (∀ a s', P a s' → Q a s') → wpl B' m Q s.
Proof. unfold wpl. destruct (m s); naive_solver. Qed.
Lemma wpl_eq {S A} B (m : M S A) Q s a s' : m s = Done a s' → Q a s' → wpl B m Q s.
Proof. unfold wpl. by intros ->. Qed.
Lemma wpl_wp {S A} (B : Prop) (m : M S A) Q s : wpl B m Q s → ¬ B → wp m Q s.
Proof. unfold wpl, wp. by destruct (m s). Qed.

(** Only the bytes written to [fd] changed: by [b]. *)
Definition sent_on (fd : Z) (b : bytes) (s s' : esrv) : Prop :=
  es_open s' = es_open s ∧ es_epoll s' = es_epoll s ∧ es_in s' = es_in s ∧
  (∀ k, k ≠ fd → es_out s' !! k = es_out s !! k) ∧
  default [] (es_out s' !! fd) = default [] (es_out s !! fd) ++ b ∧
  (is_Some (es_out s !! fd) → is_Some (es_out s' !! fd)).

Lemma sent_on_nil fd s : sent_on fd [] s s.
Proof. unfold sent_on. rewrite app_nil_r. by split_and!. Qed.

Lemma sent_on_wrote fd b s : sent_on fd b s (wrote fd b s).
Proof.
  unfold sent_on, wrote. cbn. rewrite lookup_insert_eq. split_and!; try done.
  intros k Hk. by rewrite lookup_insert_ne.
Qed.

Lemma sent_on_trans fd b1 b2 s1 s2 s3 :
  sent_on fd b1 s1 s2 → sent_on fd b2 s2 s3 → sent_on fd (b1 ++ b2) s1 s3.
Proof.
  intros (Ho & He & Hi & Hk & E1 & Hs) (Ho' & He' & Hi' & Hk' & E2 & Hs'). unfold sent_on.
  rewrite E2, E1, app_assoc.
  split_and!; try congruence; [|eauto]. intros k Hne. by rewrite Hk', Hk.
Qed.

Lemma writes_end_next count w ws :
  writes_end count (w :: ws) = true → wr_hard w = false → writes_end (count - wr_count w) ws = true.
Proof.
  unfold writes_end. cbn [existsb foldr]. intros H Hh. rewrite Hh in H. cbn [orb] in H.
  apply orb_true_iff in H as [->|H]; [done|]. apply Z.leb_le in H. apply orb_true_iff. right.
  apply Z.leb_le. lia.
Qed.

(** The write loop has sent the rest of the buffer when it ends, or a part of it before
    the connection failed; it does not end when the answers to its writes do not. *)
Lemma echo_safe fd buf nr ws sent s :
  Z.of_nat (length buf) = nr → 0 <= sent <= nr → writes_ok (nr - sent) ws = true →
  wpl (writes_end (nr - sent) ws = false) (echo fd buf nr ws sent) (λ closed s', ∃ b, sent_on fd b s s' ∧
      b `prefix_of` drop (Z.to_nat sent) buf ∧ (closed = false → b = drop (Z.to_nat sent) buf) ∧
      (closed = true → existsb wr_hard ws = true)) s.
Proof.
  intros Hl. revert sent s. induction ws as [|w ws IH]; intros sent s Hs Hok;
    cbn [echo]; destruct (Z.ltb_spec sent nr) as [Hlt|Hge].
  - unfold wpl, writes_end. cbn. apply Z.leb_gt. lia.
  - exists []. rewrite drop_ge by lia. split; [apply sent_on_nil|done].
  - assert (wr_hard w = false → writes_end (nr - sent - wr_count w) ws = false → writes_end (nr - sent) (w :: ws) = false)
      as Hnext by (intros Hh Hn; destruct (writes_end (nr - sent) (w :: ws)) eqn:E; [by rewrite (writes_end_next _ _ _ E) in Hn|done]).
    cbn [writes_ok] in Hok. apply wpl_bind.
    set (b := take (Z.to_nat (wr_nw w)) (drop (Z.to_nat sent) buf)).
    set (s1 := if 0 <? wr_nw w then wrote fd b s else s).
    apply (wpl_eq _ _ _ _ tt s1).
    { unfold do_write. rewrite (proj2 (Z.ltb_ge sent 0)), (proj2 (Z.ltb_ge _ _)) by lia.
      unfold s1, b. by destruct (0 <? wr_nw w). }
    unfold wr_hard at 1, wr_count in Hnext.
    destruct (Z.eqb_spec (wr_nw w) (-1)) as [E|E]; cbn [andb] in Hnext.
    + unfold s1. rewrite (proj2 (Z.ltb_ge 0 _)) by lia. rewrite Z.sub_0_r in Hnext.
      destruct (wr_errno w =? EAGAIN) eqn:Ea; cbn [negb] in Hnext.
      { eapply wpl_mono; [by apply IH|by apply Hnext|]. cbn [existsb].
        intros closed s2 (b2 & ? & ? & ? & Hcl). exists b2. split_and!; try done. intros Hc. by rewrite Hcl, orb_true_r. }
      exists []. split; [apply sent_on_nil|]. split; [apply prefix_nil|].
      split; [done|]. intros _. cbn [existsb]. unfold wr_hard at 1. by rewrite E, Ea.
    + apply andb_true_iff in Hok as [[Hp Hc]%andb_true_iff Hok]. apply Z.leb_le in Hp, Hc.
      assert (sent_on fd b s s1) as Hs1.
      { unfold s1. destruct (Z.ltb_spec 0 (wr_nw w)); [apply sent_on_wrote|].
        assert (wr_nw w = 0) as E0 by lia. unfold b. rewrite E0. apply sent_on_nil. }
      replace (nr - sent - wr_nw w) with (nr - (sent + wr_nw w)) in * by lia.
      eapply wpl_mono; [apply (IH (sent + wr_nw w) s1); [lia|done]|by apply Hnext|].
      cbn. intros closed s2 (b2 & Hs2 & Hpre & Hall & Hcl). exists (b ++ b2).
      rewrite Z2Nat.inj_add, <- drop_drop in Hpre, Hall by lia.
      split; [by eapply sent_on_trans|].
      rewrite <- (take_drop (Z.to_nat (wr_nw w)) (drop (Z.to_nat sent) buf)). fold b. split_and!.
      * by apply prefix_app.
      * intros Hc0. by rewrite Hall.
      * intros Hc0. cbn [existsb]. rewrite Hcl by done. apply orb_true_r.
  - exists []. rewrite drop_ge by lia. split; [apply sent_on_nil|done].
Qed.

Lemma echo_spec fd buf nr ws sent s :
  Z.of_nat (length buf) = nr → 0 <= sent <= nr → writes_ok (nr - sent) ws = true →
  writes_end (nr - sent) ws = true →
  wp (echo fd buf nr ws sent) (λ closed s', ∃ b, sent_on fd b s s' ∧
      b `prefix_of` drop (Z.to_nat sent) buf ∧ (closed = false → b = drop (Z.to_nat sent) buf) ∧
      (closed = true → existsb wr_hard ws = true)) s.
Proof. intros Hl Hs Hok Hend. eapply wpl_wp; [by apply echo_safe|congruence]. Qed.

(** Everything read from [fd] was written back to it. *)
Definition echoed (fd : Z) (s : esrv) : Prop :=
  ∃ l, es_in s !! fd = Some l ∧ es_out s !! fd = Some l.

(** Descriptors, and the data of other connections, are the same. *)
Definition others_same (fd : Z) (s s' : esrv) : Prop :=
  es_open s' = es_open s ∧ es_epoll s' = es_epoll s ∧
  ∀ k, k ≠ fd → es_in s' !! k = es_in s !! k ∧ es_out s' !! k = es_out s !! k.

Lemma others_same_trans fd s1 s2 s3 :
  others_same fd s1 s2 → others_same fd s2 s3 → others_same fd s1 s3.
Proof.
  intros (H1 & H2 & H3) (H4 & H5 & H6). split; [congruence|]. split; [congruence|].
  intros k Hk. destruct (H3 k Hk), (H6 k Hk). split; congruence.
Qed.

Lemma drain_safe fd rs s :
  forallb exchange_conforms rs = true → echoed fd s →
  wpl (reads_end rs = false) (drain fd rs) (λ closed s', others_same fd s s' ∧ (closed = false → echoed fd s')) s.
Proof.
  revert s. induction rs as [|[r ws] rs IH]; intros s Hok He; [done|].
  cbn [forallb] in Hok. apply andb_true_iff in Hok as [Hx Hok].
  unfold exchange_conforms in Hx. cbn [fst snd] in Hx. apply andb_true_iff in Hx as [Hr Hw].
  cbn [drain]. unfold read_ok in Hr. destruct (Z.eqb_spec (rd_nr r) (-1)) as [E|E]; [done|].
  destruct (Z.eqb_spec (rd_nr r) 0) as [E0|E0]; [done|].
  cbn [orb] in Hr. apply andb_true_iff in Hr as [[Hp _]%andb_true_iff Hl].
  apply Z.leb_le in Hp. apply bool_decide_eq_true in Hl.
  assert (reads_end ((r, ws) :: rs) = writes_end (rd_nr r) ws && reads_end rs) as Hends.
  { unfold reads_end. cbn [forallb existsb fst snd]. rewrite (proj2 (Z.leb_gt (rd_nr r) 0)) by lia. by rewrite andb_assoc. }
  rewrite (proj2 (Z.ltb_lt 0 _)) by lia. apply wpl_bind.
  set (s1 := received fd (rd_data r) s). apply (wpl_eq _ _ _ _ tt s1); [done|]. apply wpl_bind.
  eapply wpl_mono; [apply (echo_safe fd (rd_data r) (rd_nr r) ws 0 s1 Hl); [lia|by rewrite Z.sub_0_r]| |].
  { rewrite Z.sub_0_r, Hends. by intros ->. }
  cbn. intros closed s2 (b & (Ho & Hep & Hi & Hk & Hout & Hsome) & _ & Hall & _).
  rewrite drop_0 in Hall. destruct He as (l & Hli & Hlo).
  assert (others_same fd s s2) as Hsame.
  { split; [done|]. split; [done|]. intros k Hne. rewrite Hk by done. rewrite Hi.
    unfold s1, received. cbn. by rewrite lookup_insert_ne. }
  destruct closed; [done|].
  assert (echoed fd s2) as He2.
  { exists (l ++ rd_data r). rewrite Hi. unfold s1, received. cbn. rewrite Hli, lookup_insert_eq. split; [done|].
    cbn in Hout, Hsome. rewrite Hlo in Hout, Hsome. cbn in Hout.
    destruct Hsome as [x Hx]; [done|]. rewrite Hx in *. cbn in Hout. by rewrite Hout, Hall. }
  eapply wpl_mono; [by apply IH| |].
  { rewrite Hends. intros ->. apply andb_false_r. }
  intros closed s' [Hs' Hc']. split; [by eapply others_same_trans|done].
Qed.

(** The invariant: besides what was open before, the listening socket and the
    epoll instance, exactly the connections in the interest list are open, and
    each of them has been answered completely. *)
Record served (base : gset Z) (lfd epfd : Z) (conns : gset Z) (s : esrv) : Prop := {
  sd_open : es_open s = base ∪ {[lfd; epfd]} ∪ conns;
  sd_epoll : es_epoll s = {[lfd]} ∪ conns;
  sd_new : conns ## base ∪ {[lfd; epfd]};
  sd_echoed : ∀ fd, fd ∈ conns → echoed fd s;
}.

Lemma served_close base lfd epfd conns fd s s' :
  served base lfd epfd conns s → fd ∈ conns → others_same fd s s' →
  ∃ s'', close_fd fd s' = Done tt s'' ∧ served base lfd epfd (conns ∖ {[fd]}) s''.
Proof.
  intros [Ho He Hn Hec] Hfd (Hso & Hse & Hk). eexists. split; [reflexivity|]. split; cbn.
  - rewrite Hso, Ho. set_solver.
  - rewrite Hse, He. set_solver.
  - set_solver.
  - intros k [Hkc Hkf]%elem_of_difference. destruct (Hec k Hkc) as (l & Hi & Hl).
    destruct (Hk k ltac:(set_solver)) as [H1 H2]. exists l. cbn. by rewrite H1, H2.
Qed.

Lemma accept_safe base lfd epfd conns l s :
  served base lfd epfd conns s →
  wpl (existsb is_noconn l = false) (accept_all l)
    (λ _ s', ∃ conns', served base lfd epfd conns' s' ∧ conns ⊆ conns') s.
Proof.
  revert conns s. induction l as [|[nb ep|e] l IH]; intros conns s Hs; [done| |by exists conns].
  cbn [accept_all]. apply wpl_bind. apply (wpl_eq _ _ _ _ (lowest_fd (es_open s)) s); [done|].
  destruct (lowest_fd_spec (es_open s)) as [Hfree _]. set (cfd := lowest_fd (es_open s)) in *.
  apply wpl_bind. apply (wpl_eq _ _ _ _ tt (accepted cfd s)); [done|]. destruct Hs as [Ho He Hn Hec].
  assert (∀ fd, fd ∈ conns → echoed fd (accepted cfd s)) as Hec'.
  { intros fd Hfd. destruct (Hec fd Hfd) as (b & H1 & H2).
    exists b. unfold accepted. cbn. rewrite !lookup_insert_ne by set_solver. done. }
  destruct (nb && ep) eqn:E.
  - apply andb_true_iff in E as [-> ->]. set (s1 := set_epoll (λ e, {[cfd]} ∪ e) (accepted cfd s)).
    apply wpl_bind. apply (wpl_eq _ _ _ _ tt s1); [done|].
    assert (served base lfd epfd ({[cfd]} ∪ conns) s1) as Hs1.
    { split; unfold s1, accepted; cbn; [rewrite Ho|rewrite He| |]; [set_solver..|].
      intros fd [->%elem_of_singleton|Hfd]%elem_of_union; [|by apply Hec'].
      exists []. cbn. by rewrite !lookup_insert_eq. }
    eapply wpl_mono; [by apply IH|done|].
    intros _ s' (conns' & Hc & Hsub). exists conns'. split; [done|set_solver].
  - set (s1 := set_open (λ o, o ∖ {[cfd]}) (accepted cfd s)).
    apply wpl_bind, (wpl_eq _ _ _ _ tt s1); [by destruct nb, ep|].
    apply (IH conns). split; unfold s1, accepted; cbn; [|done..|apply Hec']. rewrite Ho in *. set_solver.
Qed.

Lemma handle_safe base lfd epfd conns e s :
  served base lfd epfd conns s → ev_fd e ∈ es_epoll s → event_conforms lfd e = true →
  wpl (event_ends lfd e = false) (handle lfd e)
    (λ _ s', ∃ conns', served base lfd epfd conns' s' ∧ conns ⊆ {[ev_fd e]} ∪ conns') s.
Proof.
  intros Hs Hfd Hok. unfold handle, event_conforms, event_ends in *. destruct (Z.eqb_spec (ev_fd e) lfd) as [E|E].
  { eapply wpl_mono; [by apply accept_safe|done|]. intros _ s' (c' & Hc & Hsub). exists c'. split; [done|set_solver]. }
  assert (ev_fd e ∈ conns) as Hc by (rewrite (sd_epoll _ _ _ _ _ Hs) in Hfd; set_solver).
  assert (∀ B s1, others_same (ev_fd e) s s1 → wpl B (close_fd (ev_fd e)) (λ _ s2,
    ∃ conns', served base lfd epfd conns' s2 ∧ conns ⊆ {[ev_fd e]} ∪ conns') s1) as Hclose.
  { intros B s1 H1. destruct (served_close _ _ _ _ _ _ _ Hs Hc H1) as (s2 & Hrun & Hs2).
    eapply wpl_eq; [exact Hrun|]. exists (conns ∖ {[ev_fd e]}). split; [done|].
    intros k Hk. destruct (decide (k = ev_fd e)); set_solver. }
  destruct (negb _); [by apply Hclose|].
  destruct (negb _); [|exists conns; set_solver].
  apply wpl_bind. eapply wpl_mono; [apply drain_safe; [done|by apply (sd_echoed _ _ _ _ _ Hs)]|done|].
  intros [] s1 [Hsame He]; [by apply Hclose|].
  exists conns. split; [|set_solver]. destruct Hsame as (Ho & Hep & Hk). destruct Hs as [H1 H2 H3 H4].
  split; [congruence|congruence|done|]. intros fd Hf. destruct (decide (fd = ev_fd e)) as [->|Hne]; [by apply He|].
  destruct (H4 fd Hf) as (l & ? & ?), (Hk fd Hne) as [H5 H6]. exists l. by rewrite H5, H6.
Qed.

Lemma handle_all_safe base lfd epfd conns l s :
  served base lfd epfd conns s → NoDup (ev_fd <$> l) →
  Forall (λ e, ev_fd e ∈ es_epoll s ∧ event_conforms lfd e = true) l →
  wpl (forallb (event_ends lfd) l = false) (handle_all lfd l) (λ _ s', ∃ conns', served base lfd epfd conns' s') s.
Proof.
  revert conns s. induction l as [|e l IH]; intros conns s Hs Hnd Hall; [by exists conns|].
  apply Forall_cons in Hall as [[Hfd Hok] Hall]. rewrite fmap_cons in Hnd.
  apply NoDup_cons in Hnd as [Hni Hnd]. cbn [handle_all forallb].
  apply wpl_bind. eapply wpl_mono; [by apply handle_safe|by intros ->|]. intros _ s1 (c1 & Hs1 & Hsub).
  eapply wpl_mono; [apply (IH c1 s1 Hs1 Hnd)|intros ->; apply andb_false_r|done].
  apply Forall_forall. rewrite Forall_forall in Hall. intros e' He'.
  destruct (Hall e' He') as [Hf Ho]. split; [|done].
  rewrite (sd_epoll _ _ _ _ _ Hs) in Hf. rewrite (sd_epoll _ _ _ _ _ Hs1).
  assert (ev_fd e' ≠ ev_fd e) by (intros Heq; apply Hni; rewrite <- Heq; by apply list_elem_of_fmap_2).
  set_solver.
Qed.

(** What [epoll_wait] may return as the server goes on: each descriptor of the
    interest list at most once, with conforming results of [read] and [write]. *)
Fixpoint waits_ok (lfd : Z) (ws : list wait) (s : esrv) : Prop :=
  match ws with
  | [] => True
  | WaitErr _ :: ws => waits_ok lfd ws s
  | Events l :: ws =>
      NoDup (ev_fd <$> l) ∧ Forall (λ e, ev_fd e ∈ es_epoll s ∧ event_conforms lfd e = true) l ∧
      ∀ s', handle_all lfd l s = Done tt s' → waits_ok lfd ws s'
  end.
(** The handling of every event comes to an end. *)
Definition waits_end (lfd : Z) (ws : list wait) : bool :=
  forallb (λ w, match w with Events l => forallb (event_ends lfd) l | WaitErr _ => true end) ws.

Lemma serve_safe base lfd epfd conns ws s :
  served base lfd epfd conns s → waits_ok lfd ws s →
  wpl (waits_end lfd ws = false) (serve lfd ws) (λ _ s', ∃ conns', served base lfd epfd conns' s') s.
Proof.
  revert conns s. induction ws as [|[l|e] ws IH]; intros conns s Hs Hok; [by exists conns| |].
  - destruct Hok as (Hnd & Hall & Hnext). cbn [serve waits_end forallb].
    pose proof (handle_all_safe _ _ _ _ l s Hs Hnd Hall) as H. apply wpl_bind. unfold wpl in H |- * at 1.
    destruct (handle_all lfd l s) as [[] s1| | | |]; try done; [|by rewrite H].
    destruct H as [c Hc]. eapply wpl_mono; [apply (IH c); [done|by apply Hnext]|unfold waits_end; intros ->; apply andb_false_r|done].
  - cbn [serve]. destruct (e =? EINTR); [by apply (IH conns)|by exists conns].
Qed.

(** The state in which the main loop starts. *)
Definition listening (st : start) (base : gset Z) : esrv :=
  Esrv ({[st_epfd st]} ∪ ({[st_lfd st]} ∪ base)) ({[st_lfd st]} ∪ ∅) ∅ ∅.

Definition start_ok (st : start) : bool :=
  negb (st_lfd st =? -1) && st_bind st && st_listen st && st_nonblock st &&
  negb (st_epfd st =? -1) && st_add st.

Lemma server_main_run st ws base :
  start_ok st = true →
  main st ws (Esrv base ∅ ∅ ∅) =
  (r ← serve (st_lfd st) ws;
   match r with
   | None => mret None
   | Some _ => _ ← close (st_epfd st); _ ← close (st_lfd st); mret (Some 0)
   end) (listening st base).
Proof.
  unfold start_ok, main. intros [[[[[H1 H2]%andb_true_iff H3]%andb_true_iff H4]%andb_true_iff
    H5]%andb_true_iff H6]%andb_true_iff. apply negb_true_iff in H1, H5.
  rewrite H1, H2, H3, H4, H5, H6. reflexivity.
Qed.

Lemma listening_served st base : served base (st_lfd st) (st_epfd st) ∅ (listening st base).
Proof. split; cbn; set_solver. Qed.
