(* ===== verification/Double.v ===== *)
(** * Double precision numbers

    The IEEE 754 binary64 format and its operations, rounded to nearest even, as the
    Standard Library specifies them ([SpecFloat]), with what the components that
    compute with [double] share: conversions between integers and doubles, the
    comparison, and bounds on the results of rounding. *)
From Stdlib Require Import Floats.SpecFloat.
From S2P Require Import Prelude.

Open Scope Z_scope.

Definition double : Type := spec_float.
Definition prec : Z := 53.
Definition emax : Z := 1024.

Definition dmul : double → double → double := SFmul prec emax.
Definition dadd : double → double → double := SFadd prec emax.
Definition dsub : double → double → double := SFsub prec emax.
Definition ddiv : double → double → double := SFdiv prec emax.
Definition dsqrt : double → double := SFsqrt prec emax.

(** [(double)n]; a decimal constant [n / d] is the quotient, correctly rounded. *)
Definition d_of_Z (n : Z) : double := binary_normalize prec emax n 0 false.
Definition d_const (n d : Z) : double := ddiv (d_of_Z n) (d_of_Z d).

(** [(long)x]: truncation; a value that a [long] cannot hold is undefined. *)
Definition magnitude (m : positive) (e : Z) : Z := if 0 <=? e then Zpos m * 2 ^ e else Zpos m / 2 ^ (- e).
Definition d_to_long (x : double) : option Z :=
  match x with
  | S754_zero _ => Some 0
  | S754_finite s m e =>
      let v := if s then - magnitude m e else magnitude m e in
      if (- 2 ^ 63 <=? v) && (v <? 2 ^ 63) then Some v else None
  | _ => None
  end.

Definition is_nan (x : double) : bool := match x with S754_nan => true | _ => false end.
Definition is_finite (x : double) : bool := match x with S754_nan | S754_infinity _ => false | _ => true end.

(** ** Digits *)
Lemma digits2_pos_size m : digits2_pos m = Pos.size m.
Proof. induction m; cbn; congruence. Qed.

Lemma digits2_bound m d : 0 <= d → Zpos (digits2_pos m) <= d ↔ Zpos m < 2 ^ d.
Proof.
  intros Hd. rewrite digits2_pos_size. pose proof (Pos.size_gt m) as H1. pose proof (Pos.size_le m) as H2.
  apply Pos2Z.pos_lt_pos in H1. apply Pos2Z.pos_le_pos in H2. rewrite Pos2Z.inj_pow in H1, H2.
  rewrite (Pos2Z.inj_xO m) in H2. split; intros H.
  - eapply Z.lt_le_trans; [exact H1|]. by apply Z.pow_le_mono_r.
  - assert (2 ^ Zpos (Pos.size m) < 2 ^ (d + 1)) by (rewrite Z.pow_add_r by lia; lia).
    apply (Z.pow_lt_mono_r_iff 2) in H0; lia.
Qed.

Lemma Zdigits2_bound m d : 0 <= m → 0 <= d → Zdigits2 m <= d ↔ m < 2 ^ d.
Proof.
  intros Hm Hd. destruct m as [|m|m]; [|by apply digits2_bound|lia]. cbn. split; [|lia].
  intros _. by apply Z.pow_pos_nonneg.
Qed.

(** ** Rounding *)

(** Shifting to the right halves the mantissa. *)
Lemma shr_1_m r : 0 <= shr_m r → shr_m (shr_1 r) = shr_m r / 2.
Proof.
  destruct r as [[|[p|p|]|p] rr s]; cbn; intros H; try done; try lia.
  - rewrite (Pos2Z.inj_xI p). replace (2 * Zpos p + 1) with (1 + Zpos p * 2) by lia. by rewrite Z.div_add.
  - rewrite (Pos2Z.inj_xO p), Z.mul_comm. by rewrite Z.div_mul.
Qed.

Lemma iter_shr p r : 0 <= shr_m r → shr_m (SpecFloat.iter_pos shr_1 p r) = shr_m r / 2 ^ Zpos p.
Proof.
  revert r. induction p as [p IH|p IH|]; intros r Hr; cbn [SpecFloat.iter_pos].
  - assert (0 <= shr_m (shr_1 r)) by (rewrite shr_1_m by done; by apply Z.div_pos).
    rewrite IH by (rewrite IH by done; apply Z.div_pos; [done|lia]). rewrite IH, shr_1_m by done.
    rewrite !Z.div_div by lia. f_equal. rewrite (Pos2Z.inj_xI p), Z.pow_add_r, Z.pow_twice_r by lia. lia.
  - rewrite IH by (rewrite IH by done; apply Z.div_pos; [done|lia]). rewrite IH by done.
    rewrite Z.div_div by lia. f_equal. rewrite (Pos2Z.inj_xO p), Z.pow_twice_r. lia.
  - by rewrite shr_1_m.
Qed.

Lemma shr_fexp_spec m e l :
  0 <= m →
  let '(r, e') := shr_fexp prec emax m e l in
  e' = Z.max e (fexp prec emax (Zdigits2 m + e)) ∧ shr_m r = m / 2 ^ (e' - e).
Proof.
  intros Hm. unfold shr_fexp, shr. set (k := fexp prec emax _ - e).
  assert (shr_m (shr_record_of_loc m l) = m) as Hl by (by destruct l as [|[]]).
  destruct k as [|n|n] eqn:E; unfold k in E.
  - split; [lia|]. by rewrite Hl, Z.sub_diag, Z.div_1_r.
  - split; [lia|]. rewrite iter_shr, Hl by (by rewrite Hl). f_equal. f_equal. lia.
  - split; [lia|]. by rewrite Hl, Z.sub_diag, Z.div_1_r.
Qed.

Lemma round_up_bound m l : 0 <= m → m <= round_nearest_even m l <= m + 1.
Proof. intros H. destruct l as [|[]]; cbn; try destruct (Z.even m); lia. Qed.

(** A positive number below [2 ^ b], however it is written, rounds to a number that is
    not above [2 ^ (b + 1)], and to no infinity. *)
Definition at_most (b : Z) (x : double) : Prop :=
  match x with
  | S754_zero _ => True
  | S754_finite _ m e => Zpos (digits2_pos m) + e <= b
  | _ => False
  end.

Lemma quotient_digits m k : 0 < m → 0 <= k → Zdigits2 (m / 2 ^ k) <= Z.max 0 (Zdigits2 m - k).
Proof.
  intros Hm Hk. assert (0 < 2 ^ k) by (by apply Z.pow_pos_nonneg).
  apply Zdigits2_bound; [apply Z.div_pos; lia|lia|].
  destruct (decide (Zdigits2 m <= k)) as [Hd|Hd].
  - rewrite Z.div_small; [apply Z.pow_pos_nonneg; lia|]. split; [lia|]. apply Zdigits2_bound; lia.
  - rewrite Z.max_r by lia. apply Z.div_lt_upper_bound; [done|]. rewrite <- Z.pow_add_r by lia.
    replace (k + (Zdigits2 m - k)) with (Zdigits2 m) by lia. apply Zdigits2_bound; lia.
Qed.

Lemma succ_digits m : 0 <= m → Zdigits2 (m + 1) <= Zdigits2 m + 1.
Proof.
  intros Hm. assert (0 <= Zdigits2 m) by (by destruct m). apply Zdigits2_bound; [lia|lia|].
  assert (m < 2 ^ Zdigits2 m) by (by apply Zdigits2_bound). rewrite Z.pow_add_r by lia.
  assert (0 < 2 ^ Zdigits2 m) by (by apply Z.pow_pos_nonneg). lia.
Qed.

Lemma digits_mono m n : 0 <= m <= n → Zdigits2 m <= Zdigits2 n.
Proof.
  intros H. assert (0 <= Zdigits2 n) by (by destruct n). apply Zdigits2_bound; [lia|lia|].
  assert (n < 2 ^ Zdigits2 n) by (apply Zdigits2_bound; lia). lia.
Qed.

Lemma round_aux_bound s m e l b :
  0 < m → e < b → Zdigits2 m + e <= b → -1000 <= b <= 900 →
  at_most (b + 1) (binary_round_aux prec emax s m e l) ∧
  match binary_round_aux prec emax s m e l with S754_finite s' _ _ | S754_zero s' => s' = s | _ => False end.
Proof.
  intros Hm He Hd Hb. unfold binary_round_aux.
  pose proof (shr_fexp_spec m e l ltac:(lia)) as H1. destruct (shr_fexp prec emax m e l) as [r1 e1].
  destruct H1 as [E1 M1]. unfold fexp, emin, prec, emax in E1.
  assert (e <= e1 <= b - 1) as Hb1 by lia.
  set (m1 := round_nearest_even (shr_m r1) (loc_of_shr_record r1)).
  assert (0 <= shr_m r1) as Hr1 by (rewrite M1; apply Z.div_pos; [lia|apply Z.pow_pos_nonneg; lia]).
  pose proof (round_up_bound (shr_m r1) (loc_of_shr_record r1) Hr1) as Hm1. fold m1 in Hm1.
  assert (Zdigits2 m1 + e1 <= b + 1) as Hd1.
  { pose proof (quotient_digits m (e1 - e) Hm ltac:(lia)) as Hq. rewrite <- M1 in Hq.
    pose proof (succ_digits (shr_m r1) Hr1). pose proof (digits_mono m1 (shr_m r1 + 1) ltac:(lia)). lia. }
  pose proof (shr_fexp_spec m1 e1 loc_Exact ltac:(lia)) as H2.
  destruct (shr_fexp prec emax m1 e1 loc_Exact) as [r2 e2]. destruct H2 as [E2 M2].
  unfold fexp, emin, prec, emax in E2.
  assert (e1 <= e2 <= 971) as Hb2 by lia.
  assert (0 <= shr_m r2) as Hr2 by (rewrite M2; apply Z.div_pos; [lia|apply Z.pow_pos_nonneg; lia]).
  destruct (shr_m r2) as [|m2|m2] eqn:Em2; [by split|..|lia].
  change (emax - prec) with 971. rewrite (proj2 (Z.leb_le _ _) (proj2 Hb2)). split; [|done]. cbn.
  assert (0 < m1) as Hpos.
  { destruct (decide (m1 = 0)) as [Z0|]; [|lia]. rewrite Z0, Z.div_0_l in M2 by (apply Z.pow_nonzero; lia). lia. }
  pose proof (quotient_digits m1 (e2 - e1) Hpos ltac:(lia)) as Hq. rewrite <- M2 in Hq. cbn in Hq. lia.
Qed.

Lemma round_aux_not_nan s m e l : 0 < m → is_nan (binary_round_aux prec emax s m e l) = false.
Proof.
  intros Hm. unfold binary_round_aux.
  pose proof (shr_fexp_spec m e l ltac:(lia)) as H1. destruct (shr_fexp prec emax m e l) as [r1 e1].
  destruct H1 as [E1 M1].
  assert (0 <= shr_m r1) as Hr1 by (rewrite M1; apply Z.div_pos; [lia|apply Z.pow_pos_nonneg; lia]).
  pose proof (round_up_bound (shr_m r1) (loc_of_shr_record r1) Hr1) as Hm1.
  set (m1 := round_nearest_even _ _) in *.
  pose proof (shr_fexp_spec m1 e1 loc_Exact ltac:(lia)) as H2.
  destruct (shr_fexp prec emax m1 e1 loc_Exact) as [r2 e2]. destruct H2 as [E2 M2].
  assert (0 <= shr_m r2) as Hr2 by (rewrite M2; apply Z.div_pos; [lia|apply Z.pow_pos_nonneg; lia]).
  destruct (shr_m r2) as [|m2|m2]; [done| |lia]. by destruct (_ <=? _).
Qed.

(** ** Alignment *)
Lemma digits2_iter m d : Zpos (digits2_pos (Pos.iter xO m d)) = Zpos (digits2_pos m) + Zpos d.
Proof.
  revert m. induction d as [|d IH] using Pos.peano_ind; intros m; [cbn; lia|].
  rewrite Pos.iter_succ. cbn. rewrite Pos2Z.inj_succ, IH. lia.
Qed.

Lemma shl_align_digits m e e' :
  let '(m', e'') := shl_align m e e' in
  Zpos (digits2_pos m') + e'' = Zpos (digits2_pos m) + e ∧ e'' = Z.min e e'.
Proof.
  unfold shl_align. destruct (e' - e) as [|d|d] eqn:E; [lia|lia|]. rewrite digits2_iter. lia.
Qed.

(** The sign of a number that is neither infinite nor undefined. *)
Definition sign_is (s : bool) (x : double) : Prop :=
  match x with S754_finite s' _ _ | S754_zero s' => s' = s | _ => False end.
Definition upto (b : Z) (x : double) : Prop := at_most b x ∧ sign_is false x.

Lemma normalize_bound m e b :
  0 <= m → e < b → Zdigits2 m + e <= b → -1000 <= b <= 900 → upto (b + 1) (binary_normalize prec emax m e false).
Proof.
  intros Hm He Hd Hb. destruct m as [|m|m]; [done| |lia]. cbn [binary_normalize]. unfold binary_round.
  pose proof (shl_align_digits m e (fexp prec emax (Zpos (digits2_pos m) + e))) as H.
  destruct (shl_align _ _ _) as [m' e']. destruct H as [H1 H2]. cbn in Hd.
  apply round_aux_bound; [done|lia|cbn; lia|done].
Qed.

Lemma normalize_not_nan m e s : is_nan (binary_normalize prec emax m e s) = false.
Proof.
  destruct m as [|m|m]; [done|..]; cbn [binary_normalize]; unfold binary_round;
    destruct (shl_align _ _ _); by apply round_aux_not_nan.
Qed.

(** ** Bounds on operations *)
Lemma d_of_Z_upto n b : 0 <= n < 2 ^ b → 1 <= b <= 100 → upto (b + 1) (d_of_Z n).
Proof.
  intros Hn Hb. apply normalize_bound; [lia|lia| |lia]. rewrite Z.add_0_r. apply Zdigits2_bound; lia.
Qed.

Lemma mul_digits m n : Zpos (digits2_pos (m * n)) <= Zpos (digits2_pos m) + Zpos (digits2_pos n).
Proof.
  apply digits2_bound; [lia|]. rewrite Pos2Z.inj_mul, Z.pow_add_r by lia.
  assert (Zpos m < 2 ^ Zpos (digits2_pos m)) by (by apply digits2_bound).
  assert (Zpos n < 2 ^ Zpos (digits2_pos n)) by (by apply digits2_bound). nia.
Qed.

Lemma dmul_upto x y b c :
  upto b x → upto c y → -1000 <= b + c <= 900 → upto (b + c + 1) (dmul x y).
Proof.
  intros [Hx Sx] [Hy Sy] Hbc. destruct x as [sx|sx| |sx mx ex], y as [sy|sy| |sy my ey]; try done;
    cbn in Sx, Sy; subst; try done. cbn in Hx, Hy. unfold dmul, SFmul. cbn [xorb].
  pose proof (mul_digits mx my). apply round_aux_bound; [done|lia|cbn; lia|done].
Qed.

Lemma dadd_upto x y b :
  upto b x → upto b y → -900 <= b <= 800 → upto (b + 2) (dadd x y).
Proof.
  intros [Hx Sx] [Hy Sy] Hb. destruct x as [sx|sx| |sx mx ex], y as [sy|sy| |sy my ey]; try done;
    cbn in Sx, Sy; subst; try done; [split; cbn in *; [lia|done]..|].
  cbn in Hx, Hy. unfold dadd, SFadd. cbn [cond_Zopp].
  pose proof (shl_align_digits mx ex (Z.min ex ey)) as Ax. pose proof (shl_align_digits my ey (Z.min ex ey)) as Ay.
  destruct (shl_align mx ex (Z.min ex ey)) as [mx' ex'], (shl_align my ey (Z.min ex ey)) as [my' ey']. cbn [fst].
  replace (b + 2) with (b + 1 + 1) by lia. apply normalize_bound; [done|lia| |lia].
  assert (Zdigits2 (Zpos mx' + Zpos my') <= b + 1 - Z.min ex ey); [|lia].
  apply Zdigits2_bound; [done|lia|]. replace (b + 1 - Z.min ex ey) with (1 + (b - Z.min ex ey)) by lia.
  rewrite Z.pow_add_r by lia.
  assert (Zpos mx' < 2 ^ (b - Z.min ex ey)) by (apply digits2_bound; lia).
  assert (Zpos my' < 2 ^ (b - Z.min ex ey)) by (apply digits2_bound; lia). lia.
Qed.

(** The difference of two numbers that are neither infinite nor undefined is a
    number. *)
Lemma dsub_not_nan x y : is_finite x = true → is_finite y = true → is_nan (dsub x y) = false.
Proof.
  destruct x as [[]|[]| |sx mx ex], y as [[]|[]| |sy my ey]; try done. intros _ _. unfold dsub, SFsub.
  apply normalize_not_nan.
Qed.

Lemma upto_finite b x : upto b x → is_finite x = true.
Proof. by intros [H _]; destruct x. Qed.

Lemma d_to_long_upto b x : upto b x → 0 <= b <= 62 → ∃ v, d_to_long x = Some v ∧ 0 <= v < 2 ^ b.
Proof.
  intros [Hx Sx] Hb. destruct x as [s|s| |s m e]; try done.
  { exists 0. split; [done|]. split; [lia|]. apply Z.pow_pos_nonneg; lia. }
  cbn in Hx, Sx. subst s. cbn [d_to_long]. exists (magnitude m e).
  assert (0 <= magnitude m e < 2 ^ b) as Hm.
  { unfold magnitude. destruct (Z.leb_spec 0 e) as [He|He].
    - assert (Zpos m < 2 ^ (b - e)) by (apply digits2_bound; lia).
      replace b with (b - e + e) by lia. rewrite Z.pow_add_r by lia.
      assert (0 < 2 ^ e) by (by apply Z.pow_pos_nonneg). nia.
    - split; [apply Z.div_pos; [lia|apply Z.pow_pos_nonneg; lia]|].
      apply Z.div_lt_upper_bound; [apply Z.pow_pos_nonneg; lia|]. rewrite <- Z.pow_add_r by lia.
      apply digits2_bound; lia. }
  assert (2 ^ b <= 2 ^ 62) by (apply Z.pow_le_mono_r; lia).
  rewrite (proj2 (Z.leb_le _ _)), (proj2 (Z.ltb_lt _ _)) by lia. done.
Qed.

(** ** The order *)

(** Numbers in the order of their keys: negative infinity, negative numbers, the two
    zeros, positive numbers, positive infinity. *)
Definition key (x : double) : Z * Z * Z :=
  match x with
  | S754_infinity true => (0, 0, 0)
  | S754_finite true m e => (1, - e, - Zpos m)
  | S754_zero _ | S754_nan => (2, 0, 0)
  | S754_finite false m e => (3, e, Zpos m)
  | S754_infinity false => (4, 0, 0)
  end.
Definition key_lt (a b : Z * Z * Z) : Prop :=
  a.1.1 < b.1.1 ∨ a.1.1 = b.1.1 ∧ (a.1.2 < b.1.2 ∨ a.1.2 = b.1.2 ∧ a.2 < b.2).

Lemma SFltb_key x y : is_nan x = false → is_nan y = false → SFltb x y = true ↔ key_lt (key x) (key y).
Proof.
  unfold key_lt, SFltb, SFcompare. intros Hx Hy.
  destruct x as [[]|[]| |[] mx ex], y as [[]|[]| |[] my ey]; try done; cbn; try (split; [done|lia]); try (split; [lia|done]).
  - destruct (Z.compare_spec ex ey) as [->|H|H].
    + change (Pos.compare_cont Eq mx my) with (mx ?= my)%positive.
      destruct (Pos.compare_spec mx my) as [->|H|H]; cbn; split; try done; lia.
    + split; [done|lia].
    + split; [lia|done].
  - destruct (Z.compare_spec ex ey) as [->|H|H].
    + change (Pos.compare_cont Eq mx my) with (mx ?= my)%positive.
      destruct (Pos.compare_spec mx my) as [->|H|H]; cbn; split; try done; lia.
    + split; [lia|done].
    + split; [done|lia].
Qed.

Lemma SFltb_asym x y : SFltb x y = true → SFltb y x = false.
Proof.
  intros H. destruct (is_nan x) eqn:Hx; [by destruct x|]. destruct (is_nan y) eqn:Hy; [by destruct x as [[]|[]| |], y|].
  destruct (SFltb y x) eqn:E; [|done]. apply (SFltb_key x y) in H; [|done..].
  apply (SFltb_key y x) in E; [|done..]. unfold key_lt in *. lia.
Qed.

(** ** Exact conversions and truncated quotients *)
Lemma Zdigits2_le m : 0 < m → 2 ^ (Zdigits2 m - 1) <= m < 2 ^ Zdigits2 m.
Proof.
  intros Hm. destruct m as [|m|m]; [lia| |lia]. cbn. split; [|by apply digits2_bound].
  destruct (Z.le_gt_cases (2 ^ (Zpos (digits2_pos m) - 1)) (Zpos m)) as [|H]; [done|].
  apply digits2_bound in H; lia.
Qed.

Lemma shr_fexp_id m e : 0 < m → fexp prec emax (Zdigits2 m + e) = e → shr_fexp prec emax m e loc_Exact = (Build_shr_record m false false, e).
Proof. intros Hm H. unfold shr_fexp. rewrite H, Z.sub_diag. done. Qed.

Lemma iter_xO m d : Zpos (Pos.iter xO m d) = Zpos m * 2 ^ Zpos d.
Proof.
  revert m. induction d as [|d IH] using Pos.peano_ind; intros m; [cbn; lia|].
  rewrite Pos.iter_succ, (Pos2Z.inj_xO (Pos.iter xO m d)), IH, Pos2Z.inj_succ, Z.pow_succ_r by lia. lia.
Qed.

Lemma d_of_Z_exact n :
  0 < n < 2 ^ 52 →
  let d := Zdigits2 n in ∃ m, d_of_Z n = S754_finite false m (d - 53) ∧ Zpos m = n * 2 ^ (53 - d) ∧ 1 <= d <= 52 ∧
    Zdigits2 (Zpos m) = 53.
Proof.
  intros Hn d. assert (1 <= d <= 52) as Hd.
  { split; [unfold d; destruct n; cbn; lia|]. apply Zdigits2_bound; lia. }
  destruct n as [|n|n]; [lia| |lia]. unfold d_of_Z. cbn [binary_normalize]. unfold binary_round, shl_align.
  change (Zpos (digits2_pos n)) with d. rewrite Z.add_0_r.
  assert (fexp prec emax d = d - 53) as E by (unfold fexp, emin, prec, emax; lia). rewrite E, Z.sub_0_r.
  destruct (d - 53) as [|k|k] eqn:Ek; [lia|lia|]. exists (Pos.iter xO n k).
  assert (Zdigits2 (Zpos (Pos.iter xO n k)) = 53) as Hdig.
  { cbn. rewrite digits2_iter. change (Zpos (digits2_pos n)) with d. lia. }
  split_and!; [|rewrite iter_xO; f_equal; f_equal; lia|lia|lia|done].
  unfold binary_round_aux.
  assert (shr_fexp prec emax (Zpos (Pos.iter xO n k)) (Zneg k) loc_Exact = (Build_shr_record (Zpos (Pos.iter xO n k)) false false, Zneg k)) as Hid.
  { apply shr_fexp_id; [done|]. rewrite Hdig. unfold fexp, emin, prec, emax. lia. }
  rewrite Hid. cbn [shr_m loc_of_shr_record round_nearest_even]. rewrite Hid. cbn [shr_m].
  by rewrite (proj2 (Z.leb_le _ _)) by (unfold emax, prec; lia).
Qed.

(** Rounding a number with a fraction and truncating: the mantissa that was rounded,
    without its fraction. *)
Lemma round_aux_trunc m e l :
  0 < m → Z.max e (fexp prec emax (Zdigits2 m + e)) <= -4 → Zdigits2 m + e <= 40 →
  let e1 := Z.max e (fexp prec emax (Zdigits2 m + e)) in
  ∃ m1, m / 2 ^ (e1 - e) <= m1 <= m / 2 ^ (e1 - e) + 1 ∧
    d_to_long (binary_round_aux prec emax false m e l) = Some (m1 / 2 ^ (- e1)).
Proof.
  intros Hm He Hd e1. pose proof (round_aux_bound false m e l 41 Hm) as Hb.
  unfold binary_round_aux in *.
  pose proof (shr_fexp_spec m e l ltac:(lia)) as H1. destruct (shr_fexp prec emax m e l) as [r1 e1'].
  destruct H1 as [E1 M1]. fold e1 in E1. subst e1'.
  assert (0 <= shr_m r1) as Hr1 by (rewrite M1; apply Z.div_pos; [lia|apply Z.pow_pos_nonneg; lia]).
  set (m1 := round_nearest_even _ _) in *.
  pose proof (round_up_bound (shr_m r1) (loc_of_shr_record r1) Hr1) as Hm1. fold m1 in Hm1.
  exists m1. split; [by rewrite <- M1|].
  pose proof (shr_fexp_spec m1 e1 loc_Exact ltac:(lia)) as H2.
  destruct (shr_fexp prec emax m1 e1 loc_Exact) as [r2 e2]. destruct H2 as [E2 M2].
  assert (Zdigits2 m1 + e1 <= 42) as Hd1.
  { pose proof (quotient_digits m (e1 - e) Hm ltac:(lia)) as Hq. rewrite <- M1 in Hq.
    pose proof (succ_digits (shr_m r1) Hr1). pose proof (digits_mono m1 (shr_m r1 + 1) ltac:(lia)). lia. }
  assert (e1 <= e2 < 0) as Hb2.
  { rewrite E2. unfold fexp, emin, prec, emax in *. lia. }
  assert (m1 / 2 ^ (- e1) = shr_m r2 / 2 ^ (- e2)) as ->.
  { rewrite M2, Z.div_div by (apply Z.pow_nonzero || apply Z.pow_pos_nonneg; lia). f_equal.
    rewrite <- Z.pow_add_r by lia. f_equal. lia. }
  destruct Hb as [Hat Hs]; [lia|lia|lia|].
  destruct (shr_m r2) as [|m2|m2] eqn:Em; [by rewrite Z.div_0_l by (apply Z.pow_nonzero; lia)| |done].
  change (emax - prec) with 971 in *. rewrite (proj2 (Z.leb_le _ _)) in Hat |- * by lia.
  destruct (d_to_long_upto 42 (S754_finite false m2 e2)) as (v & Hv & _); [by split|lia|].
  rewrite Hv. f_equal. cbn in Hv. unfold magnitude in Hv. rewrite (proj2 (Z.leb_gt 0 e2)) in Hv by lia.
  destruct (_ && _) in Hv; [by injection Hv as <-|done].
Qed.

(** A number just below or at [a / b] in units of [2 ^ (- g)], or one unit above, has
    the same whole part. *)
Lemma quotient_floor a b f k m1 :
  0 < a → 0 < b → 0 <= k <= f → b * 2 ^ k < 2 ^ f →
  let q := a * 2 ^ f / b in
  q / 2 ^ k <= m1 <= q / 2 ^ k + 1 → m1 / 2 ^ (f - k) = a / b.
Proof.
  intros Ha Hb Hk Hf q Hm. assert (0 < 2 ^ k) by (apply Z.pow_pos_nonneg; lia).
  assert (0 < 2 ^ (f - k)) as HG by (apply Z.pow_pos_nonneg; lia).
  assert (2 ^ f = 2 ^ k * 2 ^ (f - k)) as Hsplit by (rewrite <- Z.pow_add_r by lia; f_equal; lia).
  set (j := a / b). pose proof (Z.div_mod a b ltac:(lia)) as Hdm. pose proof (Z.mod_pos_bound a b Hb). fold j in Hdm.
  assert (b * q <= a * 2 ^ f) as Hq by (apply Z.mul_div_le; lia).
  assert (j * 2 ^ f <= q) as Hlo. { apply Z.div_le_lower_bound; [lia|]. nia. }
  assert (j * 2 ^ (f - k) <= q / 2 ^ k). { apply Z.div_le_lower_bound; [lia|]. nia. }
  assert (q / 2 ^ k < (j + 1) * 2 ^ (f - k) - 1) as Hhi. { apply Z.div_lt_upper_bound; [lia|]. nia. }
  symmetry. apply (Z.div_unique_pos _ _ _ (m1 - j * 2 ^ (f - k))); lia.
Qed.

(** [(long)((double)a / (double)b)] of whole numbers is their quotient. *)
Lemma truncated_quotient a b :
  0 < a < 2 ^ 31 → 0 < b < 2 ^ 31 → d_to_long (ddiv (d_of_Z a) (d_of_Z b)) = Some (a / b).
Proof.
  intros Ha Hb. destruct (d_of_Z_exact a ltac:(lia)) as (ma & -> & Ma & Da & Pa).
  destruct (d_of_Z_exact b ltac:(lia)) as (mb & -> & Mb & Db & Pb).
  pose proof (Zdigits2_le a ltac:(lia)) as La. pose proof (Zdigits2_le b ltac:(lia)) as Lb.
  set (da := Zdigits2 a) in *. set (db := Zdigits2 b) in *.
  assert (da <= 31 ∧ db <= 31) as [Da' Db'] by (split; apply Zdigits2_bound; lia).
  unfold ddiv, SFdiv, SFdiv_core_binary. cbn [xorb]. rewrite Pa, Pb.
  replace (Z.min _ _) with (da - db - 53) by (unfold fexp, emin, prec, emax; lia).
  replace (da - 53 - (db - 53) - (da - db - 53)) with 53 by lia.
  set (f := 53 + db - da). replace (da - db - 53) with (- f) by lia.
  destruct (Z.div_eucl (Z.shiftl (Zpos ma) 53) (Zpos mb)) as [q r] eqn:Eq.
  assert (q = a * 2 ^ f / b) as ->.
  { change q with (fst (q, r)). rewrite <- Eq. change (fst (Z.div_eucl ?x ?y)) with (x / y).
    rewrite Z.shiftl_mul_pow2, Ma, Mb by lia. rewrite <- (Z.div_mul_cancel_r (a * 2 ^ f) b (2 ^ (53 - db))) by (try apply Z.pow_nonzero; lia).
    rewrite <- !Z.mul_assoc, <- !Z.pow_add_r by lia. do 3 f_equal. lia. }
  set (q' := a * 2 ^ f / b).
  assert (2 ^ 52 <= q' < 2 ^ 54) as Hq.
  { assert (2 ^ (da - 1) * 2 ^ f = 2 ^ 52 * 2 ^ db) by (rewrite <- !Z.pow_add_r by lia; f_equal; lia).
    assert (2 ^ da * 2 ^ f = 2 ^ 54 * 2 ^ (db - 1)) by (rewrite <- !Z.pow_add_r by lia; f_equal; lia).
    assert (0 < 2 ^ f) by (apply Z.pow_pos_nonneg; lia).
    split; [apply Z.div_le_lower_bound; nia|apply Z.div_lt_upper_bound; nia]. }
  assert (53 <= Zdigits2 q' <= 54) as Hdq.
  { split; [|apply Zdigits2_bound; lia]. pose proof (Zdigits2_le q' ltac:(lia)).
    destruct (decide (53 <= Zdigits2 q')); [done|]. assert (2 ^ Zdigits2 q' <= 2 ^ 52) by (apply Z.pow_le_mono_r; lia). lia. }
  destruct (round_aux_trunc q' (- f) (new_location (Zpos mb) r)) as (m1 & Hm1 & Hlong).
  { lia. } { unfold fexp, emin, prec, emax. lia. } { lia. }
  rewrite Hlong. f_equal. set (e1 := Z.max _ _) in *.
  assert (0 <= e1 + f <= 1) as Hk by (unfold e1, fexp, emin, prec, emax; lia).
  replace (- e1) with (f - (e1 + f)) by lia. replace (e1 - - f) with (e1 + f) in Hm1 by lia.
  apply quotient_floor; [lia|lia|lia| |done].
  assert (2 ^ (e1 + f) <= 2 ^ 1) by (apply Z.pow_le_mono_r; lia).
  assert (2 ^ (db + 22) <= 2 ^ f) by (apply Z.pow_le_mono_r; lia). rewrite Z.pow_add_r in H0 by lia. nia.
Qed.
