(* ===== verification/EchoClient.v ===== *)
(** * The benchmark client ([kcuttcp/eclnt.c])

    Options, the paced loop of transactions and its record of samples. What
    [write] and [read] return, whether the clock has passed the end of the test
    and what it shows around the transaction are data of each pass. Samples are
    [double]s, computed from the readings of the clock as the code does; the
    connection and the statistics are in [ClientStats]. *)
From S2P Require Import Prelude Double.

Open Scope Z_scope.

Definition DEFAULT_PORT : Z := 8080.
Definition DEFAULT_SIZE : Z := 64.
Definition DEFAULT_RATE : Z := 100.
Definition DEFAULT_DURATION : Z := 10.
Definition DEFAULT_WARMUP : Z := 1.
Definition MAX_SAMPLES : Z := 4000000.

(** ** Timing *)
Record timespec := Timespec { tv_sec : Z; tv_nsec : Z }.

Definition ts_add_ns (ts : timespec) (ns : Z) : timespec :=
  let ts := Timespec (tv_sec ts) (tv_nsec ts + ns) in
  if 1000000000 <=? tv_nsec ts then Timespec (tv_sec ts + 1) (tv_nsec ts - 1000000000) else ts.

(** [mono_sec] at the reading [ts] of the clock. *)
Definition mono_sec (ts : timespec) : double :=
  dadd (d_of_Z (tv_sec ts)) (dmul (d_of_Z (tv_nsec ts)) (d_const 1 1000000000)).

(** ** Network *)

(** The state of the connection: bytes sent, and bytes received into the buffer
    of the transaction. *)
Record conn := Conn { c_sent : list Z; c_rcvd : list Z }.

(** [ws]: what [write] is willing to take; it never takes more than it is given. *)
Fixpoint write_all (ws : list Z) (p : list Z) : M conn Z :=
  match p with
  | [] => mret 0
  | _ =>
      match ws with
      | [] => nofuelM
      | w :: ws =>
          if w <=? 0 then mret (-1)
          else _ ← modifyM (λ c, Conn (c_sent c ++ take (Z.to_nat w) p) (c_rcvd c));
               write_all ws (drop (Z.to_nat w) p)
      end
  end.

(** A result of [read]: an error, end of file, or the bytes that are there, of
    which it takes at most as many as it is asked for. *)
Inductive rres := RErr | REof | RBytes (b : list Z).
Definition rres_len (r : rres) (n : Z) : Z :=
  match r with RErr => -1 | REof => 0 | RBytes b => Z.min n (Z.of_nat (length b)) end.

Fixpoint read_all (rs : list rres) (n : Z) : M conn Z :=
  if n =? 0 then mret 0
  else match rs with
       | [] => nofuelM
       | r :: rs =>
           if rres_len r n <? 0 then mret (-1)
           else if rres_len r n =? 0 then mret (-1)
           else _ ← match r with
                    | RBytes b => modifyM (λ c, Conn (c_sent c) (c_rcvd c ++ take (Z.to_nat n) b))
                    | _ => mret tt
                    end;
                read_all rs (n - rres_len r n)
       end.

(** ** Options and main *)
Record opts := Opts {
  port : Z; pkt_size : Z; rate : Z; duration : Z; max_txns : Z; warmup_secs : Z; verb : bool }.
Definition opts0 : opts :=
  Opts DEFAULT_PORT DEFAULT_SIZE DEFAULT_RATE DEFAULT_DURATION 0 DEFAULT_WARMUP false.

(** Options as [getopt] returns them with the string ["H:p:s:r:d:n:w:vh"], numbers
    as [atoi] reads them. *)
Inductive opt := OptH | OptP (n : Z) | OptS (n : Z) | OptR (n : Z) | OptD (n : Z) | OptN (n : Z)
               | OptW (n : Z) | OptV | OptHelp | OptBad.

(** The settings, or the status to return at once. *)
Fixpoint options (l : list opt) (o : opts) : opts + Z :=
  match l with
  | [] => inl o
  | x :: l =>
      let '(Opts p s r d n w v) := o in
      match x with
      | OptH => options l o
      | OptP a => options l (Opts a s r d n w v)
      | OptS a => options l (Opts p a r d n w v)
      | OptR a => options l (Opts p s a d n w v)
      | OptD a => options l (Opts p s r a n w v)
      | OptN a => options l (Opts p s r d a w v)
      | OptW a => options l (Opts p s r d n a v)
      | OptV => options l (Opts p s r d n w true)
      | OptHelp => inr 0
      | OptBad => inr 1
      end
  end.

Definition check_opts (o : opts) : opts + Z :=
  if pkt_size o <=? 0 then inr 1 else if rate o <=? 0 then inr 1 else inl o.

(** The size of the sample array. *)
Definition sample_cap (o : opts) : Z :=
  let cap := if 0 <? max_txns o then max_txns o else rate o * (duration o + 4) in
  let cap := if cap <? 1024 then 1024 else cap in
  if MAX_SAMPLES <? cap then MAX_SAMPLES else cap.

(** [(long)(1e9 / (double)rate)]: the quotient is a double, cut to a whole
    number; for an [int] rate this is the integer quotient. *)
Definition period_ns (o : opts) : Z := if 0 <? rate o then 1000000000 / rate o else 0.

(** What happens in one pass of the loop. *)
Record txn := Txn {
  x_stop : bool;               (* [g_stop] is set *)
  x_time_up : bool;            (* [mono_sec() >= t_end] *)
  x_writes : list Z;
  x_reads : list rres;
  x_before : timespec;         (* the clock before the packet is sent *)
  x_after : timespec;          (* and after the answer is read *)
}.
(** [mono_sec() - t0]. *)
Definition x_rtt (x : txn) : double := dsub (mono_sec (x_after x)) (mono_sec (x_before x)).

Record bench := Bench {
  b_conn : conn;
  b_nxt : timespec;
  b_lat : list (option double);     (* the sample array; [None] is not yet written *)
  b_n : Z;
}.

Definition on_conn (m : M conn Z) : M bench Z := λ b,
  match m (b_conn b) with
  | Done r c => Done r (Bench c (b_nxt b) (b_lat b) (b_n b))
  | Exited x c => Exited x (Bench c (b_nxt b) (b_lat b) (b_n b))
  | Aborted => Aborted
  | Fault => Fault
  | NoFuel => NoFuel
  end.
Definition set_nxt (t : timespec) (b : bench) : bench := Bench (b_conn b) t (b_lat b) (b_n b).
Definition empty_rcv (b : bench) : bench :=
  Bench (Conn (c_sent (b_conn b)) []) (b_nxt b) (b_lat b) (b_n b).

(** [lat[n++] = rtt]: a store outside the array is a fault. *)
Definition record_sample (rtt : double) : M bench unit :=
  b ← getM;
  if (b_n b <? 0) || (Z.of_nat (length (b_lat b)) <=? b_n b) then faultM
  else modifyM (λ b, Bench (b_conn b) (b_nxt b) (<[Z.to_nat (b_n b) := Some rtt]> (b_lat b)) (b_n b + 1)).

(** Whether the loop goes on, at its head. *)
Definition more (o : opts) (cap : Z) (x : txn) (n : Z) : bool :=
  negb (x_stop x) && negb (if 0 <? max_txns o then max_txns o <=? n else x_time_up x) && negb (cap <=? n).

(** The body of both loops: the packet is sent and an answer of the same size is
    read into the receive buffer; false when either fails. *)
Definition transact (o : opts) (sndbuf : list Z) (x : txn) : M bench bool :=
  rc ← on_conn (write_all (x_writes x) sndbuf);
  if rc <? 0 then mret false
  else
    _ ← modifyM empty_rcv;
    rc ← on_conn (read_all (x_reads x) (pkt_size o));
    mret (negb (rc <? 0)).

Fixpoint measure (o : opts) (cap : Z) (sndbuf : list Z) (xs : list txn) : M bench unit :=
  match xs with
  | [] => nofuelM
  | x :: xs =>
      b ← getM;
      if negb (more o cap x (b_n b)) then mret tt
      else
        _ ← (if 0 <? period_ns o then modifyM (set_nxt (ts_add_ns (b_nxt b) (period_ns o))) else mret tt);
        ok ← transact o sndbuf x;
        if ok : bool then _ ← record_sample (x_rtt x); measure o cap sndbuf xs else mret tt
  end.

(** The warm-up loop; returns [ok]. *)
Fixpoint warm_up (o : opts) (sndbuf : list Z) (xs : list txn) : M bench bool :=
  match xs with
  | [] => nofuelM
  | x :: xs =>
      if x_time_up x || x_stop x then mret true
      else
        ok ← transact o sndbuf x;
        if ok : bool then
          b ← getM; _ ← modifyM (set_nxt (ts_add_ns (b_nxt b) (period_ns o)));
          warm_up o sndbuf xs
        else mret false
  end.

(** [main]: the options, whether [tcp_connect] and the allocations of the buffers
    and of the samples succeed, the clock at the start of the two loops and what
    happens in their passes. The statistics that are printed at the end are
    those of [ClientStats.client_main]. *)
Definition main (l : list opt) (connected bufs_ok lat_ok : bool) (now now' : timespec)
    (warm xs : list txn) : M bench Z :=
  match options l opts0 with
  | inr c => mret c
  | inl o =>
      match check_opts o with
      | inr c => mret c
      | inl o =>
          if negb connected then mret 1
          else if negb bufs_ok then mret 1
          else
            let sndbuf := replicate (Z.to_nat (pkt_size o)) 0x42 in
            let cap := sample_cap o in
            if negb lat_ok then mret 1
            else
              _ ← modifyM (λ b, Bench (b_conn b) now (replicate (Z.to_nat cap) None) 0);
              ok ← (if 0 <? warmup_secs o then warm_up o sndbuf warm else mret true);
              _ ← modifyM (set_nxt now');
              _ ← (if ok : bool then measure o cap sndbuf xs else mret tt);
              mret 0
      end
  end.

(** ** What the client guarantees *)
Definition normal (ts : timespec) : Prop := 0 <= tv_nsec ts < 1000000000.
Definition ns_of (ts : timespec) : Z := tv_sec ts * 1000000000 + tv_nsec ts.

Lemma ts_add_spec ts ns :
  normal ts → 0 <= ns <= 1000000000 →
  normal (ts_add_ns ts ns) ∧ ns_of (ts_add_ns ts ns) = ns_of ts + ns.
Proof.
  unfold normal, ns_of, ts_add_ns. cbn. intros H ?.
  destruct (Z.leb_spec 1000000000 (tv_nsec ts + ns)); cbn; lia.
Qed.

Lemma period_bound o : 0 < rate o → 0 <= period_ns o <= 1000000000.
Proof.
  intros H. unfold period_ns. rewrite (proj2 (Z.ltb_lt _ _) H). split; [apply Z.div_pos; lia|].
  apply Z.div_le_upper_bound; nia.
Qed.

Lemma cap_bounds o : 1024 <= sample_cap o <= MAX_SAMPLES.
Proof.
  unfold sample_cap, MAX_SAMPLES. set (c := if 0 <? max_txns o then _ else _).
  destruct (Z.ltb_spec c 1024); [destruct (Z.ltb_spec 4000000 1024)|destruct (Z.ltb_spec 4000000 c)]; lia.
Qed.


(** A sequence of counts settles a request for [n] bytes: it has a failure, or
    enough bytes come. *)
Definition settles (n : Z) (l : list Z) : bool :=
  existsb (λ k, k <=? 0) l || (n <=? foldr Z.add 0 l).
Definition rres_size (r : rres) : Z :=
  match r with RErr => -1 | REof => 0 | RBytes b => Z.of_nat (length b) end.

Lemma settles_next n n' k l :
  settles n (k :: l) = true → 0 < k → n' = 0 ∨ n' = n - k → n' = 0 ∨ settles n' l = true.
Proof.
  unfold settles. cbn [existsb foldr]. intros H Hk [->| ->]; [by left|right].
  rewrite (proj2 (Z.leb_gt k 0) Hk) in H. cbn [orb] in H. apply orb_true_iff in H as [->|H]; [done|].
  apply Z.leb_le in H. apply orb_true_iff. right. apply Z.leb_le. lia.
Qed.

(** [write_all] sends the buffer from its start, all of it when it returns 0. *)
Lemma write_all_spec ws p c :
  settles (Z.of_nat (length p)) ws = true ∨ p = [] →
  wp (write_all ws p) (λ rc c', c_rcvd c' = c_rcvd c ∧ ∃ k, c_sent c' = c_sent c ++ take k p ∧
    (rc = 0 ∧ take k p = p ∨ rc = -1)) c.
Proof.
  revert p c. induction ws as [|w ws IH]; intros p c Hs; (destruct p as [|x p];
    [cbn; split; [done|]; exists O; rewrite app_nil_r; eauto|]); destruct Hs as [Hs|]; try done.
  cbn [write_all]. destruct (Z.leb_spec w 0).
  { split; [done|]. exists O. rewrite take_0, app_nil_r. eauto. }
  apply wp_bind, wp_modify. set (c1 := Conn _ _).
  eapply wp_mono; [apply IH|].
  - pose proof (length_drop (x :: p) (Z.to_nat w)) as Hd.
    destruct (settles_next _ (Z.of_nat (length (drop (Z.to_nat w) (x :: p)))) _ _ Hs); [done|lia| |by left].
    right. apply nil_length_inv. lia.
  - intros rc c' (Hr & k & Hsent & Hrc). split; [done|]. exists (Z.to_nat w + k)%nat.
    rewrite Hsent. unfold c1. cbn [c_sent]. rewrite <- app_assoc, take_take_drop. split; [done|].
    destruct Hrc as [[-> Hk]|]; [left; split; [done|]|by right].
    by rewrite <- take_take_drop, Hk, take_drop.
Qed.

(** [read_all] returns 0 only with exactly [n] bytes received. *)
Lemma read_all_spec rs n c :
  0 <= n → settles n (rres_size <$> rs) = true ∨ n = 0 →
  wp (read_all rs n) (λ rc c', c_sent c' = c_sent c ∧ ∃ b, c_rcvd c' = c_rcvd c ++ b ∧
    (rc = 0 ∧ Z.of_nat (length b) = n ∨ rc = -1)) c.
Proof.
  assert (∀ rc c, rc = 0 ∧ n = 0 ∨ rc = -1 → c_sent c = c_sent c ∧
    ∃ b, c_rcvd c = c_rcvd c ++ b ∧ (rc = 0 ∧ Z.of_nat (length b) = n ∨ rc = -1)) as Hstop.
  { intros rc c0 H. split; [done|]. exists []. rewrite app_nil_r. cbn. destruct H as [[]|]; eauto. }
  revert n c Hstop. induction rs as [|r rs IH]; intros n c Hstop Hn Hs; cbn [read_all];
    (destruct (Z.eqb_spec n 0) as [->|Hnz]; [apply wp_ret, Hstop; by left|]); destruct Hs as [Hs|]; try done.
  - unfold settles in Hs. cbn in Hs. apply Z.leb_le in Hs. lia.
  - destruct (Z.ltb_spec (rres_len r n) 0); [apply wp_ret, Hstop; by right|].
    destruct (Z.eqb_spec (rres_len r n) 0); [apply wp_ret, Hstop; by right|].
    destruct r as [| |b]; cbn in *; [lia|lia|]. apply wp_bind, wp_modify.
    eapply wp_mono; [apply IH|].
    + intros rc c0 H'. split; [done|]. exists []. rewrite app_nil_r. cbn. destruct H' as [[]|]; eauto.
    + lia.
    + destruct (settles_next _ (n - Z.min n (Z.of_nat (length b))) _ _ Hs); [lia..|by right|by left].
    + cbn. intros rc c' (Hsent & b' & Hr & Hrc). split; [done|]. exists (take (Z.to_nat n) b ++ b').
      rewrite Hr, app_assoc. split; [done|]. destruct Hrc as [[-> Hl]|]; [left; split; [done|]|by right].
      rewrite length_app, length_take. lia.
Qed.

(** The calls of a transaction come to an end. *)
Definition txn_ends (o : opts) (x : txn) : bool :=
  settles (pkt_size o) (x_writes x) && settles (pkt_size o) (rres_size <$> x_reads x).

Lemma on_conn_wp m Q b :
  wp m (λ r c, Q r (Bench c (b_nxt b) (b_lat b) (b_n b))) (b_conn b) → wp (on_conn m) Q b.
Proof. unfold wp, on_conn. by destruct (m (b_conn b)). Qed.

Lemma transact_spec o buf x b :
  Z.of_nat (length buf) = pkt_size o → txn_ends o x = true →
  wp (transact o buf x) (λ ok b', b_nxt b' = b_nxt b ∧ b_lat b' = b_lat b ∧ b_n b' = b_n b ∧
    ∃ k, c_sent (b_conn b') = c_sent (b_conn b) ++ take k buf ∧
      (ok = true → take k buf = buf ∧ Z.of_nat (length (c_rcvd (b_conn b'))) = pkt_size o)) b.
Proof.
  intros Hl [Hw Hr]%andb_true_iff. unfold transact. apply wp_bind, on_conn_wp.
  eapply wp_mono; [apply write_all_spec; left; by rewrite Hl|].
  cbn. intros rc c1 (_ & k & Hs & Hrc). destruct (Z.ltb_spec rc 0).
  { apply wp_ret. split_and!; try done. by exists k. }
  assert (take k buf = buf) as Hk by (destruct Hrc as [[]|]; [done|lia]).
  apply wp_bind, wp_modify, wp_bind, on_conn_wp. cbn.
  eapply wp_mono; [apply read_all_spec; [lia|by left]|].
  cbn. intros rc2 c2 (Hs2 & d & Hd & Hrc2). apply wp_ret. split_and!; try done.
  exists k. cbn. rewrite Hs2, Hs. split; [done|]. intros Hneg. split; [done|].
  rewrite Hd. destruct Hrc2 as [[]| ->]; done.
Qed.

(** What a run of the measurement loop from [b] to [b'] has done: it stayed
    inside the sample array, and recorded the round trip times of the
    transactions it completed, in order. *)
Definition measured (o : opts) (cap : Z) (buf : list Z) (xs : list txn) (b b' : bench) : Prop :=
  length (b_lat b') = length (b_lat b) ∧ b_n b <= b_n b' <= cap ∧ normal (b_nxt b') ∧
  (0 < max_txns o → b_n b <= max_txns o → b_n b' <= max_txns o) ∧
  take (Z.to_nat (b_n b')) (b_lat b') = take (Z.to_nat (b_n b)) (b_lat b) ++
    (Some ∘ x_rtt <$> take (Z.to_nat (b_n b' - b_n b)) xs) ∧
  ∃ k, c_sent (b_conn b') = c_sent (b_conn b) ++
    concat (replicate (Z.to_nat (b_n b' - b_n b)) buf) ++ take k buf.

Lemma measured_stop o cap buf xs b b' k :
  b_n b <= cap → b_lat b' = b_lat b → b_n b' = b_n b → normal (b_nxt b') →
  c_sent (b_conn b') = c_sent (b_conn b) ++ take k buf → measured o cap buf xs b b'.
Proof.
  intros Hc Hl Hn Hts Hs. unfold measured. rewrite Hl, Hn, Z.sub_diag. change (Z.to_nat 0) with O.
  rewrite take_0, app_nil_r. split_and!; try done || lia. by exists k.
Qed.

(** A completed transaction, then the rest of the loop. *)
Lemma measured_step o cap buf x xs b b1 b' :
  more o cap x (b_n b) = true → Z.of_nat (length (b_lat b)) = cap → 0 <= b_n b →
  b_lat b1 = <[Z.to_nat (b_n b) := Some (x_rtt x)]> (b_lat b) → b_n b1 = b_n b + 1 →
  c_sent (b_conn b1) = c_sent (b_conn b) ++ buf →
  measured o cap buf xs b1 b' → measured o cap buf (x :: xs) b b'.
Proof.
  intros Hm Hl Hn0 Hlat Hn Hs (Hlen & Hrange & Hnorm & Hmax & Hsm & k & Hk).
  unfold more in Hm. apply andb_true_iff in Hm as [[_ Et]%andb_true_iff Ec].
  apply negb_true_iff in Et, Ec. apply Z.leb_gt in Ec.
  rewrite Hlat, length_insert in Hlen. split; [done|]. split; [lia|]. split; [done|]. split.
  { intros H0 Hle. apply Hmax; [done|]. rewrite (proj2 (Z.ltb_lt 0 _) H0) in Et. apply Z.leb_gt in Et. lia. }
  replace (Z.to_nat (b_n b' - b_n b)) with (S (Z.to_nat (b_n b' - b_n b1))) by lia. split.
  - rewrite Hsm, Hn, Hlat. replace (Z.to_nat (b_n b + 1)) with (S (Z.to_nat (b_n b))) by lia.
    rewrite firstn_cons, fmap_cons.
    rewrite (take_S_r _ _ (Some (x_rtt x))) by (apply list_lookup_insert_eq; lia).
    rewrite take_insert_ge by lia. by rewrite <- app_assoc.
  - exists k. rewrite Hk, Hs. cbn. by rewrite <- !app_assoc.
Qed.

Lemma measure_spec o cap buf xs b :
  0 < rate o → Z.of_nat (length buf) = pkt_size o →
  forallb (txn_ends o) xs = true → existsb x_stop xs = true ∨ cap - b_n b < Z.of_nat (length xs) →
  Z.of_nat (length (b_lat b)) = cap → 0 <= b_n b <= cap → normal (b_nxt b) →
  wp (measure o cap buf xs) (λ _ b', measured o cap buf xs b b') b.
Proof.
  intros Hrate Hbuf. revert b. induction xs as [|x xs IH]; intros b Hends Hstop Hl Hn Hts.
  { cbn in Hstop. destruct Hstop; [done|lia]. }
  cbn [forallb] in Hends. apply andb_true_iff in Hends as [Hx Hends].
  cbn [measure]. apply wp_bind, wp_get. destruct (more o cap x (b_n b)) eqn:Em; cbn [negb].
  2:{ apply wp_ret. apply (measured_stop _ _ _ _ _ _ 0); try done || lia. by rewrite take_0, app_nil_r. }
  set (b1 := if 0 <? period_ns o then set_nxt (ts_add_ns (b_nxt b) (period_ns o)) b else b).
  apply wp_bind. eapply (wp_eq _ (λ _, Done tt b1)); [unfold b1; by destruct (0 <? period_ns o)|].
  unfold wp at 1. assert (b_lat b1 = b_lat b ∧ b_n b1 = b_n b ∧ b_conn b1 = b_conn b ∧ normal (b_nxt b1))
    as (Hl1 & Hn1 & Hc1 & Hts1).
  { unfold b1. destruct (0 <? period_ns o); [|done]. cbn. split_and!; try done.
    apply ts_add_spec; [done|]. by apply period_bound. }
  apply wp_bind. eapply wp_mono; [by apply transact_spec|].
  cbn. intros ok b2 (Hnx & Hla & Hnn & k & Hk & Hok). rewrite Hc1 in Hk. destruct ok.
  2:{ apply wp_ret. apply (measured_stop _ _ _ _ _ _ k); congruence || lia. }
  destruct (Hok eq_refl) as [Hall _]. rewrite Hall in Hk.
  unfold record_sample. apply wp_bind, wp_bind, wp_get. rewrite Hla, Hnn, Hl1, Hn1.
  assert (b_n b < cap).
  { unfold more in Em. apply andb_true_iff in Em as [_ Ec]. apply negb_true_iff, Z.leb_gt in Ec. done. }
  rewrite (proj2 (Z.ltb_ge (b_n b) 0)), (proj2 (Z.leb_gt _ _)) by lia.
  apply wp_modify. rewrite Hla, Hnn, Hl1, Hn1. eapply wp_mono; [apply IH|]; cbn.
  - done.
  - destruct Hstop as [Hst|]; [|right; cbn in *; lia]. left. cbn [existsb] in Hst.
    destruct (x_stop x) eqn:Ex; [|done]. unfold more in Em. by rewrite Ex in Em.
  - by rewrite length_insert.
  - lia.
  - congruence.
  - intros _ b' Hb'. eapply measured_step; [exact Em|exact Hl|lia|..|exact Hb']; cbn; done.
Qed.

Lemma warm_up_spec o buf xs b :
  Z.of_nat (length buf) = pkt_size o → forallb (txn_ends o) xs = true →
  existsb (λ x, x_time_up x || x_stop x) xs = true →
  wp (warm_up o buf xs) (λ _ b', b_lat b' = b_lat b ∧ b_n b' = b_n b) b.
Proof.
  intros Hbuf. revert b. induction xs as [|x xs IH]; intros b Hends Hstop; [done|].
  cbn [forallb existsb] in *. apply andb_true_iff in Hends as [Hx Hends]. cbn [warm_up].
  destruct (x_time_up x || x_stop x); [by apply wp_ret|].
  apply wp_bind. eapply wp_mono; [by apply transact_spec|].
  cbn. intros [] b1 (_ & Hl & Hn & _); [|by apply wp_ret].
  apply wp_bind, wp_get, wp_bind, wp_modify. eapply wp_mono; [by apply IH|]. cbn. by rewrite Hl, Hn.
Qed.

(** The options in effect, when the program goes on to connect. *)
Definition settings (l : list opt) : option opts :=
  match options l opts0 with
  | inl o => match check_opts o with inl o => Some o | inr _ => None end
  | inr _ => None
  end.

Lemma settings_ok l o : settings l = Some o → 0 < rate o ∧ 0 < pkt_size o.
Proof.
  unfold settings, check_opts. destruct (options l opts0) as [o'|]; [|done].
  destruct (Z.leb_spec (pkt_size o') 0); [done|]. destruct (Z.leb_spec (rate o') 0); [done|]. by intros [= <-].
Qed.

(** The two loops get answers that let them end. *)
Definition run_ends (o : opts) (warm xs : list txn) : Prop :=
  (0 < warmup_secs o → forallb (txn_ends o) warm = true ∧
     existsb (λ x, x_time_up x || x_stop x) warm = true) ∧
  forallb (txn_ends o) xs = true ∧
  (existsb x_stop xs = true ∨ sample_cap o < Z.of_nat (length xs)).

(** There are no more samples than passes of the loop. *)
Lemma samples_taken n lat (xs : list txn) :
  take n lat = Some ∘ x_rtt <$> take n xs → (n <= length lat)%nat → (n <= length xs)%nat.
Proof. intros Hs%(f_equal length) ?. rewrite length_fmap, !length_take in Hs. lia. Qed.

Lemma client_main_spec l o now now' warm xs b :
  settings l = Some o → normal now' → run_ends o warm xs →
  wp (main l true true true now now' warm xs) (λ c b', c = 0 ∧ 0 <= b_n b' <= sample_cap o ∧
    (0 < max_txns o → b_n b' <= max_txns o) ∧ b_n b' <= Z.of_nat (length xs) ∧
    take (Z.to_nat (b_n b')) (b_lat b') = Some ∘ x_rtt <$> take (Z.to_nat (b_n b')) xs) b.
Proof.
  intros Hset Hnow (Hwe & Hxe & Hst). pose proof (settings_ok _ _ Hset) as [Hrate Hsz].
  unfold main. unfold settings in Hset.
  destruct (options l opts0) as [o1|]; [|done]. destruct (check_opts o1) as [o2|]; [|done]. injection Hset as ->.
  cbn [negb]. apply wp_bind, wp_modify. set (buf := replicate _ 0x42). set (b1 := Bench _ _ _ _).
  assert (Z.of_nat (length buf) = pkt_size o) as Hbuf by (unfold buf; rewrite length_replicate; lia).
  pose proof (cap_bounds o) as Hcap.
  apply wp_bind. eapply (wp_mono _ (λ _ b', b_lat b' = b_lat b1 ∧ b_n b' = b_n b1)).
  { destruct (Z.ltb_spec 0 (warmup_secs o)); [|by apply wp_ret].
    destruct Hwe as [? ?]; [done|]. by apply warm_up_spec. }
  intros ok b2 [Hl2 Hn2]. change (b_n b1) with 0 in Hn2.
  apply wp_bind, wp_modify, wp_bind. destruct ok; cbn.
  2:{ rewrite Hn2. split_and!; try done || lia. }
  eapply wp_mono; [apply measure_spec|]; cbn; rewrite ?Hl2, ?Hn2, ?Z.sub_0_r; try done || lia.
  { unfold b1. cbn. rewrite length_replicate. lia. }
  intros _ b' (Hlen & Hr & _ & Hm & Hs & _). cbn in *. rewrite Hn2 in *.
  rewrite Z.sub_0_r in Hs. split; [done|]. split; [lia|]. split; [intros; apply Hm; lia|]. split; [|done].
  apply samples_taken in Hs; [lia|]. rewrite Hlen, Hl2. unfold b1. cbn. rewrite length_replicate. lia.
Qed.
