(* ===== verification/ClientStats.v ===== *)
(** * Connection and statistics of the client ([kcuttcp/eclnt.c])

    [tcp_connect], the percentiles and the statistics printed at the end, and [main]
    with the descriptor it holds. Arithmetic is that of [Double]; reading outside the
    sample array or an element of it that was not written, or converting a value a
    [long] cannot hold, is undefined. The transactions, the clock and the array of
    samples are those of [EchoClient]. *)
From Stdlib Require Import Floats.SpecFloat.
From stdpp Require Import sorting.
From S2P Require Import Prelude Double EchoClient.

Open Scope Z_scope.

(** ** The statistics *)

(** [cmp_dbl], the order of [qsort]. *)
Definition cmp_dbl (x y : double) : Z := Z.b2z (SFltb y x) - Z.b2z (SFltb x y).
Definition dbl_le (x y : double) : Prop := cmp_dbl x y <= 0.
#[export] Instance dbl_le_dec x y : Decision (dbl_le x y) := Z_le_dec _ _.

(** [qsort] as a merge sort on [cmp_dbl]. *)
Definition qsort (l : list double) : list double := merge_sort dbl_le l.

(** [pct] on the array [s] of [n] elements; [None] is undefined behaviour. *)
Definition pct (s : list double) (n : Z) (p : double) : option double :=
  let get i := if (0 <=? i) then s !! Z.to_nat i else None in
  if n =? 1 then get 0 else
  let idx := dmul (dmul p (d_const 1 100)) (d_of_Z (n - 1)) in
  lo ← d_to_long idx;
  let frac := dsub idx (d_of_Z lo) in
  if n <=? lo + 1 then get (n - 1) else
  a ← get lo;
  b ← get (lo + 1);
  Some (dadd (dmul a (dsub (d_of_Z 1) frac)) (dmul b frac)).

(** The percentiles that are printed. *)
Definition percentiles : list double :=
  [d_of_Z 50; d_of_Z 75; d_of_Z 90; d_of_Z 95; d_of_Z 99; d_const 999 10].

Definition sum (l : list double) : double := foldl dadd (d_of_Z 0) l.
Definition sum_sq (mean : double) (l : list double) : double :=
  foldl (λ sq x, let d := dsub x mean in dadd sq (dmul d d)) (d_of_Z 0) l.

(** The figures that are printed; times are in seconds and shown multiplied by 1e6. *)
Record stats := Stats {
  s_count : Z; s_elapsed : double; s_rate : Z; s_tps : double; s_mbps : double;
  s_min : double; s_mean : double; s_stddev : double; s_pcts : list double; s_max : double }.

(** What [print_stats] prints of the first [n] elements of the array: nothing but a
    message without samples. The array is freed after it. *)
Definition print_stats (lat : list (option double)) (n : Z) (elapsed : double) (pkt_size rate : Z) : option (option stats) :=
  if n <=? 0 then Some None else
  lat ← mapM id (take (Z.to_nat n) lat);
  let lat := qsort lat in
  let mean := ddiv (sum lat) (d_of_Z n) in
  let stddev := dsqrt (ddiv (sum_sq mean lat) (d_of_Z n)) in
  let tps := ddiv (d_of_Z n) elapsed in
  let mbps := ddiv (dmul (dmul tps (d_of_Z pkt_size)) (d_of_Z 2)) (d_of_Z 1048576) in
  ps ← mapM (pct lat n) percentiles;
  mn ← lat !! 0%nat;
  mx ← lat !! Z.to_nat (n - 1);
  Some (Some (Stats n elapsed rate tps mbps mn mean stddev ps mx)).

(** ** The connection *)

(** The answers of the system; the address is checked by [inet_pton]. *)
Record netsys := NetSys { ns_socket : bool; ns_inet_pton : string → bool; ns_connect : string → Z → bool }.

(** [htons((uint16_t)port)]: the port is cut to 16 bits. *)
Definition tcp_connect (sys : netsys) (host : string) (port : Z) : M (gset Z) Z :=
  if negb (ns_socket sys) then mret (-1) else
  fd ← getsM lowest_fd;
  _ ← modifyM (λ f, {[fd]} ∪ f);
  if negb (ns_inet_pton sys host) then _ ← modifyM (λ f, f ∖ {[fd]}); mret (-1) else
  if negb (ns_connect sys host (u16 port)) then _ ← modifyM (λ f, f ∖ {[fd]}); mret (-1) else
  mret fd.

(** ** The program *)

(** Descriptors, the transactions, and what was printed at the end. *)
Record client := Client { cl_fds : gset Z; cl_bench : bench; cl_report : option (option stats) }.
Definition on_fds {A} (m : M (gset Z) A) : M client A := λ c,
  match m (cl_fds c) with
  | Done a f => Done a (Client f (cl_bench c) (cl_report c))
  | Exited k f => Exited k (Client f (cl_bench c) (cl_report c))
  | Aborted => Aborted
  | Fault => Fault
  | NoFuel => NoFuel
  end.
Definition on_bench {A} (m : M bench A) : M client A := λ c,
  match m (cl_bench c) with
  | Done a b => Done a (Client (cl_fds c) b (cl_report c))
  | Exited k b => Exited k (Client (cl_fds c) b (cl_report c))
  | Aborted => Aborted
  | Fault => Fault
  | NoFuel => NoFuel
  end.

(** What the clock showed around the whole measurement. *)
Record clocks := Clocks { ck_start : timespec; ck_end : timespec }.
Definition elapsed_of (ck : clocks) : double := dsub (mono_sec (ck_end ck)) (mono_sec (ck_start ck)).

(** [main] with the connection and the report. Where it returns early the descriptor
    is left to the end of the process. *)
Definition client_main (sys : netsys) (host : string) (l : list opt) (bufs_ok lat_ok : bool)
    (now now' : timespec) (warm xs : list txn) (ck : clocks) : M client Z :=
  match settings l with
  | None => on_bench (EchoClient.main l false bufs_ok lat_ok now now' warm xs)
  | Some o =>
      fd ← on_fds (tcp_connect sys host (port o));
      if fd <? 0 then mret 1 else
      r ← on_bench (EchoClient.main l true bufs_ok lat_ok now now' warm xs);
      if negb (bufs_ok && lat_ok) then mret r else
      c ← getM;
      let n := b_n (cl_bench c) in
      st ← derefM (print_stats (b_lat (cl_bench c)) n (elapsed_of ck) (pkt_size o) (rate o));
      _ ← modifyM (λ c, Client (cl_fds c) (cl_bench c) (Some st));
      _ ← on_fds (modifyM (λ f, f ∖ {[fd]}));
      mret 0
  end.

(** ** Percentiles stay inside the array *)
Lemma percentile_factors : Forall (λ p, upto 0 (dmul p (d_const 1 100))) percentiles.
Proof. repeat constructor; vm_compute; discriminate || reflexivity. Qed.

Lemma pct_index n p :
  1 <= n <= MAX_SAMPLES → p ∈ percentiles →
  ∃ lo, d_to_long (dmul (dmul p (d_const 1 100)) (d_of_Z (n - 1))) = Some lo ∧ 0 <= lo.
Proof.
  intros Hn Hp. unfold MAX_SAMPLES in Hn.
  assert (upto 24 (dmul (dmul p (d_const 1 100)) (d_of_Z (n - 1)))) as Hu.
  { apply (dmul_upto _ _ 0 23); [|apply (d_of_Z_upto _ 22); lia|lia].
    revert p Hp. apply Forall_forall, percentile_factors. }
  destruct (d_to_long_upto 24 _ Hu) as (v & Hv & Hb); [lia|]. exists v. by split; [|lia].
Qed.

(** [v] is the [p]-th percentile of the sorted samples [s]: with [i] the whole part of
    [p / 100 * (n - 1)], which is the position it falls on, the value between the
    elements [i] and [i + 1] in the proportion of the rest, and the last element when
    there is none after [i]. *)
Definition interpolated (s : list double) (p v : double) : Prop :=
  let n := Z.of_nat (length s) in
  let position := dmul (dmul p (d_const 1 100)) (d_of_Z (n - 1)) in
  n = 1 ∧ s = [v] ∨
  1 < n ∧ ∃ i, 0 <= i ∧ d_to_long position = Some i ∧
    (n <= i + 1 ∧ last s = Some v ∨
     ∃ a b, s !! Z.to_nat i = Some a ∧ s !! S (Z.to_nat i) = Some b ∧
       let rest := dsub position (d_of_Z i) in
       v = dadd (dmul a (dsub (d_of_Z 1) rest)) (dmul b rest)).

Lemma pct_interpolates s n p :
  1 <= n <= MAX_SAMPLES → Z.of_nat (length s) = n → p ∈ percentiles →
  ∃ v, pct s n p = Some v ∧ interpolated s p v.
Proof.
  intros Hn Hl Hp. unfold pct, interpolated. rewrite Hl.
  assert (∀ i, 0 <= i < n → ∃ x, (if 0 <=? i then s !! Z.to_nat i else None) = Some x ∧ s !! Z.to_nat i = Some x) as Hget.
  { intros i Hi. rewrite (proj2 (Z.leb_le _ _)) by lia.
    destruct (lookup_lt_is_Some_2 s (Z.to_nat i)) as [x Hx]; [lia|]. eauto. }
  destruct (Z.eqb_spec n 1) as [->|Hn1].
  { destruct s as [|v [|]]; cbn in Hl; try lia. exists v. by split; [|left]. }
  destruct (pct_index n p Hn Hp) as (lo & Hlo & H0). rewrite Hlo. cbn [mbind option_bind].
  destruct (Z.leb_spec n (lo + 1)).
  - destruct (Hget (n - 1)) as (v & Hv & Hs); [lia|]. exists v. split; [done|]. right. split; [lia|].
    exists lo. split; [done|]. split; [done|]. left. split; [done|]. rewrite last_lookup.
    replace (Init.Nat.pred (length s)) with (Z.to_nat (n - 1)) by lia. done.
  - destruct (Hget lo) as (a & Ha & Hsa); [lia|]. destruct (Hget (lo + 1)) as (b & Hb & Hsb); [lia|].
    rewrite Ha, Hb. cbn [mbind option_bind]. eexists. split; [done|]. right. split; [lia|].
    exists lo. split; [done|]. split; [done|]. right. exists a, b. split; [done|].
    replace (S (Z.to_nat lo)) with (Z.to_nat (lo + 1)) by lia. done.
Qed.

Lemma pcts_interpolate s n l :
  1 <= n <= MAX_SAMPLES → Z.of_nat (length s) = n → Forall (λ p, p ∈ percentiles) l →
  ∃ vs, mapM (pct s n) l = Some vs ∧ Forall2 (interpolated s) l vs.
Proof.
  intros Hn Hl. induction 1 as [|p l Hp _ (vs & Hvs & IH)]; [by exists []|].
  destruct (pct_interpolates s n p Hn Hl Hp) as (v & Hv & Hi). exists (v :: vs).
  cbn. rewrite Hv. cbn. rewrite Hvs. by split; [|constructor].
Qed.

(** ** Sorting *)
#[export] Instance dbl_le_total : Total dbl_le.
Proof.
  intros x y. unfold dbl_le, cmp_dbl. pose proof (SFltb_asym x y). pose proof (SFltb_asym y x).
  destruct (SFltb x y), (SFltb y x); cbn; try lia; left; lia.
Qed.

Lemma dbl_le_key x y : is_nan x = false → is_nan y = false → dbl_le x y ↔ ¬ key_lt (key y) (key x).
Proof.
  intros Hx Hy. unfold dbl_le, cmp_dbl. rewrite <- (SFltb_key y x) by done.
  pose proof (SFltb_asym x y). destruct (SFltb y x) eqn:E1, (SFltb x y) eqn:E2; cbn; try done; try lia; naive_solver.
Qed.

Lemma dbl_le_trans x y z :
  is_nan x = false → is_nan y = false → is_nan z = false → dbl_le x y → dbl_le y z → dbl_le x z.
Proof. intros Hx Hy Hz. rewrite !dbl_le_key by done. unfold key_lt. lia. Qed.

Lemma qsort_permutes l : qsort l ≡ₚ l.
Proof. apply merge_sort_Permutation. Qed.

(** The order is transitive on numbers. *)
Lemma numbers_sorted l :
  Forall (λ x, is_nan x = false) l → Sorted dbl_le l → StronglySorted dbl_le l.
Proof.
  induction 1 as [|x l Hx Hl IH]; intros Hs; [constructor|]. apply Sorted_inv in Hs as [Hs Hhd].
  specialize (IH Hs). constructor; [done|]. destruct Hhd as [|y l Hxy]; [constructor|].
  apply Forall_cons in Hl as [Hy Hl]. apply StronglySorted_inv in IH as [_ Hys]. constructor; [done|].
  rewrite Forall_forall in Hl, Hys |- *. intros z Hz. eapply dbl_le_trans; [| | |exact Hxy|]; eauto.
Qed.

Lemma qsort_sorted l : Forall (λ x, is_nan x = false) l → StronglySorted dbl_le (qsort l).
Proof.
  intros Hl. apply numbers_sorted; [by rewrite qsort_permutes|]. apply Sorted_merge_sort. apply _.
Qed.

Lemma dbl_le_refl x : dbl_le x x.
Proof. unfold dbl_le, cmp_dbl. lia. Qed.

Lemma sorted_lookup l i j x y :
  StronglySorted dbl_le l → l !! i = Some x → l !! j = Some y → (i <= j)%nat → dbl_le x y.
Proof.
  intros Hs. revert i j. induction Hs as [|a l Hs IH Ha]; intros [|i] [|j] Hi Hj Hij; try done; try lia.
  - simplify_eq/=. apply dbl_le_refl.
  - simplify_eq/=. rewrite Forall_forall in Ha. apply Ha. by eapply list_elem_of_lookup_2.
  - eapply IH; [exact Hi|exact Hj|lia].
Qed.

(** ** The report *)
Definition valid_ts (ts : timespec) : Prop := 0 <= tv_sec ts < 2 ^ 62 ∧ normal ts.

Lemma mono_sec_finite ts : valid_ts ts → is_finite (mono_sec ts) = true.
Proof.
  intros [Hs Hn]. unfold normal in Hn. apply (upto_finite 65). unfold mono_sec.
  apply (dadd_upto _ _ 63); [apply (d_of_Z_upto _ 62); lia| |lia].
  assert (upto 3 (dmul (d_of_Z (tv_nsec ts)) (d_const 1 1000000000))) as [Ha Hsg].
  { apply (dmul_upto _ _ 31 (-29)); [apply (d_of_Z_upto _ 30); lia|vm_compute; split; [discriminate|done]|lia]. }
  split; [|done]. destruct (dmul _ _); try done. cbn in *. lia.
Qed.

Lemma rtt_not_nan x : valid_ts (x_before x) → valid_ts (x_after x) → is_nan (x_rtt x) = false.
Proof. intros H1 H2. apply dsub_not_nan; by apply mono_sec_finite. Qed.

(** What the report says of the samples [l] with packets of [sz] bytes: [s] is the
    samples in ascending order, whose ends are the shortest and the longest time. *)
Definition reports (elapsed : double) (sz rt : Z) (l : list double) (st : stats) : Prop :=
  ∃ s, s ≡ₚ l ∧ StronglySorted dbl_le s ∧
  let n := d_of_Z (Z.of_nat (length l)) in
  s_count st = Z.of_nat (length l) ∧ s_elapsed st = elapsed ∧ s_rate st = rt ∧
  s_tps st = ddiv n elapsed ∧
  s_mbps st = ddiv (dmul (dmul (s_tps st) (d_of_Z sz)) (d_of_Z 2)) (d_of_Z (1024 * 1024)) ∧
  head s = Some (s_min st) ∧ last s = Some (s_max st) ∧
  s_mean st = ddiv (foldl dadd (d_of_Z 0) s) n ∧
  s_stddev st = dsqrt (ddiv (foldl dadd (d_of_Z 0)
    ((λ x, dmul (dsub x (s_mean st)) (dsub x (s_mean st))) <$> s)) n) ∧
  Forall2 (interpolated s) [d_of_Z 50; d_of_Z 75; d_of_Z 90; d_of_Z 95; d_of_Z 99; d_const 999 10] (s_pcts st).

Lemma foldl_fmap {A B C} (f : C → B → C) (g : A → B) l z :
  foldl f z (g <$> l) = foldl (λ acc x, f acc (g x)) z l.
Proof. revert z. induction l as [|x l IH]; intros z; [done|]. cbn. apply IH. Qed.

Lemma samples_written (l : list double) : mapM id (Some <$> l) = Some l.
Proof. induction l as [|x l IH]; [done|]. cbn. by rewrite IH. Qed.

Lemma print_stats_spec lat n l elapsed sz rt :
  0 < n <= MAX_SAMPLES → Z.of_nat (length l) = n → take (Z.to_nat n) lat = Some <$> l →
  Forall (λ x, is_nan x = false) l →
  ∃ st, print_stats lat n elapsed sz rt = Some (Some st) ∧ reports elapsed sz rt l st.
Proof.
  intros Hn Hlen Hlat Hnan. unfold print_stats. rewrite (proj2 (Z.leb_gt _ _)), Hlat, samples_written by lia.
  cbn [mbind option_bind].
  assert (Z.of_nat (length (qsort l)) = n) as Hq by (rewrite qsort_permutes; done).
  destruct (pcts_interpolate (qsort l) n percentiles) as (ps & Hps & Hint); [lia|done|by apply Forall_forall|].
  rewrite Hps. cbn [mbind option_bind].
  destruct (lookup_lt_is_Some_2 (qsort l) 0) as [mn Hmn]; [lia|].
  destruct (lookup_lt_is_Some_2 (qsort l) (Z.to_nat (n - 1))) as [mx Hmx]; [lia|].
  rewrite Hmn, Hmx. cbn [mbind option_bind]. eexists. split; [done|].
  exists (qsort l). split; [apply qsort_permutes|]. split; [by apply qsort_sorted|]. cbn. rewrite Hlen.
  split_and!; try done.
  - by destruct (qsort l); cbn in *; simplify_eq.
  - rewrite last_lookup. by replace (Init.Nat.pred (length (qsort l))) with (Z.to_nat (n - 1)) by lia.
  - by rewrite foldl_fmap.
Qed.

(** ** The program as a whole *)
Lemma tcp_connect_run sys host port f :
  ∃ fd f', tcp_connect sys host port f = Done fd f' ∧
    if ns_socket sys && ns_inet_pton sys host && ns_connect sys host (u16 port)
    then 0 <= fd ∧ fd ∉ f ∧ f' = {[fd]} ∪ f else fd = -1 ∧ f' = f.
Proof.
  pose proof (lowest_fd_spec f) as [Hfd H0]. unfold tcp_connect.
  assert (({[lowest_fd f]} ∪ f) ∖ {[lowest_fd f]} = f) as Hgone by set_solver.
  destruct (ns_socket sys); cbn [negb andb]; [|by eexists _, _]. step. step.
  destruct (ns_inet_pton sys host); cbn [negb andb].
  2:{ step. eexists _, _. split; [done|]. by rewrite Hgone. }
  destruct (ns_connect sys host (u16 port)); cbn [negb andb].
  - eexists _, _. by split_and!.
  - step. eexists _, _. split; [done|]. by rewrite Hgone.
Qed.

Lemma on_fds_done {A} (m : M (gset Z) A) c a f :
  m (cl_fds c) = Done a f → on_fds m c = Done a (Client f (cl_bench c) (cl_report c)).
Proof. unfold on_fds. by intros ->. Qed.
Lemma on_bench_done {A} (m : M bench A) c a b :
  m (cl_bench c) = Done a b → on_bench m c = Done a (Client (cl_fds c) b (cl_report c)).
Proof. unfold on_bench. by intros ->. Qed.

Lemma client_main_run sys host l o now now' warm xs ck c :
  settings l = Some o → normal now' → run_ends o warm xs →
  Forall (λ x, valid_ts (x_before x) ∧ valid_ts (x_after x)) xs →
  ∃ r c', client_main sys host l true true now now' warm xs ck c = Done r c' ∧ cl_fds c' = cl_fds c ∧
    if ns_socket sys && ns_inet_pton sys host && ns_connect sys host (u16 (port o))
    then r = 0 ∧ let n := b_n (cl_bench c') in
         0 <= n <= sample_cap o ∧ (0 < max_txns o → n <= max_txns o) ∧
         let samples := x_rtt <$> take (Z.to_nat n) xs in
         take (Z.to_nat n) (b_lat (cl_bench c')) = Some <$> samples ∧ Z.of_nat (length samples) = n ∧
         if n =? 0 then cl_report c' = Some None
         else ∃ st, cl_report c' = Some (Some st) ∧ reports (elapsed_of ck) (pkt_size o) (rate o) samples st
    else r = 1 ∧ cl_report c' = cl_report c.
Proof.
  intros Hs Hn He Hv. unfold client_main. rewrite Hs.
  destruct (tcp_connect_run sys host (port o) (cl_fds c)) as (fd & f & Hfd & Hcase).
  step_by (on_fds_done _ c _ _ Hfd). destruct (ns_socket sys && _ && _).
  2:{ destruct Hcase as [-> ->]. eexists _, _. split; [done|]. by split. }
  destruct Hcase as (H0 & Hnf & ->). rewrite (proj2 (Z.ltb_ge _ _) H0).
  pose proof (client_main_spec l o now now' warm xs (cl_bench c) Hs Hn He) as Hb.
  apply wp_done in Hb as (r & b' & Hrun & -> & Hcap & Hmax & Hlen & Hsm).
  step_by (on_bench_done _ (Client _ (cl_bench c) _) _ _ Hrun). cbn [negb andb]. step. cbn [cl_bench].
  set (n := b_n b') in *. pose proof (cap_bounds o) as Hcb. rewrite list_fmap_compose in Hsm.
  set (samples := x_rtt <$> take (Z.to_nat n) xs) in *.
  assert (Z.of_nat (length samples) = n) as Hls by (unfold samples; rewrite length_fmap, length_take; lia).
  assert (∃ st, print_stats (b_lat b') n (elapsed_of ck) (pkt_size o) (rate o) = Some st ∧
    if n =? 0 then st = None else ∃ s, st = Some s ∧ reports (elapsed_of ck) (pkt_size o) (rate o) samples s)
    as (st & Hst & Hrep).
  { destruct (Z.eqb_spec n 0) as [->|Hn0]; [by exists None|].
    edestruct (print_stats_spec (b_lat b') n samples) as (st & E & R); [lia|done|done| |by exists (Some st); eauto].
    apply Forall_fmap, Forall_take. eapply Forall_impl; [exact Hv|].
    intros x [H1 H2]. by apply rtt_not_nan. }
  rewrite Hst. step. step. erewrite bind_done by (by apply on_fds_done).
  eexists _, _. split; [done|]. split; [cbn; set_solver|]. split; [done|]. cbn [b_n cl_bench cl_report].
  do 2 (split; [done|]). fold n. fold samples. do 2 (split; [done|]).
  destruct (n =? 0); [by rewrite Hrep|]. destruct Hrep as (s & -> & R). eauto.
Qed.

(** The pause between transactions is the integer quotient that [EchoClient] uses. *)
Lemma period_ns_double o :
  0 < rate o < 2 ^ 31 → d_to_long (ddiv (d_of_Z 1000000000) (d_of_Z (rate o))) = Some (period_ns o).
Proof.
  intros H. unfold period_ns. rewrite (proj2 (Z.ltb_lt _ _)) by lia. by apply truncated_quotient.
Qed.
