(* ===== verification/Kcut.v ===== *)
(** * Shortcuts into the kernel's TCP code ([kcuttest/kcut.h], [kcut_tcpmsg.h],
    [kcut_tcpmsg.kc], [ktos.h])

    [kcut_tcp_read] and [kcut_tcp_write] call the kernel's [tcp_recvmsg] and
    [tcp_sendmsg] from the elevated thread instead of making a system call. The
    build chooses whether privilege is raised around each call
    ([BRACKET_PRIV]); otherwise the thread stays elevated between [kcut_init] and
    [kcut_cleanup] and every so often makes a real system call. Kernel code
    called while the thread is not elevated is a fault. The two functions themselves
    are in [KcutEvac], because they may take and give back a processor.

    What [symbi_fast_lower] does to a thread that is lowered already is not said
    anywhere in the repository; the state counts how often it happens. *)
From S2P Require Import Prelude.

Open Scope Z_scope.

(** The build options. *)
Record build := Build {
  BRACKET_PRIV : bool;
  BRACKET_STACK : bool;
  SHORTCUT : bool;
  EVACUATE : bool;
}.

(** What the kernel answers: whether a descriptor is open and has a file, the
    results of [tcp_recvmsg] and [tcp_sendmsg] on it and of [ksys_read] and
    [ksys_write] (a count or a negative errno), the results of the system calls
    [read] and [write] (a count or -1), [dlsym] of the stack symbol, and
    [getenv("KCUT_THRESHOLD")] as [atoi] reads it. *)
Record ksys := Ksys {
  k_fd_empty : Z → bool;
  k_tcp_recvmsg : Z → Z → Z;
  k_tcp_sendmsg : Z → Z → Z;
  k_ksys_read : Z → Z → Z;
  k_ksys_write : Z → Z → Z;
  k_read : Z → Z → Z;
  k_write : Z → Z → Z;
  k_dlsym_tos : option Z;
  k_threshold : option Z;
}.

(** How a message was passed. *)
Inductive path := Shortcut | Ksys_call | Syscall.

Record kcutw := Kcutw {
  kw_elevated : bool;
  kw_threshold : Z;        (* [KCUT_THRESHOLD] *)
  kw_read_cnt : Z;         (* [kcut_cnt] of [kcut_tcp_read] *)
  kw_write_cnt : Z;        (* [kcut_cnt] of [kcut_tcp_write] *)
  kw_tos : Z;              (* [kcut_tos_offset_val] *)
  kw_paths : list path;    (* the calls made so far *)
  kw_relowered : nat;      (* calls of [symbi_fast_lower] on a lowered thread *)
}.
Definition kcutw0 : kcutw := Kcutw false 0 0 0 0 [] 0.

Definition kset_elevated (b : bool) (w : kcutw) : kcutw :=
  Kcutw b (kw_threshold w) (kw_read_cnt w) (kw_write_cnt w) (kw_tos w) (kw_paths w) (kw_relowered w).
Definition kset_threshold (t : Z) (w : kcutw) : kcutw :=
  Kcutw (kw_elevated w) t (kw_read_cnt w) (kw_write_cnt w) (kw_tos w) (kw_paths w) (kw_relowered w).
Definition kset_read_cnt (n : Z) (w : kcutw) : kcutw :=
  Kcutw (kw_elevated w) (kw_threshold w) n (kw_write_cnt w) (kw_tos w) (kw_paths w) (kw_relowered w).
Definition kset_write_cnt (n : Z) (w : kcutw) : kcutw :=
  Kcutw (kw_elevated w) (kw_threshold w) (kw_read_cnt w) n (kw_tos w) (kw_paths w) (kw_relowered w).
Definition kset_tos (v : Z) (w : kcutw) : kcutw :=
  Kcutw (kw_elevated w) (kw_threshold w) (kw_read_cnt w) (kw_write_cnt w) v (kw_paths w) (kw_relowered w).
Definition took (p : path) (w : kcutw) : kcutw :=
  Kcutw (kw_elevated w) (kw_threshold w) (kw_read_cnt w) (kw_write_cnt w) (kw_tos w) (kw_paths w ++ [p]) (kw_relowered w).

Definition relower (w : kcutw) : kcutw :=
  Kcutw (kw_elevated w) (kw_threshold w) (kw_read_cnt w) (kw_write_cnt w) (kw_tos w) (kw_paths w) (S (kw_relowered w)).

Section kcut.
Context (b : build) (ks : ksys).

Definition ksym_elevate : M kcutw unit := modifyM (kset_elevated true).
Definition ksymbi_fast_lower : M kcutw unit :=
modifyM (λ w, if kw_elevated w then kset_elevated false w else relower w).
Definition in_kernel {A} (f : M kcutw A) : M kcutw A :=
w ← getM; if kw_elevated w then f else faultM.

(** *** [kcut_tcpmsg.kc] *)
Definition kcut_tcp_recvmsg (fd len : Z) : M kcutw Z :=
in_kernel (_ ← modifyM (took Shortcut);
           if k_fd_empty ks fd then mret 0 else mret (i32 (k_tcp_recvmsg ks fd len))).
Definition kcut_tcp_sendmsg (fd len : Z) : M kcutw Z :=
in_kernel (_ ← modifyM (took Shortcut);
           if k_fd_empty ks fd then mret 0 else mret (i32 (k_tcp_sendmsg ks fd len))).
Definition ksys_read (fd len : Z) : M kcutw Z :=
in_kernel (_ ← modifyM (took Ksys_call); mret (k_ksys_read ks fd len)).
Definition ksys_write (fd len : Z) : M kcutw Z :=
in_kernel (_ ← modifyM (took Ksys_call); mret (k_ksys_write ks fd len)).

(** *** [ktos.h] *)
Definition kcut_tos_offset : M kcutw Z :=
w ← getM;
_ ← (if kw_tos w =? 0 then
       match k_dlsym_tos ks with
       | Some v => modifyM (kset_tos v)
       | None => _ ← modifyM (kset_tos 0); abortM
       end
     else mret tt);
getsM kw_tos.

(** [stack_switch_kcall] runs a thunk on the kernel stack. *)
Definition stack_switch_kcall (tos : Z) (thunk : M kcutw Z) : M kcutw Z := in_kernel thunk.

(** *** [kcut.h], [kcut_tcpmsg.h] *)
Definition ELEVATE_ME : M kcutw unit := if BRACKET_PRIV b then ksym_elevate else mret tt.
Definition LOWER_ME : M kcutw unit := if BRACKET_PRIV b then ksymbi_fast_lower else mret tt.

Definition kcut_tcp_recvmsg_thunk (fd len : Z) : M kcutw Z :=
if SHORTCUT b then kcut_tcp_recvmsg fd len else ksys_read fd len.
Definition kcut_tcp_sendmsg_thunk (fd len : Z) : M kcutw Z :=
if SHORTCUT b then kcut_tcp_sendmsg fd len else ksys_write fd len.

(** The part of both functions that enters the kernel; [thunk] is what runs
  there. *)
Definition enter_kernel (thunk : M kcutw Z) : M kcutw Z :=
_ ← ELEVATE_ME;
ret ← (if BRACKET_STACK b then tos ← kcut_tos_offset; stack_switch_kcall tos thunk else thunk);
_ ← LOWER_ME;
mret (i32 ret).

Definition kcut_tcp_read (fd count : Z) : M kcutw Z :=
if BRACKET_PRIV b then enter_kernel (kcut_tcp_recvmsg_thunk fd count)
else
  w ← getM;
  if negb (kw_read_cnt w =? 0) then
    ret ← enter_kernel (kcut_tcp_recvmsg_thunk fd count);
    _ ← modifyM (λ w, kset_read_cnt (i32 (kw_read_cnt w - 1)) w);
    mret ret
  else
    _ ← modifyM (took Syscall);
    _ ← modifyM (λ w, kset_read_cnt (kw_threshold w) w);
    mret (i32 (k_read ks fd count)).

Definition kcut_tcp_write (fd count : Z) : M kcutw Z :=
if BRACKET_PRIV b then enter_kernel (kcut_tcp_sendmsg_thunk fd count)
else
  w ← getM;
  if negb (kw_write_cnt w =? 0) then
    ret ← enter_kernel (kcut_tcp_sendmsg_thunk fd count);
    _ ← modifyM (λ w, kset_write_cnt (i32 (kw_write_cnt w - 1)) w);
    mret ret
  else
    _ ← modifyM (took Syscall);
    _ ← modifyM (λ w, kset_write_cnt (kw_threshold w) w);
    mret (i32 (k_write ks fd count)).

(** *** A program's sequence of messages *)
Inductive op := Read (fd count : Z) | Write (fd count : Z).
Definition run_op (o : op) : M kcutw Z :=
match o with Read fd n => kcut_tcp_read fd n | Write fd n => kcut_tcp_write fd n end.
Fixpoint run_ops (l : list op) : M kcutw (list Z) :=
match l with [] => mret [] | o :: l => r ← run_op o; rs ← run_ops l; mret (r :: rs) end.
End kcut.

(** ** The schedule of system calls *)
Section schedule.
Context (b : build) (ks : ksys).

(** How the [n]th message of its kind goes. *)
Definition kernel_path : path := if SHORTCUT b then Shortcut else Ksys_call.
Definition nth_path (t : Z) (n : nat) : path :=
if BRACKET_PRIV b then kernel_path
else if Z.of_nat n mod (t + 1) =? 0 then Syscall else kernel_path.

(** What a message returns on each way. *)
Definition raw (p : path) (o : op) : Z :=
match o, p with
| Read fd n, Syscall => k_read ks fd n
| Read fd n, Shortcut => if k_fd_empty ks fd then 0 else i32 (k_tcp_recvmsg ks fd n)
| Read fd n, Ksys_call => k_ksys_read ks fd n
| Write fd n, Syscall => k_write ks fd n
| Write fd n, Shortcut => if k_fd_empty ks fd then 0 else i32 (k_tcp_sendmsg ks fd n)
| Write fd n, Ksys_call => k_ksys_write ks fd n
end.
Definition answer (p : path) (o : op) : Z := i32 (raw p o).

(** [nr] reads and [nw] writes have been made before. *)
Fixpoint expected (t : Z) (nr nw : nat) (l : list op) : list (path * Z) :=
match l with
| [] => []
| o :: l =>
    match o with
    | Read _ _ => (nth_path t nr, answer (nth_path t nr) o) :: expected t (S nr) nw l
    | Write _ _ => (nth_path t nw, answer (nth_path t nw) o) :: expected t nr (S nw) l
    end
end.

(** The counter after [n] messages. *)
Definition cnt_after (t : Z) (n : nat) : Z := (- Z.of_nat n) mod (t + 1).

Lemma cnt_zero t n : 0 <= t → (cnt_after t n =? 0) = (Z.of_nat n mod (t + 1) =? 0).
Proof.
intros Ht. unfold cnt_after. destruct (Z.eqb_spec (Z.of_nat n mod (t + 1)) 0) as [E|E].
- apply Z.eqb_eq. by apply Z.mod_opp_l_z; [lia|].
- apply Z.eqb_neq. rewrite Z.mod_opp_l_nz by lia.
  pose proof (Z.mod_pos_bound (Z.of_nat n) (t + 1) ltac:(lia)). lia.
Qed.

Lemma cnt_next t n :
0 <= t → cnt_after t (S n) = if cnt_after t n =? 0 then t else cnt_after t n - 1.
Proof.
intros Ht. pose proof (Z.mod_pos_bound (- Z.of_nat n) (t + 1) ltac:(lia)) as Hb. unfold cnt_after in *.
replace (- Z.of_nat (S n)) with (- Z.of_nat n - 1) by lia.
pose proof (Z.div_mod (- Z.of_nat n) (t + 1) ltac:(lia)) as Hd.
set (q := - Z.of_nat n / (t + 1)) in *. set (r := (- Z.of_nat n) mod (t + 1)) in *.
destruct (Z.eqb_spec r 0) as [E|E].
- symmetry. apply (Z.mod_unique_pos _ _ (q - 1)); lia.
- symmetry. apply (Z.mod_unique_pos _ _ q); lia.
Qed.

(** What holds between messages. *)
Record ready (t : Z) (nr nw : nat) (w : kcutw) : Prop := {
rd_priv : kw_elevated w = negb (BRACKET_PRIV b);
rd_thr : kw_threshold w = t;
rd_rcnt : BRACKET_PRIV b = false → kw_read_cnt w = cnt_after t nr;
rd_wcnt : BRACKET_PRIV b = false → kw_write_cnt w = cnt_after t nw;
rd_low : kw_relowered w = 0%nat;
}.

(** Entering the kernel: the thunk runs elevated, and privilege comes back. *)
Lemma enter_run thunk p v w :
(BRACKET_STACK b = true → k_dlsym_tos ks ≠ None) →
kw_elevated w = negb (BRACKET_PRIV b) →
(∀ w', kw_elevated w' = true → thunk w' = Done v (took p w')) →
∃ w', enter_kernel b ks thunk w = Done (i32 v) w' ∧ kw_elevated w' = kw_elevated w ∧
  kw_threshold w' = kw_threshold w ∧ kw_read_cnt w' = kw_read_cnt w ∧
  kw_write_cnt w' = kw_write_cnt w ∧ kw_paths w' = kw_paths w ++ [p] ∧ kw_relowered w' = kw_relowered w.
Proof.
intros Htos Hel Hth. unfold enter_kernel.
set (w1 := kset_elevated true w).
rewrite (bind_done _ _ w tt w1).
2:{ unfold ELEVATE_ME, w1. destruct (BRACKET_PRIV b); [done|]. destruct w; cbn in *. by subst. }
assert (∃ w2, (if BRACKET_STACK b then tos ← kcut_tos_offset ks; stack_switch_kcall tos thunk else thunk) w1
    = Done v w2 ∧ kw_elevated w2 = true ∧ kw_threshold w2 = kw_threshold w ∧
    kw_read_cnt w2 = kw_read_cnt w ∧ kw_write_cnt w2 = kw_write_cnt w ∧ kw_paths w2 = kw_paths w ++ [p] ∧
    kw_relowered w2 = kw_relowered w)
  as (w2 & Hrun & H1 & H2 & H3 & H4 & H5 & H6).
{ destruct (BRACKET_STACK b); [|exists (took p w1); split; [by apply Hth|by split_and!]].
  assert (∃ v', kcut_tos_offset ks w1 = Done v' (kset_tos v' w1)) as [v' Hv'].
  { unfold kcut_tos_offset. rewrite (bind_done _ _ w1 w1 w1) by reflexivity.
    destruct (kw_tos w1 =? 0); [|exists (kw_tos w1); by destruct w].
    destruct (k_dlsym_tos ks) as [v'|]; [by exists v'|by destruct Htos]. }
  rewrite (bind_done _ _ _ _ _ Hv'). eexists. split; [|split_and!].
  - unfold stack_switch_kcall, in_kernel. step. by apply Hth.
  - done.
  - done.
  - done.
  - done.
  - done.
  - done. }
step_by Hrun. unfold LOWER_ME, ksymbi_fast_lower. destruct (BRACKET_PRIV b); cbn in Hel.
- eexists. split; [reflexivity|]. cbn. rewrite H1. by split_and!.
- eexists. split; [reflexivity|]. cbn. split_and!; congruence || done.
Qed.

Lemma recv_thunk_run fd n w :
kw_elevated w = true →
kcut_tcp_recvmsg_thunk b ks fd n w = Done (raw kernel_path (Read fd n)) (took kernel_path w).
Proof.
intros He. unfold kcut_tcp_recvmsg_thunk, kernel_path, kcut_tcp_recvmsg, ksys_read, in_kernel.
destruct (SHORTCUT b); rewrite (bind_done _ _ w w w), He by reflexivity;
  rewrite (bind_done _ _ w tt (took _ w)) by reflexivity; [|done].
unfold raw. by destruct (k_fd_empty ks fd).
Qed.

Lemma send_thunk_run fd n w :
kw_elevated w = true →
kcut_tcp_sendmsg_thunk b ks fd n w = Done (raw kernel_path (Write fd n)) (took kernel_path w).
Proof.
intros He. unfold kcut_tcp_sendmsg_thunk, kernel_path, kcut_tcp_sendmsg, ksys_write, in_kernel.
destruct (SHORTCUT b); rewrite (bind_done _ _ w w w), He by reflexivity;
  rewrite (bind_done _ _ w tt (took _ w)) by reflexivity; [|done].
unfold raw. by destruct (k_fd_empty ks fd).
Qed.

Context (Htos : BRACKET_STACK b = true → k_dlsym_tos ks ≠ None).

Lemma read_run t nr nw fd n w :
0 <= t < 2 ^ 31 → ready t nr nw w →
∃ w', kcut_tcp_read b ks fd n w = Done (answer (nth_path t nr) (Read fd n)) w' ∧
  ready t (S nr) nw w' ∧ kw_paths w' = kw_paths w ++ [nth_path t nr].
Proof.
intros Ht [Hp Hthr Hr Hw Hz].
destruct (enter_run _ kernel_path _ w Htos Hp (recv_thunk_run fd n)) as
  (w' & Hrun & He & Hth & Hrc & Hwc & Hpath & Hlow).
unfold kcut_tcp_read, nth_path. destruct (BRACKET_PRIV b) eqn:Eb.
{ exists w'. split; [done|]. split; [|done]. split; congruence. }
rewrite (bind_done _ _ w w w) by reflexivity. rewrite Hr, cnt_zero by (done || lia).
pose proof (cnt_next t nr ltac:(lia)) as Hnext. rewrite cnt_zero in Hnext by lia.
destruct (Z.of_nat nr mod (t + 1) =? 0); cbn [negb].
- eexists. split; [reflexivity|]. split; [|done].
  split; cbn; [by rewrite Eb|done|intros _; by rewrite Hthr, Hnext|intros _; by apply Hw|done].
- step_by Hrun. eexists. split; [reflexivity|]. split; [|done].
  split; cbn; [congruence|congruence| |intros _; by rewrite Hwc, Hw|congruence].
  intros _. rewrite Hrc, Hr, Hnext by done. apply i32_id.
  pose proof (Z.mod_pos_bound (- Z.of_nat nr) (t + 1) ltac:(lia)). unfold cnt_after. lia.
Qed.

Lemma write_run t nr nw fd n w :
0 <= t < 2 ^ 31 → ready t nr nw w →
∃ w', kcut_tcp_write b ks fd n w = Done (answer (nth_path t nw) (Write fd n)) w' ∧
  ready t nr (S nw) w' ∧ kw_paths w' = kw_paths w ++ [nth_path t nw].
Proof.
intros Ht [Hp Hthr Hr Hw Hz].
destruct (enter_run _ kernel_path _ w Htos Hp (send_thunk_run fd n)) as
  (w' & Hrun & He & Hth & Hrc & Hwc & Hpath & Hlow).
unfold kcut_tcp_write, nth_path. destruct (BRACKET_PRIV b) eqn:Eb.
{ exists w'. split; [done|]. split; [|done]. split; congruence. }
rewrite (bind_done _ _ w w w) by reflexivity. rewrite Hw, cnt_zero by (done || lia).
pose proof (cnt_next t nw ltac:(lia)) as Hnext. rewrite cnt_zero in Hnext by lia.
destruct (Z.of_nat nw mod (t + 1) =? 0); cbn [negb].
- eexists. split; [reflexivity|]. split; [|done].
  split; cbn; [by rewrite Eb|done|intros _; by apply Hr|intros _; by rewrite Hthr, Hnext|done].
- step_by Hrun. eexists. split; [reflexivity|]. split; [|done].
  split; cbn; [congruence|congruence|intros _; by rewrite Hrc, Hr| |congruence].
  intros _. rewrite Hwc, Hw, Hnext by done. apply i32_id.
  pose proof (Z.mod_pos_bound (- Z.of_nat nw) (t + 1) ltac:(lia)). unfold cnt_after. lia.
Qed.

Lemma run_ops_spec t nr nw l w :
0 <= t < 2 ^ 31 → ready t nr nw w →
∃ w' nr' nw', run_ops b ks l w = Done (snd <$> expected t nr nw l) w' ∧ ready t nr' nw' w' ∧
  kw_paths w' = kw_paths w ++ (fst <$> expected t nr nw l).
Proof.
intros Ht. revert nr nw w. induction l as [|o l IH]; intros nr nw w Hw.
{ exists w, nr, nw. cbn. by rewrite app_nil_r. }
destruct o as [fd n|fd n]; cbn [run_ops run_op expected].
- destruct (read_run t nr nw fd n w Ht Hw) as (w1 & Hrun & Hw1 & Hp1).
  destruct (IH (S nr) nw w1 Hw1) as (w' & nr' & nw' & Hrest & Hw' & Hp').
  exists w', nr', nw'. rewrite (bind_done _ _ _ _ _ Hrun), (bind_done _ _ _ _ _ Hrest).
  split; [done|]. split; [done|]. by rewrite Hp', Hp1, <- app_assoc.
- destruct (write_run t nr nw fd n w Ht Hw) as (w1 & Hrun & Hw1 & Hp1).
  destruct (IH nr (S nw) w1 Hw1) as (w' & nr' & nw' & Hrest & Hw' & Hp').
  exists w', nr', nw'. rewrite (bind_done _ _ _ _ _ Hrun), (bind_done _ _ _ _ _ Hrest).
  split; [done|]. split; [done|]. by rewrite Hp', Hp1, <- app_assoc.
Qed.

End schedule.
