(* ===== verification/Evacuate.v ===== *)
(** * Exclusive use of a processor ([kcuttest/evacuate.kc])

    [acquire_exclusive_cpu] pins the calling task to the processor it runs on,
    moves every other user task off it (or kills, on a machine with one
    processor) and raises its priority; [release_exclusive_cpu] puts the saved
    affinities back. Tasks are named by numbers; processor masks are finite
    sets.

    The mutex that serialises the calls and the spin lock of the list are part of
    the state. A call that takes a lock that is taken already waits for ever
    ([NoFuel]); one that gives back a lock that is free is wrong ([Fault]). The RCU
    read sections around the walks over the tasks are not represented. *)
From S2P Require Import Prelude.

Open Scope Z_scope.

Definition ENOMEM : Z := 12.
Definition EINVAL : Z := 22.
Definition EVAC_MIGRATE_ONLY : Z := 0.
Definition EVAC_KILL_NICELY : Z := 1.
Definition EVAC_KILL_ALLOTHERS : Z := 2.

Inductive policy := SCHED_NORMAL | SCHED_FIFO.

(** The members of [struct task_struct] that are used; [usage] is its reference
    count. *)
Record task := Task {
  pid : Z;
  kthread : bool;
  cpus_mask : gset Z;
  real_parent : option nat;
  signal : bool;
  session : Z;
  alive : bool;
  usage : Z;
  sched : policy * Z;
}.

(** A mask variable: it can be freed once. *)
Inductive cpumask_var := NoMask | Mask | FreedMask.

(** [evac_mutex] and [affinity_lock]: whether they are taken. *)
Record locks := Locks { evac_mutex : bool; affinity_lock : bool }.

Record evw := Evw {
  tasks : gmap nat task;
  saved_affinities : list (nat * gset Z);
  killed : list nat;
  target_mask : cpumask_var;
  other_mask : cpumask_var;
  held : locks;
}.

Definition set_tasks (f : gmap nat task → gmap nat task) (w : evw) : evw :=
  Evw (f (tasks w)) (saved_affinities w) (killed w) (target_mask w) (other_mask w) (held w).
Definition set_saved (l : list (nat * gset Z)) (w : evw) : evw :=
  Evw (tasks w) l (killed w) (target_mask w) (other_mask w) (held w).
Definition add_killed (t : nat) (w : evw) : evw :=
  Evw (tasks w) (saved_affinities w) (killed w ++ [t]) (target_mask w) (other_mask w) (held w).
Definition set_masks (t o : cpumask_var) (w : evw) : evw :=
  Evw (tasks w) (saved_affinities w) (killed w) t o (held w).
Definition set_held (h : locks) (w : evw) : evw :=
  Evw (tasks w) (saved_affinities w) (killed w) (target_mask w) (other_mask w) h.

Definition set_mask (m : gset Z) (t : task) : task :=
  Task (pid t) (kthread t) m (real_parent t) (signal t) (session t) (alive t) (usage t) (sched t).
Definition set_usage (u : Z) (t : task) : task :=
  Task (pid t) (kthread t) (cpus_mask t) (real_parent t) (signal t) (session t) (alive t) u (sched t).
Definition set_sched (p : policy * Z) (t : task) : task :=
  Task (pid t) (kthread t) (cpus_mask t) (real_parent t) (signal t) (session t) (alive t) (usage t) p.

(** The calling task and the machine: the processor it runs on, the processors
    that are online, their number, the order in which the tasks are visited;
    whether [kmalloc] for a task's record and the two mask allocations succeed;
    the result of raising the priority. *)
Record machine := Machine {
  current : nat;
  smp_processor_id : Z;
  cpu_online_mask : gset Z;
  nr_cpu_ids : Z;
  threads : list nat;
  kmalloc_ok : nat → bool;
  alloc_target : bool;
  alloc_other : bool;
  setattr_rc : Z;
}.

Section evacuate.
Context (mc : machine).

Definition load_task (t : nat) : M evw task := w ← getM; derefM (tasks w !! t).
Definition store_task (t : nat) (k : task) : M evw unit := modifyM (set_tasks <[t := k]>).

(** ** Locks *)
Definition mutex_lock : M evw unit :=
w ← getM;
if evac_mutex (held w) then nofuelM else modifyM (set_held (Locks true (affinity_lock (held w)))).
Definition mutex_unlock : M evw unit :=
w ← getM;
if evac_mutex (held w) then modifyM (set_held (Locks false (affinity_lock (held w)))) else faultM.
Definition spin_lock : M evw unit :=
w ← getM;
if affinity_lock (held w) then nofuelM else modifyM (set_held (Locks (evac_mutex (held w)) true)).
Definition spin_unlock : M evw unit :=
w ← getM;
if affinity_lock (held w) then modifyM (set_held (Locks (evac_mutex (held w)) false)) else faultM.

(** [set_cpus_allowed_ptr]: the kernel refuses a mask without a processor that
  is online. *)
Definition set_cpus_allowed_ptr (t : nat) (m : gset Z) : M evw unit :=
k ← load_task t;
if decide (m ∩ cpu_online_mask mc = ∅) then mret tt else store_task t (set_mask m k).

(** The reference count of a task; the structure is freed with its last
  reference. *)
Definition get_task_struct (t : nat) : M evw unit :=
k ← load_task t; store_task t (set_usage (usage k + 1) k).
Definition put_task_struct (t : nat) : M evw unit :=
k ← load_task t;
if usage k - 1 =? 0 then modifyM (set_tasks (delete t)) else store_task t (set_usage (usage k - 1) k).

Definition save_task_affinity (t : nat) : M evw Z :=
if kmalloc_ok mc t then
  _ ← get_task_struct t;
  k ← load_task t;
  _ ← spin_lock;
  w ← getM;
  _ ← modifyM (set_saved ((t, cpus_mask k) :: saved_affinities w));
  _ ← spin_unlock;
  mret 0
else mret (- ENOMEM).

(** The loop over the saved records. *)
Fixpoint restore_list (l : list (nat * gset Z)) (rc : Z) : M evw Z :=
match l with
| [] => mret rc
| (t, m) :: l =>
    let rc := if decide (t = current mc) then 0 else rc in
    k ← load_task t;
    _ ← (if alive k then set_cpus_allowed_ptr t m else mret tt);
    _ ← put_task_struct t;
    _ ← modifyM (set_saved l);
    restore_list l rc
end.
Definition restore_saved_affinities : M evw Z :=
_ ← spin_lock;
w ← getM;
rc ← restore_list (saved_affinities w) (-1);
_ ← spin_unlock;
mret rc.

(** [while (t && t->pid > 1)] *)
Fixpoint is_ancestor_loop (fuel : nat) (t : option nat) (task : nat) : M evw bool :=
match fuel with
| O => nofuelM
| S fuel =>
    match t with
    | None => mret false
    | Some t =>
        k ← load_task t;
        if 1 <? pid k then
          if decide (t = task) then mret true else is_ancestor_loop fuel (real_parent k) task
        else mret false
    end
end.
Definition is_ancestor (task : nat) : M evw bool :=
w ← getM; is_ancestor_loop (S (size (tasks w))) (Some (current mc)) task.

Definition should_preserve_migrate (t : nat) : M evw bool :=
k ← load_task t;
if pid k =? 1 then mret true
else if kthread k then mret true
else mret (bool_decide (t = current mc)).

Definition should_preserve_kill (t : nat) : M evw bool :=
b ← should_preserve_migrate t;
if b : bool then mret true
else a ← is_ancestor t;
     if a : bool then mret true
     else k ← load_task t; c ← load_task (current mc);
          mret (signal k && signal c && (session k =? session c)).

Fixpoint kill_loop (killifneeded : Z) (l : list nat) (n : Z) : M evw Z :=
match l with
| [] => mret n
| t :: l =>
    skip ← (if killifneeded <? 2 then should_preserve_kill t else mret false);
    if skip : bool then kill_loop killifneeded l n
    else _ ← (if 0 <? killifneeded then modifyM (add_killed t) else mret tt);
         kill_loop killifneeded l (n + 1)
end.
Definition killothers (killifneeded : Z) : M evw Z := kill_loop killifneeded (threads mc) 0.

Fixpoint migrate_loop (reserved_cpu : Z) (othermask : gset Z) (l : list nat) (migrated : Z) : M evw Z :=
match l with
| [] => mret migrated
| t :: l =>
    if decide (t = current mc) then migrate_loop reserved_cpu othermask l migrated
    else skip ← should_preserve_migrate t;
         if skip : bool then migrate_loop reserved_cpu othermask l migrated
         else k ← load_task t;
              if decide (reserved_cpu ∈ cpus_mask k) then
                _ ← save_task_affinity t;
                let thread_target_mask := othermask ∩ cpus_mask k in
                if decide (thread_target_mask = ∅)
                then migrate_loop reserved_cpu othermask l migrated
                else _ ← set_cpus_allowed_ptr t thread_target_mask;
                     migrate_loop reserved_cpu othermask l (migrated + 1)
              else migrate_loop reserved_cpu othermask l migrated
end.
Definition migrateothers (reserved_cpu : Z) (othermask : gset Z) : M evw Z :=
migrate_loop reserved_cpu othermask (threads mc) 0.

Definition sched_setattr_nocheck (p : policy * Z) : M evw unit :=
k ← load_task (current mc); store_task (current mc) (set_sched p k).

Definition free_mask (m : cpumask_var) : M evw cpumask_var :=
match m with NoMask => mret NoMask | Mask => mret FreedMask | FreedMask => faultM end.

(** The label [done]. *)
Definition acquire_done (rc : Z) : M evw Z :=
w ← getM;
t ← free_mask (target_mask w);
o ← free_mask (other_mask w);
_ ← modifyM (set_masks t o);
_ ← (if rc =? 0 then mret 0 else restore_saved_affinities);
_ ← mutex_unlock;
mret rc.

(** The second step: the other tasks are moved, or killed when there is no other
  processor; returns the new [rc]. *)
Definition take_care_of_others (reserved_cpu killifneeded : Z) (target : gset Z) : M evw Z :=
if Z.of_nat (size (cpu_online_mask mc)) =? 1 then
  mkcnt ← killothers killifneeded;
  mret (if (killifneeded =? 0) && (0 <? mkcnt) then - EINVAL else 0)
else
  mkcnt ← migrateothers reserved_cpu (cpu_online_mask mc ∖ target);
  mret (if mkcnt <? 0 then - EINVAL else 0).

(** From the moment both masks are allocated. *)
Definition acquire_body (reserved_cpu killifneeded : Z) : M evw Z :=
let target := {[reserved_cpu]} in
_ ← save_task_affinity (current mc);
_ ← set_cpus_allowed_ptr (current mc) target;
rc ← take_care_of_others reserved_cpu killifneeded target;
if negb (rc =? 0) then acquire_done rc
else
  _ ← (if setattr_rc mc =? 0 then sched_setattr_nocheck (SCHED_FIFO, 99) else mret tt);
  acquire_done (setattr_rc mc).

Definition acquire_exclusive_cpu (reserved_cpu killifneeded : Z) : M evw Z :=
_ ← modifyM (set_masks NoMask NoMask);
_ ← mutex_lock;
let reserved_cpu := smp_processor_id mc in
if (reserved_cpu <? 0) || (nr_cpu_ids mc <=? reserved_cpu) then acquire_done (- EINVAL)
else if negb (bool_decide (reserved_cpu ∈ cpu_online_mask mc)) then acquire_done (- EINVAL)
else if negb (alloc_target mc) then acquire_done (- ENOMEM)
else
  _ ← modifyM (set_masks Mask NoMask);
  if negb (alloc_other mc) then
    w ← getM; t ← free_mask (target_mask w); _ ← modifyM (set_masks t NoMask);
    acquire_done (- ENOMEM)
  else
    _ ← modifyM (set_masks Mask Mask);
    acquire_body reserved_cpu killifneeded.

(** The result is the one of [restore_saved_affinities], which only decides
  whether an error is logged. *)
Definition release_exclusive_cpu : M evw Z :=
_ ← mutex_lock;
rc ← restore_saved_affinities;
_ ← sched_setattr_nocheck (SCHED_NORMAL, 0);
_ ← mutex_unlock;
mret rc.
End evacuate.
