(* ===== verification/EvacuateSpec.v ===== *)
(** * Acquiring and releasing a processor

    What migration and restoration do to each task, and that releasing undoes
    acquiring. *)
From S2P Require Import Prelude Evacuate.

Open Scope Z_scope.

Section spec.
Context (mc : machine).
Implicit Types (w : evw) (k : task).

(** The masks, the kill log and the locks, which migration does not touch. *)
Definition frame w : list nat * cpumask_var * cpumask_var * locks :=
(killed w, target_mask w, other_mask w, held w).

(** The locks: nobody holds the mutex outside of a call, the spin lock is free
  outside of the two sections it protects. *)
Definition unlocked : locks := Locks false false.
Definition taken w : evw := set_held (Locks true false) w.

Lemma spin_lock_run w :
affinity_lock (held w) = false → spin_lock w = Done tt (set_held (Locks (evac_mutex (held w)) true) w).
Proof. intros H. unfold spin_lock. step. by rewrite H. Qed.
Lemma spin_unlock_run w :
affinity_lock (held w) = true → spin_unlock w = Done tt (set_held (Locks (evac_mutex (held w)) false) w).
Proof. intros H. unfold spin_unlock. step. by rewrite H. Qed.
Lemma mutex_lock_run w : held w = unlocked → mutex_lock w = Done tt (taken w).
Proof. intros H. unfold mutex_lock, taken. step. by rewrite H. Qed.
Lemma mutex_unlock_run w : held w = Locks true false → mutex_unlock w = Done tt (set_held unlocked w).
Proof. intros H. unfold mutex_unlock. step. by rewrite H. Qed.

Lemma load_task_run t k w : tasks w !! t = Some k → load_task t w = Done k w.
Proof. intros H. unfold load_task. rewrite (bind_done _ _ w w w) by reflexivity. by rewrite H. Qed.

(** ** Migration *)
Section migrate.
Context (cpu : Z) (other : gset Z).

(** Whether the task has to leave, and what becomes of it. *)
Definition moved k : bool :=
negb (pid k =? 1) && negb (kthread k) && bool_decide (cpu ∈ cpus_mask k).
Definition evicted_mask k : gset Z :=
if decide (other ∩ cpus_mask k = ∅) then cpus_mask k else other ∩ cpus_mask k.
Definition mig k : task :=
if moved k then set_mask (evicted_mask k) (set_usage (usage k + 1) k) else k.
(** The record that is saved for a task. *)
Definition record_of (ts : gmap nat task) (t : nat) : option (nat * gset Z) :=
match ts !! t with
| Some k => if bool_decide (t ≠ current mc) && moved k then Some (t, cpus_mask k) else None
| None => None
end.

Lemma preserve_run t k w :
tasks w !! t = Some k → t ≠ current mc →
should_preserve_migrate mc t w = Done ((pid k =? 1) || kthread k) w.
Proof.
intros Hk Hc. unfold should_preserve_migrate. step_by (load_task_run _ _ _ Hk).
destruct (pid k =? 1); [done|]. destruct (kthread k); [done|]. by rewrite bool_decide_eq_false_2.
Qed.

Hypothesis Hmem : ∀ t, kmalloc_ok mc t = true.
Hypothesis Hother : other ⊆ cpu_online_mask mc.

Lemma save_run t k w :
tasks w !! t = Some k → affinity_lock (held w) = false →
save_task_affinity mc t w =
Done 0 (Evw (<[t := set_usage (usage k + 1) k]> (tasks w)) ((t, cpus_mask k) :: saved_affinities w)
          (killed w) (target_mask w) (other_mask w) (held w)).
Proof.
intros Hk Hl. unfold save_task_affinity. rewrite Hmem.
erewrite bind_done by (unfold get_task_struct; step_by (load_task_run _ _ _ Hk); reflexivity).
erewrite (bind_done (load_task t)) by (apply load_task_run; apply lookup_insert_eq).
erewrite (bind_done spin_lock) by (by apply spin_lock_run). step. step.
erewrite (bind_done spin_unlock) by (by apply spin_unlock_run).
unfold mret, M_ret, set_held, set_saved. cbn. do 2 f_equal. destruct (held w) as [m []]; done.
Qed.

Lemma set_mask_run t k m w :
tasks w !! t = Some k → m ∩ cpu_online_mask mc ≠ ∅ →
set_cpus_allowed_ptr mc t m w = Done tt (set_tasks <[t := set_mask m k]> w).
Proof.
intros Hk Hm. unfold set_cpus_allowed_ptr. step_by (load_task_run _ _ _ Hk).
by rewrite decide_False.
Qed.

(** One task of the loop. *)
Lemma migrate_one t k l n w :
tasks w !! t = Some k → t ≠ current mc → affinity_lock (held w) = false →
∃ n', n <= n' ∧ migrate_loop mc cpu other (t :: l) n w =
migrate_loop mc cpu other l n'
  (Evw (<[t := mig k]> (tasks w)) (if moved k then (t, cpus_mask k) :: saved_affinities w else saved_affinities w)
     (killed w) (target_mask w) (other_mask w) (held w)).
Proof.
intros Hk Hc Hfree. cbn [migrate_loop]. rewrite decide_False by done.
step_by (preserve_run _ _ _ Hk Hc). unfold mig, moved.
destruct ((pid k =? 1) || kthread k) eqn:E.
{ exists n. split; [lia|]. rewrite <- negb_orb, E. cbn [negb andb]. rewrite insert_id by done. by destruct w. }
rewrite <- negb_orb, E. cbn [negb andb]. step_by (load_task_run _ _ _ Hk).
destruct (decide (cpu ∈ cpus_mask k)) as [Hin|Hin].
2:{ exists n. split; [lia|]. rewrite bool_decide_eq_false_2, insert_id by done. by destruct w. }
rewrite bool_decide_eq_true_2 by done. step_by (save_run _ _ _ Hk Hfree).
unfold evicted_mask. destruct (decide (other ∩ cpus_mask k = ∅)) as [He|He].
- exists n. split; [lia|]. done.
- exists (n + 1). split; [lia|]. erewrite bind_done;
  [|apply (set_mask_run _ (set_usage (usage k + 1) k)); [by apply lookup_insert_eq|set_solver]].
unfold set_tasks. cbn. by rewrite insert_insert_eq.
Qed.

Lemma migrate_spec l n w :
NoDup l → (∀ t, t ∈ l → is_Some (tasks w !! t)) → affinity_lock (held w) = false →
∃ n' w', migrate_loop mc cpu other l n w = Done n' w' ∧ n <= n' ∧ frame w' = frame w ∧
(∀ t, tasks w' !! t = if decide (t ∈ l ∧ t ≠ current mc) then mig <$> tasks w !! t else tasks w !! t) ∧
saved_affinities w' = reverse (omap (record_of (tasks w)) l) ++ saved_affinities w.
Proof.
revert n w. induction l as [|t l IH]; intros n w Hnd Hl Hfree.
{ exists n, w. split; [done|]. split; [lia|]. split; [done|]. split; [|done].
intros t. rewrite decide_False by set_solver. done. }
apply NoDup_cons in Hnd as [Hni Hnd].
destruct (decide (t = current mc)) as [Hc|Hc].
- destruct (IH n w Hnd ltac:(set_solver) Hfree) as (n' & w' & Hrun & Hn & Hf & Ht & Hs).
exists n', w'. cbn [migrate_loop]. rewrite decide_True by done. split; [done|]. split; [done|]. split; [done|].
split.
+ intros t'. rewrite Ht. destruct (decide (t' ∈ l ∧ t' ≠ current mc)), (decide (t' ∈ t :: l ∧ t' ≠ current mc));
    try done; exfalso; set_solver.
+ rewrite Hs. cbn [omap list_omap].
  assert (record_of (tasks w) t = None) as ->; [|done].
  unfold record_of. destruct (tasks w !! t); [|done]. by rewrite bool_decide_eq_false_2 by (by intros []).
- destruct (Hl t ltac:(set_solver)) as [k Hk].
destruct (migrate_one t k l n w Hk Hc Hfree) as (n1 & Hn1 & Hstep).
set (w1 := Evw _ _ _ _ _ _) in Hstep.
destruct (IH n1 w1 Hnd) as (n' & w' & Hrun & Hn & Hf & Ht & Hs).
{ intros t' Ht'. cbn. rewrite lookup_insert_ne by (by intros <-). apply Hl. set_solver. }
{ done. }
exists n', w'. rewrite Hstep. split; [done|]. split; [lia|]. split; [done|]. split.
+ intros t'. rewrite Ht. cbn. destruct (decide (t' = t)) as [->|Hne].
  * rewrite lookup_insert_eq, Hk. rewrite decide_False by set_solver. rewrite decide_True by set_solver. done.
  * rewrite lookup_insert_ne by done. destruct (decide (t' ∈ l ∧ t' ≠ current mc)),
      (decide (t' ∈ t :: l ∧ t' ≠ current mc)); try done; exfalso; set_solver.
+ rewrite Hs. cbn [omap list_omap saved_affinities w1].
  assert (omap (record_of (tasks w1)) l = omap (record_of (tasks w)) l) as ->.
  { apply list_omap_ext, Forall2_same_length_lookup. split; [done|]. intros i x y Hx Hy.
    rewrite Hx in Hy. injection Hy as <-. unfold record_of. cbn. rewrite lookup_insert_ne; [done|].
    intros <-. apply Hni. by eapply list_elem_of_lookup_2. }
  assert (record_of (tasks w) t = if moved k then Some (t, cpus_mask k) else None) as ->
    by (unfold record_of; by rewrite Hk, bool_decide_eq_true_2).
  destruct (moved k); [|done]. by rewrite reverse_cons, <- app_assoc.
Qed.
End migrate.

(** ** Restoration *)

(** What becomes of a task whose record is dropped; it is freed with its last
  reference. *)
Definition unpinned (m : gset Z) k : task :=
if alive k && negb (bool_decide (m ∩ cpu_online_mask mc = ∅)) then set_mask m k else k.
Definition put k : option task :=
if usage k - 1 =? 0 then None else Some (set_usage (usage k - 1) k).
Definition back (m : gset Z) k : option task := put (unpinned m k).

Lemma put_run t k w :
tasks w !! t = Some k → put_task_struct t w = Done tt (set_tasks (partial_alter (λ _, put k) t) w).
Proof.
intros Hk. unfold put_task_struct. step_by (load_task_run _ _ _ Hk). unfold put. by destruct (_ =? _).
Qed.

Lemma unpin_run t m k w :
tasks w !! t = Some k →
(if alive k then set_cpus_allowed_ptr mc t m else mret tt) w = Done tt (set_tasks <[t := unpinned m k]> w).
Proof.
intros Hk. unfold unpinned.
assert (set_tasks <[t := k]> w = w) as Hid by (unfold set_tasks; rewrite insert_id by done; by destruct w).
destruct (alive k); cbn [andb]; [|by rewrite Hid].
destruct (decide (m ∩ cpu_online_mask mc = ∅)) as [He|He].
- rewrite bool_decide_eq_true_2 by done. cbn [negb]. rewrite Hid. unfold set_cpus_allowed_ptr.
  step_by (load_task_run _ _ _ Hk). by rewrite decide_True.
- rewrite bool_decide_eq_false_2 by done. by apply set_mask_run.
Qed.

Lemma restore_one t m k l rc w :
tasks w !! t = Some k → saved_affinities w = (t, m) :: l →
restore_list mc ((t, m) :: l) rc w =
restore_list mc l (if decide (t = current mc) then 0 else rc)
  (Evw (partial_alter (λ _, back m k) t (tasks w)) l (killed w) (target_mask w) (other_mask w) (held w)).
Proof.
intros Hk Hs. cbn [restore_list]. step_by (load_task_run _ _ _ Hk). step_by (unpin_run _ m _ _ Hk).
erewrite bind_done by (apply put_run; apply lookup_insert_eq). step.
unfold set_tasks, set_saved, back. cbn. by rewrite partial_alter_insert_eq.
Qed.

Lemma restore_spec l rc w :
NoDup l.*1 → (∀ t, t ∈ l.*1 → is_Some (tasks w !! t)) → saved_affinities w = l →
∃ w', restore_list mc l rc w = Done (if decide (current mc ∈ l.*1) then 0 else rc) w' ∧
  frame w' = frame w ∧ saved_affinities w' = [] ∧
  (∀ t, t ∉ l.*1 → tasks w' !! t = tasks w !! t) ∧
  (∀ t m, (t, m) ∈ l → tasks w' !! t = tasks w !! t ≫= back m).
Proof.
revert rc w. induction l as [|[t m] l IH]; intros rc w Hnd Hl Hs.
{ exists w. rewrite decide_False by set_solver. split_and!; try done. set_solver. }
rewrite fmap_cons in Hnd, Hl. cbn [fst] in Hnd, Hl. apply NoDup_cons in Hnd as [Hni Hnd].
destruct (Hl t ltac:(set_solver)) as [k Hk]. rewrite (restore_one t m k l rc w Hk Hs).
set (w1 := Evw _ _ _ _ _ _).
destruct (IH (if decide (t = current mc) then 0 else rc) w1 Hnd) as (w' & Hrun & Hf & Hs' & Ho & Hb).
{ intros t' Ht'. cbn. rewrite lookup_partial_alter_ne by (by intros <-). apply Hl. set_solver. }
{ done. }
exists w'. rewrite Hrun. split_and!; try done.
- f_equal. rewrite fmap_cons. cbn [fst].
  destruct (decide (current mc ∈ l.*1)), (decide (t = current mc)),
    (decide (current mc ∈ t :: l.*1)); try done; exfalso; set_solver.
- intros t' Ht'. rewrite fmap_cons in Ht'. cbn [fst] in Ht'. apply not_elem_of_cons in Ht' as [? ?].
  rewrite Ho by done. cbn. by rewrite lookup_partial_alter_ne.
- intros t' m' [Heq|Hin]%elem_of_cons.
  + injection Heq as -> ->. rewrite Ho by done. cbn. by rewrite lookup_partial_alter_eq, Hk.
  + rewrite (Hb t' m' Hin). cbn. rewrite lookup_partial_alter_ne; [done|].
    intros <-. apply Hni. apply list_elem_of_fmap. by exists (t, m').
Qed.

(** The whole of [restore_saved_affinities], under the spin lock. *)
Lemma restore_saved_run rc w w' :
affinity_lock (held w) = false →
restore_list mc (saved_affinities w) (-1) (set_held (Locks (evac_mutex (held w)) true) w) = Done rc w' →
held w' = Locks (evac_mutex (held w)) true →
restore_saved_affinities mc w = Done rc (set_held (held w) w').
Proof.
intros Hl Hrun Hh. unfold restore_saved_affinities. step_by (spin_lock_run _ Hl). step. step_by Hrun.
erewrite bind_done by (apply spin_unlock_run; by rewrite Hh). rewrite Hh. cbn [evac_mutex].
unfold mret, M_ret. do 2 f_equal. destruct (held w) as [m []]; done.
Qed.

(** ** Acquiring *)

(** The call can go through: the processor is valid, memory is available,
  there are other processors, and nobody holds the locks or a processor. *)
Record can_acquire w : Prop := {
ca_cpu : 0 <= smp_processor_id mc < nr_cpu_ids mc;
ca_online : smp_processor_id mc ∈ cpu_online_mask mc;
ca_many : Z.of_nat (size (cpu_online_mask mc)) ≠ 1;
ca_mem : ∀ t, kmalloc_ok mc t = true;
ca_masks : alloc_target mc = true ∧ alloc_other mc = true;
ca_current : is_Some (tasks w !! current mc);
ca_threads : NoDup (threads mc) ∧ ∀ t, t ∈ threads mc → is_Some (tasks w !! t);
ca_saved : saved_affinities w = [];
ca_free : held w = unlocked;
}.

Definition cpu : Z := smp_processor_id mc.
Definition others : gset Z := cpu_online_mask mc ∖ {[cpu]}.

(** The caller between the two calls. *)
Definition pinned k : task := set_mask {[cpu]} (set_usage (usage k + 1) k).

(** The state when the other tasks have been moved. *)
Definition acquired w (w2 : evw) (sc : task → task) : Prop :=
(∀ t, t ≠ current mc → tasks w2 !! t =
   if decide (t ∈ threads mc) then mig cpu others <$> tasks w !! t else tasks w !! t) ∧
tasks w2 !! current mc = sc ∘ pinned <$> tasks w !! current mc ∧
killed w2 = killed w ∧ held w2 = unlocked ∧
∃ m, cpus_mask <$> tasks w !! current mc = Some m ∧
  saved_affinities w2 = reverse (omap (record_of cpu (tasks w)) (threads mc)) ++ [(current mc, m)].

Lemma record_of_ext ts ts' t :
(t ≠ current mc → ts' !! t = ts !! t) → (is_Some (ts !! t) ↔ is_Some (ts' !! t)) →
record_of cpu ts' t = record_of cpu ts t.
Proof.
intros Hne Hsome. unfold record_of. destruct (decide (t = current mc)) as [E|E]; [|by rewrite Hne].
rewrite bool_decide_eq_false_2 by (by intros []). by destruct (ts !! t), (ts' !! t).
Qed.

(** The state in which [acquire_body] starts, after the checks. *)
Lemma acquire_checks w r kin :
can_acquire w →
acquire_exclusive_cpu mc r kin w = acquire_body mc cpu kin (set_masks Mask Mask (taken w)).
Proof.
intros Hc. unfold acquire_exclusive_cpu. rewrite (bind_done _ _ w tt (set_masks NoMask NoMask w)) by reflexivity.
erewrite bind_done by (apply mutex_lock_run, (ca_free _ Hc)).
fold cpu. pose proof (ca_cpu _ Hc) as Hcpu. fold cpu in Hcpu.
rewrite (proj2 (Z.ltb_ge cpu 0)), (proj2 (Z.leb_gt (nr_cpu_ids mc) cpu)) by lia. cbn [orb].
rewrite bool_decide_eq_true_2 by apply (ca_online _ Hc). cbn [negb].
destruct (ca_masks _ Hc) as [-> ->]. cbn [negb]. by step.
Qed.

(** The caller is pinned and the others are moved. *)
Lemma acquire_moves w kin :
can_acquire w →
∃ w2, (_ ← save_task_affinity mc (current mc);
       _ ← set_cpus_allowed_ptr mc (current mc) {[cpu]};
       take_care_of_others mc cpu kin {[cpu]}) (set_masks Mask Mask (taken w)) = Done 0 w2 ∧
  acquired w (set_held unlocked w2) id ∧ target_mask w2 = Mask ∧ other_mask w2 = Mask ∧
  held w2 = Locks true false.
Proof.
intros Hc. destruct (ca_current _ Hc) as [kc Hkc].
set (w0 := set_masks Mask Mask (taken w)). assert (tasks w0 !! current mc = Some kc) as Hk0 by done.
rewrite (bind_done _ _ _ _ _ (save_run (ca_mem _ Hc) _ _ _ Hk0 eq_refl)).
erewrite bind_done; [|apply (set_mask_run _ (set_usage (usage kc + 1) kc)); [apply lookup_insert_eq|]].
2:{ pose proof (ca_online _ Hc). fold cpu in H. set_solver. }
unfold take_care_of_others. rewrite (proj2 (Z.eqb_neq _ _) (ca_many _ Hc)). fold others.
set (w1 := set_tasks _ _).
assert (tasks w1 = <[current mc := pinned kc]> (tasks w)) as Ht1.
{ unfold w1, set_tasks. cbn. by rewrite insert_insert_eq. }
destruct (migrate_spec cpu others (ca_mem _ Hc) ltac:(unfold others; set_solver) (threads mc) 0 w1)
  as (n & w2 & Hrun & Hn & Hf & Ht & Hs).
{ apply (ca_threads _ Hc). }
{ intros t Hin. rewrite Ht1. apply lookup_insert_is_Some'. right. by apply (ca_threads _ Hc). }
{ done. }
exists w2. split.
{ unfold migrateothers. step_by Hrun.
  by rewrite (proj2 (Z.ltb_ge n 0)). }
unfold frame in Hf. injection Hf as Hkl Htm Hom Hhd. split; [split_and!|by split]; cbn [set_held tasks killed saved_affinities held].
- intros t Hne. rewrite Ht, Ht1, lookup_insert_ne by done.
  destruct (decide (t ∈ threads mc)), (decide (t ∈ threads mc ∧ t ≠ current mc)); tauto || done.
- rewrite Ht, Ht1, lookup_insert_eq. rewrite decide_False by tauto. by rewrite Hkc.
- done.
- done.
- exists (cpus_mask kc). rewrite Hkc. split; [done|]. rewrite Hs.
  change (saved_affinities w1) with ((current mc, cpus_mask kc) :: saved_affinities w).
  rewrite (ca_saved _ Hc). f_equal. f_equal. apply list_omap_ext, Forall2_same_length_lookup. split; [done|].
  intros i x y Hx Hy. rewrite Hx in Hy. injection Hy as <-. apply record_of_ext; rewrite Ht1.
  + intros Hne. by rewrite lookup_insert_ne.
  + destruct (decide (x = current mc)) as [->|]; [by rewrite lookup_insert_eq, Hkc|by rewrite lookup_insert_ne].
Qed.

(** What the caller finds when the call returns, with the result of raising the
  priority: the state above, or everything put back. *)
Lemma bind3 {S A B C D} (m1 : M S A) (m2 : M S B) (m3 : M S C) (f : C → M S D) s c s' :
(_ ← m1; _ ← m2; m3) s = Done c s' → (_ ← m1; _ ← m2; x ← m3; f x) s = f c s'.
Proof.
unfold mbind, M_bind. destruct (m1 s) as [a s1| | | |]; try done.
destruct (m2 s1) as [b s2| | | |]; try done. by intros ->.
Qed.

Lemma acquire_ok w r kin :
can_acquire w → setattr_rc mc = 0 →
∃ w', acquire_exclusive_cpu mc r kin w = Done 0 w' ∧ acquired w w' (set_sched (SCHED_FIFO, 99)).
Proof.
intros Hc Hrc. rewrite acquire_checks by done.
destruct (acquire_moves w kin Hc) as (w2 & Hrun & (Hoth & Hcur & Hkl & _ & Hsv) & Htm & Hom & Hhd).
destruct (ca_current _ Hc) as [kc Hkc]. rewrite Hkc in Hcur. cbn in Hcur.
unfold acquire_body. rewrite (bind3 _ _ _ _ _ _ _ Hrun). cbn [Z.eqb negb]. rewrite Hrc. cbn [Z.eqb].
set (w3 := set_tasks <[current mc := set_sched (SCHED_FIFO, 99) (pinned kc)]> w2).
rewrite (bind_done _ _ w2 tt w3).
2:{ unfold sched_setattr_nocheck. by step_by (load_task_run _ _ _ Hcur). }
eexists. split.
{ unfold acquire_done. rewrite (bind_done _ _ w3 w3 w3) by reflexivity.
  change (target_mask w3) with (target_mask w2). change (other_mask w3) with (other_mask w2).
  rewrite Htm, Hom. do 4 step. erewrite bind_done by (by apply mutex_unlock_run). reflexivity. }
split_and!; cbn.
- intros t Hne. rewrite lookup_insert_ne by done. by apply Hoth.
- by rewrite lookup_insert_eq, Hkc.
- done.
- done.
- done.
Qed.

(** ** Releasing *)
Definition runnable k : Prop := alive k = true ∧ cpus_mask k ∩ cpu_online_mask mc ≠ ∅ ∧ 0 < usage k.

(** A task whose mask and count were changed gets both back. *)
Lemma back_held k m p :
runnable k →
back (cpus_mask k) (set_sched p (set_mask m (set_usage (usage k + 1) k))) = Some (set_sched p k).
Proof.
intros (Ha & Hm & Hu). unfold back, put, unpinned, set_mask, set_usage, set_sched. cbn. rewrite Ha.
rewrite bool_decide_eq_false_2 by done. cbn. rewrite (proj2 (Z.eqb_neq _ _)) by lia.
destruct k. cbn in *. do 2 f_equal; lia || done.
Qed.

Lemma back_mig k : runnable k → moved cpu k = true → back (cpus_mask k) (mig cpu others k) = Some k.
Proof.
intros Hr Hmv. unfold mig. rewrite Hmv. pose proof (back_held k (evicted_mask others k) (sched k) Hr) as Hb.
by destruct k.
Qed.

Lemma back_pinned k p : runnable k → back (cpus_mask k) (set_sched p (pinned k)) = Some (set_sched p k).
Proof. apply back_held. Qed.

Lemma records_keys ts (l : list nat) :
(omap (record_of cpu ts) l).*1 = filter (λ t, is_Some (record_of cpu ts t)) l.
Proof.
induction l as [|t l IH]; [done|]. cbn [omap list_omap]. rewrite filter_cons.
destruct (record_of cpu ts t) as [[t' m]|] eqn:E.
- rewrite decide_True by done. cbn. rewrite IH. f_equal.
  unfold record_of in E. destruct (ts !! t); [|done]. by destruct (_ && _); simplify_eq.
- rewrite decide_False by (by intros []). by rewrite IH.
Qed.

Lemma record_elem ts (l : list nat) t m :
(t, m) ∈ omap (record_of cpu ts) l ↔
t ∈ l ∧ t ≠ current mc ∧ ∃ k, ts !! t = Some k ∧ moved cpu k = true ∧ cpus_mask k = m.
Proof.
rewrite list_elem_of_omap. split.
- intros (t' & Hin & Hr). unfold record_of in Hr. destruct (ts !! t') as [k|] eqn:E; [|done].
  destruct (bool_decide (t' ≠ current mc)) eqn:Ec; [|done]. destruct (moved cpu k) eqn:Em; [|done].
  cbn in Hr. injection Hr as -> <-. apply bool_decide_eq_true in Ec. eauto 10.
- intros (Hin & Hc & k & Hk & Hm & <-). exists t. split; [done|].
  unfold record_of. by rewrite Hk, bool_decide_eq_true_2, Hm.
Qed.

(** Releasing undoes what acquiring did to every task. *)
Lemma release_undoes w w' sc :
can_acquire w → (∀ t k, tasks w !! t = Some k → runnable k) →
(∀ k, runnable k → back (cpus_mask k) (sc (pinned k)) = Some (sc k)) → acquired w (set_held unlocked w') sc → held w' = Locks true false →
∃ w'', restore_saved_affinities mc w' = Done 0 w'' ∧ saved_affinities w'' = [] ∧
  killed w'' = killed w ∧ held w'' = Locks true false ∧ ∀ t, tasks w'' !! t =
    if decide (t = current mc) then sc <$> tasks w !! t else tasks w !! t.
Proof.
intros Hc Hrn Hsc (Hoth & Hcur & Hkl & _ & m & Hm & Hsv) Hhd. cbn [set_held tasks killed saved_affinities] in *.
destruct (ca_threads _ Hc) as [Hnd Hth]. destruct (ca_current _ Hc) as [kc Hkc].
rewrite Hkc in Hcur, Hm. cbn in Hcur, Hm. injection Hm as <-.
set (recs := omap (record_of cpu (tasks w)) (threads mc)) in *.
assert (∀ t, t ∈ recs.*1 → t ∈ threads mc ∧ t ≠ current mc) as Hrec.
{ intros t [[t' m] [-> Hin]]%list_elem_of_fmap. apply record_elem in Hin as (? & ? & _). done. }
set (l := reverse recs ++ [(current mc, cpus_mask kc)]) in *.
assert (∀ t, t ∈ l.*1 ↔ t ∈ recs.*1 ∨ t = current mc) as Hl.
{ intros t. unfold l. rewrite fmap_app, fmap_reverse, elem_of_app, elem_of_reverse. cbn. set_solver. }
destruct (restore_spec l (-1) (set_held (Locks true true) w')) as (w'' & Hrun & Hf & Hs & Hsame & Hback).
{ unfold l. rewrite fmap_app, fmap_reverse. apply NoDup_app. split; [|split].
  - rewrite reverse_Permutation. unfold recs. rewrite records_keys. by apply NoDup_filter.
  - intros t Ht. rewrite elem_of_reverse in Ht. apply Hrec in Ht. cbn. set_solver.
  - apply NoDup_singleton. }
{ cbn [tasks set_held]. intros t [Ht| ->]%Hl; [|by rewrite Hcur]. apply Hrec in Ht as [Hin Hne]. rewrite Hoth by done.
  rewrite decide_True by done. destruct (Hth t Hin) as [k ->]. done. }
{ done. }
rewrite decide_True in Hrun by (apply Hl; by right). unfold frame in Hf. injection Hf as Hkl'' _ _ Hhd''.
exists (set_held (held w') w''). split.
{ apply restore_saved_run; [by rewrite Hhd|by rewrite Hsv, Hhd|by rewrite Hhd]. }
split; [done|]. split; [cbn; congruence|]. split; [done|]. cbn [tasks set_held] in *.
intros t. destruct (decide (t = current mc)) as [->|Hne].
- rewrite (Hback (current mc) (cpus_mask kc)) by (unfold l; apply elem_of_app; right; by left).
  rewrite Hcur, Hkc. cbn. apply Hsc. by eapply Hrn.
- destruct (decide (t ∈ recs.*1)) as [Hin|Hin].
  + apply list_elem_of_fmap in Hin as [[t' m] [Heq Hin]]. cbn in Heq. subst t'.
    rewrite (Hback t m) by (unfold l; apply elem_of_app; left; by apply elem_of_reverse).
    apply record_elem in Hin as (Ht & _ & k & Hk & Hmv & <-).
    rewrite Hoth, decide_True, Hk by done. cbn. apply back_mig; [by eapply Hrn|done].
  + rewrite Hsame by (rewrite Hl; tauto). rewrite Hoth by done. destruct (decide (t ∈ threads mc)) as [Ht|]; [|done].
    destruct (Hth t Ht) as [k Hk]. rewrite Hk. cbn. f_equal. unfold mig.
    destruct (moved cpu k) eqn:Hmv; [|done]. exfalso. apply Hin. apply list_elem_of_fmap.
    exists (t, cpus_mask k). split; [done|]. apply record_elem. eauto 10.
Qed.

Lemma release_ok w w' :
can_acquire w → (∀ t k, tasks w !! t = Some k → runnable k) →
acquired w w' (set_sched (SCHED_FIFO, 99)) →
∃ w'', release_exclusive_cpu mc w' = Done 0 w'' ∧ saved_affinities w'' = [] ∧
  killed w'' = killed w ∧ held w'' = unlocked ∧ ∀ t, tasks w'' !! t =
    if decide (t = current mc) then set_sched (SCHED_NORMAL, 0) <$> tasks w !! t else tasks w !! t.
Proof.
intros Hc Hrn Ha.
assert (held w' = unlocked) as Hfree by apply Ha.
assert (set_held unlocked (taken w') = w') as Hback by (destruct w'; cbn in *; by subst).
destruct (release_undoes w (taken w') (set_sched (SCHED_FIFO, 99)) Hc Hrn ltac:(intros; by apply back_pinned)) as (w1 & Hrun & Hs & Hk & Hh & Ht);
  [by rewrite Hback|done|].
destruct (ca_current _ Hc) as [kc Hkc].
assert (tasks w1 !! current mc = Some (set_sched (SCHED_FIFO, 99) kc)) as Hc1
  by (by rewrite Ht, decide_True, Hkc).
eexists. split.
{ unfold release_exclusive_cpu. step_by (mutex_lock_run _ Hfree). step_by Hrun. unfold sched_setattr_nocheck.
  erewrite bind_done by (step_by (load_task_run _ _ _ Hc1); reflexivity).
  erewrite bind_done by (by apply mutex_unlock_run). reflexivity. }
cbn. split; [done|]. split; [done|]. split; [done|]. intros t. destruct (decide (t = current mc)) as [->|Hne].
- by rewrite lookup_insert_eq, Hkc.
- rewrite lookup_insert_ne by done. by rewrite Ht, decide_False.
Qed.

(** When the priority cannot be raised, everything is put back before the call
  returns. *)
Lemma acquire_refused w r kin :
can_acquire w → (∀ t k, tasks w !! t = Some k → runnable k) → setattr_rc mc ≠ 0 →
∃ w', acquire_exclusive_cpu mc r kin w = Done (setattr_rc mc) w' ∧ tasks w' = tasks w ∧
  saved_affinities w' = [] ∧ killed w' = killed w ∧ held w' = unlocked.
Proof.
intros Hc Hrn Hrc. rewrite acquire_checks by done.
destruct (acquire_moves w kin Hc) as (w2 & Hrun & Ha & Htm & Hom & Hhd).
unfold acquire_body. rewrite (bind3 _ _ _ _ _ _ _ Hrun). cbn [Z.eqb negb].
rewrite (proj2 (Z.eqb_neq _ _) Hrc). rewrite (bind_done _ _ w2 tt w2) by reflexivity.
set (w3 := set_masks FreedMask FreedMask w2).
assert (acquired w (set_held unlocked w3) id) as Ha3 by exact Ha.
destruct (release_undoes w w3 id Hc Hrn) as (w' & Hres & Hs & Hk & Hh & Ht); [|done|done|].
{ intros k Hk. pose proof (back_pinned k (sched k) Hk) as Hb. by destruct k. }
exists (set_held unlocked w'). split.
{ unfold acquire_done. rewrite (bind_done _ _ w2 w2 w2) by reflexivity. rewrite Htm, Hom.
  do 3 step. fold w3. rewrite (proj2 (Z.eqb_neq _ _) Hrc).
  step_by Hres. by step_by (mutex_unlock_run _ Hh). }
split; [|by split_and!]. apply map_eq. intros t. cbn [tasks set_held]. rewrite Ht. case_decide; [|done]. by destruct (tasks w !! t).
Qed.

(** A second allocation failure frees the first mask twice. *)
Lemma acquire_double_free w r kin :
0 <= smp_processor_id mc < nr_cpu_ids mc → smp_processor_id mc ∈ cpu_online_mask mc →
alloc_target mc = true → alloc_other mc = false → held w = unlocked →
acquire_exclusive_cpu mc r kin w = Fault.
Proof.
intros Hcpu Hon Ht Ho Hh. unfold acquire_exclusive_cpu. step.
erewrite bind_done by (by apply mutex_lock_run).
rewrite (proj2 (Z.ltb_ge _ 0)), (proj2 (Z.leb_gt (nr_cpu_ids mc) _)) by lia. cbn [orb].
rewrite bool_decide_eq_true_2 by done. rewrite Ht, Ho. reflexivity.
Qed.
End spec.
