(* ===== verification/EvacuateKill.v ===== *)
(** * Killing the other tasks ([kcuttest/evacuate.kc])

    On a machine with one processor the other tasks cannot be moved. Which of
    them are killed: the walk along the parents ends, and with it the test
    whether a task is to be preserved; the loop over the threads collects exactly
    the others. *)
From S2P Require Import Prelude Evacuate EvacuateSpec.

Open Scope Z_scope.

Section kill.
Context (mc : machine) (ts : gmap nat task).

(** [a] is met on the way up from [t], which ends before [init]. *)
Inductive ancestor : nat → nat → Prop :=
| ancestor_self t k : ts !! t = Some k → 1 < pid k → ancestor t t
| ancestor_up t k p a :
  ts !! t = Some k → 1 < pid k → real_parent k = Some p → ancestor p a → ancestor t a.

(** The tasks form families: parents exist, and no task descends from itself. *)
Definition family (rank : nat → nat) : Prop :=
∀ t k, ts !! t = Some k → (rank t < size ts)%nat ∧
  ∀ p, real_parent k = Some p → is_Some (ts !! p) ∧ (rank p < rank t)%nat.

Lemma is_ancestor_run rank fuel t a w :
family rank → tasks w = ts → is_Some (ts !! t) → (S (rank t) < fuel)%nat →
∃ b : bool, is_ancestor_loop fuel (Some t) a w = Done b w ∧ (b = true ↔ ancestor t a).
Proof.
intros Hfam Hw. revert t. induction fuel as [|fuel IH]; intros t [k Hk] Hr; [lia|].
cbn [is_ancestor_loop]. step_by (load_task_run t k w ltac:(by rewrite Hw)).
destruct (Z.ltb_spec 1 (pid k)) as [Hp|Hp].
2:{ exists false. split; [done|]. split; [done|]. intros H. inversion H; simplify_eq; lia. }
destruct (decide (t = a)) as [->|Hne].
{ exists true. split; [done|]. split; [|done]. intros _. by eapply ancestor_self. }
destruct (real_parent k) as [p|] eqn:Ep.
- destruct (Hfam t k Hk) as [_ Hup]. destruct (Hup p Ep) as [Hsome Hlt].
  destruct (IH p Hsome) as (b & Hrun & Hb); [lia|]. exists b. split; [done|]. rewrite Hb. split.
  + intros Ha. by eapply ancestor_up.
  + intros Ha. inversion Ha; simplify_eq. done.
- destruct fuel as [|fuel]; [lia|]. exists false. split; [done|]. split; [done|].
  intros H. inversion H; simplify_eq.
Qed.

(** The tasks that are not killed unless all are to be. *)
Definition protected (t : nat) : Prop :=
∃ k c, ts !! t = Some k ∧ ts !! current mc = Some c ∧
  (pid k = 1 ∨ kthread k = true ∨ t = current mc ∨ ancestor (current mc) t ∨
   signal k = true ∧ signal c = true ∧ session k = session c).

Lemma preserve_kill_run rank t w :
family rank → tasks w = ts → is_Some (ts !! t) → is_Some (ts !! current mc) →
∃ b : bool, should_preserve_kill mc t w = Done b w ∧ (b = true ↔ protected t).
Proof.
intros Hfam Hw [k Hk] [c Hc].
destruct (is_ancestor_run rank (S (size ts)) (current mc) t w Hfam Hw ltac:(by eexists)) as (a & Ha & Hab).
{ destruct (Hfam _ _ Hc) as [Hr _]. lia. }
assert (∀ P : Prop, (P ↔ (pid k = 1 ∨ kthread k = true ∨ t = current mc ∨ ancestor (current mc) t ∨
   signal k = true ∧ signal c = true ∧ session k = session c)) → (P ↔ protected t)) as Hprot.
{ intros P HP. rewrite HP. unfold protected. split; [intros H; exists k, c; done|].
  intros (k' & c' & ? & ? & H). by simplify_eq. }
unfold should_preserve_kill, should_preserve_migrate.
rewrite (bind_done _ _ w ((pid k =? 1) || kthread k || bool_decide (t = current mc)) w).
2:{ step_by (load_task_run t k w ltac:(by rewrite Hw)). by destruct (pid k =? 1), (kthread k). }
destruct (Z.eqb_spec (pid k) 1) as [E1|E1]; cbn [orb]; [exists true; split; [done|apply Hprot; tauto]|].
destruct (kthread k) eqn:E2; cbn [orb]; [exists true; split; [done|apply Hprot; tauto]|].
destruct (bool_decide_reflect (t = current mc)) as [E3|E3]; [exists true; split; [done|apply Hprot; tauto]|].
rewrite (bind_done _ _ w a w) by (unfold is_ancestor; rewrite (bind_done _ _ w w w) by reflexivity; by rewrite Hw).
destruct a; [exists true; split; [done|apply Hprot; tauto]|].
step_by (load_task_run t k w ltac:(by rewrite Hw)).
step_by (load_task_run (current mc) c w ltac:(by rewrite Hw)).
eexists. split; [reflexivity|]. apply Hprot. rewrite !andb_true_iff, Z.eqb_eq.
assert (¬ ancestor (current mc) t) by (intros ?%Hab; done). intuition congruence.
Qed.

(** The state after the tasks of [l] have been killed. *)
Definition kill_list (l : list nat) (w : evw) : evw :=
Evw (tasks w) (saved_affinities w) (killed w ++ l) (target_mask w) (other_mask w) (held w).

Lemma kill_list_nil w : kill_list [] w = w.
Proof. unfold kill_list. rewrite app_nil_r. by destruct w. Qed.

(** The loop picks the threads that are not protected, all of them when the
  caller asks for it; they are killed unless it only asks to migrate. *)
Lemma kill_loop_run rank kin l n w :
family rank → tasks w = ts → is_Some (ts !! current mc) → (∀ t, t ∈ l → is_Some (ts !! t)) →
∃ victims, kill_loop mc kin l n w =
    Done (n + Z.of_nat (length victims)) (if 0 <? kin then kill_list victims w else w) ∧
  victims `sublist_of` l ∧ (∀ t, t ∈ victims ↔ t ∈ l ∧ (kin < 2 → ¬ protected t)) ∧
  (2 <= kin → victims = l).
Proof.
intros Hfam Hw Hcur. revert n w Hw. induction l as [|t l IH]; intros n w Hw Hl.
{ exists []. cbn. rewrite kill_list_nil, Z.add_0_r. split; [by destruct (0 <? kin)|]. split; [done|]. split; [set_solver|done]. }
cbn [kill_loop].
assert (∃ b : bool, (if kin <? 2 then should_preserve_kill mc t else mret false) w = Done b w ∧
  (b = true ↔ kin < 2 ∧ protected t)) as (b & Hb & Hiff).
{ destruct (Z.ltb_spec kin 2).
  - destruct (preserve_kill_run rank t w Hfam Hw) as (b & ? & Hb); [apply Hl; by left|done|].
    exists b. split; [done|]. tauto.
  - exists false. split; [done|]. split; [done|lia]. }
step_by Hb. destruct b.
- destruct (IH n w Hw) as (v & Hrun & Hsub & Hv & _); [intros; apply Hl; by right|].
  destruct Hiff as [[Hlt Hprot] _]; [done|].
  exists v. split; [done|]. split; [by apply sublist_cons|]. split; [|lia].
  intros t'. rewrite Hv, elem_of_cons. split; [tauto|]. intros [[->|] Hp]; tauto.
- set (w1 := if 0 <? kin then add_killed t w else w).
  rewrite (bind_done _ _ w tt w1) by (unfold w1; by destruct (0 <? kin)).
  destruct (IH (n + 1) w1) as (v & Hrun & Hsub & Hv & Hall).
  { unfold w1. by destruct (0 <? kin). }
  { intros. apply Hl. by right. }
  exists (t :: v). split; [|split; [|split]].
  + rewrite Hrun. cbn [length]. f_equal; [lia|]. unfold w1.
    destruct (0 <? kin); [|done]. unfold kill_list, add_killed. cbn. by rewrite <- app_assoc.
  + by apply sublist_skip.
  + intros t'. rewrite !elem_of_cons, Hv. split; [|tauto]. intros [->|]; [|tauto].
    split; [by left|]. intros Hlt Hp. by assert (false = true) by tauto.
  + intros Hge. by rewrite Hall.
Qed.
End kill.
