(* ===== verification/EvacuateHold.v ===== *)
(** * While a processor is held

    Between and beside the calls of [evacuate.kc] the other tasks go on: they exit, fork,
    change their affinity or their priority ([event], [occur]). Every record in the list
    of saved affinities holds a reference to its task; this file shows that in any
    sequence of such events and of calls, by any number of callers, the references
    suffice: no call uses the structure of a task that is gone, and every call gives
    both locks back. *)
From stdpp Require Import relations.
From S2P Require Import Prelude Evacuate EvacuateSpec EvacuateKill.

Open Scope Z_scope.

Implicit Types (w : evw) (k : task).

(** ** What the other tasks do *)
Inductive event :=
| Exit (t : nat)
| Fork (parent t : nat) (newpid : Z)
| Affine (t : nat) (m : gset Z)
| Sched (t : nat) (p : policy * Z).

Definition exited k : task :=
  Task (pid k) (kthread k) (cpus_mask k) (real_parent k) (signal k) (session k) false (usage k) (sched k).
Definition forked (parent : nat) (newpid : Z) k : task :=
  Task newpid (kthread k) (cpus_mask k) (Some parent) (signal k) (session k) true 1 (sched k).

(** A task that exits gives up the reference it has to itself. [None]: the event cannot
    happen. *)
Definition occur (e : event) (w : evw) : option evw :=
  match e with
  | Exit t =>
      k ← tasks w !! t;
      if alive k then Some (set_tasks (partial_alter (λ _, put (exited k)) t) w) else None
  | Fork parent t newpid =>
      k ← tasks w !! parent;
      if alive k && bool_decide (tasks w !! t = None ∧ 1 < newpid)
      then Some (set_tasks <[t := forked parent newpid k]> w) else None
  | Affine t m =>
      k ← tasks w !! t; if alive k then Some (set_tasks <[t := set_mask m k]> w) else None
  | Sched t p =>
      k ← tasks w !! t; if alive k then Some (set_tasks <[t := set_sched p k]> w) else None
  end.

(** ** References *)

(** The records that refer to a task, and the references a task must have. *)
Definition records (t : nat) (l : list (nat * gset Z)) : Z :=
  Z.of_nat (length (filter (λ r, r.1 = t) l)).
Definition refs (t : nat) (l : list (nat * gset Z)) k : Z := (if alive k then 1 else 0) + records t l.

Record refs_ok w : Prop := {
  ro_present : ∀ t, t ∈ (saved_affinities w).*1 → is_Some (tasks w !! t);
  ro_count : ∀ t k, tasks w !! t = Some k → 0 < usage k ∧ refs t (saved_affinities w) k <= usage k;
}.

Definition live (t : nat) w : Prop := ∃ k, tasks w !! t = Some k ∧ alive k = true.

Lemma records_cons t t' m l : records t ((t', m) :: l) = records t l + (if decide (t' = t) then 1 else 0).
Proof. unfold records. rewrite filter_cons. cbn [fst]. case_decide; cbn [length]; lia. Qed.

Lemma records_nonneg t l : 0 <= records t l.
Proof. unfold records. lia. Qed.

Lemma records_pos t l : 0 < records t l ↔ t ∈ l.*1.
Proof.
  induction l as [|[t' m] l IH]; [split; [unfold records; cbn; lia|intros []%elem_of_nil]|].
  rewrite records_cons, fmap_cons, elem_of_cons. cbn [fst]. pose proof (records_nonneg t l).
  destruct (decide (t' = t)) as [->|Hne]; [split; [by left|lia]|]. rewrite Z.add_0_r, IH. naive_solver.
Qed.

(** A task replaced by one with the same count and life. *)
Lemma refs_store w t k k' :
  refs_ok w → tasks w !! t = Some k → alive k' = alive k → usage k' = usage k →
  refs_ok (set_tasks <[t := k']> w).
Proof.
  intros [Hp Hc] Hk Ha Hu. split; cbn.
  - intros t' Ht'. destruct (decide (t' = t)) as [->|]; [by rewrite lookup_insert_eq|].
    rewrite lookup_insert_ne by done. by apply Hp.
  - intros t' k0. destruct (decide (t' = t)) as [->|].
    + rewrite lookup_insert_eq. intros [= <-]. unfold refs. rewrite Ha, Hu. by apply Hc.
    + rewrite lookup_insert_ne by done. by apply Hc.
Qed.

(** One reference and what it stood for are dropped. *)
Lemma refs_drop w t k k' l :
  refs_ok w → tasks w !! t = Some k → usage k' = usage k → refs t l k' <= usage k - 1 →
  (∀ t', t' ≠ t → records t' l = records t' (saved_affinities w)) →
  refs_ok (Evw (partial_alter (λ _, put k') t (tasks w)) l (killed w) (target_mask w) (other_mask w) (held w)).
Proof.
  intros [Hp Hc] Hk Hu Hr Hl. pose proof (records_nonneg t l) as Hn. unfold put. split; cbn.
  - intros t' Ht'%records_pos. destruct (decide (t' = t)) as [->|].
    + rewrite lookup_partial_alter_eq. destruct (Z.eqb_spec (usage k' - 1) 0); [|by eexists].
      unfold refs in Hr. destruct (alive k'); lia.
    + rewrite lookup_partial_alter_ne by done. apply Hp, records_pos. by rewrite <- Hl.
  - intros t' k0. destruct (decide (t' = t)) as [->|].
    + rewrite lookup_partial_alter_eq. destruct (Z.eqb_spec (usage k' - 1) 0); [done|]. intros [= <-]. cbn.
      destruct (Hc t k Hk). change (refs t l (set_usage (usage k' - 1) k')) with (refs t l k'). lia.
    + rewrite lookup_partial_alter_ne by done. unfold refs. rewrite Hl by done. by apply Hc.
Qed.

(** Events keep the references right. *)
Lemma occur_refs e w w' : refs_ok w → occur e w = Some w' → refs_ok w'.
Proof.
  intros H. destruct e as [t|p t n|t m|t p]; cbn; intros He.
  - destruct (tasks w !! t) as [k|] eqn:Hk; [|done]. cbn in He. destruct (alive k) eqn:Ha; [|done]. injection He as <-.
    apply (refs_drop w t k (exited k) (saved_affinities w) H Hk); [done| |done].
    destruct (ro_count _ H t k Hk) as [_ Hc]. unfold refs in *. rewrite Ha in Hc. cbn. lia.
  - destruct (tasks w !! p) as [k|]; [|done]. cbn in He. destruct (alive k && _) eqn:E; [|done]. injection He as <-.
    apply andb_true_iff in E as [_ [Ht Hn]%bool_decide_eq_true]. destruct H as [Hp Hc]. split; cbn.
    + intros t' Ht'. destruct (decide (t' = t)) as [->|]; [by rewrite lookup_insert_eq|].
      rewrite lookup_insert_ne by done. by apply Hp.
    + intros t' k'. destruct (decide (t' = t)) as [->|]; [|rewrite lookup_insert_ne by done; by apply Hc].
      rewrite lookup_insert_eq. intros [= <-]. split; [done|]. unfold refs. cbn.
      destruct (decide (t ∈ (saved_affinities w).*1)) as [Hin|Hni].
      * apply Hp in Hin. rewrite Ht in Hin. by destruct Hin.
      * rewrite <- records_pos in Hni. lia.
  - destruct (tasks w !! t) as [k|] eqn:Hk; [|done]. cbn in He. destruct (alive k); [|done]. injection He as <-.
    by eapply refs_store.
  - destruct (tasks w !! t) as [k|] eqn:Hk; [|done]. cbn in He. destruct (alive k); [|done]. injection He as <-.
    by eapply refs_store.
Qed.

(** ** Calls *)
Section calls.
Context (mc : machine).

(** The same tasks are there and alive, with the same parents; the mask variables and
  the locks are untouched. *)
Definition vital k : bool * option nat := (alive k, real_parent k).
Definition kept w w' : Prop :=
(∀ t, vital <$> tasks w' !! t = vital <$> tasks w !! t) ∧
target_mask w' = target_mask w ∧ other_mask w' = other_mask w ∧ held w' = held w.

#[local] Instance kept_refl : Reflexive kept.
Proof. by intros w. Qed.
#[local] Instance kept_trans : Transitive kept.
Proof. intros w1 w2 w3 (Ha & ? & ? & ?) (Hb & ? & ? & ?). split; [intros t; by rewrite Hb|]. split_and!; congruence. Qed.

Lemma kept_present w w' t : kept w w' → is_Some (tasks w !! t) → is_Some (tasks w' !! t).
Proof. intros [H _] Ht. specialize (H t). destruct Ht as [k Hk]. rewrite Hk in H. by destruct (tasks w' !! t). Qed.

Lemma kept_live w w' t : kept w w' → live t w → live t w'.
Proof.
intros [H _] (k & Hk & Ha). specialize (H t). rewrite Hk in H. cbn in H.
apply fmap_Some in H as (k' & Hk' & [= Ha' _]). exists k'. split; [done|]. congruence.
Qed.

Lemma kept_store w t k k' :
tasks w !! t = Some k → vital k' = vital k → kept w (set_tasks <[t := k']> w).
Proof.
intros Hk Ha. split; [|done]. intros t'. cbn. destruct (decide (t' = t)) as [->|].
- rewrite lookup_insert_eq, Hk. cbn. by rewrite Ha.
- by rewrite lookup_insert_ne.
Qed.

(** A computation that keeps the references right and the tasks there. *)
Definition careful {A} (m : M evw A) w : Prop := wp m (λ _ w', refs_ok w' ∧ kept w w') w.

Lemma careful_ret {A} (a : A) w : refs_ok w → careful (mret a) w.
Proof. done. Qed.

Lemma careful_bind {A B} (m : M evw A) (f : A → M evw B) w :
careful m w → (∀ a w', refs_ok w' → kept w w' → careful (f a) w') → careful (m ≫= f) w.
Proof.
intros Hm Hf. apply wp_bind. eapply wp_mono; [exact Hm|]. intros a w' [Hr Hk].
eapply wp_mono; [by apply Hf|]. intros b w'' [Hr' Hk']. split; [done|]. by transitivity w'.
Qed.

(** Loading a task that is there. *)
Lemma careful_load {B} t (f : task → M evw B) w :
is_Some (tasks w !! t) → (∀ k, tasks w !! t = Some k → careful (f k) w) → careful (load_task t ≫= f) w.
Proof.
intros [k Hk] Hf. unfold careful, wp. rewrite (bind_done _ _ _ _ _ (load_task_run _ _ _ Hk)). by apply Hf.
Qed.

Lemma careful_store t k k' w :
refs_ok w → tasks w !! t = Some k → vital k' = vital k → usage k' = usage k → careful (store_task t k') w.
Proof. intros ? ? [= ? ?] ?. split; [by eapply refs_store|]. eapply kept_store; [done|]. unfold vital. congruence. Qed.

Lemma careful_set_mask t m w : refs_ok w → is_Some (tasks w !! t) → careful (set_cpus_allowed_ptr mc t m) w.
Proof.
intros H Ht. apply careful_load; [done|]. intros k Hk. case_decide; [by apply careful_ret|].
by eapply careful_store.
Qed.

Lemma careful_setattr p w : refs_ok w → is_Some (tasks w !! current mc) → careful (sched_setattr_nocheck mc p) w.
Proof. intros H Ht. apply careful_load; [done|]. intros k Hk. by eapply careful_store. Qed.

Lemma careful_preserve t w : refs_ok w → is_Some (tasks w !! t) → careful (should_preserve_migrate mc t) w.
Proof. intros H Ht. apply careful_load; [done|]. intros k _. by repeat case_match. Qed.

Lemma careful_save t w :
refs_ok w → is_Some (tasks w !! t) → affinity_lock (held w) = false → careful (save_task_affinity mc t) w.
Proof.
intros H [k Hk] Hfree. unfold save_task_affinity. destruct (kmalloc_ok mc t); [|by apply careful_ret].
unfold careful, wp.
erewrite bind_done by (unfold get_task_struct; step_by (load_task_run _ _ _ Hk); reflexivity).
erewrite (bind_done (load_task t)) by (apply load_task_run; apply lookup_insert_eq).
erewrite (bind_done spin_lock) by (by apply spin_lock_run). step. step.
erewrite (bind_done spin_unlock) by (by apply spin_unlock_run).
assert (∀ w1, held w1 = Locks (evac_mutex (held w)) true →
  set_held (Locks (evac_mutex (held w1)) false) w1 = set_held (held w) w1) as Hback.
{ intros w1 ->. f_equal. by destruct (held w) as [? []]. }
unfold mret, M_ret. rewrite Hback by done. clear Hback. split.
- destruct H as [Hp Hc]. split; cbn.
  + intros t'. rewrite elem_of_cons. destruct (decide (t' = t)) as [->|]; [by rewrite lookup_insert_eq|].
    rewrite lookup_insert_ne by done. intros [?|?]; [done|by apply Hp].
  + intros t' k'. unfold refs. rewrite records_cons. destruct (decide (t = t')) as [<-|].
    * rewrite lookup_insert_eq. intros [= <-]. cbn. destruct (Hc t k Hk) as [? Hr]. unfold refs in Hr. lia.
    * rewrite lookup_insert_ne by done. rewrite Z.add_0_r. apply Hc.
- by apply (kept_store w t k).
Qed.

Lemma careful_migrate cpu other l n w :
refs_ok w → (∀ t, t ∈ l → is_Some (tasks w !! t)) → affinity_lock (held w) = false → careful (migrate_loop mc cpu other l n) w.
Proof.
revert n w. induction l as [|t l IH]; intros n w H Hl Hfree; [by apply careful_ret|].
assert (∀ w', kept w w' → affinity_lock (held w') = false) as Hf by (by intros w' (_ & _ & _ & ->)).
assert (∀ w', kept w w' → ∀ t', t' ∈ t :: l → is_Some (tasks w' !! t')) as Hl'
  by (intros w' Hk t' Ht'; eapply kept_present; [done|by apply Hl]).
assert (∀ w', kept w w' → ∀ t', t' ∈ l → is_Some (tasks w' !! t')) as Hl''
  by (intros w' Hk t' Ht'; apply Hl'; [done|by right]).
cbn [migrate_loop]. case_decide as Hcur; [apply IH; [done|by apply Hl''|done]|].
apply careful_bind; [apply careful_preserve; [done|apply Hl; left]|]. intros [] w1 H1 K1; [by apply IH; auto|].
apply careful_load; [apply (Hl' w1); [done|left]|]. intros k Hk. case_decide as Hcpu; [|by apply IH; auto].
apply careful_bind; [apply careful_save; [done|by eexists|by apply Hf]|]. intros _ w2 H2 K2.
assert (kept w w2) as K by (by transitivity w1).
cbn zeta. case_decide as Hemp; [by apply IH; auto|].
apply careful_bind; [apply careful_set_mask; [done|apply (Hl' w2); [done|left]]|]. intros _ w3 H3 K3.
assert (kept w w3) as K' by (by transitivity w2). apply IH; auto.
Qed.

(** Killing changes no task; the walks along the parents end. *)
Lemma family_kept w w' rank : kept w w' → family (tasks w) rank → family (tasks w') rank.
Proof.
intros [Hv _] Hf.
assert (∀ t k', tasks w' !! t = Some k' → ∃ k, tasks w !! t = Some k ∧ real_parent k = real_parent k') as Hback.
{ intros t k' Hk'. specialize (Hv t). rewrite Hk' in Hv. cbn in Hv. symmetry in Hv.
  apply fmap_Some in Hv as (k & Hk & [= _ Hp]). by exists k. }
assert (size (tasks w') = size (tasks w)) as Hsize.
{ rewrite <- !(size_dom (D := gset nat)). f_equal. apply set_eq. intros t. rewrite !elem_of_dom.
  specialize (Hv t). destruct (tasks w' !! t), (tasks w !! t); try done; split; intros _; by eexists. }
intros t k' Hk'. destruct (Hback t k' Hk') as (k & Hk & Hp). destruct (Hf t k Hk) as [Hr Hup].
rewrite Hsize, <- Hp. split; [done|]. intros p Ep. destruct (Hup p Ep) as [[q Hq] Hlt]. split; [|done].
specialize (Hv p). rewrite Hq in Hv. by destruct (tasks w' !! p).
Qed.

Lemma careful_kill rank kin w :
refs_ok w → family (tasks w) rank → is_Some (tasks w !! current mc) →
(∀ t, t ∈ threads mc → is_Some (tasks w !! t)) → careful (killothers mc kin) w.
Proof.
intros H Hf Hc Ht.
destruct (kill_loop_run mc (tasks w) rank kin (threads mc) 0 w Hf eq_refl Hc Ht) as (v & Hrun & _).
unfold careful, wp, killothers. rewrite Hrun. destruct (0 <? kin); (split; [by destruct H|done]).
Qed.

(** References right, nobody who was alive is gone, and both locks are free. *)
Definition safely {A} (m : M evw A) w : Prop :=
wp m (λ _ w', refs_ok w' ∧ (∀ t, live t w → live t w') ∧ held w' = unlocked) w.

Lemma safely_after {A B} (m : M evw A) (f : A → M evw B) w :
careful m w → (∀ a w', refs_ok w' → kept w w' → safely (f a) w') → safely (m ≫= f) w.
Proof.
intros Hm Hf. apply wp_bind. eapply wp_mono; [exact Hm|]. intros a w' [Hr Hk].
eapply wp_mono; [by apply Hf|]. intros b w'' (Hr' & Hl & Hh). split; [done|]. split; [|done].
intros t Ht. by eapply Hl, kept_live.
Qed.

Lemma restore_safe l rc w :
refs_ok w → saved_affinities w = l →
wp (restore_list mc l rc) (λ _ w', refs_ok w' ∧ (∀ t, live t w → live t w') ∧ saved_affinities w' = [] ∧
  frame w' = frame w) w.
Proof.
revert rc w. induction l as [|[t m] l IH]; intros rc w H Hs; [by apply wp_ret|].
destruct (ro_present _ H t) as [k Hk]; [rewrite Hs; by left|].
destruct (ro_count _ H t k Hk) as [_ Hc]. unfold refs in Hc. rewrite Hs, records_cons, decide_True in Hc by done.
unfold wp. rewrite (restore_one mc t m k l rc w Hk Hs).
assert (alive (unpinned mc m k) = alive k ∧ usage (unpinned mc m k) = usage k) as [Ha Hu]
  by (unfold unpinned; by destruct (_ && _)).
set (w1 := Evw _ _ _ _ _ _).
assert (refs_ok w1) as H1.
{ apply (refs_drop w t k); [done..| |].
  - unfold refs. rewrite Ha. lia.
  - intros t' Hne. rewrite Hs, records_cons, decide_False by done. lia. }
eapply (wp_mono (restore_list mc l _)); [by apply IH|]. intros _ w' (Hr & Hl & Hs' & Hf). split; [done|]. split; [|done].
intros t' (k' & Hk' & Ha'). apply Hl. unfold live. cbn. destruct (decide (t' = t)) as [->|].
- rewrite lookup_partial_alter_eq. rewrite Hk in Hk'. injection Hk' as <-. unfold back, put. rewrite Hu, Ha' in *.
  pose proof (records_nonneg t l). rewrite (proj2 (Z.eqb_neq _ _)) by lia. by eexists.
- rewrite lookup_partial_alter_ne by done. by exists k'.
Qed.

(** The references do not depend on the locks. *)
Lemma refs_held h w : refs_ok w → refs_ok (set_held h w).
Proof. by intros []. Qed.

Lemma restore_all_safe w :
refs_ok w → affinity_lock (held w) = false →
wp (restore_saved_affinities mc) (λ _ w', refs_ok w' ∧ (∀ t, live t w → live t w') ∧ saved_affinities w' = [] ∧
  frame w' = frame w) w.
Proof.
intros H Hl. set (w0 := set_held (Locks (evac_mutex (held w)) true) w).
destruct (proj1 (wp_done _ _ _) (restore_safe (saved_affinities w) (-1) w0 (refs_held _ _ H) eq_refl))
  as (rc & w' & Hrun & Hr & Hlive & Hs & Hf). unfold frame in Hf. injection Hf as Hk Ht Ho Hh.
apply wp_done. exists rc, (set_held (held w) w'). split; [by apply (restore_saved_run mc rc w w')|].
split; [by apply refs_held|]. split; [exact Hlive|]. split; [done|]. unfold frame. cbn. congruence.
Qed.

Lemma done_safe rc w :
refs_ok w → target_mask w ≠ FreedMask → other_mask w ≠ FreedMask → held w = Locks true false →
safely (acquire_done mc rc) w.
Proof.
intros H Ht Ho Hh. unfold acquire_done. apply wp_bind, wp_get.
assert (∃ t, free_mask (target_mask w) w = Done t w) as [t Hft] by (destruct (target_mask w); [by eexists..|done]).
assert (∃ o, free_mask (other_mask w) w = Done o w) as [o Hfo] by (destruct (other_mask w); [by eexists..|done]).
unfold wp. step_by Hft. step_by Hfo. step.
change (safely (_ ← (if rc =? 0 then mret 0 else restore_saved_affinities mc); _ ← mutex_unlock; mret rc) (set_masks t o w)).
assert (refs_ok (set_masks t o w)) as H' by (by destruct H).
assert (∀ w', held w' = Locks true false → refs_ok w' → (∀ t, live t w → live t w') →
  wp (_ ← mutex_unlock; mret rc) (λ _ w'', refs_ok w'' ∧ (∀ t, live t w → live t w'') ∧ held w'' = unlocked) w') as Hend.
{ intros w' Hh' Hr' Hl'. unfold wp. step_by (mutex_unlock_run _ Hh'). split; [by apply refs_held|]. by split. }
apply wp_bind. destruct (rc =? 0); [by apply Hend|].
eapply wp_mono; [apply restore_all_safe; [done|cbn; by rewrite Hh]|].
intros _ w' (Hr & Hl & _ & Hf). unfold frame in Hf. injection Hf as _ _ _ Hh'. by apply Hend; [rewrite Hh'; exact Hh|..].
Qed.

(** Who may call: a task that is alive; the tasks visited are there; and on a machine
  with one processor, where the parents of the caller are looked at, they are there
  too (the kernel gives the children of a task that exits another parent). *)
Record caller_ok w : Prop := {
co_current : live (current mc) w;
co_threads : ∀ t, t ∈ threads mc → is_Some (tasks w !! t);
co_family : Z.of_nat (size (cpu_online_mask mc)) = 1 → ∃ rank, family (tasks w) rank;
}.

(** The call gets as far as the second mask, and there is no memory for it. *)
Definition second_mask_fails : bool :=
bool_decide (0 <= smp_processor_id mc < nr_cpu_ids mc) && bool_decide (smp_processor_id mc ∈ cpu_online_mask mc) &&
alloc_target mc && negb (alloc_other mc).

Lemma acquire_frees_target r kin w :
held w = unlocked → second_mask_fails = true → acquire_exclusive_cpu mc r kin w = Fault.
Proof.
unfold second_mask_fails. rewrite !andb_true_iff, negb_true_iff, !bool_decide_eq_true.
intros Hh [[[Hcpu Hon] Ht] Ho]. by apply acquire_double_free.
Qed.

(** The other tasks are moved or killed. *)
Lemma careful_others kin target w :
refs_ok w → affinity_lock (held w) = false → is_Some (tasks w !! current mc) →
(∀ t, t ∈ threads mc → is_Some (tasks w !! t)) →
(Z.of_nat (size (cpu_online_mask mc)) = 1 → ∃ rank, family (tasks w) rank) →
careful (take_care_of_others mc (smp_processor_id mc) kin target) w.
Proof.
intros H Hf Hc Ht Hfam. unfold take_care_of_others.
destruct (Z.eqb_spec (Z.of_nat (size (cpu_online_mask mc))) 1) as [E|E].
- destruct (Hfam E) as [rank Hr]. apply careful_bind; [by apply (careful_kill rank)|intros; by apply careful_ret].
- apply careful_bind; [by apply careful_migrate|intros; by apply careful_ret].
Qed.

Lemma body_safe kin w :
refs_ok w → caller_ok w → held w = Locks true false → target_mask w = Mask → other_mask w = Mask →
safely (acquire_body mc (smp_processor_id mc) kin) w.
Proof.
intros H [Hcur Hth Hfam] Hh Htm Hom.
assert (is_Some (tasks w !! current mc)) as Hc by (destruct Hcur as (k & Hk & _); by eexists).
assert (∀ w' rc, refs_ok w' → kept w w' → safely (acquire_done mc rc) w') as Hdone.
{ intros w' rc Hr (_ & Et & Eo & Eh). apply done_safe; [done|..]; by rewrite ?Et, ?Eo, ?Eh, ?Htm, ?Hom, ?Hh. }
unfold acquire_body. apply safely_after; [apply careful_save; [done|done|by rewrite Hh]|]. intros _ w1 H1 K1.
apply safely_after; [apply careful_set_mask; [done|by eapply kept_present]|]. intros _ w2 H2 K2.
assert (kept w w2) as K02 by (by transitivity w1).
apply safely_after.
{ apply careful_others; [done|by rewrite (proj2 (proj2 (proj2 K02))), Hh|by eapply kept_present|..].
  - intros t Ht. eapply kept_present; [exact K02|]. by apply Hth.
  - intros E. destruct (Hfam E) as [rank Hr]. exists rank. by eapply family_kept. }
intros rc w3 H3 K3. assert (kept w w3) as K03 by (by transitivity w2).
destruct (negb (rc =? 0)); [by apply Hdone|].
apply safely_after.
{ destruct (setattr_rc mc =? 0); [|by apply careful_ret]. apply careful_setattr; [done|by eapply kept_present]. }
intros _ w4 H4 K4. apply Hdone; [done|]. by transitivity w3.
Qed.

Lemma acquire_safe r kin w :
refs_ok w → caller_ok w → held w = unlocked → second_mask_fails = false →
safely (acquire_exclusive_cpu mc r kin) w.
Proof.
intros H Hco Hh Hmask.
assert (∀ t o, refs_ok (set_masks t o (taken w))) as Hr by (intros; by destruct H).
unfold acquire_exclusive_cpu. apply wp_bind, wp_modify. apply wp_bind.
apply wp_done. exists tt, (set_masks NoMask NoMask (taken w)).
split; [by rewrite mutex_lock_run by done|]. cbn zeta.
assert (∀ rc, safely (acquire_done mc rc) (set_masks NoMask NoMask (taken w))) as Hdone by (intros rc; by apply done_safe).
unfold second_mask_fails in Hmask.
destruct (Z.ltb_spec (smp_processor_id mc) 0); [by apply Hdone|].
destruct (Z.leb_spec (nr_cpu_ids mc) (smp_processor_id mc)); [by apply Hdone|]. cbn [orb].
rewrite bool_decide_eq_true_2 in Hmask by lia. cbn [andb] in Hmask.
destruct (bool_decide (smp_processor_id mc ∈ _)); cbn [negb andb] in *; [|by apply Hdone].
destruct (alloc_target mc); cbn [negb andb] in *; [|by apply Hdone].
destruct (alloc_other mc); cbn [negb] in *; [|done].
apply wp_bind, wp_modify. apply wp_bind, wp_modify.
apply (body_safe kin (set_masks Mask Mask (taken w))); [done| |done..].
destruct Hco. by split.
Qed.

Lemma release_safe w :
refs_ok w → live (current mc) w → held w = unlocked →
wp (release_exclusive_cpu mc) (λ _ w', refs_ok w' ∧ (∀ t, live t w → live t w') ∧ held w' = unlocked ∧
  saved_affinities w' = []) w.
Proof.
intros H Hc Hh. unfold release_exclusive_cpu. apply wp_bind, wp_done. exists tt, (taken w).
split; [by apply mutex_lock_run|]. apply wp_bind.
eapply wp_mono; [apply restore_all_safe; [by apply refs_held|done]|]. intros rc w1 (H1 & Hl & Hs & Hf).
unfold frame in Hf. injection Hf as _ _ _ Hh1. destruct (Hl _ Hc) as (k & Hk & Hal).
unfold sched_setattr_nocheck, wp. erewrite bind_done by (step_by (load_task_run _ _ _ Hk); reflexivity).
erewrite bind_done by (by apply mutex_unlock_run). split; [|split; [|done]].
- by apply refs_held, (refs_store _ _ k).
- intros t (k' & Hk' & Ha'). destruct (Hl t) as (k1 & Hk1 & Hal1); [by exists k'|]. unfold live. cbn.
  destruct (decide (t = current mc)) as [->|]; [rewrite lookup_insert_eq; by eexists|].
  rewrite lookup_insert_ne by done. by exists k1.
Qed.
End calls.

(** ** Any sequence of events and calls

    The mutex makes the calls one after the other. *)
Inductive sys_step w : evw → Prop :=
| step_event e w' : occur e w = Some w' → sys_step w w'
| step_acquire mc r kin rc w' :
    caller_ok mc w → acquire_exclusive_cpu mc r kin w = Done rc w' → sys_step w w'
| step_release mc rc w' :
    live (current mc) w → release_exclusive_cpu mc w = Done rc w' → sys_step w w'.

Lemma safely_done {A} (m : M evw A) w a w' : safely m w → m w = Done a w' → refs_ok w' ∧ held w' = unlocked.
Proof. unfold safely, wp. intros H E. rewrite E in H. by destruct H as (? & _ & ?). Qed.

Lemma occur_held e w w' : occur e w = Some w' → held w' = held w.
Proof. destruct e; unfold occur, mbind, option_bind; intros Hw; repeat (case_match; [|done]); by injection Hw as <-. Qed.

(** Between calls nobody holds a lock, and the references are right. *)
Definition quiet w : Prop := refs_ok w ∧ held w = unlocked.

Lemma step_quiet w w' : quiet w → sys_step w w' → quiet w'.
Proof.
  intros [H Hh] [e w1 He|mc r kin rc w1 Hc Hrun|mc rc w1 Hc Hrun].
  - split; [by eapply occur_refs|]. by rewrite (occur_held _ _ _ He).
  - destruct (second_mask_fails mc) eqn:E; [by rewrite acquire_frees_target in Hrun|].
    eapply safely_done; [by apply (acquire_safe mc r kin w)|done].
  - pose proof (release_safe mc w H Hc Hh) as Hs. unfold wp in Hs. rewrite Hrun in Hs. by destruct Hs as (? & _ & ? & _).
Qed.

Lemma steps_quiet w w' : quiet w → rtc sys_step w w' → quiet w'.
Proof. intros H Hs. induction Hs; eauto using step_quiet. Qed.

Lemma refs_start w :
  saved_affinities w = [] → (∀ t k, tasks w !! t = Some k → 0 < usage k) → refs_ok w.
Proof.
  intros Hs Hu. split; rewrite Hs; [by intros ? ?%elem_of_nil|]. intros t k Hk. specialize (Hu t k Hk).
  unfold refs, records. cbn. destruct (alive k); lia.
Qed.

(** ** Holding the processor *)
Section hold.
Context (mc : machine).

(** The caller is alone on its processor, apart from [init], kernel threads and tasks
  that may run nowhere else. *)
Definition alone w : Prop :=
(∃ c, tasks w !! current mc = Some c ∧ alive c = true ∧
   cpus_mask c = {[smp_processor_id mc]} ∧ sched c = (SCHED_FIFO, 99)) ∧
∀ t k, t ≠ current mc → tasks w !! t = Some k → alive k = true → smp_processor_id mc ∈ cpus_mask k →
  pid k = 1 ∨ kthread k = true ∨ cpus_mask k ∩ cpu_online_mask mc ⊆ {[smp_processor_id mc]}.

(** Events that do not concern the caller: user tasks exit, fork, narrow their affinity
  or change their priority. ([init] and kernel threads were not moved, so what they fork
  may run anywhere; a task may always ask for more processors.) *)
Definition tolerated (e : event) w : Prop :=
match e with
| Exit t => t ≠ current mc
| Fork parent _ _ => parent ≠ current mc ∧ ∀ k, tasks w !! parent = Some k → pid k ≠ 1 ∧ kthread k = false
| Affine t m => t ≠ current mc ∧ ∀ k, tasks w !! t = Some k → m ⊆ cpus_mask k
| Sched t _ => t ≠ current mc
end.
Definition meanwhile w w' : Prop := ∃ e, tolerated e w ∧ occur e w = Some w'.

(** A task of another number is put in place of what was there. *)
Lemma alone_alter w t (o : option task) :
alone w → t ≠ current mc →
(∀ k, o = Some k → alive k = true → smp_processor_id mc ∈ cpus_mask k →
   pid k = 1 ∨ kthread k = true ∨ cpus_mask k ∩ cpu_online_mask mc ⊆ {[smp_processor_id mc]}) →
alone (set_tasks (partial_alter (λ _, o) t) w).
Proof.
intros [Hc Ho] Ht Hk. split; cbn.
- destruct Hc as (c & Hc & Hr). exists c. by rewrite lookup_partial_alter_ne.
- intros t' k Hne. destruct (decide (t' = t)) as [->|].
  + rewrite lookup_partial_alter_eq. intros ->. by apply Hk.
  + rewrite lookup_partial_alter_ne by done. by apply Ho.
Qed.

Lemma alone_event w w' : alone w → meanwhile w w' → alone w'.
Proof.
intros Ha (e & He & Hw). pose proof Ha as [Hc Ho].
destruct e as [t|p t n|t m|t p]; cbn in *.
- destruct (tasks w !! t) as [k|] eqn:Hk; [|done]. cbn in Hw. destruct (alive k); [|done]. injection Hw as <-.
  apply alone_alter; [done..|]. unfold put. intros k'. case_match; [done|]. by intros [= <-].
- destruct (tasks w !! p) as [k|] eqn:Hk; [|done]. cbn in Hw.
  destruct (alive k) eqn:Hal; [|done]. cbn in Hw. case_bool_decide as Hf; [|done]. injection Hw as <-.
  destruct He as [Hp He]. destruct (He k eq_refl) as [Hpid Hkt]. apply alone_alter; [done| |].
  + intros ->. destruct Hc as (c & Hc & _). destruct Hf as [Hf _]. by rewrite Hf in Hc.
  + intros k' [= <-] _ Hin. cbn in *. destruct (Ho p k Hp Hk Hal Hin) as [?|[?|?]]; [done|congruence|by right; right].
- destruct (tasks w !! t) as [k|] eqn:Hk; [|done]. cbn in Hw. destruct (alive k) eqn:Hal; [|done]. injection Hw as <-.
  destruct He as [Ht He]. specialize (He k eq_refl). apply alone_alter; [done..|]. intros k' [= <-] _ Hin. cbn in *.
  destruct (Ho t k Ht Hk Hal) as [?|[?|Hsub]]; [by apply He|by left|by right; left|right; right; set_solver].
- destruct (tasks w !! t) as [k|] eqn:Hk; [|done]. cbn in Hw. destruct (alive k) eqn:Hal; [|done]. injection Hw as <-.
  apply alone_alter; [done..|]. intros k' [= <-] _ Hin. cbn in *. by apply (Ho t k).
Qed.

Lemma event_frame w w' :
meanwhile w w' → saved_affinities w' = saved_affinities w ∧ killed w' = killed w ∧ held w' = held w.
Proof.
intros ([] & _ & Hw); unfold occur, mbind, option_bind in Hw;
  repeat (case_match; [|done]); by injection Hw as <-.
Qed.

Lemma meanwhile_held w1 w2 :
refs_ok w1 → alone w1 → rtc meanwhile w1 w2 →
refs_ok w2 ∧ alone w2 ∧ saved_affinities w2 = saved_affinities w1 ∧ killed w2 = killed w1 ∧ held w2 = held w1.
Proof.
intros Hr Ha Hs. induction Hs as [w1|w1 w w2 Hstep _ IH]; [done|].
destruct (event_frame _ _ Hstep) as (<- & <- & <-). apply IH; [|by eapply alone_event].
destruct Hstep as (e & _ & He). by eapply occur_refs.
Qed.

(** The list when the processor has been acquired: one record for the caller and one
  for each task that was moved. *)
Lemma saved_spec w w1 sc :
can_acquire mc w → acquired mc w w1 sc →
NoDup (saved_affinities w1).*1 ∧
∀ t m, (t, m) ∈ saved_affinities w1 ↔
  (t = current mc ∧ cpus_mask <$> tasks w !! t = Some m) ∨
  (t ∈ threads mc ∧ t ≠ current mc ∧
   ∃ k, tasks w !! t = Some k ∧ moved (smp_processor_id mc) k = true ∧ cpus_mask k = m).
Proof.
intros Hc (_ & _ & _ & _ & m0 & Hm0 & Hs). destruct (ca_threads _ _ Hc) as [Hnd _]. rewrite Hs. split.
- rewrite fmap_app, fmap_reverse. apply NoDup_app. split; [|split].
  + rewrite reverse_Permutation, records_keys. by apply NoDup_filter.
  + intros t Ht. rewrite elem_of_reverse in Ht. apply list_elem_of_fmap in Ht as ([t' m] & -> & Hin).
    apply record_elem in Hin as (_ & Hne & _). cbn. rewrite list_elem_of_singleton. done.
  + apply NoDup_singleton.
- intros t m. rewrite elem_of_app, elem_of_reverse, record_elem, list_elem_of_singleton. split.
  + intros [?|[= -> ->]]; [by right|by left].
  + intros [[-> Hm]|?]; [|by left]. right. rewrite Hm0 in Hm. by injection Hm as ->.
Qed.

Lemma acquired_alone w w1 :
can_acquire mc w → (∀ t k, tasks w !! t = Some k → runnable mc k) →
(∀ t, is_Some (tasks w !! t) → t ∈ threads mc) →
acquired mc w w1 (set_sched (SCHED_FIFO, 99)) → alone w1.
Proof.
intros Hc Hrn Hall (Hoth & Hcur & _). destruct (ca_current _ _ Hc) as [kc Hkc]. split.
{ rewrite Hcur, Hkc. eexists. split; [done|]. split; [by apply (Hrn _ _ Hkc)|done]. }
intros t k1 Hne Hk1 _ Hcpu. rewrite Hoth in Hk1 by done.
assert (is_Some (tasks w !! t)) as Hin.
{ case_decide; [|by eexists]. apply fmap_Some in Hk1 as (k & Htk & _). by eexists. }
rewrite decide_True in Hk1 by by apply Hall.
apply fmap_Some in Hk1 as (k & Htk & ->). unfold mig in *.
destruct (moved (cpu mc) k) eqn:Emv.
- cbn in Hcpu |- *. right. right. unfold evicted_mask, others, cpu in *. case_decide as Eo.
  { apply elem_of_subseteq. intros x [Hx Hon]%elem_of_intersection. apply elem_of_singleton.
    destruct (decide (x = smp_processor_id mc)); [done|]. exfalso.
    apply (not_elem_of_empty (C := gset Z) x). rewrite <- Eo.
    apply elem_of_intersection. split; [|done]. apply elem_of_difference. by rewrite elem_of_singleton. }
  apply elem_of_intersection in Hcpu as [[_ Hn]%elem_of_difference _].
  exfalso. apply Hn. by apply elem_of_singleton.
- unfold moved in Emv. rewrite bool_decide_eq_true_2 in Emv by done.
  destruct (Z.eqb_spec (pid k) 1); [by left|]. destruct (kthread k); [by right; left|done].
Qed.

(** Releasing after a while: each task that was moved is given its mask of before, if it
  is still alive, and a reference is dropped; tasks that were not moved, new ones among
  them, are left alone. *)
Lemma release_later w w1 w2 :
can_acquire mc w → (∀ t k, tasks w !! t = Some k → runnable mc k) →
(∀ t, is_Some (tasks w !! t) → t ∈ threads mc) →
acquired mc w w1 (set_sched (SCHED_FIFO, 99)) →
refs_ok w2 → alone w2 → saved_affinities w2 = saved_affinities w1 → held w2 = unlocked →
∃ w3, release_exclusive_cpu mc w2 = Done 0 w3 ∧ saved_affinities w3 = [] ∧ killed w3 = killed w2 ∧ held w3 = unlocked ∧
  (∀ t k, t ≠ current mc → tasks w !! t = Some k → moved (smp_processor_id mc) k = true →
     tasks w3 !! t = tasks w2 !! t ≫= back mc (cpus_mask k)) ∧
  (∀ t, t ≠ current mc → from_option (moved (smp_processor_id mc)) false (tasks w !! t) = false →
     tasks w3 !! t = tasks w2 !! t) ∧
  (∀ c c2, tasks w !! current mc = Some c → tasks w2 !! current mc = Some c2 →
     tasks w3 !! current mc =
     Some (set_sched (SCHED_NORMAL, 0) (set_mask (cpus_mask c) (set_usage (usage c2 - 1) c2)))).
Proof.
intros Hc Hrn Hall Ha Hr [(c2 & Hc2 & Hal & _) _] Hs Hfree. destruct (saved_spec _ _ _ Hc Ha) as [Hnd Hin]. rewrite <- Hs in *.
destruct (ca_current _ _ Hc) as [c Hcur].
assert ((current mc, cpus_mask c) ∈ saved_affinities w2) as Hself by (apply Hin; left; by rewrite Hcur).
assert (current mc ∈ (saved_affinities w2).*1) as Hself' by (apply list_elem_of_fmap; by exists (current mc, cpus_mask c)).
destruct (restore_spec mc (saved_affinities w2) (-1) (set_held (Locks true true) w2) Hnd (ro_present _ Hr) eq_refl)
  as (w' & Hrun & Hf & Hs' & Hother & Hback).
rewrite decide_True in Hrun by done. unfold frame in Hf. injection Hf as Hkl _ _ Hh'. cbn [tasks set_held] in *.
assert (tasks w' !! current mc = Some (set_mask (cpus_mask c) (set_usage (usage c2 - 1) c2))) as Hc'.
{ rewrite (Hback _ _ Hself), Hc2. cbn. unfold back, put, unpinned. rewrite Hal.
  rewrite bool_decide_eq_false_2 by (by apply (Hrn _ _ Hcur)). cbn.
  destruct (ro_count _ Hr _ _ Hc2) as [_ Hu]. unfold refs in Hu. rewrite Hal in Hu.
  apply records_pos in Hself'. by rewrite (proj2 (Z.eqb_neq _ _)) by lia. }
eexists. split.
{ unfold release_exclusive_cpu. step_by (mutex_lock_run _ Hfree).
  erewrite bind_done by (apply (restore_saved_run mc 0 (taken w2) w'); done). unfold sched_setattr_nocheck.
  erewrite bind_done by (by erewrite (bind_done (load_task _)) by (by apply load_task_run)).
  erewrite bind_done by (by apply mutex_unlock_run). reflexivity. }
cbn. split; [done|]. split; [done|]. split; [done|]. split; [|split].
- intros t k Hne Hk Hm. rewrite lookup_insert_ne by done. apply Hback, Hin. right.
  split; [apply Hall; by eexists|]. split; [done|]. by exists k.
- intros t Hne Hm. rewrite lookup_insert_ne by done. apply Hother. intros ([t' m] & -> & Hx)%list_elem_of_fmap.
  apply Hin in Hx as [[? _]|(_ & _ & k & Hk & Hm' & _)]; [done|]. cbn in *. rewrite Hk in Hm. cbn in Hm. congruence.
- intros c' c2' Hcur' Hc2'. rewrite Hcur in Hcur'. injection Hcur' as <-. rewrite Hc2 in Hc2'. injection Hc2' as <-.
  by rewrite lookup_insert_eq.
Qed.

Lemma back_record k k2 :
runnable mc k → (alive k2 = true → 1 < usage k2) →
back mc (cpus_mask k) k2 =
if alive k2 then Some (set_mask (cpus_mask k) (set_usage (usage k2 - 1) k2)) else put k2.
Proof.
intros (_ & Hm & _) Hu. unfold back, unpinned. destruct (alive k2); cbn [andb]; [|done].
rewrite bool_decide_eq_false_2 by done. unfold put. cbn. rewrite (proj2 (Z.eqb_neq _ _)); [done|]. specialize (Hu eq_refl). lia.
Qed.

Lemma acquired_refs w r kin w1 :
can_acquire mc w → (∀ t k, tasks w !! t = Some k → runnable mc k) →
acquire_exclusive_cpu mc r kin w = Done 0 w1 → refs_ok w1 ∧ held w1 = unlocked.
Proof.
intros Hc Hrn Hacq. eapply safely_done; [|exact Hacq]. apply acquire_safe.
- apply refs_start; [apply Hc|]. intros t k Hk. by apply (Hrn t k).
- split; [|apply (ca_threads _ _ Hc)|by intros E%(ca_many _ _ Hc)].
  destruct (ca_current _ _ Hc) as [c Hcur]. exists c. split; [done|]. by apply (Hrn _ _ Hcur).
- apply Hc.
- unfold second_mask_fails. destruct (ca_masks _ _ Hc) as [_ ->]. by rewrite andb_false_r.
Qed.
End hold.
