(* ===== verification/KcutEvac.v ===== *)
(** * Beginning and end of a program with shortcuts ([kcuttest/kcut.h], [evacuate.h])

    [kcut_init] and [kcut_cleanup], in every build: with [EVACUATE] the program takes a
    processor for itself at the beginning and gives it back at the end, unless
    [BRACKET_PRIV] is defined it stays elevated in between. The state puts that of the
    shortcuts ([Kcut]) and that of the scheduler ([Evacuate]) together. *)
From S2P Require Import Prelude Kcut Evacuate EvacuateSpec.

Open Scope Z_scope.

Record kev := Kev { ke_ev : evw; ke_k : kcutw }.

Definition kev_k {A} (m : M kcutw A) : M kev A := λ d,
  match m (ke_k d) with
  | Done a k => Done a (Kev (ke_ev d) k)
  | Exited c k => Exited c (Kev (ke_ev d) k)
  | Aborted => Aborted
  | Fault => Fault
  | NoFuel => NoFuel
  end.
Definition kev_ev {A} (m : M evw A) : M kev A := λ d,
  match m (ke_ev d) with
  | Done a e => Done a (Kev e (ke_k d))
  | Exited c e => Exited c (Kev e (ke_k d))
  | Aborted => Aborted
  | Fault => Fault
  | NoFuel => NoFuel
  end.

(** Code of the kernel, run on its stack. *)
Definition in_privilege {A} (m : M kev A) : M kev A :=
  d ← getM; if kw_elevated (ke_k d) then m else faultM.

Section evac.
Context (mc : machine) (ks : ksys).

(** ** [evacuate.h] *)

(** [getcpu_ok]: whether [getcpu] succeeds, with the processor it reports. *)
Definition kcut_evacuate (getcpu_ok : bool) (cpu : Z) (acquire : bool) : M kev unit :=
_ ← assertM getcpu_ok;
rc ← (if acquire then
        _ ← kev_k ksym_elevate;
        _ ← kev_k (kcut_tos_offset ks);
        rc ← in_privilege (kev_ev (acquire_exclusive_cpu mc cpu EVAC_KILL_NICELY));
        _ ← kev_k ksymbi_fast_lower; mret (i32 rc)
      else
        _ ← kev_k ksym_elevate;
        _ ← kev_k (kcut_tos_offset ks);
        _ ← in_privilege (kev_ev (release_exclusive_cpu mc));
        _ ← kev_k ksymbi_fast_lower; mret 0);
assertM (rc =? 0).

(** ** [kcut.h] *)
Definition kcut_init (b : build) (getcpu_ok : bool) (cpu : Z) : M kev unit :=
_ ← (if EVACUATE b then kcut_evacuate getcpu_ok cpu true else mret tt);
_ ← kev_k (modifyM (kset_threshold (default 20 (k_threshold ks))));
_ ← kev_k ksym_elevate;
_ ← kev_k (in_kernel (mret tt));                (* [current_pid()] *)
_ ← kev_k ksymbi_fast_lower;
if BRACKET_PRIV b then mret tt else kev_k ksym_elevate.

Definition kcut_cleanup (b : build) (getcpu_ok : bool) (cpu : Z) : M kev unit :=
_ ← (if EVACUATE b then kcut_evacuate getcpu_ok cpu false else mret tt);
if BRACKET_PRIV b then mret tt else kev_k ksymbi_fast_lower.

(** A program between the two. *)
Definition kcut_program (b : build) (getcpu_ok : bool) (cpu : Z) (l : list op) : M kev (list Z) :=
_ ← kcut_init b getcpu_ok cpu;
rs ← kev_k (run_ops b ks l);
_ ← kcut_cleanup b getcpu_ok cpu;
mret rs.

(** ** What they do *)
Lemma kev_k_run {A} (m : M kcutw A) e k a k' : m k = Done a k' → kev_k m (Kev e k) = Done a (Kev e k').
Proof. intros H. unfold kev_k. cbn. by rewrite H. Qed.

Lemma tos_run w v : k_dlsym_tos ks = Some v → ∃ t, kcut_tos_offset ks w = Done t (kset_tos t w).
Proof.
intros Hv. exists (if kw_tos w =? 0 then v else kw_tos w). unfold kcut_tos_offset. step. rewrite Hv.
destruct (kw_tos w =? 0) eqn:E; [done|]. step. by destruct w.
Qed.

Lemma privilege_ev {A} (m : M evw A) e k a e' :
m e = Done a e' → kw_elevated k = true → in_privilege (kev_ev m) (Kev e k) = Done a (Kev e' k).
Proof. intros Hm Hk. unfold in_privilege. step. cbn [ke_k]. rewrite Hk. unfold kev_ev. cbn. by rewrite Hm. Qed.

(** Kernel code between raising and lowering privilege. *)
Lemma bracketed {A} (m : M evw A) v e k a e' (f : A → Z) :
k_dlsym_tos ks = Some v → m e = Done a e' →
∃ t, (_ ← kev_k ksym_elevate; _ ← kev_k (kcut_tos_offset ks); r ← in_privilege (kev_ev m);
      _ ← kev_k ksymbi_fast_lower; mret (f r)) (Kev e k)
   = Done (f a) (Kev e' (kset_elevated false (kset_tos t k))).
Proof.
intros Hv Hm. destruct (tos_run (kset_elevated true k) v Hv) as [t Ht]. exists t.
step. step_by (kev_k_run _ _ _ _ _ Ht).
erewrite bind_done by (apply privilege_ev; [exact Hm|done]). by step.
Qed.

Lemma evacuate_acquire cpu v e k e' :
k_dlsym_tos ks = Some v → acquire_exclusive_cpu mc cpu EVAC_KILL_NICELY e = Done 0 e' →
∃ t, kcut_evacuate true cpu true (Kev e k) = Done tt (Kev e' (kset_elevated false (kset_tos t k))).
Proof.
intros Hv Hacq. destruct (bracketed _ v e k 0 e' i32 Hv Hacq) as [t Ht]. exists t.
unfold kcut_evacuate. step. by step_by Ht.
Qed.

Lemma evacuate_release cpu v e k rc e' :
k_dlsym_tos ks = Some v → release_exclusive_cpu mc e = Done rc e' →
∃ t, kcut_evacuate true cpu false (Kev e k) = Done tt (Kev e' (kset_elevated false (kset_tos t k))).
Proof.
intros Hv Hrel. destruct (bracketed _ v e k rc e' (λ _, 0) Hv Hrel) as [t Ht]. exists t.
unfold kcut_evacuate. step. by step_by Ht.
Qed.

(** The rest of [kcut_init], on a lowered thread. *)
Lemma init_ready b e k :
kw_elevated k = false → kw_read_cnt k = 0 → kw_write_cnt k = 0 → kw_relowered k = 0%nat → kw_paths k = [] →
∃ k', (_ ← kev_k (modifyM (kset_threshold (default 20 (k_threshold ks))));
       _ ← kev_k ksym_elevate; _ ← kev_k (in_kernel (mret tt)); _ ← kev_k ksymbi_fast_lower;
       if BRACKET_PRIV b then mret tt else kev_k ksym_elevate) (Kev e k) = Done tt (Kev e k') ∧
  ready b (default 20 (k_threshold ks)) 0 0 k' ∧ kw_paths k' = [].
Proof.
intros He Hr Hw Hz Hp. do 4 step.
destruct (BRACKET_PRIV b) eqn:E; (eexists; split; [reflexivity|]; split; [|done]; split; cbn; by rewrite ?E).
Qed.
End evac.
