(* ===== verification/ShortcutProps.v ===== *)
(** * What the privilege tools guarantee

    The properties of [Dpld], [Kcut] with [KcutEvac], [EchoServer], [EchoClient] and
    [Evacuate] (with [EvacuateHold] for what other tasks do while a processor is held),
    proved from the lemmas of those components, each followed by an instance at a
    concrete input. *)
From S2P Require Import Prelude.
From S2P Require Dpld.
From S2P Require EchoServer.
From S2P Require EchoClient.
From S2P Require Kcut.
From S2P Require Import Evacuate.
From S2P Require Import EvacuateSpec.
From S2P Require Import EvacuateKill.
From S2P Require Import EvacuateHold.
From S2P Require KcutEvac.

Open Scope Z_scope.

(** ** Resolution of symbols *)
Module Resolution.
Import Dpld.

(** A program with one module of its own and one that is loaded already. *)
Definition demo_sys : dsys :=
Dsys (λ _, Some 0xffffffff81000000) (λ m, if decide (m = "old"%string) then 17 else 0)
  (λ mods n, if decide (n = "missing"%string) then 0 else 0x1000 + Z.of_nat (length mods))
  0xffffc90000000000 true ["ext"%string; "old"%string] (Some [("main"%string, 0x401000)]).

(** C17: symbols are resolved to the addresses the kernel gives them once the
  embedded modules are there. The modules are loaded and the program's table
  is handed over at the first resolution only, and the thread is not elevated
  afterwards. *)
Theorem dpld_resolves sy names w :
linked sy = true → Z.of_nat (length (ds_modules sy)) <= 2 ^ 31 → elevated w = false →
can_load sy w = true → Forall (λ n, ds_kallsyms sy (loaded (resolved sy w)) n ≠ 0) names → names ≠ [] →
resolve_all (dpld_resolver sy) names w
= Done (ds_kallsyms sy (loaded (resolved sy w)) <$> names) (resolved sy w).
Proof. apply resolve_all_run. Qed.

Lemma dpld_resolves_witness :
resolve_all (dpld_resolver demo_sys) ["f"%string; "g"%string] dpldw0
= Done [0x1001; 0x1001] (Dpldw true true 0xffffffff81000000 ["ext"%string] false (Some [("main"%string, 0x401000)])).
Proof.
apply (dpld_resolves demo_sys ["f"%string; "g"%string] dpldw0).
- reflexivity.
- vm_compute. intros H. discriminate H.
- reflexivity.
- reflexivity.
- repeat constructor; vm_compute; intros H; discriminate H.
- intros H. discriminate H.
Defined.

(** when a module cannot be loaded, the table cannot be handed over or the
  kernel does not know the symbol, the program exits, and the thread is not
  left elevated. *)
Theorem dpld_failure sy name w :
linked sy = true → Z.of_nat (length (ds_modules sy)) <= 2 ^ 31 → elevated w = false →
can_load sy w && negb (ds_kallsyms sy (loaded (resolved sy w)) name =? 0) = false →
∃ c w', dpld_resolver sy name w = Exited c w' ∧ elevated w' = false.
Proof. intros Hl Hlen He Hno. pose proof (resolver_run sy name w Hl Hlen He) as H. by rewrite Hno in H. Qed.

Lemma dpld_failure_witness :
∃ c w', dpld_resolver demo_sys "missing" dpldw0 = Exited c w' ∧ elevated w' = false.
Proof.
apply (dpld_failure demo_sys "missing" dpldw0).
- reflexivity.
- vm_compute. intros H. discriminate H.
- reflexivity.
- reflexivity.
Defined.

(** The interposer's resolver takes a module whose symbols cannot be resolved
  for loaded: nothing is loaded, yet the flag is set, so no later resolution
  tries again. *)
Theorem base_resolver_skips_module sy name w :
mod_force_symres_now sy = false → elevated w = false → ds_kallsyms sy (loaded w) name ≠ 0 →
base_resolver sy name w = Done (ds_kallsyms sy (loaded w) name) (set_loaded true w).
Proof.
intros Hno He Hk. apply Z.eqb_neq in Hk. destruct w as [ml v k ld e ag]. cbn in He, Hk |- *. subst e.
unfold base_resolver, load_included_module, kallsyms_lookup_name, kcall, sym_elevate,
  symbi_fast_lower, getM, getsM, modifyM, mbind, M_bind. rewrite Hno. cbn.
destruct ml; cbn; by rewrite Hk.
Qed.

Lemma base_resolver_skips_module_witness :
let sy := Dsys (λ _, None) (λ _, 0) (λ _ _, 0x1000) 0 false [] None in
base_resolver sy "greet" dpldw0 = Done 0x1000 (Dpldw true false 0 [] false None).
Proof.
apply (base_resolver_skips_module (Dsys (λ _, None) (λ _, 0) (λ _ _, 0x1000) 0 false [] None) "greet" dpldw0).
- reflexivity.
- reflexivity.
- vm_compute. intros H. discriminate H.
Defined.
End Resolution.

(** ** Shortcuts *)

(** ** The echo server *)
Module Echo.
Import EchoServer.

(** A start with descriptors 3 and 4 on a process that has 0, 1 and 2 open. *)
Definition demo_start : start := Start 3 4 true true true true.
Definition demo_waits : list wait :=
[Events [Event 3 1 [Conn true true; NoConn 11] []];
 WaitErr 4;
 Events [Event 5 1 [] [(Rd 3 0 [104; 105; 10], [Wr 2 0; Wr (-1) 11; Wr 1 0]); (Rd (-1) 11 [], [])]];
 WaitErr 22].

(** C11: when its sockets and the epoll instance could be set up, and while the system calls conform to their documentation ([read] fills at most the
  buffer, [write] takes at most what it is given, [epoll_wait] reports descriptors of
  the interest list), the server never fails. Either it has handled all events: then what was
  read from a connection that is still open has been written back to it, byte for byte,
  exactly the connections in the interest list are open, and when it has left its loop
  the listening socket and the epoll instance are closed. Or it is still in the handling of an event
  whose calls have not come to an end: connections to accept without end, data to read without end, or a peer that
  does not read, to whom the server tries to write again and again. *)
Theorem server_echoes st ws base :
start_ok st = true → waits_ok (st_lfd st) ws (listening st base) → {[st_lfd st; st_epfd st]} ## base →
(∃ r s' conns, main st ws (Esrv base ∅ ∅ ∅) = Done r s' ∧ (∀ fd, fd ∈ conns → echoed fd s') ∧
  es_epoll s' = {[st_lfd st]} ∪ conns ∧
  (r = None ∧ es_open s' = base ∪ {[st_lfd st; st_epfd st]} ∪ conns ∨
   r = Some 0 ∧ es_open s' = base ∪ conns)) ∨
main st ws (Esrv base ∅ ∅ ∅) = NoFuel ∧ waits_end (st_lfd st) ws = false.
Proof.
intros Hst Hws Hfree. rewrite server_main_run by done.
pose proof (serve_safe _ _ _ _ ws _ (listening_served st base) Hws) as Hserve. unfold wpl in Hserve.
destruct (serve (st_lfd st) ws (listening st base)) as [r s1| | | |] eqn:Hrun; try done.
2:{ right. split; [by apply bind_nofuel|done]. }
left. destruct Hserve as (conns & [Ho He Hn Hec]). step_by Hrun.
destruct r as [[]|].
- eexists _, _, conns. split; [reflexivity|]. cbn. split; [done|]. split; [done|]. right. split; [done|].
  rewrite Ho. set_solver.
- exists None, s1, conns. split; [done|]. split; [done|]. split; [done|]. by left.
Qed.

Lemma demo_waits_ok : waits_ok 3 demo_waits (listening demo_start {[0; 1; 2]}).
Proof.
split; [apply (bool_decide_unpack _); by vm_compute|].
split; [apply (bool_decide_unpack _); by vm_compute|].
intros s Hs. assert (s = Esrv {[0; 1; 2; 3; 4; 5]} {[3; 5]} {[5 := []]} {[5 := []]}) as ->.
{ revert Hs. intros [= <-]. f_equal; apply (bool_decide_unpack _); by vm_compute. }
split; [apply (bool_decide_unpack _); by vm_compute|].
split; [apply (bool_decide_unpack _); by vm_compute|]. done.
Qed.

(** A peer that sends and does not read. *)
Definition demo_silent : list wait :=
[Events [Event 3 1 [Conn true true; NoConn 11] []];
 Events [Event 5 1 [] [(Rd 3 0 [104; 105; 10], [Wr 2 0; Wr (-1) 11; Wr (-1) 11; Wr (-1) 11])]]].

Lemma server_echoes_witness :
(∃ r s' conns, main demo_start demo_waits (Esrv {[0; 1; 2]} ∅ ∅ ∅) = Done r s' ∧
  (∀ fd, fd ∈ conns → echoed fd s') ∧ es_epoll s' = {[3]} ∪ conns ∧
  (r = None ∧ es_open s' = {[0; 1; 2]} ∪ {[3; 4]} ∪ conns ∨ r = Some 0 ∧ es_open s' = {[0; 1; 2]} ∪ conns)) ∧
main demo_start demo_silent (Esrv {[0; 1; 2]} ∅ ∅ ∅) = NoFuel.
Proof.
split; [|reflexivity].
destruct (server_echoes demo_start demo_waits {[0; 1; 2]}) as [H|[_ H]].
- reflexivity.
- apply demo_waits_ok.
- apply (bool_decide_unpack _). vm_compute. exact I.
- exact H.
- vm_compute in H. discriminate H.
Defined.

(** C23: data that arrives is answered: on a connection whose writes are taken in
  pieces, with any number of [EAGAIN] in between but no other error, the server
  reads until [EAGAIN], writes back exactly what it read and keeps the
  connection. *)
Theorem server_answers fd rs e ws s l :
forallb (λ p, exchange_ok p && (0 <? rd_nr p.1) && negb (existsb wr_hard p.2)) rs = true → e = EAGAIN →
es_in s !! fd = Some l → es_out s !! fd = Some l →
∃ s', drain fd (rs ++ [(Rd (-1) e [], ws)]) s = Done false s' ∧
  es_out s' !! fd = Some (l ++ concat (rd_data ∘ fst <$> rs)) ∧ es_in s' !! fd = es_out s' !! fd.
Proof.
intros Hrs -> . revert s l. induction rs as [|[r ws'] rs IH]; intros s l Hin Hout.
{ exists s. cbn. rewrite app_nil_r, Hin, Hout. by split. }
cbn [forallb fst snd] in Hrs. rewrite !andb_true_iff, Z.ltb_lt, negb_true_iff in Hrs.
destruct Hrs as [[[Hx Hpos] Hsoft] Hrs]. unfold exchange_ok, exchange_conforms in Hx. cbn [fst snd] in Hx.
rewrite !andb_true_iff in Hx. destruct Hx as [[Hr Hw] Hwe].
cbn [app drain]. unfold read_ok in Hr. rewrite (proj2 (Z.eqb_neq (rd_nr r) (-1))) in * by lia.
rewrite (proj2 (Z.eqb_neq (rd_nr r) 0)), (proj2 (Z.ltb_lt 0 _)) by lia. cbn [orb] in Hr.
apply andb_true_iff in Hr as [_ Hl%bool_decide_eq_true]. rewrite (bind_done _ _ s tt (received fd (rd_data r) s)) by reflexivity.
pose proof (echo_spec fd (rd_data r) (rd_nr r) ws' 0 (received fd (rd_data r) s) Hl ltac:(lia)
  ltac:(by rewrite Z.sub_0_r) ltac:(by rewrite Z.sub_0_r)) as He.
apply wp_done in He as ([] & s1 & Hrun & b & (_ & _ & Hi & _ & Ho & Hs) & _ & Hall & Hc);
  [by rewrite Hc in Hsoft|]. step_by Hrun.
specialize (Hall eq_refl). rewrite drop_0 in Hall. subst b. cbn in Ho, Hs, Hi. rewrite Hout in Ho, Hs.
destruct Hs as [o Hs]; [done|]. rewrite Hs in Ho. cbn in Ho. subst o.
destruct (IH Hrs s1 (l ++ rd_data r)) as (s' & Hrun' & Hout' & Hin'); [|done|].
{ by rewrite Hi, lookup_insert_eq, Hin. }
exists s'. split; [done|]. rewrite Hout', <- app_assoc in *. done.
Qed.

Lemma server_answers_witness :
let s := Esrv ∅ ∅ {[5 := [1]]} {[5 := [1]]} in
let rs := [(Rd 3 0 [104; 105; 10], [Wr 2 0; Wr (-1) 11; Wr 1 0]); (Rd 1 0 [7], [Wr 1 0])] in
∃ s', drain 5 (rs ++ [(Rd (-1) 11 [], [])]) s = Done false s' ∧
  es_out s' !! 5 = Some [1; 104; 105; 10; 7] ∧ es_in s' !! 5 = es_out s' !! 5.
Proof.
apply (server_answers 5 [(Rd 3 0 [104; 105; 10], [Wr 2 0; Wr (-1) 11; Wr 1 0]); (Rd 1 0 [7], [Wr 1 0])] 11 []
  (Esrv ∅ ∅ {[5 := [1]]} {[5 := [1]]}) [1]).
- reflexivity.
- reflexivity.
- reflexivity.
- reflexivity.
Defined.

(** the shortcuts return the negative errno of the kernel where [read] and
  [write] return -1, and the server does not expect that: a read that fails is
  repeated at once instead of ending the loop or the connection, and after a
  write that fails the next one starts before the buffer. *)
Theorem shortcut_errors_break_echo b ks fd n w nr nw t en rs e ws w2 buf s :
Kcut.BRACKET_PRIV b = true → Kcut.BRACKET_STACK b = false → Kcut.SHORTCUT b = true →
Kcut.k_fd_empty ks fd = false → 1 < en < 2 ^ 31 →
Kcut.k_tcp_recvmsg ks fd n = - en → Kcut.k_tcp_sendmsg ks fd n = - en →
0 <= t < 2 ^ 31 → Kcut.ready b t nr nw w → buf ≠ [] →
(∃ w', Kcut.kcut_tcp_read b ks fd n w = Done (- en) w') ∧
drain fd ((Rd (- en) e [], []) :: rs) s = drain fd rs s ∧
(∃ w', Kcut.kcut_tcp_write b ks fd n w = Done (- en) w') ∧
echo fd buf (Z.of_nat (length buf)) (Wr (- en) e :: w2 :: ws) 0 s = Fault.
Proof.
intros Hp Hstk Hsc Hfd Hen Hrecv Hsend Ht Hready Hbuf.
assert (Kcut.BRACKET_STACK b = true → Kcut.k_dlsym_tos ks ≠ None) as Htos by (by rewrite Hstk).
assert (∀ n, Kcut.nth_path b t n = Kcut.Shortcut) as Hpath.
{ intros k. unfold Kcut.nth_path, Kcut.kernel_path. by rewrite Hp, Hsc. }
split_and!.
- destruct (Kcut.read_run b ks Htos t nr nw fd n w Ht Hready) as (w' & Hrun & _).
  exists w'. rewrite Hrun, Hpath. unfold Kcut.answer, Kcut.raw. rewrite Hfd, Hrecv.
  by autorewrite with machine.
- cbn. rewrite (proj2 (Z.eqb_neq (- en) (-1))), (proj2 (Z.eqb_neq (- en) 0)), (proj2 (Z.ltb_ge 0 (- en))) by lia.
  rewrite (bind_done _ _ s tt s) by reflexivity. by rewrite (bind_done _ _ s false s).
- destruct (Kcut.write_run b ks Htos t nr nw fd n w Ht Hready) as (w' & Hrun & _).
  exists w'. rewrite Hrun, Hpath. unfold Kcut.answer, Kcut.raw. rewrite Hfd, Hsend.
  by autorewrite with machine.
- destruct buf as [|x buf]; [done|]. cbn [echo].
  rewrite (proj2 (Z.ltb_lt 0 (Z.of_nat (length (x :: buf))))) by (cbn; lia).
  rewrite (bind_done _ _ s tt s).
  2:{ unfold do_write. cbn [wr_nw].
      rewrite (proj2 (Z.ltb_ge (Z.of_nat (length (x :: buf))) 0)), (proj2 (Z.ltb_ge 0 (- en))) by lia. done. }
  cbn [wr_nw wr_errno].
  rewrite (proj2 (Z.eqb_neq (- en) (-1))), (proj2 (Z.ltb_lt (0 + - en) _)) by (cbn [length]; lia).
  unfold do_write. by rewrite (proj2 (Z.ltb_lt (0 + - en) 0)) by lia.
Qed.

Lemma shortcut_errors_break_echo_witness :
let b := Kcut.Build true false true false in
let ks := Kcut.Ksys (λ _, false) (λ _ _, -104) (λ _ _, -104) (λ _ n, n) (λ _ n, n) (λ _ n, n) (λ _ n, n) None None in
(∃ w', Kcut.kcut_tcp_read b ks 5 64 (Kcut.Kcutw false 20 0 0 0 [] 0) = Done (-104) w') ∧
echo 5 [1; 2] 2 [Wr (-104) 0; Wr 2 0] 0 (Esrv ∅ ∅ ∅ ∅) = Fault.
Proof.
destruct (shortcut_errors_break_echo (Kcut.Build true false true false)
  (Kcut.Ksys (λ _, false) (λ _ _, -104) (λ _ _, -104) (λ _ n, n) (λ _ n, n) (λ _ n, n) (λ _ n, n) None None)
  5 64 (Kcut.Kcutw false 20 0 0 0 [] 0) 0 0 20 104 [] 0 [] (Wr 2 0) [1; 2] (Esrv ∅ ∅ ∅ ∅)) as (H1 & _ & _ & H2).
- reflexivity.
- reflexivity.
- reflexivity.
- reflexivity.
- lia.
- reflexivity.
- reflexivity.
- lia.
- split; [reflexivity|reflexivity|intros H; discriminate H|intros H; discriminate H|reflexivity].
- intros H. discriminate H.
- split; [exact H1|exact H2].
Defined.
End Echo.

(** ** The benchmark client *)
Module Client.
Import EchoClient.

Definition demo_txn (rtt : Z) : txn :=
  Txn false false [1; 1] [RBytes [66]; RBytes [66; 66; 66]] (Timespec 5 10) (Timespec 5 (10 + rtt)).
Definition demo_last : txn := Txn true false [2] [RBytes [66; 66]] (Timespec 6 0) (Timespec 6 8).

(** given options it accepts, a connection and calls that return, the client
  ends with status 0. It never writes outside the sample array, takes no more
  samples than [-n] asks for, and the samples are the round trip times of the
  completed transactions in order; each transaction sent the whole packet and
  received as many bytes. *)
Theorem client_samples l o now now' warm xs b :
settings l = Some o → normal now' → run_ends o warm xs →
∃ b', main l true true true now now' warm xs b = Done 0 b' ∧
  0 <= b_n b' <= sample_cap o ∧ (0 < max_txns o → b_n b' <= max_txns o) ∧
  take (Z.to_nat (b_n b')) (b_lat b') = Some ∘ x_rtt <$> take (Z.to_nat (b_n b')) xs.
Proof.
intros Hs Hn He. pose proof (client_main_spec l o now now' warm xs b Hs Hn He) as H.
apply wp_done in H as (c & b' & Hrun & -> & H). destruct H as (? & ? & _ & ?). by exists b'.
Qed.

Lemma client_samples_witness :
let o := Opts 8080 2 100 10 2 0 false in
let b := Bench (EchoClient.Conn [] []) (Timespec 0 0) [] 0 in
∃ b', main [OptS 2; OptN 2; OptW 0] true true true (Timespec 0 0) (Timespec 0 0) []
        [demo_txn 7; demo_txn 9; demo_last] b = Done 0 b' ∧
  0 <= b_n b' <= sample_cap o ∧ (0 < max_txns o → b_n b' <= max_txns o) ∧
  take (Z.to_nat (b_n b')) (b_lat b') = Some ∘ x_rtt <$> take (Z.to_nat (b_n b'))
    [demo_txn 7; demo_txn 9; demo_last].
Proof.
apply (client_samples [OptS 2; OptN 2; OptW 0] (Opts 8080 2 100 10 2 0 false) (Timespec 0 0) (Timespec 0 0) []
  [demo_txn 7; demo_txn 9; demo_last] (Bench (EchoClient.Conn [] []) (Timespec 0 0) [] 0)).
- reflexivity.
- unfold normal. cbn. lia.
- split; [cbn; lia|]. split; [reflexivity|left; reflexivity].
Defined.
End Client.

(** ** Exclusive use of a processor *)
Module Exclusive.

Definition demo_task (n : Z) (m : gset Z) : task := Task n false m None true n true 1 (SCHED_NORMAL, 0).
(** Two processors, [init], the caller and another task that may run anywhere. *)
Definition demo_machine (cpus : gset Z) (rc : Z) (alloc2 : bool) : machine :=
Machine 10 0 cpus 2 [1%nat; 10%nat; 11%nat] (λ _, true) true alloc2 rc.
Definition demo_evw : evw :=
Evw {[1%nat := demo_task 1 {[0; 1]}; 10%nat := demo_task 100 {[0; 1]}; 11%nat := demo_task 101 {[0; 1]}]}
  [] [] NoMask NoMask unlocked.

Lemma demo_can_acquire rc : can_acquire (demo_machine {[0; 1]} rc true) demo_evw.
Proof.
split.
- cbn. lia.
- apply (bool_decide_unpack _). by vm_compute.
- by vm_compute.
- done.
- done.
- by eexists.
- split; [apply (bool_decide_unpack _); by vm_compute|]. intros t Ht.
  repeat (apply elem_of_cons in Ht as [->|Ht]; [by eexists|]). by apply elem_of_nil in Ht.
- done.
- done.
Qed.

Lemma demo_runnable rc t k :
tasks demo_evw !! t = Some k → runnable (demo_machine {[0; 1]} rc true) k.
Proof.
intros H. assert (map_Forall (λ _ k, runnable (demo_machine {[0; 1]} rc true) k) (tasks demo_evw)) as Hall.
{ unfold runnable. apply (bool_decide_unpack _). by vm_compute. }
by eapply Hall.
Qed.

(** C5: on a machine with more than one processor, when nobody else holds one, every
  allocation succeeds, every task may run on some processor that is online and the
  priority can be raised, the call succeeds. The caller is then pinned to its processor
  at the highest priority, and of the other tasks only [init], kernel threads and those
  that can run nowhere else may still run there. It stays so whatever other user tasks
  do meanwhile: exit, fork, narrow their affinity, change their priority. Releasing then
  gives every task that was moved and is still alive its affinity and the caller its own
  and a normal priority, drops the references that were taken (a task that has exited is
  freed with the last one) and leaves all other tasks alone. If nothing happened
  meanwhile every task is as before. Both calls give back the mutex and the spin
  lock. *)
Theorem exclusive_cpu mc w r kin :
can_acquire mc w → (∀ t k, tasks w !! t = Some k → runnable mc k) →
(∀ t, is_Some (tasks w !! t) → t ∈ threads mc) → setattr_rc mc = 0 →
∃ w1, acquire_exclusive_cpu mc r kin w = Done 0 w1 ∧ held w1 = unlocked ∧
∀ w2, rtc (meanwhile mc) w1 w2 → alone mc w2 ∧
∃ w3, release_exclusive_cpu mc w2 = Done 0 w3 ∧ saved_affinities w3 = [] ∧ killed w3 = killed w ∧
  held w3 = unlocked ∧
  (∀ t k k2, t ≠ current mc → tasks w !! t = Some k → moved (smp_processor_id mc) k = true →
     tasks w2 !! t = Some k2 →
     tasks w3 !! t = if alive k2 then Some (set_mask (cpus_mask k) (set_usage (usage k2 - 1) k2)) else put k2) ∧
  (∀ t, t ≠ current mc → from_option (moved (smp_processor_id mc)) false (tasks w !! t) = false →
     tasks w3 !! t = tasks w2 !! t) ∧
  (∀ c c2, tasks w !! current mc = Some c → tasks w2 !! current mc = Some c2 →
     tasks w3 !! current mc =
     Some (set_sched (SCHED_NORMAL, 0) (set_mask (cpus_mask c) (set_usage (usage c2 - 1) c2)))) ∧
  (w2 = w1 → ∀ t, tasks w3 !! t =
     if decide (t = current mc) then set_sched (SCHED_NORMAL, 0) <$> tasks w !! t else tasks w !! t).
Proof.
intros Hc Hrn Hall Hrc. destruct (acquire_ok mc w r kin Hc Hrc) as (w1 & Hacq & Ha). exists w1. split; [done|].
destruct (acquired_refs mc w r kin w1 Hc Hrn Hacq) as [Hr1 Hh1]. split; [done|]. intros w2 Hm.
destruct (meanwhile_held mc w1 w2 Hr1 (acquired_alone mc w w1 Hc Hrn Hall Ha) Hm) as (Hr & Hal & Hs & Hk & Hh).
rewrite Hh1 in Hh. split; [done|].
destruct (release_later mc w w1 w2 Hc Hrn Hall Ha Hr Hal Hs Hh) as (w3 & Hrel & Hs3 & Hk3 & Hh3 & Hb & Ho & Hcu).
exists w3. split; [done|]. split; [done|]. pose proof Ha as (_ & _ & Hkl & _).
split; [by rewrite Hk3, Hk|]. split; [done|]. split; [|split; [done|split; [done|]]].
- intros t k k2 Hne Ht Hmv Hk2. rewrite (Hb t k), Hk2 by done. cbn. destruct (ro_count _ Hr _ _ Hk2) as [_ Hu].
  apply (back_record mc); [by apply (Hrn t)|].
  assert (0 < records t (saved_affinities w2)); [|unfold refs in Hu; destruct (alive k2); lia].
  apply records_pos, list_elem_of_fmap. exists (t, cpus_mask k). split; [done|]. rewrite Hs.
  apply (saved_spec mc w w1 _ Hc Ha). right. split; [apply Hall; by eexists|]. eauto.
- intros ->. destruct (release_ok mc w w1 Hc Hrn Ha) as (w3' & Hrel' & _ & _ & _ & Ht).
  rewrite Hrel in Hrel'. by injection Hrel' as <-.
Qed.

(** The demonstration: while the processor is held task 11 forks and exits. *)
Definition state_of {A} (o : outcome evw A) : evw := match o with Done _ w => w | _ => demo_evw end.
Definition demo_held : evw := state_of (acquire_exclusive_cpu (demo_machine {[0; 1]} 0 true) 0 0 demo_evw).
Definition demo_forked : evw := default demo_evw (occur (Fork 11 20 500) demo_held).
Definition demo_exited : evw := default demo_evw (occur (Exit 11) demo_forked).

Lemma demo_all t : is_Some (tasks demo_evw !! t) → t ∈ threads (demo_machine {[0; 1]} 0 true).
Proof.
intros [k Hk]. assert (map_Forall (λ t _, t ∈ [1%nat; 10%nat; 11%nat]) (tasks demo_evw)) as Hall.
{ apply (bool_decide_unpack _). by vm_compute. }
exact (Hall t k Hk).
Qed.

Lemma demo_meanwhile : rtc (meanwhile (demo_machine {[0; 1]} 0 true)) demo_held demo_exited.
Proof.
apply (rtc_l _ _ demo_forked); [|apply rtc_once].
- exists (Fork 11 20 500). split; [|by vm_compute]. split; [done|]. intros k Hk.
  assert (Some k = Some (Task 101 false {[1]} None true 101 true 2 (SCHED_NORMAL, 0))) as E
    by (rewrite <- Hk; by vm_compute). by injection E as ->.
- exists (Exit 11). split; [done|by vm_compute].
Qed.

Lemma exclusive_cpu_witness :
let mc := demo_machine {[0; 1]} 0 true in
acquire_exclusive_cpu mc 0 0 demo_evw = Done 0 demo_held ∧ alone mc demo_exited ∧
∃ w3, release_exclusive_cpu mc demo_exited = Done 0 w3 ∧ tasks w3 !! 11%nat = None ∧
  tasks w3 !! 20%nat = tasks demo_exited !! 20%nat.
Proof.
destruct (exclusive_cpu (demo_machine {[0; 1]} 0 true) demo_evw 0 0 (demo_can_acquire 0) (demo_runnable 0) demo_all
  eq_refl) as (w1 & H1 & _ & H2).
assert (acquire_exclusive_cpu (demo_machine {[0; 1]} 0 true) 0 0 demo_evw = Done 0 demo_held) as Hacq
  by (vm_compute; reflexivity).
rewrite Hacq in H1. injection H1 as <-. split; [exact Hacq|].
destruct (H2 demo_exited demo_meanwhile) as (Ha & w3 & Hr & _ & _ & _ & Hb & Ho & _). split; [exact Ha|].
exists w3. split; [exact Hr|]. split.
- exact (Hb 11%nat _ _ ltac:(discriminate) eq_refl eq_refl eq_refl).
- apply Ho; [discriminate|reflexivity].
Defined.

(** C6: in any sequence of exits, forks, changes of affinity and priority and of calls of
  both functions, by any number of callers (each alive at its call; the tasks it visits,
  and on one processor its ancestors, exist), on machines with one or more processors and
  whatever allocations fail, every record in the list refers to a task whose structure is
  still there, as often as it is referred to, and outside of the calls both locks are
  free. So a release always returns, and so does a call to acquire, with one exception:
  when there is memory for the first mask and none for the second, the first is freed
  twice. *)
Theorem evacuation_safe w w' :
saved_affinities w = [] → (∀ t k, tasks w !! t = Some k → 0 < usage k) → held w = unlocked → rtc sys_step w w' →
(∀ t, t ∈ (saved_affinities w').*1 →
   ∃ k, tasks w' !! t = Some k ∧ records t (saved_affinities w') + (if alive k then 1 else 0) <= usage k) ∧
held w' = unlocked ∧
(∀ mc r kin, caller_ok mc w' →
   if second_mask_fails mc then acquire_exclusive_cpu mc r kin w' = Fault
   else ∃ rc w'', acquire_exclusive_cpu mc r kin w' = Done rc w'' ∧ held w'' = unlocked) ∧
(∀ mc, live (current mc) w' → ∃ rc w'', release_exclusive_cpu mc w' = Done rc w'' ∧ held w'' = unlocked).
Proof.
intros Hs Hu Hh0 Hsteps. destruct (steps_quiet w w' (conj (refs_start w Hs Hu) Hh0) Hsteps) as [Hr Hh].
split; [|split; [done|split]].
- intros t Ht. destruct (ro_present _ Hr t Ht) as [k Hk]. exists k. split; [done|].
  destruct (ro_count _ Hr t k Hk) as [_ Hc]. unfold refs in Hc. lia.
- intros mc r kin Hc. destruct (second_mask_fails mc) eqn:E; [by apply acquire_frees_target|].
  destruct (proj1 (wp_done _ _ _) (acquire_safe mc r kin w' Hr Hc Hh E)) as (rc & w'' & Hrun & _ & _ & ?). by exists rc, w''.
- intros mc Hc. destruct (proj1 (wp_done _ _ _) (release_safe mc w' Hr Hc Hh)) as (rc & w'' & Hrun & _ & _ & ? & _).
  by exists rc, w''.
Qed.

Lemma demo_caller_ok : caller_ok (demo_machine {[0; 1]} 0 true) demo_evw.
Proof.
pose proof (demo_can_acquire 0) as Hc. split; [by eexists|apply (ca_threads _ _ Hc)|by intros E%(ca_many _ _ Hc)].
Qed.

Lemma demo_steps : rtc sys_step demo_evw demo_exited.
Proof.
apply (rtc_l _ _ demo_held); [|apply (rtc_l _ _ demo_forked); [|apply rtc_once]].
- apply (step_acquire _ (demo_machine {[0; 1]} 0 true) 0 0 0); [apply demo_caller_ok|by vm_compute].
- apply (step_event _ (Fork 11 20 500)). by vm_compute.
- apply (step_event _ (Exit 11)). by vm_compute.
Qed.

Lemma demo_usage t k : tasks demo_evw !! t = Some k → 0 < usage k.
Proof. intros Hk. by apply (demo_runnable 0 t k). Qed.

Lemma evacuation_safe_witness :
(∃ k, tasks demo_exited !! 11%nat = Some k ∧ records 11 (saved_affinities demo_exited) + (if alive k then 1 else 0) <= usage k) ∧
(∃ rc w'', release_exclusive_cpu (demo_machine {[0; 1]} 0 true) demo_exited = Done rc w'' ∧ held w'' = unlocked) ∧
acquire_exclusive_cpu (demo_machine {[0; 1]} 0 false) 0 0 demo_exited = Fault.
Proof.
destruct (evacuation_safe demo_evw demo_exited eq_refl demo_usage eq_refl demo_steps) as (H1 & _ & H2 & H3).
split; [|split].
- apply H1. vm_compute. left.
- apply H3. by eexists.
- assert (caller_ok (demo_machine {[0; 1]} 0 false) demo_exited) as Hc.
  { split; [by eexists| |intros E; vm_compute in E; discriminate E]. intros t Ht.
    repeat (apply elem_of_cons in Ht as [->|Ht]; [by eexists|]). by apply elem_of_nil in Ht. }
  exact (H2 (demo_machine {[0; 1]} 0 false) 0 0 Hc).
Defined.

(** One list serves all callers: whoever releases first ends every hold, and who
  releases after that finds nothing to release. *)
Theorem release_ends_every_hold mc mc' w :
refs_ok w → held w = unlocked → live (current mc) w → live (current mc') w →
∃ rc w1 w2, release_exclusive_cpu mc w = Done rc w1 ∧ saved_affinities w1 = [] ∧
  release_exclusive_cpu mc' w1 = Done (-1) w2.
Proof.
intros Hr Hh Hc Hc'.
destruct (proj1 (wp_done _ _ _) (release_safe mc w Hr Hc Hh)) as (rc & w1 & Hrun & _ & Hl & Hh1 & Hs).
destruct (Hl _ Hc') as (k' & Hk' & _). exists rc, w1. eexists. split; [done|]. split; [done|].
unfold release_exclusive_cpu. step_by (mutex_lock_run _ Hh1).
erewrite bind_done by (apply (restore_saved_run mc' (-1) (taken w1) (set_held (Locks true true) w1)); [done| |done];
  change (saved_affinities (taken w1)) with (saved_affinities w1); by rewrite Hs).
unfold sched_setattr_nocheck. erewrite bind_done by (by erewrite (bind_done (load_task _)) by (by apply load_task_run)).
by erewrite bind_done by (by apply mutex_unlock_run).
Qed.

(** Two holders on three processors: when the first releases, the second, which goes on,
  is no longer pinned. *)
Definition two_machine (who : nat) (c : Z) : machine :=
Machine who c {[0; 1; 2]} 3 [1%nat; 10%nat; 11%nat; 12%nat] (λ _, true) true true 0.
Definition two_evw : evw :=
Evw {[1%nat := demo_task 1 {[0; 1; 2]}; 10%nat := demo_task 100 {[0; 1; 2]}; 11%nat := demo_task 101 {[0; 1; 2]};
      12%nat := demo_task 102 {[0; 1; 2]}]} [] [] NoMask NoMask unlocked.
Lemma second_holder_unpinned :
let w1 := state_of (acquire_exclusive_cpu (two_machine 10 0) 0 0 two_evw) in
let w2 := state_of (acquire_exclusive_cpu (two_machine 12 1) 1 0 w1) in
let w3 := state_of (release_exclusive_cpu (two_machine 10 0) w2) in
cpus_mask <$> tasks w2 !! 12%nat = Some {[1]} ∧ cpus_mask <$> tasks w3 !! 12%nat = Some {[0; 1; 2]} ∧
cpus_mask <$> tasks w3 !! 11%nat = Some {[0; 1; 2]}.
Proof. vm_compute. done. Qed.

(** A task whose record cannot be allocated is moved all the same, and not moved
  back. *)
Lemma unsaved_not_restored :
let mc := Machine 10 0 {[0; 1]} 2 [1%nat; 10%nat; 11%nat] (λ t, negb (bool_decide (t = 11%nat))) true true 0 in
let w1 := state_of (acquire_exclusive_cpu mc 0 0 demo_evw) in
let w2 := state_of (release_exclusive_cpu mc w1) in
cpus_mask <$> tasks w2 !! 11%nat = Some {[1]}.
Proof. vm_compute. done. Qed.

(** when the priority cannot be raised the call fails with the error of the
  scheduler, and every task is as before. *)
Theorem acquire_undone mc w r kin :
can_acquire mc w → (∀ t k, tasks w !! t = Some k → runnable mc k) → setattr_rc mc ≠ 0 →
∃ w', acquire_exclusive_cpu mc r kin w = Done (setattr_rc mc) w' ∧ tasks w' = tasks w ∧
  saved_affinities w' = [] ∧ killed w' = killed w ∧ held w' = unlocked.
Proof. apply acquire_refused. Qed.

Lemma acquire_undone_witness :
∃ w', acquire_exclusive_cpu (demo_machine {[0; 1]} (-1) true) 0 0 demo_evw = Done (-1) w' ∧
  tasks w' = tasks demo_evw ∧ saved_affinities w' = [] ∧ killed w' = [] ∧ held w' = unlocked.
Proof.
apply (acquire_undone (demo_machine {[0; 1]} (-1) true) demo_evw 0 0).
- apply demo_can_acquire.
- apply demo_runnable.
- cbn. lia.
Defined.

(** When the second mask cannot be allocated, the first is freed twice. *)
Theorem acquire_frees_twice mc w r kin :
0 <= smp_processor_id mc < nr_cpu_ids mc → smp_processor_id mc ∈ cpu_online_mask mc →
alloc_target mc = true → alloc_other mc = false → held w = unlocked →
acquire_exclusive_cpu mc r kin w = Fault.
Proof. apply acquire_double_free. Qed.

Lemma acquire_frees_twice_witness :
acquire_exclusive_cpu (demo_machine {[0; 1]} 0 false) 0 0 demo_evw = Fault.
Proof.
apply (acquire_frees_twice (demo_machine {[0; 1]} 0 false) demo_evw 0 0).
- cbn. lia.
- apply (bool_decide_unpack _). vm_compute. exact I.
- reflexivity.
- reflexivity.
- reflexivity.
Defined.

(** On a machine with one processor the policy decides who is killed: nobody
  when tasks are only to be migrated; all threads but [init], kernel threads,
  the caller, its ancestors and its session when they are to be killed nicely;
  and every thread, the caller and [init] included, when all are to be
  killed. *)
Theorem kill_policy mc w rank kin :
family (tasks w) rank → is_Some (tasks w !! current mc) → (∀ t, t ∈ threads mc → is_Some (tasks w !! t)) →
∃ victims, killothers mc kin w = Done (Z.of_nat (length victims)) (if 0 <? kin then kill_list victims w else w) ∧
  victims `sublist_of` threads mc ∧
  (∀ t, t ∈ victims ↔ t ∈ threads mc ∧ (kin < EVAC_KILL_ALLOTHERS → ¬ protected mc (tasks w) t)) ∧
  (kin = EVAC_KILL_ALLOTHERS → victims = threads mc).
Proof.
intros Hfam Hcur Hth.
destruct (kill_loop_run mc (tasks w) rank kin (threads mc) 0 w Hfam eq_refl Hcur Hth) as (v & Hrun & Hsub & Hv & Hall).
exists v. split; [done|]. split; [done|]. split; [done|]. intros ->. by apply Hall.
Qed.

Lemma kill_policy_witness :
let mc := demo_machine {[0]} 0 true in
∃ victims, killothers mc EVAC_KILL_ALLOTHERS demo_evw
    = Done (Z.of_nat (length victims)) (kill_list victims demo_evw) ∧ victims = [1%nat; 10%nat; 11%nat].
Proof.
destruct (kill_policy (demo_machine {[0]} 0 true) demo_evw (λ _, O) EVAC_KILL_ALLOTHERS) as (v & H1 & _ & _ & H2).
- intros t k Ht. split; [vm_compute; lia|]. intros p Hp. exfalso.
  assert (map_Forall (λ _ k, real_parent k = None) (tasks demo_evw)) as Hall
    by (apply (bool_decide_unpack _); vm_compute; exact I).
  rewrite (Hall t k Ht) in Hp. discriminate Hp.
- eexists. reflexivity.
- intros t Ht. cbn in Ht. repeat (apply elem_of_cons in Ht as [->|Ht]; [eexists; reflexivity|]).
  apply elem_of_nil in Ht. destruct Ht.
- exists v. split; [exact H1|]. apply H2. reflexivity.
Defined.
End Exclusive.

(** ** Programs that use the shortcuts *)
Module Shortcuts.
Import Kcut KcutEvac.

Definition demo_ksys : ksys :=
Ksys (λ _, false) (λ _ n, n) (λ _ _, -11) (λ _ n, n) (λ _ n, n) (λ _ n, n - 1) (λ _ n, n - 1) (Some 0x1fb8) (Some 2).

(** C14: a program that calls [kcut_init], sends and receives any sequence of
  messages and calls [kcut_cleanup] never runs kernel code without privilege
  and ends without it, in each of the sixteen builds. It is assumed that the threshold
  is not negative, that the symbol of the kernel stack is found by the builds that need it, and
  with [EVACUATE] that [getcpu] succeeds, the processor can be acquired ([can_acquire]), every task
  can run somewhere and the priority can be raised. Without [BRACKET_PRIV] every
  [t + 1]st read and every [t + 1]st write, beginning with the first, is a system call
  and the others go into the kernel directly, where [t] is the threshold; with it all do.
  With [EVACUATE] the processor, which is taken at the beginning, is given
  back: every task is as before, the caller has a normal priority. A build with [EVACUATE]
  and without [BRACKET_PRIV], and no other, lowers a thread that is lowered already, once,
  at the end. *)
Theorem kcut_schedule b mc ks cpu l e :
(BRACKET_STACK b = true ∨ EVACUATE b = true → k_dlsym_tos ks ≠ None) →
0 <= default 20 (k_threshold ks) < 2 ^ 31 →
(EVACUATE b = true → can_acquire mc e ∧ (∀ t k, tasks e !! t = Some k → runnable mc k) ∧ setattr_rc mc = 0) →
let calls := expected b ks (default 20 (k_threshold ks)) 0 0 l in
∃ d, kcut_program mc ks b true cpu l (Kev e kcutw0) = Done (snd <$> calls) d ∧
  kw_paths (ke_k d) = fst <$> calls ∧ kw_elevated (ke_k d) = false ∧
  kw_relowered (ke_k d) = (if EVACUATE b && negb (BRACKET_PRIV b) then 1 else 0)%nat ∧
  ∀ t, tasks (ke_ev d) !! t =
    if EVACUATE b && bool_decide (t = current mc)
    then set_sched (SCHED_NORMAL, 0) <$> tasks e !! t else tasks e !! t.
Proof.
intros Htos Ht Hev calls. destruct (EVACUATE b) eqn:Eb.
- destruct (Hev eq_refl) as (Hc & Hrn & Hrc). destruct (k_dlsym_tos ks) as [v|] eqn:Hv; [|by destruct (Htos (or_intror eq_refl))].
  destruct (acquire_ok mc e cpu EVAC_KILL_NICELY Hc Hrc) as (e1 & Hacq & Ha).
  destruct (release_ok mc e e1 Hc Hrn Ha) as (e2 & Hrel & _ & _ & _ & Htasks).
  destruct (evacuate_acquire mc ks cpu v e kcutw0 e1 Hv Hacq) as (t1 & Hev1).
  destruct (init_ready ks b e1 (kset_elevated false (kset_tos t1 kcutw0)) eq_refl eq_refl eq_refl eq_refl eq_refl)
    as (k1 & Hinit & Hr1 & Hp1).
  destruct (run_ops_spec b ks ltac:(by rewrite Hv) _ 0 0 l k1 Ht Hr1) as (k2 & nr & nw & Hrun & Hr2 & Hp2).
  destruct (evacuate_release mc ks cpu v e1 k2 0 e2 Hv Hrel) as (t2 & Hev2).
  unfold kcut_program, kcut_init, kcut_cleanup. rewrite Eb.
  erewrite bind_done by (step_by Hev1; exact Hinit). step_by (kev_k_run _ e1 _ _ _ Hrun).
  rewrite Hp1 in Hp2. pose proof (rd_low _ _ _ _ _ Hr2) as Hz.
  destruct (BRACKET_PRIV b); (erewrite bind_done by (step_by Hev2; reflexivity));
    (eexists; split; [reflexivity|]); cbn; rewrite Hp2, Hz; (split; [done|]; split; [done|]; split; [done|]);
    intros t; rewrite Htasks; by repeat (case_decide || case_bool_decide).
- destruct (init_ready ks b e kcutw0 eq_refl eq_refl eq_refl eq_refl eq_refl) as (k1 & Hinit & Hr1 & Hp1).
  destruct (run_ops_spec b ks ltac:(intros; apply Htos; by left) _ 0 0 l k1 Ht Hr1) as (k2 & nr & nw & Hrun & Hr2 & Hp2).
  unfold kcut_program, kcut_init, kcut_cleanup. rewrite Eb.
  erewrite bind_done by (step; exact Hinit). step_by (kev_k_run _ e _ _ _ Hrun).
  pose proof (rd_priv _ _ _ _ _ Hr2) as Hpriv. pose proof (rd_low _ _ _ _ _ Hr2) as Hz. rewrite Hp1 in Hp2.
  destruct (BRACKET_PRIV b); (eexists; split; [reflexivity|]; cbn; rewrite ?Hpriv; cbn; rewrite Hp2); by split_and!.
Qed.

(** The server's build, [EVACUATE] without [BRACKET_PRIV]. *)
Lemma kcut_schedule_witness :
let b := Build false true true true in
∃ d, kcut_program (Exclusive.demo_machine {[0; 1]} 0 true) demo_ksys b true 0
       [Read 3 64; Read 3 64; Write 3 64; Read 3 64; Read 3 64; Write 3 64] (Kev Exclusive.demo_evw kcutw0)
     = Done [63; 64; 63; 64; 63; -11] d ∧
  kw_paths (ke_k d) = [Syscall; Shortcut; Syscall; Shortcut; Syscall; Shortcut] ∧ kw_elevated (ke_k d) = false ∧
  kw_relowered (ke_k d) = 1%nat.
Proof.
destruct (kcut_schedule (Build false true true true) (Exclusive.demo_machine {[0; 1]} 0 true) demo_ksys 0
  [Read 3 64; Read 3 64; Write 3 64; Read 3 64; Read 3 64; Write 3 64] Exclusive.demo_evw) as (d & H1 & H2 & H3 & H4 & _).
- intros _ H. discriminate H.
- vm_compute. split; [intros H; discriminate H|reflexivity].
- intros _. split; [apply Exclusive.demo_can_acquire|]. split; [apply Exclusive.demo_runnable|reflexivity].
- exists d. split; [exact H1|]. split; [exact H2|]. split; [exact H3|exact H4].
Defined.
End Shortcuts.
