(* ===== verification/KcutThreads.v ===== *)
(** * The thread test ([kcuttest/main.c], [threadfn] and the test in [main])

    The main thread starts [num_spawns] threads and joins them. Each of them waits
    at a barrier, increments a shared counter [num_increments] times under a
    mutex, and waits at the barrier again. The threads and the main thread are
    interleaved in any order: a schedule says who makes the next step, and a
    step that has to wait is not possible. The increment is a load and a store.
    The stack and heap touching of the source changes nothing that is shared. *)
From S2P Require Import Prelude.

Open Scope Z_scope.

(** Where a thread is. A thread in the barrier remembers the phase of the barrier
    it arrived in. *)
Inductive pc :=
| AtBarrier                  (* before the first [pthread_barrier_wait] *)
| InBarrier1 (phase : nat)
| Loop (i : Z)               (* at the test of the [for] loop *)
| Locked (i : Z)
| Loaded (i v : Z)
| Stored (i : Z)
| Unlocked (i : Z)
| InBarrier2 (phase : nat)
| Finished.

#[export] Instance pc_eq_dec : EqDecision pc.
Proof. solve_decision. Defined.

(** Where the main thread is. [MBad]: it has joined a thread that was never
    started. *)
Inductive mpc := MCreate (i : Z) | MJoin (j : Z) | MEnd | MBad.

#[export] Instance mpc_eq_dec : EqDecision mpc.
Proof. solve_decision. Defined.

(** The barrier counts arrivals; its phase changes when it opens. *)
Record sys := Sys {
  main_pc : mpc;
  threads : list pc;
  counter : Z;
  counter_lock : option nat;
  arrived : Z;
  phase : nat;
}.

Definition set_pc (t : nat) (p : pc) (s : sys) : sys :=
  Sys (main_pc s) (<[t := p]> (threads s)) (counter s) (counter_lock s) (arrived s) (phase s).
Definition set_main (m : mpc) (s : sys) : sys :=
  Sys m (threads s) (counter s) (counter_lock s) (arrived s) (phase s).
Definition set_counter (v : Z) (s : sys) : sys :=
  Sys (main_pc s) (threads s) v (counter_lock s) (arrived s) (phase s).
Definition set_lock (l : option nat) (s : sys) : sys :=
  Sys (main_pc s) (threads s) (counter s) l (arrived s) (phase s).

Section threads.
Context (num_spawns num_increments : Z).

(** Arrival at [pthread_barrier_wait]: the last of [num_spawns] opens it. *)
Definition barrier_arrive (s : sys) : sys :=
if arrived s + 1 =? num_spawns
then Sys (main_pc s) (threads s) (counter s) (counter_lock s) 0 (S (phase s))
else Sys (main_pc s) (threads s) (counter s) (counter_lock s) (arrived s + 1) (phase s).

(** A step of a thread, [None] when it has to wait or has ended. *)
Definition threadfn (t : nat) (s : sys) : option sys :=
match threads s !! t with
| None => None
| Some AtBarrier => Some (set_pc t (InBarrier1 (phase s)) (barrier_arrive s))
| Some (InBarrier1 ph) => if decide (phase s = ph) then None else Some (set_pc t (Loop 0) s)
| Some (Loop i) =>
    if i <? num_increments then
      match counter_lock s with
      | None => Some (set_pc t (Locked i) (set_lock (Some t) s))
      | Some _ => None
      end
    else Some (set_pc t (InBarrier2 (phase s)) (barrier_arrive s))
| Some (Locked i) => Some (set_pc t (Loaded i (counter s)) s)
| Some (Loaded i v) => Some (set_pc t (Stored i) (set_counter (u32 (v + 1)) s))
| Some (Stored i) => Some (set_pc t (Unlocked i) (set_lock None s))
| Some (Unlocked i) => Some (set_pc t (Loop (u32 (i + 1))) s)
| Some (InBarrier2 ph) => if decide (phase s = ph) then None else Some (set_pc t Finished s)
| Some Finished => None
end.

(** A step of the main thread; [ok]: whether [pthread_create] succeeds. *)
Definition main_step (ok : bool) (s : sys) : option sys :=
match main_pc s with
| MCreate i =>
    if i <? num_spawns then
      if ok then Some (Sys (MCreate (i + 1)) (threads s ++ [AtBarrier]) (counter s) (counter_lock s) (arrived s) (phase s))
      else Some (set_main (MJoin 0) s)
    else Some (set_main (MJoin 0) s)
| MJoin j =>
    if j <? num_spawns then
      match threads s !! Z.to_nat j with
      | None => Some (set_main MBad s)
      | Some Finished => Some (set_main (MJoin (j + 1)) s)
      | Some _ => None
      end
    else Some (set_main MEnd s)
| MEnd | MBad => None
end.

Inductive choice := Main (create_ok : bool) | Thread (t : nat).
Definition step (c : choice) (s : sys) : option sys :=
match c with Main ok => main_step ok s | Thread t => threadfn t s end.

Fixpoint run (cs : list choice) (s : sys) : option sys :=
match cs with [] => Some s | c :: cs => s ← step c s; run cs s end.

Definition sys0 : sys := Sys (if num_spawns =? 0 then MEnd else MCreate 0) [] 0 None 0 0.

(** ** Sums over the threads *)
Definition total (f : pc → Z) (l : list pc) : Z := foldr (λ p n, f p + n) 0 l.

#[local] Arguments total : simpl never.

Lemma total_cons f p l : total f (p :: l) = f p + total f l.
Proof. done. Qed.

Lemma total_app f l1 l2 : total f (l1 ++ l2) = total f l1 + total f l2.
Proof. induction l1 as [|p l1 IH]; [done|]. rewrite <- app_comm_cons, !total_cons. lia. Qed.

Lemma total_insert f l t p p' :
l !! t = Some p → total f (<[t := p']> l) = total f l - f p + f p'.
Proof.
revert t. induction l as [|q l IH]; intros [|t] Ht; try done.
- injection Ht as ->. change (<[0%nat := p']> (p :: l)) with (p' :: l). rewrite !total_cons. lia.
- specialize (IH t Ht). change (<[S t := p']> (q :: l)) with (q :: <[t := p']> l). rewrite !total_cons. lia.
Qed.

(** A sum of zeroes and ones that is not full leaves somebody out. *)
Lemma total_lt f l :
(∀ p, f p = 0 ∨ f p = 1) → total f l < Z.of_nat (length l) → ∃ t p, l !! t = Some p ∧ f p = 0.
Proof.
intros H01. induction l as [|p l IH]; intros Hlt; [unfold total in Hlt; cbn in Hlt; lia|].
rewrite total_cons in Hlt. cbn [length] in Hlt.
destruct (H01 p) as [Hp|Hp]; [by exists O, p|].
destruct IH as (t & q & Ht & Hq); [lia|]. by exists (S t), q.
Qed.

Lemma total_le f l : (∀ p, f p = 0 ∨ f p = 1) → total f l <= Z.of_nat (length l).
Proof.
intros H01. induction l as [|p l IH]; [done|]. rewrite total_cons. cbn [length]. destruct (H01 p); lia.
Qed.

Lemma total_full f l :
(∀ p, f p = 0 ∨ f p = 1) → Z.of_nat (length l) <= total f l → Forall (λ p, f p = 1) l.
Proof.
intros H01. induction l as [|p l IH]; intros Hge; [done|]. rewrite total_cons in Hge. cbn [length] in Hge.
pose proof (total_le f l H01). destruct (H01 p); [lia|]. constructor; [done|]. apply IH. lia.
Qed.

Lemma total_const f l k : Forall (λ p, f p = k) l → total f l = Z.of_nat (length l) * k.
Proof. induction 1 as [|p l Hp _ IH]; [done|]. rewrite total_cons, Hp, IH. cbn [length]. lia. Qed.

(** ** The invariant *)

(** Where a thread may be in each phase of the barrier. *)
Definition pc_ok (ph : nat) (p : pc) : Prop :=
match p with
| AtBarrier => ph = 0%nat
| InBarrier1 q => q = 0%nat ∧ (ph = 0 ∨ ph = 1)%nat
| Loop i => 0 <= i <= num_increments ∧ ph = 1%nat
| Locked i | Loaded i _ | Stored i | Unlocked i => 0 <= i < num_increments ∧ ph = 1%nat
| InBarrier2 q => q = 1%nat ∧ (ph = 1 ∨ ph = 2)%nat
| Finished => ph = 2%nat
end.

Definition critical (p : pc) : bool :=
match p with Locked _ | Loaded _ _ | Stored _ => true | _ => false end.
(** The increments a thread has made. *)
Definition made (p : pc) : Z :=
match p with
| AtBarrier | InBarrier1 _ => 0
| Loop i | Locked i | Loaded i _ => i
| Stored i | Unlocked i => i + 1
| InBarrier2 _ | Finished => num_increments
end.
Definition waiting (ph : nat) (p : pc) : Z :=
match p with InBarrier1 q | InBarrier2 q => if decide (q = ph) then 1 else 0 | _ => 0 end.

(** What holds at every point of a run in which all threads could be started. *)
Record inv (s : sys) : Prop := {
inv_pc : Forall (pc_ok (phase s)) (threads s);
inv_counter : counter s = u32 (total made (threads s));
inv_arrived : arrived s = total (waiting (phase s)) (threads s);
inv_below : 0 <= arrived s < num_spawns;
inv_lock : ∀ t, (∃ p, threads s !! t = Some p ∧ critical p = true) ↔ counter_lock s = Some t;
inv_loaded : ∀ t i v, threads s !! t = Some (Loaded i v) → v = counter s;
inv_phase : (phase s <= 2)%nat;
inv_count : Z.of_nat (length (threads s)) <= num_spawns;
inv_all : phase s ≠ 0%nat → Z.of_nat (length (threads s)) = num_spawns;
inv_main : match main_pc s with
           | MCreate i => Z.of_nat (length (threads s)) = i
           | MJoin j => Z.of_nat (length (threads s)) = num_spawns ∧ 0 <= j <= num_spawns ∧
                        ∀ t, Z.of_nat t < j → threads s !! t = Some Finished
           | MEnd => Z.of_nat (length (threads s)) = num_spawns ∧
                     Forall (λ p, p = Finished) (threads s)
           | MBad => False
           end;
}.

Lemma waiting_01 ph p : waiting ph p = 0 ∨ waiting ph p = 1.
Proof. destruct p; cbn; try by left. all: case_decide; auto. Qed.

(** The main thread's part, when a thread that has not ended moves. *)
Lemma main_move s t p p' :
inv s → threads s !! t = Some p → p ≠ Finished →
let l := <[t := p']> (threads s) in
match main_pc s with
| MCreate i => Z.of_nat (length l) = i
| MJoin j => Z.of_nat (length l) = num_spawns ∧ 0 <= j <= num_spawns ∧
             ∀ t, Z.of_nat t < j → l !! t = Some Finished
| MEnd => Z.of_nat (length l) = num_spawns ∧ Forall (λ p, p = Finished) l
| MBad => False
end.
Proof.
intros Hi Ht Hne. pose proof (inv_main _ Hi) as Hm. cbn. rewrite length_insert.
destruct (main_pc s) as [i|j| |]; try done.
- destruct Hm as (H1 & H2 & Hf). split; [done|]. split; [done|]. intros t' Hlt.
  destruct (decide (t' = t)) as [->|]; [specialize (Hf t Hlt); congruence|].
  rewrite list_lookup_insert_ne by done. by apply Hf.
- destruct Hm as [_ Hf]. exfalso. apply Hne. rewrite Forall_lookup in Hf. by apply (Hf t).
Qed.

(** A step of thread [t], given what it does to the barrier. *)
Lemma inv_move s t p p' c l a ph :
inv s → threads s !! t = Some p → p ≠ Finished →
Forall (pc_ok ph) (<[t := p']> (threads s)) →
a = total (waiting ph) (<[t := p']> (threads s)) → 0 <= a < num_spawns → (ph <= 2)%nat →
(ph ≠ 0%nat → Z.of_nat (length (threads s)) = num_spawns) →
c = u32 (total made (threads s) - made p + made p') →
(critical p = true ∨ c = counter s) → (∀ i v, p' = Loaded i v → v = c) →
(if critical p' then l = Some t ∧ (critical p = true ∨ counter_lock s = None)
 else if critical p then l = None else l = counter_lock s) →
inv (Sys (main_pc s) (<[t := p']> (threads s)) c l a ph).
Proof.
intros Hi Ht Hne Hok Ha Hbel Hph Hn Hc Hcrit Hld Hl. pose proof (inv_lock _ Hi) as Hlk.
pose proof (lookup_lt_Some _ _ _ Ht) as Hlt.
assert (∀ t' q, t' ≠ t → threads s !! t' = Some q → critical q = true →
  critical p = false ∧ counter_lock s = Some t') as Hother.
{ intros t' q Hne' Hq Hcq. assert (counter_lock s = Some t') as E by (apply Hlk; eauto).
  split; [|done]. destruct (critical p) eqn:Ep; [|done]. exfalso. apply Hne'.
  assert (counter_lock s = Some t) as E' by (apply Hlk; eauto). congruence. }
split; cbn.
- done.
- by rewrite (total_insert _ _ _ _ _ Ht).
- done.
- done.
- intros t'. destruct (decide (t' = t)) as [->|Hne'].
  + rewrite list_lookup_insert_eq by done. destruct (critical p') eqn:Ep'.
    * destruct Hl as [-> _]. split; [done|]. intros _. by exists p'.
    * split; [intros (q & [= <-] & ?); congruence|]. intros ->.
      destruct (critical p) eqn:Ep; [done|]. symmetry in Hl. apply Hlk in Hl as (q & Hq & Hcq). congruence.
  + rewrite list_lookup_insert_ne by done. split.
    * intros (q & Hq & Hcq). destruct (Hother t' q Hne' Hq Hcq) as [Hp E].
      rewrite Hp in Hl. destruct (critical p'); [destruct Hl as [_ [|]]; congruence|congruence].
    * intros ->. destruct (critical p'); [destruct Hl; congruence|].
      destruct (critical p); [done|]. by apply Hlk.
- intros t' i v. destruct (decide (t' = t)) as [->|Hne'].
  + rewrite list_lookup_insert_eq by done. intros [= ->]. by apply (Hld i).
  + rewrite list_lookup_insert_ne by done. intros Hq.
    destruct (Hother t' _ Hne' Hq eq_refl) as [Hp _]. destruct Hcrit as [| ->]; [congruence|].
    by apply (inv_loaded _ Hi t' i).
- done.
- rewrite length_insert. apply Hi.
- by rewrite length_insert.
- by apply (main_move s t p p').
Qed.

(** A step that does not arrive at the barrier. *)
Lemma inv_local s t p p' c l :
inv s → threads s !! t = Some p → p ≠ Finished →
pc_ok (phase s) p' → waiting (phase s) p' = waiting (phase s) p →
c = u32 (total made (threads s) - made p + made p') →
(critical p = true ∨ c = counter s) → (∀ i v, p' = Loaded i v → v = c) →
(if critical p' then l = Some t ∧ (critical p = true ∨ counter_lock s = None)
 else if critical p then l = None else l = counter_lock s) →
inv (Sys (main_pc s) (<[t := p']> (threads s)) c l (arrived s) (phase s)).
Proof.
intros Hi Ht Hne Hok Hw Hc Hcrit Hld Hl.
apply (inv_move s t p p'); try done; try apply Hi.
- by apply Forall_insert; [apply Hi|].
- rewrite (total_insert _ _ _ _ _ Ht), Hw, (inv_arrived _ Hi). lia.
Qed.

(** Once everybody waits in a phase, all are where the next phase lets them be. *)
Lemma all_waiting ph l :
(ph < 2)%nat → Forall (pc_ok ph) l → Forall (λ p, waiting ph p = 1) l →
Forall (pc_ok (S ph)) l ∧ total (waiting (S ph)) l = 0.
Proof.
intros Hph Hok Hw. assert (Forall (λ p, pc_ok (S ph) p ∧ waiting (S ph) p = 0) l) as H.
{ apply Forall_lookup. intros t p Hp. rewrite Forall_lookup in Hok, Hw.
  specialize (Hok t p Hp). specialize (Hw t p Hp). destruct p; cbn in *; try done; case_decide; try done; subst;
    (rewrite decide_False by lia; split_and!; try done; lia). }
rewrite Forall_and in H. destruct H as [H1 H2]. split; [done|]. rewrite (total_const _ _ 0 H2). lia.
Qed.

(** An arrival; the last one opens the barrier. *)
Lemma inv_arrive s t p p' :
inv s → threads s !! t = Some p →
p = AtBarrier ∧ p' = InBarrier1 (phase s) ∨ p = Loop num_increments ∧ p' = InBarrier2 (phase s) →
inv (set_pc t p' (barrier_arrive s)).
Proof.
intros Hi Ht Hp. pose proof (proj1 (Forall_lookup _ _) (inv_pc _ Hi) t p Ht) as Hokp.
assert (p ≠ Finished ∧ pc_ok (phase s) p' ∧ waiting (phase s) p' = 1 ∧ waiting (phase s) p = 0 ∧
  made p' = made p ∧ critical p = false ∧ critical p' = false ∧ (∀ i v, p' ≠ Loaded i v) ∧ (phase s < 2)%nat)
  as (Hne & Hok & Hw' & Hw & Hmade & Hcr & Hcr' & Hnl & Hph).
{ destruct Hp as [[-> ->]|[-> ->]]; cbn in *; rewrite decide_True by done; split_and!; try done; lia. }
assert (total (waiting (phase s)) (<[t := p']> (threads s)) = arrived s + 1) as Htot.
{ rewrite (total_insert _ _ _ _ _ Ht), (inv_arrived _ Hi). lia. }
assert (counter s = u32 (total made (threads s) - made p + made p')) as Hc.
{ rewrite Hmade, (inv_counter _ Hi). f_equal. lia. }
assert (Forall (pc_ok (phase s)) (<[t := p']> (threads s))) as Hoks by (apply Forall_insert; [apply Hi|done]).
pose proof (inv_below _ Hi). pose proof (inv_count _ Hi).
unfold barrier_arrive. destruct (Z.eqb_spec (arrived s + 1) num_spawns) as [E|E].
- assert (Z.of_nat (length (threads s)) = num_spawns) as Hlen.
  { pose proof (total_le _ (<[t := p']> (threads s)) (waiting_01 (phase s))) as Hle.
    rewrite length_insert in Hle. lia. }
  destruct (all_waiting (phase s) (<[t := p']> (threads s)) Hph Hoks) as [H1 H2].
  { apply total_full; [apply waiting_01|]. rewrite length_insert. lia. }
  unfold set_pc. cbn. apply (inv_move s t p p'); try done; [lia|by right| |by rewrite Hcr', Hcr].
  intros i v ->. by destruct (Hnl i v).
- unfold set_pc. cbn. apply (inv_move s t p p'); try done; [lia|apply Hi|apply Hi|by right| |by rewrite Hcr', Hcr].
  intros i v ->. by destruct (Hnl i v).
Qed.

Context (Hspawns : 0 <= num_spawns < 2 ^ 32) (Hincs : 0 <= num_increments < 2 ^ 32).

(** A step of thread [t] from [p] that stays inside its phase. *)
Local Ltac local_step s t p Hc :=
  apply (inv_local s t p);
  try match goal with E : phase s = _ |- _ => rewrite ?E end; try done; cbn; try (left; done); try (right; done);
  try (rewrite Hc; f_equal; lia).

Lemma inv_thread t s s' : inv s → threadfn t s = Some s' → inv s'.
Proof.
intros Hi. unfold threadfn. destruct (threads s !! t) as [p|] eqn:Ht; [|done].
pose proof (proj1 (Forall_lookup _ _) (inv_pc _ Hi) t p Ht) as Hok.
pose proof (inv_lock _ Hi t) as Hlk. pose proof (inv_counter _ Hi) as Hc.
destruct p as [|ph|i|i|i v|i|i|ph|]; cbn in Hok.
- intros [= <-]. apply (inv_arrive s t AtBarrier); [done..|by left].
- case_decide as Hph; [done|]. intros [= <-]. assert (phase s = 1%nat) as E by lia.
  local_step s t (InBarrier1 ph) Hc; [split; [lia|done]|].
  destruct Hok as [-> _]. by rewrite decide_False.
- destruct (Z.ltb_spec i num_increments) as [Hlt|Hge].
  + destruct (counter_lock s) as [t'|] eqn:El; [done|]. intros [= <-].
    local_step s t (Loop i) Hc; [split; [lia|tauto]|]. split; [done|by right].
  + intros [= <-]. assert (i = num_increments) as -> by lia.
    apply (inv_arrive s t (Loop num_increments)); [done..|by right].
- intros [= <-]. assert (counter_lock s = Some t) as El by (apply Hlk; eauto).
  local_step s t (Locked i) Hc; [by intros ? ? [= _ ->]|]. split; [done|by left].
- intros [= <-]. pose proof (inv_loaded _ Hi t i v Ht) as ->.
  assert (counter_lock s = Some t) as El by (apply Hlk; eauto).
  local_step s t (Loaded i (counter s)) Hc; [|split; [done|by left]].
  rewrite Hc. unfold u32. rewrite Zplus_mod_idemp_l. f_equal. lia.
- intros [= <-]. local_step s t (Stored i) Hc.
- intros [= <-]. assert (u32 (i + 1) = i + 1) as -> by (unfold u32; apply Z.mod_small; lia).
  local_step s t (Unlocked i) Hc. split; [lia|tauto].
- case_decide as Hph; [done|]. intros [= <-]. assert (phase s = 2%nat) as E by lia.
  local_step s t (InBarrier2 ph) Hc. destruct Hok as [-> _]. by rewrite decide_False.
- done.
Qed.

(** Starting a thread adds one that has made no step. *)
Lemma inv_create s i :
inv s → main_pc s = MCreate i → i < num_spawns →
inv (Sys (MCreate (i + 1)) (threads s ++ [AtBarrier]) (counter s) (counter_lock s) (arrived s) (phase s)).
Proof.
intros Hi Hm Hlt. pose proof (inv_main _ Hi) as Hlen. rewrite Hm in Hlen.
assert (phase s = 0%nat) as Hph by (destruct (decide (phase s = 0%nat)); [done|]; pose proof (inv_all _ Hi); lia).
assert (∀ t p, (threads s ++ [AtBarrier]) !! t = Some p → p ≠ AtBarrier → threads s !! t = Some p) as Hold.
{ intros t p Hp Hne. apply lookup_app_Some in Hp as [|[_ Hp]]; [done|].
  apply list_lookup_singleton_Some in Hp as [_ <-]. done. }
split; cbn.
- apply Forall_app. split; [apply Hi|]. by repeat constructor.
- rewrite total_app, (inv_counter _ Hi). f_equal. unfold total. cbn. lia.
- rewrite total_app, (inv_arrived _ Hi). unfold total. cbn. lia.
- apply Hi.
- intros t. rewrite <- (inv_lock _ Hi t). split.
  + intros (p & Hp & Hcp). exists p. split; [apply Hold; [done|by intros ->]|done].
  + intros (p & Hp & Hcp). exists p. split; [by apply lookup_app_l_Some|done].
- intros t j v Hp. apply (inv_loaded _ Hi t j). by apply Hold.
- apply Hi.
- rewrite length_app. cbn. lia.
- by rewrite Hph.
- rewrite length_app. cbn. lia.
Qed.

Lemma inv_set_main s m :
inv s →
match m with
| MCreate i => Z.of_nat (length (threads s)) = i
| MJoin j => Z.of_nat (length (threads s)) = num_spawns ∧ 0 <= j <= num_spawns ∧
             ∀ t, Z.of_nat t < j → threads s !! t = Some Finished
| MEnd => Z.of_nat (length (threads s)) = num_spawns ∧ Forall (λ p, p = Finished) (threads s)
| MBad => False
end → inv (set_main m s).
Proof. intros [] Hm. by split. Qed.

Lemma inv_main_step s s' : inv s → main_step true s = Some s' → inv s'.
Proof.
intros Hi. unfold main_step. pose proof (inv_main _ Hi) as Hm.
destruct (main_pc s) as [i|j| |] eqn:Em; try done.
- pose proof (inv_count _ Hi). destruct (Z.ltb_spec i num_spawns); intros [= <-]; [by apply inv_create|].
  apply inv_set_main; [done|]. split_and!; try lia.
- destruct Hm as (Hlen & Hj & Hf). destruct (Z.ltb_spec j num_spawns) as [Hlt|Hge].
  + destruct (threads s !! Z.to_nat j) as [[]|] eqn:Ej; try done; intros [= <-].
    2:{ apply lookup_ge_None in Ej. lia. }
    apply inv_set_main; [done|]. split; [done|]. split; [lia|]. intros t Ht.
    destruct (decide (t = Z.to_nat j)) as [->|]; [done|]. apply Hf. lia.
  + intros [= <-]. apply inv_set_main; [done|]. split; [done|]. apply Forall_lookup. intros t p Hp.
    specialize (Hf t). rewrite Hp in Hf. apply lookup_lt_Some in Hp. assert (Some p = Some Finished) by (apply Hf; lia).
    congruence.
Qed.

#[export] Instance choice_eq_dec : EqDecision choice.
Proof. solve_decision. Defined.

(** All threads can be started. *)
Definition all_started (cs : list choice) : Prop := Main false ∉ cs.

Lemma inv_step c s s' : c ≠ Main false → inv s → step c s = Some s' → inv s'.
Proof. destruct c as [[]|t]; [|done|]; intros _; [apply inv_main_step|apply inv_thread]. Qed.

Lemma inv_sys0 : 0 < num_spawns → inv sys0.
Proof.
intros H. unfold sys0. rewrite (proj2 (Z.eqb_neq _ 0)) by lia. split; cbn; try done; try lia.
intros t. split; [|done]. intros (p & Hp & _). by rewrite lookup_nil in Hp.
Qed.

(** ** Every run ends *)

(** The steps a participant still has to make. *)
Definition pc_rank (p : pc) : Z :=
let k := num_increments in
match p with
| AtBarrier => 5 * k + 4
| InBarrier1 _ => 5 * k + 3
| Loop i => 5 * (k - i) + 2
| Locked i => 5 * (k - i) + 1
| Loaded i _ => 5 * (k - i)
| Stored i => 5 * (k - i) - 1
| Unlocked i => 5 * (k - i) - 2
| InBarrier2 _ => 1
| Finished => 0
end.
Definition main_rank (m : mpc) : Z :=
match m with
| MCreate i => (num_spawns - i) * (5 * num_increments + 5) + num_spawns + 2
| MJoin j => num_spawns - j + 1
| MEnd | MBad => 0
end.
Definition rank (s : sys) : Z := main_rank (main_pc s) + total pc_rank (threads s).

Lemma rank_nonneg s : inv s → 0 <= rank s.
Proof.
intros Hi. unfold rank. assert (0 <= main_rank (main_pc s)) as Hm.
{ pose proof (inv_main _ Hi) as Hm. pose proof (inv_count _ Hi).
  destruct (main_pc s); cbn; try done; [nia|lia]. }
assert (0 <= total pc_rank (threads s)); [|lia]. pose proof (inv_pc _ Hi) as Hok.
clear Hm. induction Hok as [|p l Hp _ IH]; [done|]. rewrite total_cons.
assert (0 <= pc_rank p); [|lia]. destruct p; cbn in *; lia.
Qed.

Lemma rank_pc t p p' s s' :
threads s !! t = Some p → main_pc s' = main_pc s → threads s' = <[t := p']> (threads s) →
pc_rank p' < pc_rank p → rank s' < rank s.
Proof. intros Ht Hm Hs Hlt. unfold rank. rewrite Hm, Hs, (total_insert _ _ _ _ _ Ht). lia. Qed.

Lemma barrier_arrive_same s :
main_pc (barrier_arrive s) = main_pc s ∧ threads (barrier_arrive s) = threads s.
Proof. unfold barrier_arrive. by destruct (_ =? _). Qed.

Lemma rank_step c s s' : c ≠ Main false → inv s → step c s = Some s' → rank s' < rank s.
Proof.
intros Hc Hi. destruct (barrier_arrive_same s) as [Hb1 Hb2]. destruct c as [ok|t]; cbn [step].
- assert (ok = true) as -> by (by destruct ok). unfold main_step. pose proof (inv_main _ Hi) as Hm.
  destruct (main_pc s) as [i|j| |] eqn:Em; try done.
  + destruct (Z.ltb_spec i num_spawns); intros [= <-]; unfold rank; cbn; rewrite Em; cbn;
      rewrite ?total_app; unfold total; cbn; [|pose proof (inv_count _ Hi)]; nia.
  + destruct (Z.ltb_spec j num_spawns); [destruct (threads s !! Z.to_nat j) as [[]|] eqn:Ej; try done|];
      intros [= <-]; unfold rank; cbn; rewrite Em; cbn; lia.
- unfold threadfn. destruct (threads s !! t) as [p|] eqn:Ht; [|done].
  pose proof (proj1 (Forall_lookup _ _) (inv_pc _ Hi) t p Ht) as Hok.
  destruct p as [|ph|i|i|i v|i|i|ph|]; try case_decide; try done; cbn in Hok.
  all: try (destruct (Z.ltb_spec i num_increments); [destruct (counter_lock s); [done|]|]).
  all: intros [= <-]; eapply (rank_pc t); [exact Ht|cbn; try done..|cbn; try lia]; try by rewrite Hb2.
  all: cbn; try lia. unfold u32. rewrite Z.mod_small by lia. lia.
Qed.

(** ** Somebody can always go on *)
Lemma thread_can t p s :
inv s → threads s !! t = Some p → p ≠ Finished → waiting (phase s) p = 0 →
∃ c s', c ≠ Main false ∧ step c s = Some s'.
Proof.
intros Hi Ht Hne Hw.
assert (∀ t' s', threadfn t' s = Some s' → ∃ c s', c ≠ Main false ∧ step c s = Some s') as Hgo
  by (intros t' s' H; by exists (Thread t'), s').
assert (∀ t' q, threads s !! t' = Some q → critical q = true → ∃ s', threadfn t' s = Some s') as Hcrit.
{ intros t' q Hq Hcq. unfold threadfn. rewrite Hq. destruct q; try done; by eexists. }
destruct (critical p) eqn:Ep; [destruct (Hcrit t p Ht Ep) as [s' Hs']; by eapply Hgo|].
destruct p as [|ph|i|i|i v|i|i|ph|]; try done;
  try (eapply (Hgo t); unfold threadfn; rewrite Ht; reflexivity).
- cbn in Hw. case_decide as E; [done|]. eapply (Hgo t). unfold threadfn. rewrite Ht, decide_False by congruence. done.
- destruct (counter_lock s) as [t'|] eqn:El.
  + apply (inv_lock _ Hi) in El as (q & Hq & Hcq). destruct (Hcrit t' q Hq Hcq) as [s' Hs']. by eapply Hgo.
  + destruct (i <? num_increments) eqn:Ei; eapply (Hgo t); unfold threadfn; rewrite Ht, Ei, ?El; done.
- cbn in Hw. case_decide as E; [done|]. eapply (Hgo t). unfold threadfn. rewrite Ht, decide_False by congruence. done.
Qed.

Lemma progress s :
inv s → main_pc s ≠ MEnd → ∃ c s', c ≠ Main false ∧ step c s = Some s'.
Proof.
intros Hi Hne. pose proof (inv_main _ Hi) as Hm. destruct (main_pc s) as [i|j| |] eqn:Em; try done.
{ exists (Main true). cbn. unfold main_step. rewrite Em. destruct (i <? num_spawns); by eexists. }
destruct Hm as (Hlen & Hj & Hf). destruct (Z.ltb_spec j num_spawns) as [Hlt|Hge].
2:{ exists (Main true). cbn. unfold main_step. rewrite Em, (proj2 (Z.ltb_ge _ _)) by done. by eexists. }
destruct (lookup_lt_is_Some_2 (threads s) (Z.to_nat j)) as [p Hp]; [lia|].
destruct (decide (p = Finished)) as [->|Hpf].
{ exists (Main true). cbn. unfold main_step. rewrite Em, (proj2 (Z.ltb_lt _ _)), Hp by done. by eexists. }
pose proof (inv_below _ Hi) as Hb. rewrite (inv_arrived _ Hi) in Hb.
pose proof (proj1 (Forall_lookup _ _) (inv_pc _ Hi)) as Hok.
destruct (decide (phase s = 2%nat)) as [E2|E2].
- apply (thread_can (Z.to_nat j) p s Hi Hp Hpf). specialize (Hok _ _ Hp). rewrite E2 in *.
  destruct p; cbn in *; try lia. by rewrite decide_False by lia.
- destruct (total_lt (waiting (phase s)) (threads s)) as (t & q & Hq & Hw); [apply waiting_01|lia|].
  apply (thread_can t q s Hi Hq); [|done]. intros ->. specialize (Hok _ _ Hq). cbn in Hok. lia.
Qed.

Lemma inv_run cs s s' :
all_started cs → inv s → run cs s = Some s' → inv s' ∧ Z.of_nat (length cs) + rank s' <= rank s.
Proof.
unfold all_started. revert s. induction cs as [|c cs IH]; intros s Hcs Hi Hrun.
{ injection Hrun as <-. split; [done|]. cbn. lia. }
cbn [run] in Hrun. apply bind_Some in Hrun as (s1 & Hs1 & Hrun).
rewrite not_elem_of_cons in Hcs. destruct Hcs as [Hc Hcs].
assert (c ≠ Main false) as Hc' by congruence.
pose proof (inv_step c s s1 Hc' Hi Hs1) as Hi1. pose proof (rank_step c s s1 Hc' Hi Hs1).
destruct (IH s1 Hcs Hi1 Hrun) as [Hi' Hr]. split; [done|]. cbn [length]. lia.
Qed.

(** Every state of a run, and the length of the run. *)
Lemma inv_reach cs s :
0 < num_spawns → all_started cs → run cs sys0 = Some s →
inv s ∧ Z.of_nat (length cs) <= num_spawns * (5 * num_increments + 6) + 2.
Proof.
intros Hn Hcs Hrun. destruct (inv_run cs sys0 s Hcs (inv_sys0 Hn) Hrun) as [Hi Hr].
split; [done|]. pose proof (rank_nonneg s Hi). unfold rank at 2, sys0 in Hr.
rewrite (proj2 (Z.eqb_neq num_spawns 0)) in Hr by lia. unfold total in Hr. cbn in Hr. lia.
Qed.

(** ** Complete runs *)

(** Everybody could be started and nobody can go on. *)
Definition complete (cs : list choice) : Prop :=
all_started cs ∧ ∃ s, run cs sys0 = Some s ∧ ∀ c, c ≠ Main false → step c s = None.

Lemma ended_stops s c : inv s → main_pc s = MEnd → step c s = None.
Proof.
intros Hi Hm. pose proof (inv_main _ Hi) as H. rewrite Hm in H. destruct H as [_ Hf]. destruct c as [ok|t]; cbn [step].
- unfold main_step. by rewrite Hm.
- unfold threadfn. destruct (threads s !! t) as [p|] eqn:Ht; [|done].
  rewrite Forall_lookup in Hf. by rewrite (Hf t p Ht).
Qed.

Lemma ended_counter s : inv s → main_pc s = MEnd → counter s = u32 (num_spawns * num_increments).
Proof.
intros Hi Hm. rewrite (inv_counter _ Hi). pose proof (inv_main _ Hi) as H. rewrite Hm in H. destruct H as [Hlen Hf].
rewrite (total_const _ _ num_increments), Hlen; [done|]. eapply Forall_impl; [exact Hf|]. by intros p ->.
Qed.

(** No threads: nothing runs. *)
Lemma empty_run cs s : num_spawns = 0 → run cs sys0 = Some s → s = sys0.
Proof. intros Hn. unfold sys0. rewrite Hn. destruct cs as [|[ok|t] cs]; cbn; by intros [= <-]. Qed.

(** A complete run has joined all threads. *)
Lemma complete_ends cs :
complete cs →
∃ s, run cs sys0 = Some s ∧ main_pc s = MEnd ∧ counter s = u32 (num_spawns * num_increments).
Proof.
intros (Hcs & s & Hrun & Hstop). exists s. split; [done|].
destruct (decide (num_spawns = 0)) as [E|E].
{ rewrite (empty_run cs s E Hrun). unfold sys0. by rewrite E. }
destruct (inv_reach cs s ltac:(lia) Hcs Hrun) as [Hi _].
destruct (decide (main_pc s = MEnd)) as [Hm|Hm]; [by split; [|apply ended_counter]|].
destruct (progress s Hi Hm) as (c & s' & Hc & Hs). rewrite (Hstop c Hc) in Hs. done.
Qed.

Lemma run_to_end n s :
(Z.to_nat (rank s) <= n)%nat → inv s →
∃ cs s', all_started cs ∧ run cs s = Some s' ∧ inv s' ∧ main_pc s' = MEnd.
Proof.
revert s. induction n as [|n IH]; intros s Hn Hi; (destruct (decide (main_pc s = MEnd)) as [Hm|Hm];
  [exists [], s; split_and!; try done; apply not_elem_of_nil|]);
  destruct (progress s Hi Hm) as (c & s1 & Hc & Hs); pose proof (inv_step c s s1 Hc Hi Hs) as Hi1;
  pose proof (rank_step c s s1 Hc Hi Hs); pose proof (rank_nonneg s1 Hi1); [lia|].
destruct (IH s1) as (cs & s' & Hcs & Hrun & Hi' & Hm'); [lia|done|].
exists (c :: cs), s'. split_and!; try done; [|cbn; by rewrite Hs].
unfold all_started. apply not_elem_of_cons. split; [congruence|done].
Qed.

(** There are complete runs of every test. *)
Lemma complete_exists : ∃ cs, complete cs.
Proof.
destruct (decide (num_spawns = 0)) as [E|E].
- exists []. split; [apply not_elem_of_nil|]. exists sys0. split; [done|]. unfold sys0. rewrite E.
  intros [ok|t] _; done.
- pose proof (inv_sys0 ltac:(lia)) as Hi.
  destruct (run_to_end _ sys0 (le_n _) Hi) as (cs & s & Hcs & Hrun & Hi' & Hm).
  exists cs. split; [done|]. exists s. split; [done|]. intros c _. by apply ended_stops.
Qed.

(** ** When a thread cannot be started *)

(** The main thread waits for the first thread, which waits at a barrier that will
  not open. *)
Definition stuck (s : sys) : Prop :=
main_pc s = MJoin 0 ∧ phase s = 0%nat ∧ Forall (pc_ok 0) (threads s) ∧
0 < Z.of_nat (length (threads s)) < num_spawns ∧ arrived s = total (waiting 0) (threads s).

Lemma stuck_step c s s' : stuck s → step c s = Some s' → stuck s'.
Proof.
intros (Hm & Hph & Hok & Hlen & Ha). destruct c as [ok|t]; cbn [step].
- unfold main_step. rewrite Hm, (proj2 (Z.ltb_lt 0 _)) by lia.
  destruct (lookup_lt_is_Some_2 (threads s) (Z.to_nat 0)) as [p Hp]; [lia|]. rewrite Hp.
  rewrite Forall_lookup in Hok. specialize (Hok _ _ Hp). by destruct p.
- unfold threadfn. destruct (threads s !! t) as [p|] eqn:Ht; [|done].
  pose proof (proj1 (Forall_lookup _ _) Hok t p Ht) as Hp.
  destruct p as [|ph|i|i|i v|i|i|ph|]; cbn in Hp; try (destruct Hp; lia); try done.
  + intros [= <-].
    assert (total (waiting 0) (<[t := InBarrier1 0]> (threads s)) = arrived s + 1) as Htot
      by (rewrite (total_insert _ _ _ _ _ Ht), Ha; cbn; rewrite decide_True by done; lia).
    pose proof (total_le (waiting 0) (<[t := InBarrier1 0]> (threads s)) (waiting_01 0)) as Hle.
    rewrite length_insert in Hle. unfold barrier_arrive. rewrite (proj2 (Z.eqb_neq _ _)) by lia.
    split_and!; cbn; rewrite ?Hph, ?length_insert; try done; try lia. by apply Forall_insert; [|split; [|left]].
  + rewrite decide_True; [done|]. lia.
Qed.

Lemma stuck_run cs s s' : stuck s → run cs s = Some s' → stuck s'.
Proof.
revert s. induction cs as [|c cs IH]; intros s Hs Hrun; [by injection Hrun as <-|].
cbn [run] in Hrun. apply bind_Some in Hrun as (s1 & Hs1 & Hrun). apply (IH s1); [|done].
by apply (stuck_step c s).
Qed.

Lemma create_failed s i s' :
inv s → main_pc s = MCreate i → 0 < i < num_spawns → step (Main false) s = Some s' → stuck s'.
Proof.
intros Hi Hm Hr. cbn [step]. unfold main_step. rewrite Hm, (proj2 (Z.ltb_lt i _)) by lia. intros [= <-].
pose proof (inv_main _ Hi) as Hlen. rewrite Hm in Hlen.
assert (phase s = 0%nat) as Hph by (destruct (decide (phase s = 0%nat)); [done|]; pose proof (inv_all _ Hi); lia).
pose proof (inv_pc _ Hi) as Hok. pose proof (inv_arrived _ Hi) as Ha. rewrite Hph in Hok, Ha.
split_and!; cbn; done || lia.
Qed.
End threads.
