(* ===== verification/KcutDriver.v ===== *)
(** * The test driver ([kcuttest/main.c], [evacuate.h])

    [main] takes the processor for itself, raises its privilege, makes a series of
    calls into the kernel and of system calls, starts processes and threads, and
    gives privilege and processor back. The state puts together that of the
    privilege library ([Kcut]), of the evacuation ([Evacuate]) and the log of what
    was done; the thread test runs the system of [KcutThreads], the processes that are
    started are tasks of the evacuation's state. *)
From S2P Require Import Prelude Kcut Evacuate EvacuateSpec EvacuateHold KcutEvac KcutThreads.

Open Scope Z_scope.

(** The tests, in the order of the source. *)
Inductive test :=
| PrivilegedInstruction | StackTouch (sum : Z) | KernelStackTouch | ReadOverflowuid | Printk
| KernelAdd (sum : Z) | CurrentPid | FaultCounts | UserYield | KernelYield | Sleep (sec : Z)
| Fork | ChildPid | Counter (value expected : Z) | StackFault (operation : Z) | Interrupt.

Record drv := Drv { dv_ev : evw; dv_k : kcutw; dv_log : list test }.

Definition on_k {A} (m : M kcutw A) : M drv A := λ d,
  match m (dv_k d) with
  | Done a k => Done a (Drv (dv_ev d) k (dv_log d))
  | Exited c k => Exited c (Drv (dv_ev d) k (dv_log d))
  | Aborted => Aborted
  | Fault => Fault
  | NoFuel => NoFuel
  end.
Definition on_ev {A} (m : M evw A) : M drv A := λ d,
  match m (dv_ev d) with
  | Done a e => Done a (Drv e (dv_k d) (dv_log d))
  | Exited c e => Exited c (Drv e (dv_k d) (dv_log d))
  | Aborted => Aborted
  | Fault => Fault
  | NoFuel => NoFuel
  end.
Definition on_kev {A} (m : M kev A) : M drv A := λ d,
  match m (Kev (dv_ev d) (dv_k d)) with
  | Done a e => Done a (Drv (ke_ev e) (ke_k e) (dv_log d))
  | Exited c e => Exited c (Drv (ke_ev e) (ke_k e) (dv_log d))
  | Aborted => Aborted
  | Fault => Fault
  | NoFuel => NoFuel
  end.
Definition did (t : test) : M drv unit := modifyM (λ d, Drv (dv_ev d) (dv_k d) (dv_log d ++ [t])).

(** A step that needs privilege: kernel code or memory, or a privileged
    instruction. *)
Definition privileged {A} (m : M drv A) : M drv A :=
  d ← getM; if kw_elevated (dv_k d) then m else faultM.

Section driver.
Context (mc : machine) (ks : ksys).

(** ** [main.c] *)

(** [volatile char data[n]; data[i] = 0xff; sum += data[i]] for each of eight
  pages: [char] is signed. *)
Definition PGSIZE : Z := 4096.
Fixpoint touch_pages (pages : nat) (sum : Z) : Z :=
match pages with
| O => sum
| S pages => touch_pages pages (i32 (sum + swrap 8 0xff))
end.
Definition stacktouch : Z := touch_pages 8 0.

Record margs := MArgs {
ssec : Z; bloop : Z; yieldcnt : Z; evac : Z; num_forks : Z; spawns : Z; increments : Z;
stack_df : Z; do_test_interrupt : Z }.

(** The arguments as [atoi] and [atol] read them, at the width of the variables. *)
Definition get_args (l : list Z) : margs :=
let arg i d := default d (l !! i) in
MArgs (arg 0%nat 1) (arg 1%nat 1000000000) (arg 2%nat 10) (arg 3%nat 1)
  (u32 (arg 4%nat 1000)) (u32 (arg 5%nat 1000)) (u32 (arg 6%nat 1000))
  (u32 (arg 7%nat 1)) (u32 (arg 8%nat 0)).

(** [heaptouch] and [k_heaptouch]: the pages of a block of [malloc] or of
  [vmalloc_noprof], whose answer is [p] (0 when there is no memory). The state is
  the set of allocated blocks. *)
Definition heaptouch (p : Z) : M (gset Z) Z :=
_ ← modifyM (λ h, {[p]} ∪ h);
sum ← (if p =? 0 then faultM else mret (touch_pages 8 0));
_ ← modifyM (λ h, h ∖ {[p]});
mret sum.
Definition k_heaptouch (p : Z) : M (gset Z) Z := heaptouch p.

(** [for (int i = 0; i < yieldcnt; i++) sched_yield()]: the counter is an [int]
  and must not overflow. *)
Fixpoint user_yields (n : nat) : M drv unit :=
match n with O => mret tt | S n => _ ← did UserYield; user_yields n end.
Definition user_yield_test (yieldcnt : Z) : M drv unit :=
if 2 ^ 31 <=? yieldcnt then faultM else user_yields (Z.to_nat yieldcnt).
(** [while (yieldcnt)] and [while (bloop)] count down to exactly 0. *)
Fixpoint kernel_yields (fuel : nat) (yieldcnt : Z) : M drv unit :=
if yieldcnt =? 0 then mret tt
else match fuel with
     | O => nofuelM
     | S fuel => _ ← privileged (did KernelYield); kernel_yields fuel (yieldcnt - 1)
     end.
Fixpoint busy_loop (fuel : nat) (bloop : Z) : M drv unit :=
if bloop =? 0 then mret tt
else match fuel with O => nofuelM | S fuel => busy_loop fuel (bloop - 1) end.

(** What becomes of a call of [fork] that succeeds: the process number of the child, and
  whether the child has run to its end when [main] goes on. *)
Record child := Child { ch_pid : Z; ch_ended : bool }.

(** The child has the mask, the priority and the privilege of its parent. It calls
  [current_pid], touches its stack and exits. *)
Definition child_runs (t : nat) : M drv unit :=
_ ← privileged (did ChildPid);
_ ← did (StackTouch stacktouch);
on_ev (k ← load_task t; modifyM (set_tasks (partial_alter (λ _, put (exited k)) t))).

(** The loop that forks; it stops when [fork] fails ([None]). *)
Fixpoint forks (n i : nat) (answer : nat → option child) : M drv unit :=
match n with
| O => mret tt
| S n =>
    match answer i with
    | None => mret tt
    | Some c =>
        _ ← did Fork;
        k ← on_ev (load_task (current mc));
        d ← getM;
        let t := fresh (dom (tasks (dv_ev d))) in
        _ ← on_ev (store_task t (forked (current mc) (ch_pid c) k));
        _ ← (if ch_ended c then child_runs t else mret tt);
        forks n (S i) answer
    end
end.

(** The thread test under a schedule; while it has not ended, so has [main]. *)
Definition thread_test (n k : Z) (cs : list choice) : M drv Z :=
match run n k cs (sys0 n) with
| Some s => match main_pc s with MEnd => mret (counter s) | _ => nofuelM end
| None => nofuelM
end.

(** What happens around the program: [getcpu], [fork], the schedule of the
  threads. *)
Record world := World { w_getcpu : bool; w_cpu : Z; w_fork : nat → option child; w_schedule : list choice }.

(** From the test that reads a kernel variable to the one of faults on the stack:
  [newmain.c] has the same text. *)
Definition middle_tests (a : margs) (x : world) (fuel : nat) : M drv unit :=
_ ← privileged (did ReadOverflowuid);
_ ← privileged (did Printk);
_ ← privileged (did (KernelAdd (3 + 4)));
_ ← privileged (did CurrentPid);
_ ← privileged (did FaultCounts);
_ ← user_yield_test (yieldcnt a);
_ ← kernel_yields fuel (yieldcnt a);
_ ← (if ssec a =? 0 then mret tt else did (Sleep (ssec a)));
_ ← busy_loop fuel (bloop a);
_ ← forks (Z.to_nat (num_forks a)) 0 (w_fork x);
c ← thread_test (spawns a) (increments a) (w_schedule x);
_ ← did (Counter c (spawns a * increments a));
if stack_df a =? 0 then mret tt else privileged (did (StackFault (stack_df a - 1))).

Definition elevated_tests (a : margs) (x : world) (fuel : nat) : M drv unit :=
_ ← privileged (did PrivilegedInstruction);
_ ← did (StackTouch stacktouch);
_ ← privileged (did KernelStackTouch);
_ ← middle_tests a x fuel;
if do_test_interrupt a =? 0 then mret tt else privileged (did Interrupt).

Definition main (args : list Z) (x : world) (fuel : nat) : M drv Z :=
let a := get_args args in
_ ← (if evac a =? 0 then mret tt else on_kev (kcut_evacuate mc ks (w_getcpu x) (w_cpu x) true));
_ ← on_k ksym_elevate;
_ ← elevated_tests a x fuel;
_ ← on_k ksymbi_fast_lower;
_ ← (if evac a =? 0 then mret tt else on_kev (kcut_evacuate mc ks (w_getcpu x) (w_cpu x) false));
mret 0.

(** ** What the driver does *)

Definition logs (l : list test) (d : drv) : drv := Drv (dv_ev d) (dv_k d) (dv_log d ++ l).

Lemma logs_nil d : logs [] d = d.
Proof. unfold logs. rewrite app_nil_r. by destruct d. Qed.
Lemma logs_app l l' d : logs l' (logs l d) = logs (l ++ l') d.
Proof. unfold logs. cbn. by rewrite app_assoc. Qed.

Lemma did_run t d : did t d = Done tt (logs [t] d).
Proof. done. Qed.

Lemma privileged_did t d : kw_elevated (dv_k d) = true → privileged (did t) d = Done tt (logs [t] d).
Proof. intros H. unfold privileged. rewrite (bind_done _ _ d d d) by reflexivity. by rewrite H. Qed.

Lemma user_yields_run n d : user_yields n d = Done tt (logs (replicate n UserYield) d).
Proof.
revert d. induction n as [|n IH]; intros d; [cbn; by rewrite logs_nil|]. cbn [user_yields].
rewrite (bind_done _ _ d tt (logs [UserYield] d)) by reflexivity. by rewrite IH, logs_app.
Qed.

Lemma kernel_yields_run n fuel d :
kw_elevated (dv_k d) = true → (n <= fuel)%nat →
kernel_yields fuel (Z.of_nat n) d = Done tt (logs (replicate n KernelYield) d).
Proof.
revert n d. induction fuel as [|fuel IH]; intros [|n] d He Hn; try lia; cbn [kernel_yields].
- by rewrite logs_nil.
- by rewrite logs_nil.
- rewrite (proj2 (Z.eqb_neq (Z.of_nat (S n)) 0)) by lia. step_by (privileged_did KernelYield d He).
  replace (Z.of_nat (S n) - 1) with (Z.of_nat n) by lia.
  rewrite IH by (done || lia). by rewrite logs_app.
Qed.

Lemma kernel_yields_count y fuel d :
kw_elevated (dv_k d) = true → 0 <= y <= Z.of_nat fuel →
kernel_yields fuel y d = Done tt (logs (replicate (Z.to_nat y) KernelYield) d).
Proof. intros He Hy. rewrite <- (Z2Nat.id y) at 1 by lia. apply kernel_yields_run; [done|lia]. Qed.

(** A negative count is never 0. *)
Lemma kernel_yields_negative fuel n d :
n < 0 → kw_elevated (dv_k d) = true → kernel_yields fuel n d = NoFuel.
Proof.
revert n d. induction fuel as [|fuel IH]; intros n d Hn He; cbn [kernel_yields];
  rewrite (proj2 (Z.eqb_neq n 0)) by lia; [done|].
step_by (privileged_did KernelYield d He). by apply IH; [lia|].
Qed.

Lemma busy_loop_run n fuel d : (n <= fuel)%nat → busy_loop fuel (Z.of_nat n) d = Done tt d.
Proof.
revert n. induction fuel as [|fuel IH]; intros [|n] Hn; try lia; cbn [busy_loop]; try done.
rewrite (proj2 (Z.eqb_neq (Z.of_nat (S n)) 0)) by lia.
replace (Z.of_nat (S n) - 1) with (Z.of_nat n) by lia. apply IH. lia.
Qed.

Lemma busy_loop_count b fuel d : 0 <= b <= Z.of_nat fuel → busy_loop fuel b d = Done tt d.
Proof. intros Hb. rewrite <- (Z2Nat.id b) by lia. apply busy_loop_run. lia. Qed.

(** The log of the loop, and the children that are still there at its end. *)
Fixpoint forks_log (n i : nat) (answer : nat → option child) : list test :=
match n with
| O => []
| S n =>
    match answer i with
    | None => []
    | Some c => Fork :: (if ch_ended c then [ChildPid; StackTouch (-8)] else []) ++ forks_log n (S i) answer
    end
end.
Fixpoint left_over (n i : nat) (answer : nat → option child) : list Z :=
match n with
| O => []
| S n =>
    match answer i with
    | None => []
    | Some c => (if ch_ended c then [] else [ch_pid c]) ++ left_over n (S i) answer
    end
end.

(** New tasks with these process numbers, children of the caller and otherwise like it. *)
Definition with_children (pids : list Z) (e e' : evw) : Prop :=
∃ kc (cs : gmap nat task), tasks e !! current mc = Some kc ∧
  e' = set_tasks (λ ts, cs ∪ ts) e ∧ cs ##ₘ tasks e ∧
  (λ tk, tk.2) <$> map_to_list cs ≡ₚ (λ n, forked (current mc) n kc) <$> pids.

Lemma with_none e : is_Some (tasks e !! current mc) → with_children [] e e.
Proof.
intros [kc Hk]. exists kc, ∅. split; [done|]. split; [destruct e; unfold set_tasks; cbn; by rewrite map_empty_union|].
split; [apply map_disjoint_empty_l|]. by rewrite map_to_list_empty.
Qed.

(** The caller's task stays what it is. *)
Lemma children_caller pids e e' : with_children pids e e' → tasks e' !! current mc = tasks e !! current mc.
Proof.
intros (kc & cs & Hk & -> & Hd & _). cbn. apply lookup_union_r. rewrite map_disjoint_spec in Hd.
destruct (cs !! current mc) eqn:E; [|done]. destruct (Hd _ _ _ E Hk).
Qed.

Lemma with_one n pids e e1 e2 kc :
tasks e !! current mc = Some kc →
e1 = set_tasks <[fresh (dom (tasks e)) := forked (current mc) n kc]> e → with_children pids e1 e2 →
with_children (n :: pids) e e2.
Proof.
intros Hk -> (kc' & cs & Hk' & -> & Hd & Hp). set (t := fresh (dom (tasks e))) in *.
assert (tasks e !! t = None) as Ht by (apply not_elem_of_dom, is_fresh).
cbn in Hk', Hd. rewrite lookup_insert_ne in Hk' by congruence. replace kc' with kc in * by congruence.
apply map_disjoint_insert_r in Hd as [Hct Hd]. exists kc, (<[t := forked (current mc) n kc]> cs). split; [done|].
split; [|split].
- unfold set_tasks. cbn. f_equal. rewrite <- insert_union_r by done. by rewrite insert_union_l.
- by apply map_disjoint_insert_l.
- rewrite map_to_list_insert by done. cbn. by rewrite Hp.
Qed.

Lemma child_runs_run t k d :
kw_elevated (dv_k d) = true → tasks (dv_ev d) !! t = None → usage k = 1 →
child_runs t (Drv (set_tasks <[t := k]> (dv_ev d)) (dv_k d) (dv_log d)) =
Done tt (logs [ChildPid; StackTouch (-8)] d).
Proof.
intros He Ht Hu. unfold child_runs. erewrite bind_done by (by apply privileged_did).
erewrite bind_done by apply did_run. unfold on_ev. cbn [dv_ev logs].
erewrite bind_done by (apply load_task_run; apply lookup_insert_eq). unfold logs, modifyM. cbn.
do 2 f_equal; [|by rewrite <- app_assoc]. unfold set_tasks. destruct d as [[ts sv kl tm om h] kk lg]. cbn in *. f_equal.
apply map_eq. intros t'. destruct (decide (t' = t)) as [->|].
- rewrite lookup_partial_alter_eq, Ht. unfold put, exited. cbn. by rewrite Hu.
- by rewrite lookup_partial_alter_ne, lookup_insert_ne.
Qed.

Lemma forks_run n i ans d :
kw_elevated (dv_k d) = true → is_Some (tasks (dv_ev d) !! current mc) →
∃ e, forks n i ans d = Done tt (Drv e (dv_k d) (dv_log d ++ forks_log n i ans)) ∧
  with_children (left_over n i ans) (dv_ev d) e.
Proof.
revert i d. induction n as [|n IH]; intros i d He [kc Hk]; cbn [forks forks_log left_over];
  [|destruct (ans i) as [[np en]|]]; try (exists (dv_ev d); split; [rewrite app_nil_r; by destruct d|by apply with_none; exists kc]).
step. erewrite bind_done by (unfold on_ev; erewrite load_task_run by exact Hk; reflexivity). step.
set (t := fresh _). cbn [dv_ev ch_pid ch_ended]. step.
assert (tasks (dv_ev d) !! t = None) as Ht by (apply not_elem_of_dom, is_fresh).
destruct en.
- erewrite bind_done by (apply (child_runs_run t _ (logs [Fork] d)); done).
  destruct (IH (S i) (logs [ChildPid; StackTouch (-8)] (logs [Fork] d)) He ltac:(by exists kc)) as (e & Hrun & Hw).
  exists e. rewrite Hrun. split; [|exact Hw]. do 2 f_equal. cbn. by rewrite <- !app_assoc.
- step. edestruct (IH (S i)) as (e & Hrun & Hw); [| |exists e; rewrite Hrun; split].
  + exact He.
  + cbn. exists kc. rewrite lookup_insert_ne; [done|]. congruence.
  + do 2 f_equal. cbn. by rewrite <- app_assoc.
  + eapply with_one; [exact Hk|reflexivity|exact Hw].
Qed.

(** The counts are not negative, the loops have the fuel they need and the [int]
  that counts yields does not overflow. *)
Definition args_ok (a : margs) (fuel : nat) : Prop :=
0 <= yieldcnt a <= Z.of_nat fuel ∧ 0 <= bloop a <= Z.of_nat fuel ∧ yieldcnt a < 2 ^ 31.

(** The log of the tests under privilege; the counter has the value it should have. *)
Definition middle_log (a : margs) (x : world) : list test :=
[ReadOverflowuid; Printk; KernelAdd 7; CurrentPid; FaultCounts] ++
replicate (Z.to_nat (yieldcnt a)) UserYield ++ replicate (Z.to_nat (yieldcnt a)) KernelYield ++
(if ssec a =? 0 then [] else [Sleep (ssec a)]) ++ forks_log (Z.to_nat (num_forks a)) 0 (w_fork x) ++
[Counter (u32 (spawns a * increments a)) (spawns a * increments a)] ++
(if stack_df a =? 0 then [] else [StackFault (stack_df a - 1)]).
Definition tests_log (a : margs) (x : world) : list test :=
[PrivilegedInstruction; StackTouch (-8); KernelStackTouch] ++ middle_log a x ++
(if do_test_interrupt a =? 0 then [] else [Interrupt]).

(** A test that is made only when its argument is not 0. *)
Lemma optional_test v (t : test) (m : M drv unit) d :
m d = Done tt (logs [t] d) →
(if v =? 0 then mret tt else m) d = Done tt (logs (if v =? 0 then [] else [t]) d).
Proof. intros H. destruct (v =? 0); [by rewrite logs_nil|done]. Qed.

(** The widths of the arguments, and a schedule under which the thread test goes on until
  nobody can go on. *)
Definition threads_ok (a : margs) (x : world) : Prop :=
0 <= spawns a < 2 ^ 32 ∧ 0 <= increments a < 2 ^ 32 ∧ complete (spawns a) (increments a) (w_schedule x).

Lemma thread_test_run n k cs d :
0 <= n < 2 ^ 32 → 0 <= k < 2 ^ 32 → complete n k cs → thread_test n k cs d = Done (u32 (n * k)) d.
Proof.
intros Hn Hk Hc. destruct (complete_ends n k Hn Hk cs Hc) as (s & Hrun & Hm & Hv).
unfold thread_test. by rewrite Hrun, Hm, Hv.
Qed.

(** A run of tests: the log grows, processes are left over. *)
Definition tested (a : margs) (x : world) (l : list test) (d d' : drv) : Prop :=
dv_log d' = dv_log d ++ l ∧ dv_k d' = dv_k d ∧
with_children (left_over (Z.to_nat (num_forks a)) 0 (w_fork x)) (dv_ev d) (dv_ev d').

Lemma middle_tests_run a x fuel d :
kw_elevated (dv_k d) = true → is_Some (tasks (dv_ev d) !! current mc) → args_ok a fuel → threads_ok a x →
∃ d', middle_tests a x fuel d = Done tt d' ∧ tested a x (middle_log a x) d d'.
Proof.
intros He Hk (Hy & Hb & Hi) (Hn & Hinc & Hc). unfold middle_tests, user_yield_test. rewrite (proj2 (Z.leb_gt _ _)) by lia.
do 5 (erewrite bind_done by (by apply privileged_did)).
erewrite bind_done by apply user_yields_run.
erewrite bind_done by (by apply kernel_yields_count).
erewrite bind_done by (by apply optional_test).
erewrite bind_done by (by apply busy_loop_count).
match goal with |- context [mbind _ (forks _ _ _) ?d0] =>
  destruct (forks_run (Z.to_nat (num_forks a)) 0 (w_fork x) d0 He Hk) as (e & Hf & Hw) end.
step_by Hf. erewrite bind_done by (by apply thread_test_run). erewrite bind_done by apply did_run.
erewrite optional_test by (by apply privileged_did).
eexists. split; [reflexivity|]. split; [|by split]. cbn. by rewrite <- !app_assoc.
Qed.

Lemma elevated_tests_run a x fuel d :
kw_elevated (dv_k d) = true → is_Some (tasks (dv_ev d) !! current mc) → args_ok a fuel → threads_ok a x →
∃ d', elevated_tests a x fuel d = Done tt d' ∧ tested a x (tests_log a x) d d'.
Proof.
intros He Hk Ha Ht. unfold elevated_tests.
do 3 (erewrite bind_done by first [by apply privileged_did | apply did_run]).
match goal with |- context [mbind _ (middle_tests _ _ _) ?d0] =>
  destruct (middle_tests_run a x fuel d0 He Hk Ha Ht) as (d1 & Hf & Hl & Hk1 & Hw) end.
step_by Hf. erewrite optional_test by (apply privileged_did; by rewrite Hk1).
eexists. split; [reflexivity|]. split; [|by split].
cbn [dv_log logs]. rewrite Hl. cbn [dv_log logs]. unfold tests_log. by rewrite <- !app_assoc.
Qed.

(** ** Giving the processor back *)

(** Children that were started while the processor was held might as well have been there
  before: they are in no list of saved affinities. *)
Lemma children_release pids e e1 e2 :
can_acquire mc e → (∀ t k, tasks e !! t = Some k → runnable mc k) →
acquired mc e e1 (set_sched (SCHED_FIFO, 99)) → with_children pids e1 e2 →
∃ e', release_exclusive_cpu mc e2 = Done 0 e' ∧ saved_affinities e' = [] ∧ held e' = unlocked ∧
  (∀ t, is_Some (tasks e !! t) → tasks e' !! t =
     if decide (t = current mc) then set_sched (SCHED_NORMAL, 0) <$> tasks e !! t else tasks e !! t) ∧
  (∀ t k, tasks e !! t = None → tasks e' !! t = Some k →
     pid k ∈ pids ∧ real_parent k = Some (current mc) ∧ cpus_mask k = {[cpu mc]} ∧ sched k = (SCHED_FIFO, 99)).
Proof.
intros Hc Hrn (Hoth & Hcur & Hkl & Hh & m & Hm & Hsv) (kc1 & cs & Hk1 & -> & Hd & Hp).
destruct (ca_current _ _ Hc) as [kc Hkc]. rewrite Hkc in Hcur. cbn in Hcur.
assert (kc1 = set_sched (SCHED_FIFO, 99) (pinned mc kc)) as -> by congruence.
assert (∀ t k, cs !! t = Some k → ∃ n, n ∈ pids ∧ k = forked (current mc) n (set_sched (SCHED_FIFO, 99) (pinned mc kc))) as Hcs.
{ intros t k Hk. apply elem_of_map_to_list in Hk. apply (list_elem_of_fmap_2 (λ tk, tk.2)) in Hk. cbn in Hk.
  rewrite Hp in Hk. apply list_elem_of_fmap in Hk as (n & -> & Hn). eauto. }
assert (∀ t, is_Some (tasks e1 !! t) ↔ is_Some (tasks e !! t)) as Hsome.
{ intros t. destruct (decide (t = current mc)) as [->|Hne]; [by rewrite Hcur, Hkc|].
  rewrite Hoth by done. case_decide; [apply fmap_is_Some|done]. }
assert (∀ t, is_Some (tasks e !! t) → cs !! t = None) as Hdis.
{ intros t [k1 Hk]%Hsome. destruct (cs !! t) eqn:E; [|done]. rewrite map_disjoint_spec in Hd. destruct (Hd _ _ _ E Hk). }
set (w := set_tasks (λ ts, cs ∪ ts) e).
assert (∀ t, cs !! t = None → tasks w !! t = tasks e !! t) as Hold by (intros t Ht; by apply lookup_union_r).
destruct (release_ok mc w (set_tasks (λ ts, cs ∪ ts) e1)) as (e' & Hrun & Hs & _ & Hh' & Ht).
{ destruct Hc as [? ? ? ? ? _ [Hnd Hth] ? ?]. split; try done.
  - cbn. rewrite lookup_union_r by (by apply Hdis). by exists kc.
  - split; [done|]. intros t Hin. cbn. apply lookup_union_is_Some. right. by apply Hth. }
{ intros t k Hk. cbn in Hk. apply lookup_union_Some_raw in Hk as [Hk|[_ Hk]]; [|by eapply Hrn].
  apply Hcs in Hk as (n & _ & ->). split; [done|]. split; [|done]. cbn. pose proof (ca_online _ _ Hc). unfold cpu. set_solver. }
{ split_and!; cbn [tasks set_tasks killed held saved_affinities]; try done.
  - intros t Hne. change (tasks w) with (cs ∪ tasks e). destruct (cs !! t) as [k|] eqn:E.
    + rewrite !(lookup_union_Some_l _ _ _ _ E). case_decide as Hin; [|done].
      destruct Hc as [_ _ _ _ _ _ [_ Hth] _ _]. rewrite (Hdis t (Hth t Hin)) in E. done.
    + rewrite !lookup_union_r by done. by apply Hoth.
  - change (tasks w) with (cs ∪ tasks e). rewrite !lookup_union_r by (apply Hdis; by exists kc). by rewrite Hcur, Hkc.
  - exists m. change (tasks w) with (cs ∪ tasks e). rewrite lookup_union_r by (apply Hdis; by exists kc). split; [done|]. rewrite Hsv. do 2 f_equal.
    apply list_omap_ext, Forall2_same_length_lookup. split; [done|]. intros i t t' Hx Hy. rewrite Hx in Hy. injection Hy as <-.
    destruct Hc as [_ _ _ _ _ _ [_ Hth] _ _].
    unfold record_of. by rewrite lookup_union_r by (apply Hdis, Hth; by eapply list_elem_of_lookup_2). }
exists e'. split_and!; try done.
- intros t Hst. by rewrite Ht, (Hold t) by (by apply Hdis).
- intros t k Hn. rewrite Ht, decide_False by congruence. cbn. intros Hk.
  apply lookup_union_Some_raw in Hk as [Hk|[_ Hk]]; [|congruence]. apply Hcs in Hk as (n & Hn' & ->). by split_and!.
Qed.

Lemma driver_acquire c d e v :
k_dlsym_tos ks = Some v → acquire_exclusive_cpu mc c EVAC_KILL_NICELY (dv_ev d) = Done 0 e →
∃ t, on_kev (kcut_evacuate mc ks true c true) d = Done tt (Drv e (kset_elevated false (kset_tos t (dv_k d))) (dv_log d)).
Proof.
intros Hv Hacq. destruct (evacuate_acquire mc ks c v (dv_ev d) (dv_k d) e Hv Hacq) as [t Ht]. exists t.
unfold on_kev. by rewrite Ht.
Qed.

Lemma driver_release c d e v rc :
k_dlsym_tos ks = Some v → release_exclusive_cpu mc (dv_ev d) = Done rc e →
∃ t, on_kev (kcut_evacuate mc ks true c false) d = Done tt (Drv e (kset_elevated false (kset_tos t (dv_k d))) (dv_log d)).
Proof.
intros Hv Hrel. destruct (evacuate_release mc ks c v (dv_ev d) (dv_k d) rc e Hv Hrel) as [t Ht]. exists t.
unfold on_kev. by rewrite Ht.
Qed.

Lemma heaptouch_run p h : p ≠ 0 → p ∉ h → heaptouch p h = Done (-8) h.
Proof.
intros Hp Hh. unfold heaptouch. step. rewrite (proj2 (Z.eqb_neq p 0)) by done. step. step.
change (touch_pages 8 0) with (-8). unfold mret, M_ret. f_equal. set_solver.
Qed.
End driver.
