(* ===== verification/Cli.v ===== *)
(** * Command lines: [getopt], [atol] and [atoi]

    The functions of the C library with which the drivers read their arguments.
    [getopt] permutes its arguments: options are found wherever they stand, and the
    others are the positional arguments in their order. *)
From Stdlib Require Import Ascii String.
From S2P Require Import Prelude.

Open Scope Z_scope.
Open Scope list_scope.

(** ** Numbers *)
Definition is_space (c : ascii) : bool :=
  let n := N_of_ascii c in (n =? 32)%N || ((9 <=? n)%N && (n <=? 13)%N).
Definition digit (c : ascii) : option Z :=
  let n := Z.of_N (N_of_ascii c) in if (48 <=? n) && (n <=? 57) then Some (n - 48) else None.

Fixpoint skip_space (s : string) : string :=
  match s with
  | String c s' => if is_space c then skip_space s' else s
  | EmptyString => s
  end.
(** The value of the leading digits. *)
Fixpoint digits (acc : Z) (s : string) : Z :=
  match s with
  | String c s' => match digit c with Some d => digits (acc * 10 + d) s' | None => acc end
  | EmptyString => acc
  end.
Definition LONG_MAX : Z := 2 ^ 63 - 1.
Definition LONG_MIN : Z := - 2 ^ 63.
(** [strtol(s, NULL, 10)], which stops at the limits of [long]. *)
Definition atol (s : string) : Z :=
  let v := match skip_space s with
           | String "-" s' => - digits 0 s'
           | String "+" s' => digits 0 s'
           | s' => digits 0 s'
           end in
  Z.max LONG_MIN (Z.min LONG_MAX v).
Definition atoi (s : string) : Z := i32 (atol s).

(** ** Options *)

(** Whether the option string [os] has the letter [c], and whether a colon after it
    says that it takes an argument. *)
Fixpoint option_kind (os : string) (c : ascii) : option bool :=
  match os with
  | EmptyString => None
  | String a os' =>
      if bool_decide (c = a ∧ c ≠ ":"%char)
      then Some (match os' with String ":" _ => true | _ => false end)
      else option_kind os' c
  end.

(** What [getopt] returns, with [optarg]. *)
Definition found : Type := ascii * option string.

Section getopt.
Context (os : string).

(** The letters of one argument: the options found, and the letter that still waits
  for its argument. *)
Fixpoint letters (s : string) : list found * option ascii :=
match s with
| EmptyString => ([], None)
| String c s' =>
    match option_kind os c with
    | None => let '(l, w) := letters s' in (("?"%char, None) :: l, w)
    | Some false => let '(l, w) := letters s' in ((c, None) :: l, w)
    | Some true => match s' with EmptyString => ([], Some c) | _ => ([(c, Some s')], None) end
    end
end.

(** The successive results of [getopt] and the positional arguments that remain. *)
Fixpoint getopt (waiting : option ascii) (args : list string) : list found * list string :=
match args with
| [] => (match waiting with Some _ => [("?"%char, None)] | None => [] end, [])
| a :: args =>
    match waiting with
    | Some c => let '(l, p) := getopt None args in ((c, Some a) :: l, p)
    | None =>
        match a with
        | String "-" (String c s as cs) =>
            if bool_decide (cs = "-"%string) then ([], args)
            else let '(l, w) := letters cs in let '(l', p) := getopt w args in (l ++ l', p)
        | _ => let '(l, p) := getopt None args in (l, a :: p)
        end
    end
end.

(** An argument that is not an option. *)
Definition positional (a : string) : Prop := ∀ c s, a ≠ String "-" (String c s).

Lemma getopt_positional args : Forall positional args → getopt None args = ([], args).
Proof.
induction 1 as [|a args Ha Hargs IH]; [done|]. cbn [getopt]. rewrite IH.
destruct a as [|c [|c' s]]; [done| |].
- destruct c as [[] [] [] [] [] [] [] []]; done.
- destruct (decide (c = "-"%char)) as [->|Hc]; [by destruct (Ha c' s)|].
  destruct c as [[] [] [] [] [] [] [] []]; done.
Qed.

(** Only letters of the option string are reported, or [?]; an option has an argument
  exactly when it takes one. *)
Definition reported (f : found) : Prop :=
f.1 = "?"%char ∨ option_kind os f.1 = Some (bool_decide (is_Some f.2)).

Lemma letters_reported s : Forall reported (letters s).1 ∧ ∀ c, (letters s).2 = Some c → option_kind os c = Some true.
Proof.
induction s as [|c s IH]; cbn [letters]; [by split; [constructor|]|]. destruct (letters s) as [l w].
destruct IH as [IH1 IH2]. destruct (option_kind os c) as [[]|] eqn:E; cbn.
- destruct s; cbn; (split; [|naive_solver]); [constructor|]. constructor; [by right|constructor].
- split; [|done]. constructor; [by right|done].
- split; [|done]. constructor; [by left|done].
Qed.

Lemma getopt_reported w args :
(∀ c, w = Some c → option_kind os c = Some true) → Forall reported (getopt w args).1.
Proof.
revert w. induction args as [|a args IH]; intros w Hw; cbn [getopt].
{ destruct w; repeat constructor. }
pose proof (IH None ltac:(done)) as Hn. destruct w as [c|].
{ destruct (getopt None args) as [l p]. cbn in *. constructor; [|done]. right. by apply Hw. }
assert (Forall reported (let '(l, p) := getopt None args in (l, a :: p)).1) as Hp by by destruct (getopt None args).
destruct a as [|c [|c' s]]; [done| |].
{ destruct c as [[] [] [] [] [] [] [] []]; done. }
assert (Forall reported ((if bool_decide (String c' s = "-"%string) then ([], args)
          else let '(l, w) := letters (String c' s) in let '(l', p) := getopt w args in (l ++ l', p)) :
          list found * list string).1) as Ho.
{ case_bool_decide; [constructor|]. destruct (letters_reported (String c' s)) as [H1 H2].
  destruct (letters (String c' s)) as [l w]. specialize (IH w H2). destruct (getopt w args) as [l' p].
  cbn in *. by apply Forall_app. }
destruct c as [[] [] [] [] [] [] [] []]; done.
Qed.
End getopt.

(** ** Widths *)
Lemma atol_bounds s : LONG_MIN <= atol s <= LONG_MAX.
Proof. unfold atol, LONG_MIN, LONG_MAX. lia. Qed.

Lemma digits_nonneg acc s : 0 <= acc → 0 <= digits acc s.
Proof.
  revert acc. induction s as [|c s IH]; intros acc H; cbn [digits]; [done|].
  destruct (digit c) as [d|] eqn:E; [|done]. apply IH. unfold digit in E.
  destruct ((48 <=? _) && (_ <=? 57)) eqn:E'; [|done]. apply andb_true_iff in E' as [H1 H2].
  apply Z.leb_le in H1, H2. simplify_eq. lia.
Qed.
