(* ===== verification/NewDriver.v ===== *)
(** * The second test driver ([kcuttest/newmain.c])

    A variant of [main.c] that reads options as well as positional arguments, finds
    the kernel stack itself and has its own [evacuate]. The file misspells [struct]
    at the definition of [CLArgs]; it is read here as if it did not. The tests it
    shares with [main.c] are those of [KcutDriver].

    [SYM_ON_KERN_STACK_DYNSYM_DO] belongs to the privilege library, [test_pfasm] is
    declared nowhere: both are parameters, and so is [strtod]. *)
From Stdlib Require Import Ascii String Floats.SpecFloat.
From S2P Require Import Prelude Double Cli Kcut Evacuate EvacuateSpec KcutEvac KcutThreads KcutDriver.

Open Scope Z_scope.
Open Scope list_scope.

(** ** Arguments *)
Record CLArgs := mkCLArgs {
  usflg : Z; usdelay : double; c_ssec : Z; c_bloop : Z; c_yieldcnt : Z; c_evac : Z;
  c_num_forks : Z; c_num_spawns : Z; c_num_increments : Z; c_stack_df : Z;
  do_test_pfasm : Z; c_do_test_interrupt : Z }.
Definition CLArgsDefaults : CLArgs :=
  mkCLArgs 0 (d_of_Z 0) 1 1000000000 10 1 1000 1000 1000 1 0 0.
(** The arguments before any is read: zero, not the defaults. *)
Definition CLArgs0 : CLArgs := mkCLArgs 0 (d_of_Z 0) 0 0 0 0 0 0 0 0 0 0.

Definition set_num_increments (n : Z) (a : CLArgs) : CLArgs :=
  mkCLArgs (usflg a) (usdelay a) (c_ssec a) (c_bloop a) (c_yieldcnt a) (c_evac a) (c_num_forks a)
    (c_num_spawns a) n (c_stack_df a) (do_test_pfasm a) (c_do_test_interrupt a).
Definition set_bloop (n : Z) (a : CLArgs) : CLArgs :=
  mkCLArgs (usflg a) (usdelay a) (c_ssec a) n (c_yieldcnt a) (c_evac a) (c_num_forks a)
    (c_num_spawns a) (c_num_increments a) (c_stack_df a) (do_test_pfasm a) (c_do_test_interrupt a).
Definition set_us (delay : double) (a : CLArgs) : CLArgs :=
  mkCLArgs 1 delay (c_ssec a) (c_bloop a) (c_yieldcnt a) (c_evac a) (c_num_forks a)
    (c_num_spawns a) (c_num_increments a) (c_stack_df a) (do_test_pfasm a) (c_do_test_interrupt a).

Definition new_optstring : string := "U:sbyefSitpI".

Section args.
(** [strtod]: the value and what remains of the string. *)
Context (strtod : string → double * string).

(** The body of the loop over the options; [None]: [exit(-1)]. *)
Definition take_option (f : found) (a : CLArgs) : option CLArgs :=
match f with
| ("I"%char, _) => Some (set_num_increments (c_num_increments CLArgsDefaults) a)
| ("U"%char, Some optarg) =>
    let '(v, endptr) := strtod optarg in
    if bool_decide (endptr = optarg ∨ endptr ≠ EmptyString) then None else Some (set_us v a)
| ("S"%char, _) => Some (set_num_increments (c_num_spawns CLArgsDefaults) a)
| ("b"%char, _) => Some (set_bloop (c_bloop CLArgsDefaults) a)
| _ => None
end.
Fixpoint take_options (l : list found) (a : CLArgs) : option CLArgs :=
match l with [] => Some a | f :: l => a ← take_option f a; take_options l a end.

Definition take_positional (p : list string) (a : CLArgs) : CLArgs :=
let arg {A} (i : nat) (f : string → A) (old : A) := match p !! i with Some s => f s | None => old end in
let unsigned s := u32 (atoi s) in
mkCLArgs (usflg a) (usdelay a) (arg 0%nat atoi (c_ssec a)) (arg 1%nat atol (c_bloop a))
  (arg 2%nat atol (c_yieldcnt a)) (arg 3%nat atoi (c_evac a)) (arg 4%nat unsigned (c_num_forks a))
  (arg 5%nat unsigned (c_num_spawns a)) (arg 6%nat unsigned (c_num_increments a))
  (arg 7%nat unsigned (c_stack_df a)) (arg 8%nat unsigned (do_test_pfasm a))
  (arg 9%nat unsigned (c_do_test_interrupt a)).

(** [args]: the arguments after the name of the program. *)
Definition processArgs (args : list string) : option CLArgs :=
let '(l, p) := getopt new_optstring None args in
take_positional p <$> take_options l CLArgs0.
End args.

(** The arguments of the tests shared with [main.c]. *)
Definition shared_args (a : CLArgs) : margs :=
  MArgs (c_ssec a) (c_bloop a) (c_yieldcnt a) (c_evac a) (c_num_forks a) (c_num_spawns a) (c_num_increments a)
    (c_stack_df a) (c_do_test_interrupt a).

(** ** The kernel stack *)

(** What [SYM_ON_KERN_STACK_DYNSYM_DO] promises: the work runs elevated, and when it ends
    so the thread is lowered. *)
Class KernStack (on : Z → M drv Z → M drv Z) := kern_stack_run : ∀ tos (m : M drv Z) d a d',
  kw_elevated (dv_k d) = false →
  m (Drv (dv_ev d) (kset_elevated true (dv_k d)) (dv_log d)) = Done a d' → kw_elevated (dv_k d') = true →
  on tos m d = Done a (Drv (dv_ev d') (kset_elevated false (dv_k d')) (dv_log d')).

Section driver.
Context (mc : machine) (ks : ksys).
Context (strtod : string → double * string) (on_kern_stack : Z → M drv Z → M drv Z).
Context (test_pfasm : Z → Z → M drv unit).

Definition resolve_sym : M kcutw bool :=
match k_dlsym_tos ks with
| Some v => _ ← modifyM (kset_tos v); mret true
| None => _ ← modifyM (kset_tos 0); mret false
end.
Definition ktos : M kcutw Z :=
w ← getM;
_ ← (if kw_tos w =? 0 then ok ← resolve_sym; assertM ok else mret tt);
getsM kw_tos.

(** [rc] is given a value on one of the two paths only; reading it on the other is
  undefined. *)
Definition evacuate (getcpu_ok : bool) (cpu : Z) (acquire : bool) : M drv unit :=
_ ← assertM getcpu_ok;
rc ← (if acquire then
        tos ← on_k ktos;
        rc ← on_kern_stack tos (privileged (on_ev (acquire_exclusive_cpu mc cpu EVAC_KILL_NICELY)));
        mret (Some (i32 rc))
      else
        tos ← on_k ktos;
        _ ← on_kern_stack tos (privileged (on_ev (release_exclusive_cpu mc)));
        mret None);
rc ← derefM rc;
assertM (rc =? 0).

(** ** The test of a process that stays in user mode *)

(** [while (!val) ss += sin(3.1444)]; nothing in the program writes [val]. *)
Fixpoint busy_sin (fuel : nat) (val : Z) : M drv unit :=
if negb (val =? 0) then mret tt
else match fuel with O => nofuelM | S fuel => busy_sin fuel val end.
(** [while (nanosleep(&ndelay, &nrem) < 0) ndelay = nrem]: [nanosleep] answers what
  remains when it is interrupted. *)
Fixpoint sleep_rest (fuel : nat) (nanosleep : Z * Z → option (Z * Z)) (ndelay : Z * Z) : M drv unit :=
match nanosleep ndelay with
| None => mret tt
| Some nrem => match fuel with O => nofuelM | S fuel => sleep_rest fuel nanosleep nrem end
end.
Fixpoint stab_loop (fuel : nat) (nanosleep : Z * Z → option (Z * Z)) (thedelay : Z * Z) (val : Z) : M drv unit :=
if negb (val =? 0) then mret tt
else match fuel with
     | O => nofuelM
     | S fuel => _ ← busy_sin fuel val; _ ← sleep_rest fuel nanosleep thedelay; stab_loop fuel nanosleep thedelay val
     end.
Definition userstab_test (fuel : nat) (nanosleep : Z * Z → option (Z * Z)) (delay : double) : M drv unit :=
sec ← (if SFleb (d_of_Z 1) delay then derefM (d_to_long delay) else mret 0);
let delay := if SFleb (d_of_Z 1) delay then dsub delay (d_of_Z sec) else delay in
nsec ← derefM (d_to_long (dmul delay (d_of_Z 1000000000)));
stab_loop fuel nanosleep (sec, nsec) 0.

(** ** [main] *)
Definition new_elevated_tests (a : CLArgs) (x : world) (fuel : nat) : M drv unit :=
_ ← privileged (did PrivilegedInstruction);
_ ← did (StackTouch stacktouch);
_ ← middle_tests mc (shared_args a) x fuel;
_ ← (if do_test_pfasm a =? 0 then mret tt
     else _ ← test_pfasm 1 1; _ ← test_pfasm 1 0; _ ← test_pfasm 0 1; test_pfasm 0 0);
if c_do_test_interrupt a =? 0 then mret tt else privileged (did Interrupt).

Definition new_main (args : list string) (x : world) (nanosleep : Z * Z → option (Z * Z)) (fuel : nat) : M drv Z :=
match processArgs strtod args with
| None => exitM (-1)
| Some a =>
    _ ← (if usflg a =? 0 then mret tt else userstab_test fuel nanosleep (usdelay a));
    _ ← (if c_evac a =? 0 then mret tt else evacuate (w_getcpu x) (w_cpu x) true);
    _ ← on_k ksym_elevate;
    _ ← new_elevated_tests a x fuel;
    _ ← on_k ksymbi_fast_lower;
    _ ← (if c_evac a =? 0 then mret tt else evacuate (w_getcpu x) (w_cpu x) false);
    mret 0
end.

(** ** What the driver does *)

(** Both drivers find the stack in the same way. *)
Lemma ktos_is_kcut_tos_offset w : ktos w = kcut_tos_offset ks w.
Proof.
unfold ktos, kcut_tos_offset, resolve_sym, getM, getsM, modifyM, assertM, mbind, M_bind, mret, M_ret.
cbn. destruct (kw_tos w =? 0); [|done]. by destruct (k_dlsym_tos ks).
Qed.

Lemma ktos_run w v : k_dlsym_tos ks = Some v →
∃ t, ktos w = Done t (kset_tos t w).
Proof.
intros Hv. exists (if kw_tos w =? 0 then v else kw_tos w).
unfold ktos, resolve_sym, getM, getsM, modifyM, assertM, mbind, M_bind, mret, M_ret. cbn. rewrite Hv.
destruct (kw_tos w =? 0) eqn:E; cbn; [done|]. by destruct w.
Qed.

Lemma on_k_done {A} (m : M kcutw A) d a k :
m (dv_k d) = Done a k → on_k m d = Done a (Drv (dv_ev d) k (dv_log d)).
Proof. unfold on_k. by intros ->. Qed.
Lemma privileged_ev {A} (m : M evw A) ev k lg a e :
m ev = Done a e → kw_elevated k = true → privileged (on_ev m) (Drv ev k lg) = Done a (Drv e k lg).
Proof. intros Hm Hk. unfold privileged. step. cbn [dv_k]. rewrite Hk. unfold on_ev. cbn. by rewrite Hm. Qed.

Lemma busy_sin_hangs fuel d : busy_sin fuel 0 d = NoFuel.
Proof. by induction fuel as [|fuel IH]. Qed.
Lemma stab_loop_hangs fuel ns t d : stab_loop fuel ns t 0 d = NoFuel.
Proof. destruct fuel as [|fuel]; [done|]. apply bind_nofuel, busy_sin_hangs. Qed.

Lemma nanos_diverge ns sec delay d :
let rest fuel : M drv unit := nsec ← derefM (d_to_long (dmul delay (d_of_Z 1000000000))); stab_loop fuel ns (sec, nsec) 0 in
(∀ fuel, rest fuel d = NoFuel) ∨ (∀ fuel, rest fuel d = Fault).
Proof. cbn zeta. destruct (d_to_long _) as [nsec|]; [left|right]; intros fuel; [|done]. step. apply stab_loop_hangs. Qed.

(** The test never ends, unless the delay has no value as seconds and nanoseconds, in which
  case the conversion is undefined. *)
Lemma userstab_diverges ns delay d :
(∀ fuel, userstab_test fuel ns delay d = NoFuel) ∨ (∀ fuel, userstab_test fuel ns delay d = Fault).
Proof.
unfold userstab_test. destruct (SFleb _ delay).
- destruct (d_to_long delay) as [sec|]; [|by right]. exact (nanos_diverge ns sec (dsub delay (d_of_Z sec)) d).
- exact (nanos_diverge ns 0 delay d).
Qed.

(** With a delay of less than a second it is the endless loop, whatever the fuel. *)
Lemma userstab_hangs fuel ns delay d :
upto 0 delay → SFleb (d_of_Z 1) delay = false → userstab_test fuel ns delay d = NoFuel.
Proof.
intros Hu H1. unfold userstab_test. rewrite H1. step.
destruct (d_to_long_upto 32 (dmul delay (d_of_Z 1000000000))) as (v & -> & _);
  [apply (dmul_upto _ _ 0 31); [done|apply (d_of_Z_upto _ 30); lia|lia]|lia|].
step. apply stab_loop_hangs.
Qed.

Context `{!KernStack on_kern_stack}.

Lemma new_evacuate_acquire cpu d e v :
kw_elevated (dv_k d) = false → k_dlsym_tos ks = Some v →
acquire_exclusive_cpu mc cpu EVAC_KILL_NICELY (dv_ev d) = Done 0 e →
∃ t, evacuate true cpu true d = Done tt (Drv e (kset_tos t (dv_k d)) (dv_log d)).
Proof.
intros He Hv Hacq. destruct (ktos_run (dv_k d) v Hv) as [t Ht]. exists t. unfold evacuate. step.
erewrite bind_done; [|step_by (on_k_done _ d _ _ Ht);
  erewrite bind_done; [|eapply kern_stack_run; [done|by apply privileged_ev|done]]; reflexivity].
cbn [dv_ev dv_k dv_log]. step. unfold assertM, mret, M_ret. cbn. do 2 f_equal.
destruct (dv_k d). cbn in *. by subst.
Qed.

(** On the way back [rc] has no value. *)
Lemma new_evacuate_release cpu d e v rc :
kw_elevated (dv_k d) = false → k_dlsym_tos ks = Some v →
release_exclusive_cpu mc (dv_ev d) = Done rc e → evacuate true cpu false d = Fault.
Proof.
intros He Hv Hrel. destruct (ktos_run (dv_k d) v Hv) as [t Ht]. unfold evacuate. step.
erewrite bind_done; [|step_by (on_k_done _ d _ _ Ht);
  erewrite bind_done; [|eapply kern_stack_run; [done|by apply privileged_ev|done]]; reflexivity].
done.
Qed.

Definition new_tests_log (a : CLArgs) (x : world) : list test :=
[PrivilegedInstruction; StackTouch (-8)] ++ middle_log (shared_args a) x ++
(if c_do_test_interrupt a =? 0 then [] else [Interrupt]).

Lemma new_elevated_tests_run a x fuel d :
kw_elevated (dv_k d) = true → is_Some (tasks (dv_ev d) !! current mc) →
args_ok (shared_args a) fuel → threads_ok (shared_args a) x → do_test_pfasm a = 0 →
∃ d', new_elevated_tests a x fuel d = Done tt d' ∧ tested mc (shared_args a) x (new_tests_log a x) d d'.
Proof.
intros He Hk Ha Ht Hp. unfold new_elevated_tests. rewrite Hp.
do 2 (erewrite bind_done by first [by apply privileged_did | apply did_run]).
match goal with |- context [mbind _ (middle_tests _ _ _ _) ?d0] =>
  destruct (middle_tests_run mc (shared_args a) x fuel d0 He Hk Ha Ht) as (d1 & Hf & Hl & Hk1 & Hw) end.
step_by Hf. step. erewrite optional_test by (apply privileged_did; by rewrite Hk1).
eexists. split; [reflexivity|]. split; [|by split].
cbn [dv_log logs]. rewrite Hl. cbn [dv_log logs]. unfold new_tests_log. by rewrite <- !app_assoc.
Qed.
End driver.

(** ** Options *)
Section options.
Context (strtod : string → double * string).

(** The options that are accepted. *)
Definition accepted (f : found) : bool :=
match f with
| ("I"%char, _) | ("S"%char, _) | ("b"%char, _) => true
| ("U"%char, Some s) => let e := (strtod s).2 in bool_decide (e ≠ s ∧ e = EmptyString)
| _ => false
end.

Lemma take_option_accepted f a : is_Some (take_option strtod f a) ↔ accepted f = true.
Proof.
destruct f as [[b0 b1 b2 b3 b4 b5 b6 b7] o]. unfold take_option, accepted.
destruct b0, b1, b2, b3, b4, b5, b6, b7; try (split; [by intros [??]|done]); try (split; [done|intros _; by eexists]).
destruct o as [s|]; [|split; [by intros [??]|done]]. destruct (strtod s) as [v e]. cbn.
assert ((e = s ∨ e ≠ EmptyString) ↔ ¬ (e ≠ s ∧ e = EmptyString)) as Hd by (destruct (decide (e = s)), (decide (e = EmptyString)); naive_solver).
repeat case_bool_decide; split; try done; try (by intros [??]); intros _; exfalso; tauto.
Qed.

Lemma take_options_accepted l a : is_Some (take_options strtod l a) ↔ forallb accepted l = true.
Proof.
revert a. induction l as [|f l IH]; intros a; cbn; [split; [done|by eexists]|].
rewrite andb_true_iff, <- (take_option_accepted f a). destruct (take_option strtod f a) as [a'|]; cbn.
- rewrite IH. split; [|tauto]. intros ?. split; [by eexists|done].
- split; [by intros [??]|by intros [[??] _]].
Qed.

(** The unsigned arguments have the width of their variables. *)
Definition in_range (a : CLArgs) : Prop := 0 <= c_num_spawns a < 2 ^ 32 ∧ 0 <= c_num_increments a < 2 ^ 32.

Lemma take_option_range f a a' : take_option strtod f a = Some a' → in_range a → in_range a'.
Proof.
destruct f as [[b0 b1 b2 b3 b4 b5 b6 b7] o]. unfold take_option, in_range.
destruct b0, b1, b2, b3, b4, b5, b6, b7; try done; try (intros [= <-] [? ?]; cbn; lia).
destruct o as [s|]; [|done]. destruct (strtod s) as [v e]. case_bool_decide; [done|]. by intros [= <-].
Qed.

Lemma take_options_range l a a' : take_options strtod l a = Some a' → in_range a → in_range a'.
Proof.
revert a. induction l as [|f l IH]; intros a; cbn; [by intros [= <-]|].
destruct (take_option strtod f a) as [a1|] eqn:E; [|done]. cbn. intros H Ha. eapply IH; [done|]. by eapply take_option_range.
Qed.

Lemma processArgs_range args a : processArgs strtod args = Some a → in_range a.
Proof.
unfold processArgs. destruct (getopt _ _ _) as [l p]. destruct (take_options strtod l CLArgs0) as [a0|] eqn:E; [|done].
intros [= <-]. apply take_options_range in E as [H1 H2]; [|unfold in_range; cbn; lia]. unfold in_range, take_positional. cbn.
split; (match goal with |- context [p !! ?i] => destruct (p !! i) end; [unfold u32; apply Z.mod_pos_bound; lia|done]).
Qed.

Lemma processArgs_accepted args :
is_Some (processArgs strtod args) ↔ forallb accepted (getopt new_optstring None args).1 = true.
Proof.
unfold processArgs. destruct (getopt _ _ _) as [l p]. cbn. rewrite fmap_is_Some. apply take_options_accepted.
Qed.
End options.
