(* ===== verification/Kldso.v ===== *)
(** * The loader shim ([tools/src/kldso/main.c])

    A program that the kernel starts as interpreter of an executable: it inserts
    the path of a script in front of its arguments and executes the script with
    the same environment. It runs without a C library; strings are read up to
    their terminator, the argument vector and the environment up to a null
    pointer. *)
From Stdlib Require Import Ascii.
From S2P Require Import Prelude KoSpec.

Open Scope Z_scope.

Definition EQ : ascii := "="%char.

(** The characters before the terminator, counted. *)
Definition my_strlen (s : chars) : nat := length (upto_nul s).

(** [s]: the string with its terminator and whatever follows in memory; a read
    past the end is a fault ([None]). *)
Fixpoint starts_with (s prefix : chars) {struct prefix} : option bool :=
  match prefix with
  | [] => Some true
  | c :: prefix =>
      if decide (c = NUL) then Some true
      else match s with
           | [] => None
           | d :: s => if decide (c = d) then starts_with s prefix else Some false
           end
  end.

(** The loop over the environment; a vector holds pointers to strings, [None] for
    the null pointer, and running past its end is a fault. *)
Fixpoint get_env_value (envp : list (option chars)) (key : chars) : option (option chars) :=
  match envp with
  | [] => None
  | None :: _ => Some None
  | Some current :: envp =>
      match starts_with current key with
      | None => None
      | Some false => get_env_value envp key
      | Some true =>
          let key_len := my_strlen key in
          match current !! key_len with
          | None => None
          | Some c => if decide (c = EQ) then Some (Some (drop (S key_len) current)) else get_env_value envp key
          end
      end
  end.

(** What the program does: writes to descriptor 2, and the [execve] it ends in. *)
Record effects := Effects { written : chars; execved : option (chars * list (option chars) * list (option chars)) }.

Fixpoint write_args (argc : nat) (argv : list (option chars)) : option chars :=
  match argc, argv with
  | O, _ => Some []
  | S argc, Some a :: argv => w ← write_args argc argv; Some (" "%char :: upto_nul a ++ w)
  | S _, _ => None
  end.

(** [newargv[i+1] = argv[i]] for [n] entries. *)
Fixpoint copy_args (n : nat) (argv : list (option chars)) : option (list (option chars)) :=
  match n, argv with
  | O, _ => Some []
  | S n, a :: argv => l ← copy_args n argv; Some (a :: l)
  | S _, [] => None
  end.

(** [stack]: the argument vector as the kernel lays it out, the environment
    behind it. [execve] returns only when it fails; then the program exits with
    status 1. *)
Definition c_entry (script_path : chars) (exec_fails : bool) (argc : nat) (stack : list (option chars)) :
    option (effects * option Z) :=
  let envp := drop (argc + 1) stack in
  dbg ← get_env_value envp (cbuf (chr "KLD_DEBUG"));
  out ← (if decide (dbg = None) then Some []
         else w ← write_args argc stack; Some (chr "[KLD.SO]:" ++ w ++ ["010"%char]));
  args ← copy_args (argc + 1) stack;
  Some (Effects out (Some (script_path, Some script_path :: args, envp)),
        if exec_fails then Some 1 else None).

(** ** The environment *)

(** A variable as it is stored. *)
Definition entry (kv : chars * chars) : chars := cbuf (kv.1 ++ EQ :: kv.2).
Definition environment (env : list (chars * chars)) : list (option chars) :=
  (Some ∘ entry <$> env) ++ [None].
(** Names hold no terminator and no equals sign, values no terminator. *)
Definition env_ok (kv : chars * chars) : Prop := NUL ∉ kv.1 ∧ EQ ∉ kv.1 ∧ NUL ∉ kv.2.

Lemma upto_nul_cbuf s : NUL ∉ s → upto_nul (cbuf s) = s.
Proof.
  unfold cbuf. induction s as [|c s IH]; intros Hs; cbn; [done|].
  rewrite decide_False by set_solver. f_equal. apply IH. set_solver.
Qed.

Lemma starts_with_cbuf s k :
  NUL ∉ k → NUL ∉ s → starts_with (cbuf s) (cbuf k) = Some (bool_decide (k `prefix_of` s)).
Proof.
  unfold cbuf. revert s. induction k as [|c k IH]; intros s Hk Hs; cbn [app starts_with].
  { rewrite decide_True by done. by rewrite bool_decide_eq_true_2 by apply prefix_nil. }
  rewrite decide_False by set_solver. destruct s as [|d s]; cbn [app].
  - rewrite decide_False by set_solver. rewrite bool_decide_eq_false_2; [done|]. apply prefix_nil_not.
  - case_decide as E.
    + subst d. rewrite IH by set_solver. f_equal. apply bool_decide_ext. split; [apply prefix_cons|apply prefix_cons_inv_2].
    + rewrite bool_decide_eq_false_2; [done|]. intros H. by apply prefix_cons_inv_1 in H.
Qed.

(** A name followed by an equals sign is the whole name or the wrong one. *)
Lemma name_match k k' v :
  EQ ∉ k → EQ ∉ k' → k `prefix_of` k' ++ EQ :: v →
  (k' ++ EQ :: v) !! length k = Some EQ ↔ k' = k.
Proof.
  intros Hk Hk' [r Hr]. split.
  - rewrite Hr. rewrite lookup_app_r by lia. rewrite Nat.sub_diag. destruct r as [|c r]; [done|]. intros [= ->].
    revert k' Hk' Hr. induction k as [|d k IH]; intros [|d' k'] Hk' Hr; cbn in *; simplify_eq; try done.
    + set_solver.
    + set_solver.
    + f_equal. apply IH; set_solver.
  - intros ->. rewrite lookup_app_r by lia. by rewrite Nat.sub_diag.
Qed.

Lemma get_env_spec env k :
  Forall env_ok env → NUL ∉ k → EQ ∉ k →
  get_env_value (environment env) (cbuf k) =
  Some (cbuf ∘ snd <$> find (λ kv, bool_decide (kv.1 = k)) env).
Proof.
  intros Henv Hk Hkeq. unfold environment. induction Henv as [|[k' v] env (H1 & H2 & H3) _ IH]; [done|].
  cbn [fst snd] in *. rewrite fmap_cons. cbn [app get_env_value compose find fst].
  unfold entry at 1. cbn [fst snd]. rewrite starts_with_cbuf by set_solver.
  unfold my_strlen. rewrite upto_nul_cbuf by done.
  case_bool_decide as Hp.
  - assert (length k < length (k' ++ EQ :: v))%nat as Hlt.
    { destruct Hp as [r Hr]. destruct r as [|c r].
      - rewrite app_nil_r in Hr. subst k. set_solver.
      - rewrite Hr, length_app. cbn. lia. }
    unfold entry at 1. cbn [fst snd]. unfold cbuf at 1. rewrite lookup_app_l by done.
    pose proof (name_match k k' v Hkeq H2 Hp) as Hn.
    destruct ((k' ++ EQ :: v) !! length k) as [c|] eqn:Ec; [|apply lookup_ge_None in Ec; lia].
    case_decide as Eq.
    + subst c. assert (k' = k) as -> by (by apply Hn). rewrite bool_decide_eq_true_2 by done. cbn.
      unfold entry, cbuf. cbn [fst snd]. rewrite <- app_assoc. cbn [app].
      rewrite drop_app_ge by lia. by replace (S (length k) - length k)%nat with 1%nat by lia.
    + rewrite bool_decide_eq_false_2; [done|]. intros ->. apply Eq. by assert (Some c = Some EQ) as [= ->] by (by apply Hn).
  - rewrite bool_decide_eq_false_2; [done|]. intros ->. apply Hp. by eexists.
Qed.

(** ** The arguments *)
Lemma copy_args_app n argv r :
  length argv = n → copy_args n (argv ++ r) = Some argv.
Proof.
  revert argv. induction n as [|n IH]; intros [|a argv] Hn; cbn in *; try lia; [done|]. by rewrite IH by lia.
Qed.

Lemma write_args_app (argv : list chars) r :
  Forall (λ a, NUL ∉ a) argv →
  write_args (length argv) ((Some ∘ cbuf <$> argv) ++ r) = Some (concat ((λ a, " "%char :: a) <$> argv)).
Proof.
  induction 1 as [|a argv Ha _ IH]; [done|]. cbn. rewrite IH. cbn. by rewrite upto_nul_cbuf.
Qed.

(** The stack the kernel prepares. *)
Definition stack_of (argv : list chars) (env : list (chars * chars)) : list (option chars) :=
  (Some ∘ cbuf <$> argv) ++ None :: environment env.

Definition is_set (key : chars) (env : list (chars * chars)) : bool :=
  existsb (λ kv, bool_decide (kv.1 = key)) env.

Lemma find_is_set key env : is_set key env = false ↔ find (λ kv, bool_decide (kv.1 = key)) env = None.
Proof. unfold is_set. induction env as [|kv env IH]; [done|]. cbn. by destruct (bool_decide (kv.1 = key)). Qed.

Lemma c_entry_spec script argv env fails :
  Forall (λ a, NUL ∉ a) argv → Forall env_ok env →
  c_entry script fails (length argv) (stack_of argv env) =
  Some (Effects
          (if is_set (chr "KLD_DEBUG") env
           then chr "[KLD.SO]:" ++ concat ((λ a, " "%char :: a) <$> argv) ++ ["010"%char] else [])
          (Some (script, Some script :: (Some ∘ cbuf <$> argv) ++ [None], environment env)),
        if fails : bool then Some 1 else None).
Proof.
  intros Hargv Henv. unfold c_entry, stack_of.
  assert (length (Some ∘ cbuf <$> argv) = length argv) as Hl by apply length_fmap.
  assert (drop (length argv + 1) ((Some ∘ cbuf <$> argv) ++ None :: environment env) = environment env) as ->.
  { rewrite drop_app_ge by lia. rewrite Hl. by replace (length argv + 1 - length argv)%nat with 1%nat by lia. }
  rewrite get_env_spec; [|done|apply (bool_decide_unpack _); by vm_compute..]. cbn [mbind option_bind].
  change ((Some ∘ cbuf <$> argv) ++ None :: environment env)
    with ((Some ∘ cbuf <$> argv) ++ [None] ++ environment env).
  rewrite write_args_app by done. rewrite app_assoc, copy_args_app by (rewrite length_app; cbn; lia).
  destruct (is_set (chr "KLD_DEBUG") env) eqn:E.
  - rewrite decide_False; [done|]. intros Hf. apply fmap_None, find_is_set in Hf. congruence.
  - apply find_is_set in E. rewrite E. done.
Qed.
