(* ===== verification/FindLib.v ===== *)
(** * Finding the symbol library in the address space
    ([misc/findlibkallsyms.c])

    [/proc/self/maps] is read in lines of bounded length; the first line whose
    file name contains the name of the library yields the two addresses at its
    front, converted digit by digit from the right. Lines are lists of characters
    without terminators. *)
From Stdlib Require Import Ascii.
From S2P Require Import Prelude KoSpec Kallsyms KallsymsSpec.

Open Scope Z_scope.

Definition LINE_MAX : nat := 256.
Definition LF : ascii := "010"%char.
Definition kallsyms : chars := chr "libkallsyms.so".

(** [strstr(h, n) != NULL] *)
Fixpoint strstr (h n : chars) : bool :=
  bool_decide (n `prefix_of` h) || match h with [] => false | _ :: h => strstr h n end.

(** [strrchr(l, '/')]: from the last slash on. *)
Fixpoint from_last_slash (l : chars) : option chars :=
  match l with
  | [] => None
  | c :: l' =>
      match from_last_slash l' with
      | Some p => Some p
      | None => if decide (c = SLASH) then Some l else None
      end
  end.

(** Without the trailing new line. *)
Definition chop (l : chars) : chars :=
  if bool_decide (last l = Some LF) then take (length l - 1) l else l.

Definition iskallsyms (path : chars) : bool := strstr path kallsyms.

(** The second loop, over the digits from the last to the first. *)
Fixpoint hex_sum (cs : chars) (v p : Z) : option Z :=
  match cs with
  | [] => Some v
  | c :: cs =>
      match hexdigit c with
      | Some d => hex_sum cs (u64 (v + u64 (d * p))) (u64 (p * 16))
      | None => None
      end
  end.

Definition is_hex (c : ascii) : bool := bool_decide (is_Some (hexdigit c)).

(** The number of digits, and the value stored. *)
Definition hexstr2ull (s : chars) (len : Z) : Z * option Z :=
  let rc := span is_hex (take (Z.to_nat len) s) in
  match hex_sum (reverse (take rc s)) 0 1 with
  | Some v => (Z.of_nat rc, Some v)
  | None => (0, None)
  end.

(** What is done with the line found: [rc], [*start] and [*end]. *)
Definition parse_range (line : chars) : Z * Z * Z :=
  let llen := Z.of_nat (length line) in
  let '(n, x) := hexstr2ull line (i32 llen) in
  if n =? 0 then (0, 0, 0)
  else
    let n := n + 1 in
    let llen := u64 (llen - n) in
    let start := default 0 x in
    let '(n2, x2) := hexstr2ull (drop (Z.to_nat n) line) (i32 llen) in
    if n2 =? 0 then (0, start, 0) else (1, start, default 0 x2).

(** Whether the loop stops at a line. *)
Definition names_lib (line : chars) : bool :=
  match from_last_slash line with
  | None => false
  | Some _ =>
      negb (strstr line (chr "[stack]")) && negb (strstr line (chr "[heap]")) &&
      iskallsyms (default [] (from_last_slash (chop line)))
  end.

Fixpoint find_line (ls : list chars) : Z * Z * Z :=
  match ls with
  | [] => (0, 0, 0)
  | line :: ls => if names_lib line then parse_range (chop line) else find_line ls
  end.

(** [fgets] with room for [n] characters, and what is left of the file. *)
Fixpoint fgets (n : nat) (l : chars) : chars * chars :=
  match n, l with
  | O, _ => ([], l)
  | S _, [] => ([], [])
  | S n, c :: l =>
      if decide (c = LF) then ([c], l) else let '(a, r) := fgets n l in (c :: a, r)
  end.

(** The lines the loop sees; every call of [fgets] takes at least one character. *)
Fixpoint fgets_all (fuel : nat) (l : chars) : list chars :=
  match fuel, l with
  | O, _ => []
  | S _, [] => []
  | S fuel, _ => let '(a, r) := fgets (LINE_MAX - 1) l in a :: fgets_all fuel r
  end.

(** [maps]: the contents of the file, [None] when it cannot be opened. *)
Definition find_libkallsyms (maps : option chars) : Z * Z * Z :=
  match maps with
  | None => (0, 0, 0)
  | Some l => find_line (fgets_all (S (length l)) l)
  end.

(** ** The conversion *)
Lemma hex_sum_hexn n a v p :
  0 <= v < 2 ^ 64 → 0 <= p < 2 ^ 64 →
  hex_sum (reverse (hexn n a)) v p = Some (u64 (v + p * (a mod 16 ^ Z.of_nat n))).
Proof.
  revert a v p. induction n as [|n IH]; intros a v p Hv Hp.
  { cbn. rewrite Z.mod_1_r, Z.mul_0_r, Z.add_0_r. unfold u64. by rewrite Z.mod_small. }
  cbn [hexn]. rewrite reverse_app. change (reverse [hex_chr (a mod 16)]) with [hex_chr (a mod 16)].
  cbn [app hex_sum]. rewrite hexdigit_chr by (apply Z.mod_pos_bound; lia).
  rewrite IH by (unfold u64; apply Z.mod_pos_bound; lia). f_equal.
  rewrite Nat2Z.inj_succ, Z.pow_succ_r, (Z.rem_mul_r a 16) by lia.
  unfold u64. set (d := a mod 16). set (x := (a / 16) mod 16 ^ Z.of_nat n).
  rewrite Zplus_mod_idemp_l, <- (Zplus_mod_idemp_r ((p * 16) mod 2 ^ 64 * x)), Zmult_mod_idemp_l, Zplus_mod_idemp_r.
  replace (v + (d * p) mod 2 ^ 64 + p * 16 * x) with (v + p * 16 * x + (d * p) mod 2 ^ 64) by lia.
  rewrite Zplus_mod_idemp_r. f_equal. lia.
Qed.

Lemma is_hex_digits n a : Forall (λ c, is_hex c = true) (hexn n a).
Proof. eapply Forall_impl; [apply hexn_digits|]. intros c Hc. by apply bool_decide_eq_true. Qed.

(** A number followed by something that is not a digit. *)
Lemma hexstr2ull_hexn n a c r len :
  0 <= a < 16 ^ Z.of_nat n → a < 2 ^ 64 → is_hex c = false → Z.of_nat n < len →
  hexstr2ull (hexn n a ++ c :: r) len = (Z.of_nat n, Some a).
Proof.
  intros Ha Ha64 Hc Hlen. unfold hexstr2ull.
  assert (span is_hex (take (Z.to_nat len) (hexn n a ++ c :: r)) = n) as ->.
  { rewrite take_app_ge by (rewrite hexn_length; lia). rewrite hexn_length.
    rewrite span_app; [apply hexn_length|apply is_hex_digits|].
    destruct (Z.to_nat len - n)%nat eqn:E; [lia|]. cbn. by intros ? [= <-]. }
  rewrite take_app_length' by (by rewrite hexn_length).
  rewrite hex_sum_hexn by lia. rewrite (Z.mod_small a), Z.add_0_l, Z.mul_1_l by lia.
  unfold u64. by rewrite Z.mod_small by lia.
Qed.

(** ** Lines of the file *)

(** An entry as the kernel prints it, up to what follows the addresses: at least
    eight digits for each. *)
Record mapping := Mapping { m_start : Z; m_end : Z; m_rest : chars }.
Definition hex_width (a : Z) : nat := Z.to_nat (Z.max 8 (Z.log2 a / 4 + 1)).
Definition maps_text (m : mapping) : chars :=
  hexn (hex_width (m_start m)) (m_start m) ++ "-"%char ::
  hexn (hex_width (m_end m)) (m_end m) ++ " "%char :: m_rest m.
Definition maps_line (m : mapping) : chars := maps_text m ++ [LF].
Record mapping_ok (m : mapping) : Prop := {
  mo_start : 0 <= m_start m < 2 ^ 64;
  mo_end : 0 <= m_end m < 2 ^ 64;
  mo_rest : LF ∉ m_rest m;
  mo_fits : (length (maps_line m) < LINE_MAX)%nat;
}.

Lemma hex_width_enough a : 0 <= a → 0 <= a < 16 ^ Z.of_nat (hex_width a).
Proof.
  intros Ha. split; [done|]. unfold hex_width. rewrite Z2Nat.id by lia. change 16 with (2 ^ 4).
  rewrite <- Z.pow_mul_r by lia. pose proof (Z.log2_nonneg a).
  destruct (decide (a = 0)) as [->|]; [apply Z.pow_pos_nonneg; lia|].
  apply Z.log2_lt_pow2; [lia|]. pose proof (Z.div_mod (Z.log2 a) 4 ltac:(lia)).
  pose proof (Z.mod_pos_bound (Z.log2 a) 4 ltac:(lia)). lia.
Qed.

Lemma parse_range_maps m : mapping_ok m → parse_range (maps_text m) = (1, m_start m, m_end m).
Proof.
  intros [Hs He _ Hfit]. unfold maps_line in Hfit. rewrite length_app in Hfit. cbn in Hfit.
  pose proof (hex_width_enough (m_start m) ltac:(lia)). pose proof (hex_width_enough (m_end m) ltac:(lia)).
  assert (Z.of_nat (length (maps_text m)) = Z.of_nat (hex_width (m_start m)) + 1
    + Z.of_nat (hex_width (m_end m)) + 1 + Z.of_nat (length (m_rest m))) as Hlen.
  { unfold maps_text. rewrite length_app, hexn_length. cbn [length]. rewrite length_app, hexn_length. cbn [length]. lia. }
  unfold LINE_MAX in Hfit. unfold parse_range. rewrite i32_id by lia.
  unfold maps_text at 1. rewrite hexstr2ull_hexn by (done || lia).
  assert (8 <= Z.of_nat (hex_width (m_start m)) ∧ 8 <= Z.of_nat (hex_width (m_end m))) as [H8 H8'].
  { unfold hex_width. split; rewrite Z2Nat.id; lia. }
  rewrite (proj2 (Z.eqb_neq _ 0)) by lia.
  assert (drop (Z.to_nat (Z.of_nat (hex_width (m_start m)) + 1)) (maps_text m)
    = hexn (hex_width (m_end m)) (m_end m) ++ " "%char :: m_rest m) as ->.
  { unfold maps_text. rewrite drop_app_ge by (rewrite hexn_length; lia). rewrite hexn_length.
    by replace (Z.to_nat _ - _)%nat with 1%nat by lia. }
  assert (u64 (Z.of_nat (length (maps_text m)) - (Z.of_nat (hex_width (m_start m)) + 1))
    = Z.of_nat (length (maps_text m)) - (Z.of_nat (hex_width (m_start m)) + 1)) as ->
    by (unfold u64; apply Z.mod_small; lia).
  rewrite i32_id, hexstr2ull_hexn by (done || lia). rewrite (proj2 (Z.eqb_neq _ 0)) by lia. done.
Qed.

Lemma chop_line m : chop (maps_line m) = maps_text m.
Proof.
  unfold chop, maps_line. rewrite last_snoc, bool_decide_eq_true_2 by done.
  rewrite length_app. cbn. by rewrite take_app_length' by lia.
Qed.

Lemma fgets_line n l r :
  LF ∉ l → (length l < n)%nat → fgets n (l ++ LF :: r) = (l ++ [LF], r).
Proof.
  revert n. induction l as [|c l IH]; intros [|n] Hlf Hn; cbn in *; try lia; [by rewrite decide_True|].
  rewrite decide_False by set_solver. rewrite IH by (set_solver || lia). done.
Qed.

Lemma maps_text_lf m : mapping_ok m → LF ∉ maps_text m.
Proof.
  intros Hm. assert (∀ n a, LF ∉ hexn n a) as Hhex.
  { intros n a Hin. pose proof (hexn_digits n a) as Hd. rewrite Forall_forall in Hd.
    destruct (Hd LF Hin) as [d Hd']. by vm_compute in Hd'. }
  unfold maps_text. rewrite elem_of_app, elem_of_cons, elem_of_app, elem_of_cons.
  intros [H|[H|[H|[H|H]]]]; try (by apply Hhex in H); try discriminate H. by apply (mo_rest _ Hm).
Qed.

Lemma fgets_all_maps fuel ms :
  Forall mapping_ok ms → (length (concat (maps_line <$> ms)) < fuel)%nat →
  fgets_all fuel (concat (maps_line <$> ms)) = maps_line <$> ms.
Proof.
  revert fuel. induction ms as [|m ms IH]; intros [|fuel] Hok Hf; try (cbn in *; lia); [done|].
  apply Forall_cons in Hok as [Hm Hok]. rewrite fmap_cons in *. cbn [concat] in *.
  rewrite length_app in Hf. unfold maps_line at 1 in Hf. rewrite length_app in Hf. cbn [length] in Hf.
  pose proof (maps_text_lf m Hm) as Hlf. pose proof (mo_fits _ Hm) as Hfit.
  unfold maps_line in Hfit. rewrite length_app in Hfit. cbn in Hfit.
  assert (∃ c r, maps_line m ++ concat (maps_line <$> ms) = c :: r) as (c & r & E).
  { unfold maps_line at 1. destruct (maps_text m); cbn; eauto. }
  cbn [fgets_all]. rewrite E. rewrite <- E. unfold maps_line at 1. rewrite <- app_assoc. cbn [app].
  rewrite fgets_line by (done || lia). rewrite IH by (done || lia). done.
Qed.

(** ** Names *)

(** [n] is somewhere in [h]. *)
Definition occurs (n h : chars) : Prop := ∃ a b, h = a ++ n ++ b.

(** The entry maps a file whose name, the part of its path behind the last slash, contains
    the name of the library; it is neither the stack nor the heap. *)
Definition maps_library (l : chars) : Prop :=
  (∃ dir name, l = dir ++ "/"%char :: name ∧ "/"%char ∉ name ∧ occurs (chr "libkallsyms.so") name) ∧
  ¬ occurs (chr "[stack]") l ∧ ¬ occurs (chr "[heap]") l.

Lemma strstr_occurs h n : strstr h n = true ↔ occurs n h.
Proof.
  induction h as [|c h IH]; cbn [strstr]; rewrite orb_true_iff, bool_decide_eq_true, ?IH.
  - split; [intros [[k Hk]|]; [|done]; by exists [], k|]. intros (a & b & E). symmetry in E.
    apply app_nil in E as [-> [-> ->]%app_nil]. left. by exists [].
  - split.
    + intros [[k Hk]|(a & b & ->)]; [by exists [], k|]. by exists (c :: a), b.
    + intros ([|c' a] & b & E); [left; by exists b|]. injection E as -> ->. right. by exists a, b.
Qed.

Lemma occurs_line n l c : n ≠ [] → c ∉ n → occurs n (l ++ [c]) ↔ occurs n l.
Proof.
  intros Hne Hc. split.
  - intros (a & b & E). destruct b as [|y b _] using rev_ind.
    + exfalso. rewrite app_nil_r in E. destruct n as [|x n _] using rev_ind; [done|].
      rewrite app_assoc in E. apply app_inj_tail in E as [_ ->]. set_solver.
    + rewrite !app_assoc in E. apply app_inj_tail in E as [-> _]. exists a, b. by rewrite <- app_assoc.
  - intros (a & b & ->). exists a, (b ++ [c]). by rewrite <- !app_assoc.
Qed.

Lemma occurs_cons c n h : head n ≠ Some c → n ≠ [] → occurs n (c :: h) ↔ occurs n h.
Proof.
  intros Hh Hne. split; [|intros (a & b & ->); by exists (c :: a), b].
  intros ([|c' a] & b & E); [by destruct n; simplify_eq/=|]. injection E as -> ->. by exists a, b.
Qed.

Lemma from_last_slash_spec l p :
  from_last_slash l = Some p ↔ ∃ d b, l = d ++ SLASH :: b ∧ SLASH ∉ b ∧ p = SLASH :: b.
Proof.
  assert (∀ l, from_last_slash l = None ↔ SLASH ∉ l) as Hnone.
  { induction l0 as [|c l0 IH]; [split; [intros _; apply not_elem_of_nil|done]|]. cbn [from_last_slash].
    rewrite not_elem_of_cons. destruct (from_last_slash l0) as [q|].
    - split; [done|]. intros [_ Hn]. by apply IH in Hn.
    - case_decide as Hc; [split; [done|intros [H _]; congruence]|]. split; [|done]. intros _. split; [congruence|by apply IH]. }
  revert p. induction l as [|c l IH]; intros p; cbn [from_last_slash].
  { split; [done|]. intros ([] & b & E & _); discriminate E. }
  destruct (from_last_slash l) as [q|] eqn:E.
  - destruct (proj1 (IH q) eq_refl) as (d & b & -> & Hb & ->). split.
    + intros [= <-]. by exists (c :: d), b.
    + intros (d' & b' & E' & Hb' & ->). f_equal. destruct d' as [|c' d'].
      { injection E' as _ E'. subst b'. destruct Hb'. apply elem_of_app. right. by left. }
      injection E' as _ E'. f_equal. revert E'. clear -Hb Hb'. revert d'. induction d as [|x d IHd]; intros [|x' d']; cbn; intros E'.
      * by injection E'.
      * injection E' as <- ->. destruct Hb. apply elem_of_app. right. by left.
      * injection E' as -> <-. destruct Hb'. apply elem_of_app. right. by left.
      * injection E' as _ E'. by apply (IHd d').
  - apply Hnone in E. case_decide as Hc.
    + subst c. split; [intros [= <-]; by exists [], l|]. intros ([|c' d] & b & E' & _ & ->); [by injection E' as ->|].
      injection E' as _ ->. destruct E. apply elem_of_app. right. by left.
    + split; [done|]. intros ([|c' d] & b & E' & _ & _); [by injection E' as ->|].
      injection E' as _ ->. destruct E. apply elem_of_app. right. by left.
Qed.

(** What the loop looks for in a line is that. *)
Lemma names_lib_spec l : LF ∉ l → names_lib (l ++ [LF]) = true ↔ maps_library l.
Proof.
  intros Hlf. unfold names_lib, maps_library.
  assert (chop (l ++ [LF]) = l) as ->.
  { unfold chop. rewrite last_snoc, bool_decide_eq_true_2 by done.
    rewrite length_app. cbn. by rewrite take_app_length' by lia. }
  assert (∀ n, n ≠ [] → LF ∉ n → strstr (l ++ [LF]) n = true ↔ occurs n l) as Hs
    by (intros n Hn Hc; by rewrite strstr_occurs, occurs_line).
  assert (iskallsyms (default [] (from_last_slash l)) = true ↔
    ∃ dir name, l = dir ++ SLASH :: name ∧ SLASH ∉ name ∧ occurs (chr "libkallsyms.so") name) as Hk.
  { unfold iskallsyms. rewrite strstr_occurs. split.
    - destruct (from_last_slash l) as [q|] eqn:E.
      + apply from_last_slash_spec in E as (d & b & -> & Hb & ->). cbn [default]. intros Ho.
        apply occurs_cons in Ho; [|done..]. by exists d, b.
      + intros (a & b & E'). by destruct a.
    - intros (d & b & -> & Hb & Ho). rewrite (proj2 (from_last_slash_spec _ (SLASH :: b))) by eauto. cbn [default].
      by apply occurs_cons. }
  destruct (from_last_slash (l ++ [LF])) as [q|] eqn:E.
  - rewrite !andb_true_iff, !negb_true_iff, <- !not_true_iff_false, Hk, !Hs by (done || (apply (bool_decide_unpack _); by vm_compute)).
    tauto.
  - split; [done|]. intros [(d & b & -> & Hb & _) _].
    rewrite (proj2 (from_last_slash_spec _ (SLASH :: b ++ [LF]))) in E; [done|].
    exists d, (b ++ [LF]). rewrite <- app_assoc. split; [done|]. split; [|done].
    rewrite elem_of_app, list_elem_of_singleton. intros [?|?]; done.
Qed.

(** ** The whole search *)

(** The first entry that maps the library. *)
Definition first_library (ms : list mapping) (r : Z * Z * Z) : Prop :=
  (∃ before m after, ms = before ++ m :: after ∧ maps_library (maps_text m) ∧
     Forall (λ m, ¬ maps_library (maps_text m)) before ∧ r = (1, m_start m, m_end m)) ∨
  (Forall (λ m, ¬ maps_library (maps_text m)) ms ∧ r = (0, 0, 0)).

Lemma find_line_maps ms : Forall mapping_ok ms → first_library ms (find_line (maps_line <$> ms)).
Proof.
  induction 1 as [|m ms Hm _ IH]; [right; by split|]. rewrite fmap_cons. cbn [find_line].
  pose proof (names_lib_spec (maps_text m) (maps_text_lf m Hm)) as Hn. fold (maps_line m) in Hn.
  destruct (names_lib (maps_line m)).
  - left. exists [], m, ms. split; [done|]. split; [by apply Hn|]. split; [done|]. by rewrite chop_line, parse_range_maps.
  - assert (¬ maps_library (maps_text m)) as Hno by (intros H; by apply Hn in H).
    destruct IH as [(before & m' & after & -> & H1 & H2 & H3)|[H1 H2]].
    + left. exists (m :: before), m', after. split; [done|]. split; [done|]. split; [by constructor|done].
    + right. split; [by constructor|done].
Qed.

Lemma find_libkallsyms_maps ms :
  Forall mapping_ok ms → first_library ms (find_libkallsyms (Some (concat (maps_line <$> ms)))).
Proof.
  intros Hok. unfold find_libkallsyms. rewrite fgets_all_maps by (done || lia). by apply find_line_maps.
Qed.
