(* ===== verification/DriverProps.v ===== *)
(** * What the drivers, the shim and the library search guarantee

    The properties of [KcutThreads], [KcutDriver], [Kldso] and [FindLib], proved
    from the lemmas of those components, each followed by an instance at a
    concrete input. *)
From Stdlib Require Import Ascii.
From S2P Require Import Prelude KoSpec Kallsyms KallsymsSpec FindLib Kldso.
From S2P Require Import Kcut Evacuate EvacuateSpec EvacuateHold KcutEvac KcutThreads KcutDriver.

Open Scope Z_scope.

(** ** Threads *)

(** A schedule for two threads that increment once each. *)
Definition demo_schedule : list choice :=
  [Main true; Main true; Thread 0; Main true; Thread 1; Thread 1; Thread 0; Thread 0; Thread 0; Thread 0; Thread 0;
   Thread 1; Thread 0; Thread 1; Thread 0; Thread 1; Thread 1; Thread 1; Thread 1; Thread 0; Main true;
   Thread 1; Main true; Main true].

(** C7: whatever the order in which the threads run, a run in which every thread
    could be started is bounded, never gets stuck before [main] has joined all
    threads, and then the counter holds the number of increments (modulo the
    width of the counter): no increment is lost. *)
Theorem threads_count n k cs s :
  0 < n < 2 ^ 32 → 0 <= k < 2 ^ 32 → all_started cs → run n k cs (sys0 n) = Some s →
  Z.of_nat (length cs) <= n * (5 * k + 6) + 2 ∧
  (main_pc s = MEnd ∧ counter s = u32 (n * k) ∨
   main_pc s ≠ MEnd ∧ ∃ c s', c ≠ Main false ∧ step n k c s = Some s').
Proof.
  intros Hn Hk Hcs Hrun.
  assert (0 <= n < 2 ^ 32) as Hn0 by lia.
  destruct (inv_reach n k Hn0 Hk cs s (proj1 Hn) Hcs Hrun) as [Hi Hr]. split; [done|].
  destruct (decide (main_pc s = MEnd)) as [E|E].
  - left. split; [done|]. by apply (ended_counter n k).
  - right. split; [done|]. by apply (progress n k).
Qed.

Lemma threads_count_witness :
  ∃ s, run 2 1 demo_schedule (sys0 2) = Some s ∧ main_pc s = MEnd ∧ counter s = 2.
Proof.
  destruct (run 2 1 demo_schedule (sys0 2)) as [s|] eqn:E; [|exfalso; vm_compute in E; discriminate E].
  exists s. split; [reflexivity|].
  destruct (threads_count 2 1 demo_schedule s) as [_ [[H1 H2]|[H _]]].
  - lia.
  - lia.
  - unfold all_started, demo_schedule. apply (bool_decide_unpack _). vm_compute. exact I.
  - exact E.
  - split; [exact H1|]. rewrite H2. reflexivity.
  - exfalso. vm_compute in E. injection E as <-. apply H. reflexivity.
Defined.

(** when a thread cannot be started after others were, [main] waits for ever:
    the threads wait at a barrier for one that does not exist, and [main] waits
    for the first of them, in every continuation of the run. *)
Theorem create_failure_hangs n k cs s i s' cs' s'' :
  0 < n < 2 ^ 32 → 0 <= k < 2 ^ 32 → all_started cs → run n k cs (sys0 n) = Some s →
  main_pc s = MCreate i → 0 < i < n → step n k (Main false) s = Some s' → run n k cs' s' = Some s'' →
  main_pc s'' = MJoin 0 ∧ step n k (Main true) s'' = None.
Proof.
  intros Hn Hk Hcs Hrun Hm Hi Hstep Hrun'.
  assert (0 <= n < 2 ^ 32) as Hn0 by lia.
  destruct (inv_reach n k Hn0 Hk cs s (proj1 Hn) Hcs Hrun) as [Hinv _].
  pose proof (create_failed n k s i s' Hinv Hm Hi Hstep) as Hst.
  pose proof (stuck_run n k cs' s' s'' Hst Hrun') as Hst'. destruct Hst' as (Hj & _ & Hok & Hlen & _).
  split; [done|]. cbn. unfold main_step. rewrite Hj, (proj2 (Z.ltb_lt 0 n)) by lia.
  destruct (lookup_lt_is_Some_2 (KcutThreads.threads s'') (Z.to_nat 0)) as [p Hp]; [lia|]. rewrite Hp.
  rewrite Forall_lookup in Hok. specialize (Hok _ _ Hp). by destruct p.
Qed.

Lemma create_failure_hangs_witness :
  ∃ s, run 2 1 [Main true; Main false; Thread 0] (sys0 2) = Some s ∧ main_pc s = MJoin 0.
Proof.
  eexists. split; [reflexivity|].
  destruct (create_failure_hangs 2 1 [Main true] (Sys (MCreate 1) [AtBarrier] 0 None 0 0) 1
    (Sys (MJoin 0) [AtBarrier] 0 None 0 0) [Thread 0] (Sys (MJoin 0) [InBarrier1 0] 0 None 1 0)) as [H _].
  - lia.
  - lia.
  - unfold all_started. apply (bool_decide_unpack _). vm_compute. exact I.
  - reflexivity.
  - reflexivity.
  - lia.
  - reflexivity.
  - reflexivity.
  - exact H.
Defined.

(** ** The driver *)

(** C15: the driver, asked to evacuate, on a machine where the processor can be acquired
    ([can_acquire]: a valid processor of several, memory, no other holder), where every
    task can run somewhere, [getcpu] and the priority change succeed and the kernel symbol
    is found: with counts of yields and loops that are not negative, and under any schedule of
    the threads in which all can be started and which goes on until nobody can go on, it
    makes all its tests in order with privilege, the counter of the threads having the value it should
    have, ends with status 0, without privilege, and gives processor, records and locks
    back. Every task that existed is as before, the caller with a normal priority. The
    tasks that are new are children it forked that have not ended: they keep the
    processor and the priority their parent had. *)
Theorem driver_gives_back mc ks args x fuel v d :
  let a := get_args args in
  evac a ≠ 0 → w_getcpu x = true → k_dlsym_tos ks = Some v →
  can_acquire mc (dv_ev d) → (∀ t k, tasks (dv_ev d) !! t = Some k → runnable mc k) → setattr_rc mc = 0 →
  kw_elevated (dv_k d) = false → args_ok a fuel → complete (spawns a) (increments a) (w_schedule x) →
  ∃ d', main mc ks args x fuel d = Done 0 d' ∧ dv_log d' = dv_log d ++ tests_log a x ∧
    kw_elevated (dv_k d') = false ∧ saved_affinities (dv_ev d') = [] ∧ held (dv_ev d') = unlocked ∧
    (∀ t, is_Some (tasks (dv_ev d) !! t) → tasks (dv_ev d') !! t =
      if decide (t = current mc) then set_sched (SCHED_NORMAL, 0) <$> tasks (dv_ev d) !! t
      else tasks (dv_ev d) !! t) ∧
    (∀ t k, tasks (dv_ev d) !! t = None → tasks (dv_ev d') !! t = Some k →
      pid k ∈ left_over (Z.to_nat (num_forks a)) 0 (w_fork x) ∧ real_parent k = Some (current mc) ∧
      cpus_mask k = {[smp_processor_id mc]} ∧ sched k = (SCHED_FIFO, 99)).
Proof.
  intros a Hev Hcpu Hv Hca Hrn Hrc Hel Hargs Hthr.
  destruct (acquire_ok mc (dv_ev d) (w_cpu x) EVAC_KILL_NICELY Hca Hrc) as (e1 & Hacq & Ha).
  destruct (driver_acquire mc ks (w_cpu x) d e1 v Hv Hacq) as (t1 & Hev1).
  set (d1 := Drv e1 (kset_elevated true (kset_tos t1 (dv_k d))) (dv_log d)).
  assert (threads_ok a x) as Hth by (split_and!; try apply Z.mod_pos_bound; try lia; done).
  assert (is_Some (tasks (dv_ev d1) !! current mc)) as Hsome.
  { destruct Ha as (_ & Hc & _). cbn. rewrite Hc. destruct (ca_current _ _ Hca) as [k ->]. done. }
  destruct (elevated_tests_run mc a x fuel d1 eq_refl Hsome Hargs Hth) as (d2 & Htests & Hl & Hk & Hw).
  destruct (children_release mc _ _ e1 (dv_ev d2) Hca Hrn Ha Hw) as (e3 & Hrel & Hs & Hh & Hold & Hnew).
  set (d3 := Drv (dv_ev d2) (kset_elevated false (kset_tos t1 (dv_k d))) (dv_log d2)).
  destruct (driver_release mc ks (w_cpu x) d3 e3 v 0 Hv Hrel) as (t2 & Hev2).
  eexists. split.
  { unfold main. fold a. rewrite (proj2 (Z.eqb_neq _ 0) Hev), Hcpu. step_by Hev1.
    rewrite (bind_done _ _ _ tt d1) by reflexivity. step_by Htests.
    rewrite (bind_done _ _ _ tt d3) by (unfold on_k, ksymbi_fast_lower, modifyM; by rewrite Hk). step_by Hev2. reflexivity. }
  cbn. by split_and!.
Qed.

Definition driver_task (n : Z) : task := Task n false {[0; 1]} None true n true 1 (SCHED_NORMAL, 0).
Definition driver_machine : machine := Machine 10 0 {[0; 1]} 2 [10%nat; 11%nat] (λ _, true) true true 0.
Definition driver_start : drv :=
  Drv (Evw {[10%nat := driver_task 100; 11%nat := driver_task 101]} [] [] NoMask NoMask unlocked) kcutw0 [].

Lemma driver_can_acquire : can_acquire driver_machine (dv_ev driver_start).
Proof.
  split.
  - cbn. lia.
  - apply (bool_decide_unpack _). by vm_compute.
  - by vm_compute.
  - done.
  - done.
  - by eexists.
  - split; [apply (bool_decide_unpack _); by vm_compute|]. intros t Ht.
    repeat (apply elem_of_cons in Ht as [->|Ht]; [by eexists|]). by apply elem_of_nil in Ht.
  - done.
  - done.
Qed.

(** After the schedule above nobody can go on. *)
Lemma demo_complete : complete 2 1 demo_schedule.
Proof.
  split; [unfold all_started, demo_schedule; apply (bool_decide_unpack _); by vm_compute|].
  destruct (run 2 1 demo_schedule (sys0 2)) as [s|] eqn:E; [|by vm_compute in E].
  vm_compute in E. injection E as <-. eexists. split; [done|]. intros [ok|[|[|t]]] _; done.
Qed.

Lemma driver_runnable t k : tasks (dv_ev driver_start) !! t = Some k → runnable driver_machine k.
Proof.
  intros H. assert (map_Forall (λ _ k, runnable driver_machine k) (tasks (dv_ev driver_start))) as Hall.
  { unfold runnable. apply (bool_decide_unpack _). by vm_compute. }
  by eapply Hall.
Qed.

(** Three forks: a child that has ended, one that has not, and a call that fails. *)
Definition demo_forks (i : nat) : option child :=
  match i with O => Some (Child 200 true) | 1%nat => Some (Child 201 false) | _ => None end.

Lemma driver_gives_back_witness :
  let ks := Ksys (λ _, false) (λ _ n, n) (λ _ n, n) (λ _ n, n) (λ _ n, n) (λ _ n, n) (λ _ n, n) (Some 0x1fb8) None in
  let args := [0; 3; 2; 1; 3; 2; 1; 0; 0] in
  ∃ d', main driver_machine ks args (World true 0 demo_forks demo_schedule) 10 driver_start
      = Done 0 d' ∧
    dv_log d' = [PrivilegedInstruction; StackTouch (-8); KernelStackTouch; ReadOverflowuid; Printk; KernelAdd 7;
      CurrentPid; FaultCounts; UserYield; UserYield; KernelYield; KernelYield;
      KcutDriver.Fork; ChildPid; StackTouch (-8); KcutDriver.Fork; Counter 2 2] ∧
    tasks (dv_ev d') !! 11%nat = Some (driver_task 101).
Proof.
  destruct (driver_gives_back driver_machine
    (Ksys (λ _, false) (λ _ n, n) (λ _ n, n) (λ _ n, n) (λ _ n, n) (λ _ n, n) (λ _ n, n) (Some 0x1fb8) None)
    [0; 3; 2; 1; 3; 2; 1; 0; 0] (World true 0 demo_forks demo_schedule) 10 0x1fb8 driver_start)
    as (d' & H1 & H2 & _ & _ & _ & H3 & _).
  - vm_compute. intros H. discriminate H.
  - reflexivity.
  - reflexivity.
  - apply driver_can_acquire.
  - apply driver_runnable.
  - reflexivity.
  - reflexivity.
  - split_and!; vm_compute; try intros H; (discriminate H || reflexivity).
  - exact demo_complete.
  - exists d'. split; [exact H1|]. split; [exact H2|]. apply (H3 11%nat). eexists. reflexivity.
Defined.

(** With a negative number of yields the driver does not come back: the loop
    counts down from it to a zero it does not meet. *)
Theorem negative_yields_hang fuel n d :
  n < 0 → kw_elevated (dv_k d) = true → kernel_yields fuel n d = NoFuel.
Proof. apply kernel_yields_negative. Qed.

Lemma negative_yields_hang_witness :
  kernel_yields 100 (-1) (Drv (dv_ev driver_start) (kset_elevated true kcutw0) []) = NoFuel.
Proof.
  apply (negative_yields_hang 100 (-1) (Drv (dv_ev driver_start) (kset_elevated true kcutw0) [])).
  - lia.
  - reflexivity.
Defined.

(** ** The shim *)

(** The shim looks a variable up like [getenv]: a variable whose name only
    begins with the key is not taken for it, and the first of several wins. *)
Theorem shim_getenv env key :
  Forall env_ok env → NUL ∉ key → EQ ∉ key →
  get_env_value (environment env) (cbuf key) =
  Some (cbuf ∘ snd <$> find (λ kv, bool_decide (kv.1 = key)) env).
Proof. apply get_env_spec. Qed.

Lemma shim_getenv_witness :
  get_env_value (environment [(chr "HOMEPATH", chr "x"); (chr "HOME", chr "/root"); (chr "HOME", chr "/")]) (cbuf (chr "HOME"))
  = Some (Some (cbuf (chr "/root"))).
Proof.
  apply (shim_getenv [(chr "HOMEPATH", chr "x"); (chr "HOME", chr "/root"); (chr "HOME", chr "/")] (chr "HOME")).
  - unfold env_ok. repeat constructor; apply (bool_decide_unpack _); vm_compute; exact I.
  - apply (bool_decide_unpack _). vm_compute. exact I.
  - apply (bool_decide_unpack _). vm_compute. exact I.
Defined.

(** The shim executes the script with its own argument vector behind the path
    of the script, the null pointer at the end, and an unchanged environment; it
    writes only when [KLD_DEBUG] is set, and exits with status 1 when the script
    cannot be executed. *)
Theorem shim_execs script argv env fails :
  Forall (λ a, NUL ∉ a) argv → Forall env_ok env →
  c_entry script fails (length argv) (stack_of argv env) =
  Some (Effects
          (if is_set (chr "KLD_DEBUG") env
           then chr "[KLD.SO]:" ++ concat ((λ a, " "%char :: a) <$> argv) ++ ["010"%char] else [])
          (Some (script, Some script :: (Some ∘ cbuf <$> argv) ++ [None], environment env)),
        if fails : bool then Some 1 else None).
Proof. apply c_entry_spec. Qed.

Lemma shim_execs_witness :
  c_entry (chr "/k.sh") false 2 (stack_of [chr "a"; chr "b"] [(chr "KLD_DEBUG", chr "1")]) =
  Some (Effects (chr "[KLD.SO]: a b" ++ ["010"%char])
          (Some (chr "/k.sh", [Some (chr "/k.sh"); Some (cbuf (chr "a")); Some (cbuf (chr "b")); None],
                 environment [(chr "KLD_DEBUG", chr "1")])), None).
Proof.
  apply (shim_execs (chr "/k.sh") [chr "a"; chr "b"] [(chr "KLD_DEBUG", chr "1")] false).
  - repeat constructor; apply (bool_decide_unpack _); vm_compute; exact I.
  - unfold env_ok. repeat constructor; apply (bool_decide_unpack _); vm_compute; exact I.
Defined.

(** ** The library *)
Definition demo_maps : list mapping :=
  [Mapping 0x55d0c0a00000 0x55d0c0a21000 (chr "rw-p 00000000 00:00 0 [heap]");
   Mapping 0x7f3a00000000 0x7f3a00021000 (chr "r-xp 00000000 08:01 1 /lib/libkallsyms.so.1");
   Mapping 0x7f3a10000000 0x7f3a10021000 (chr "r-xp 00000000 08:01 1 /lib/libkallsyms.so")].

(** C32: from entries that are printed as the kernel prints them, in lines of less than 256 characters
    with their new line, the search returns the address range of
    the first one that maps a file whose name, behind the last slash of its path, contains
    [libkallsyms.so] (and that has neither [[stack]] nor [[heap]] in it), and reports
    that there is none otherwise: addresses of up to 64 bits come out of their
    digits exactly. *)
Theorem library_found ms :
  Forall mapping_ok ms →
  let result := find_libkallsyms (Some (concat (maps_line <$> ms))) in
  (∃ before m after, ms = before ++ m :: after ∧ maps_library (maps_text m) ∧
     Forall (λ m, ¬ maps_library (maps_text m)) before ∧ result = (1, m_start m, m_end m)) ∨
  (Forall (λ m, ¬ maps_library (maps_text m)) ms ∧ result = (0, 0, 0)).
Proof. apply find_libkallsyms_maps. Qed.

(** An entry that maps the library is found, and only such an entry is. *)
Lemma library_found_witness :
  ∃ m, m ∈ demo_maps ∧ maps_library (maps_text m) ∧
    find_libkallsyms (Some (concat (maps_line <$> demo_maps))) = (1, m_start m, m_end m).
Proof.
  destruct (library_found demo_maps) as [(b & m & a & E & Hm & _ & Hr)|[_ Hr]].
  - repeat constructor; try (apply (bool_decide_unpack _); vm_compute; exact I); cbn; try lia.
  - exists m. split; [rewrite E; apply elem_of_app; right; left|]. split; [exact Hm|exact Hr].
  - vm_compute in Hr. discriminate Hr.
Defined.

(** A line of 256 characters or more is read in pieces: the piece with the name of the
    library does not begin with its addresses. The search ends there without a result,
    even when a later line would have one. *)
Definition long_mapping : mapping :=
  Mapping 0x7f3a00000000 0x7f3a00021000
    (chr "r-xp 00000000 08:01 1 " ++ replicate 210 "/"%char ++ chr "/libkallsyms.so").
Lemma long_line_missed :
  maps_library (maps_text long_mapping) ∧
  find_libkallsyms (Some (concat (maps_line <$> long_mapping :: demo_maps))) = (0, 0, 0).
Proof.
  split; [|by vm_compute]. apply names_lib_spec; [apply (bool_decide_unpack _); by vm_compute|by vm_compute].
Qed.
