(* ===== verification/ListLibs.v ===== *)
(** * Listing the libraries of an executable ([kld/listlibs.c])

    [libs] prints for each library an ELF file needs the first file it finds along
    the run path, the environment's library path and the standard directories.
    libelf is not part of the repository: the sections, dynamic entries and
    strings it reports are data. The path buffer is static and is printed before it
    is used again. *)
From Stdlib Require Import Ascii.
From S2P Require Import Prelude.
From S2P Require Import KoSpec.
From S2P Require Import KldElf.

Open Scope Z_scope.

Definition DT_NEEDED : Z := 1.
Definition DT_RPATH : Z := 15.
Definition DT_RUNPATH : Z := 29.
Definition COLON : ascii := ":"%char.

(** [strtok]: delimiters are skipped, then characters are taken up to the next
    delimiter; the rest is kept for the next call. *)
Fixpoint skip_delims (s : chars) : chars :=
  match s with [] => [] | c :: s' => if decide (c = COLON) then skip_delims s' else s end.
Fixpoint take_token (s : chars) : chars * chars :=
  match s with
  | [] => ([], [])
  | c :: s => if decide (c = COLON) then ([], s) else let '(t, r) := take_token s in (c :: t, r)
  end.
Definition strtok (s : chars) : option (chars * chars) :=
  match skip_delims s with [] => None | s => Some (take_token s) end.

(** [snprintf(full_path, sizeof(full_path), "%s/%s", dir, lib_name)] *)
Definition full_path (dir lib_name : chars) : chars := take 1023 (dir ++ chr "/" ++ lib_name).

Section listlibs.
Context (exists_file : chars → bool).

(** The [while] loop over the directories; [None] when there is too little fuel. *)
Fixpoint search_loop (fuel : nat) (lib_name rest : chars) : option (option chars) :=
match fuel with
| O => None
| S fuel =>
    match strtok rest with
    | None => Some None
    | Some (dir, rest) =>
        if exists_file (full_path dir lib_name) then Some (Some (full_path dir lib_name))
        else search_loop fuel lib_name rest
    end
end.

(** Every token takes at least one character. *)
Definition resolve_path (lib_name : chars) (search_dirs : option chars) : option (option chars) :=
match search_dirs with
| None => Some None
| Some s => search_loop (S (length s)) lib_name s
end.

(** A section as libelf reports it: header, dynamic entries, and the strings their
  values stand for. *)
Record scn := Scn {
sc_type : Z; sc_size : Z; sc_entsize : Z; sc_dyn : list (Z * Z); sc_str : Z → option chars }.

(** The entries the loops visit; a size of 0 would be a division by zero. *)
Definition dyn_entries (s : scn) : M (list (chars * option chars)) (list (Z * Z)) :=
if sc_type s =? SHT_DYNAMIC then
  if sc_entsize s =? 0 then faultM
  else
    let n := Z.to_nat (i32 (sc_size s / sc_entsize s)) in
    if (n <=? length (sc_dyn s))%nat then mret (take n (sc_dyn s)) else faultM
else mret [].

(** The first pass: the last run path wins. *)
Definition is_runpath (tag : Z) : bool := (tag =? DT_RUNPATH) || (tag =? DT_RPATH).
Fixpoint find_runpath (s : scn) (l : list (Z * Z)) (runpath : option chars) : option chars :=
match l with
| [] => runpath
| (tag, v) :: l => find_runpath s l (if is_runpath tag then sc_str s v else runpath)
end.
Fixpoint first_pass (ss : list scn) (runpath : option chars)
: M (list (chars * option chars)) (option chars) :=
match ss with
| [] => mret runpath
| s :: ss => l ← dyn_entries s; first_pass ss (find_runpath s l runpath)
end.

(** What is printed for a library. *)
Definition STD_PATHS : chars := chr "/lib:/usr/lib:/lib64:/usr/lib64".
Definition find_library (runpath env : option chars) (name : chars) : option (option chars) :=
match resolve_path name runpath with
| Some None =>
    match resolve_path name env with
    | Some None => resolve_path name (Some STD_PATHS)
    | r => r
    end
| r => r
end.

(** The second pass; the state is what has been printed. *)
Fixpoint print_needed (runpath env : option chars) (s : scn) (l : list (Z * Z))
: M (list (chars * option chars)) unit :=
match l with
| [] => mret tt
| (tag, v) :: l =>
    _ ← (if tag =? DT_NEEDED then
           name ← derefM (sc_str s v);
           found ← derefM (find_library runpath env name);
           modifyM (λ out, out ++ [(name, found)])
         else mret tt);
    print_needed runpath env s l
end.
Fixpoint second_pass (runpath env : option chars) (ss : list scn)
: M (list (chars * option chars)) unit :=
match ss with
| [] => mret tt
| s :: ss => l ← dyn_entries s; _ ← print_needed runpath env s l; second_pass runpath env ss
end.

(** [elf]: the sections, [None] when the file cannot be opened or is no ELF file. *)
Definition libs (env : option chars) (elf : option (list scn)) : M (list (chars * option chars)) unit :=
match elf with
| None => exitM 1
| Some ss => runpath ← first_pass ss None; second_pass runpath env ss
end.

(** [main]: the files of the command line in order. *)
Fixpoint libs_loop (env : option chars) (files : list (option (list scn)))
: M (list (chars * option chars)) unit :=
match files with
| [] => mret tt
| f :: files => _ ← libs env f; libs_loop env files
end.
Definition listlibs_main (env : option chars) (files : list (option (list scn)))
: M (list (chars * option chars)) Z :=
match files with
| [] => mret (-1)
| _ => _ ← libs_loop env files; mret 0
end.
End listlibs.

(** ** The search as a reference *)

(** The directories of a path: its fields that are not empty. *)
Fixpoint fields (s : chars) : list chars :=
  match s with
  | [] => [[]]
  | c :: s =>
      if decide (c = COLON) then [] :: fields s
      else match fields s with [] => [[c]] | f :: fs => (c :: f) :: fs end
  end.
Definition dirs (s : chars) : list chars := filter (λ f, f ≠ []) (fields s).
Definition dirs_of (s : option chars) : list chars := match s with Some s => dirs s | None => [] end.

(** The first of the directories that has the file. *)
Definition first_found (exists_file : chars → bool) (lib_name : chars) (ds : list chars) : option chars :=
  head (filter (λ p, exists_file p) ((λ d, full_path d lib_name) <$> ds)).

Lemma fields_cons s : ∃ f fs, fields s = f :: fs.
Proof.
  induction s as [|c s (f & fs & IH)]; [by exists [], []|]. cbn. case_decide; [by eexists _, _|].
  rewrite IH. by eexists _, _.
Qed.

Lemma dirs_skip s : dirs (skip_delims s) = dirs s.
Proof.
  induction s as [|c s IH]; [done|]. cbn [skip_delims]. case_decide as E; [|done].
  unfold dirs in *. cbn [fields]. rewrite (decide_True _ _ E). by rewrite filter_cons_False by naive_solver.
Qed.

(** A token is the first field, what is left the others. *)
Lemma take_token_fields s :
  let '(t, r) := take_token s in
  (length r <= length s)%nat ∧ ∃ fs, fields s = t :: fs ∧ filter (λ f, f ≠ []) fs = dirs r.
Proof.
  induction s as [|c s IH]; [cbn; split; [done|]; by exists []|]. cbn [take_token fields].
  case_decide as E; [cbn; split; [lia|]; by exists (fields s)|].
  destruct (take_token s) as [t r]. destruct IH as (Hl & fs & Hf & Hr). rewrite Hf. cbn. split; [lia|].
  by exists fs.
Qed.

Lemma skip_delims_head s c s' : skip_delims s = c :: s' → c ≠ COLON.
Proof.
  induction s as [|d s IH]; [done|]. cbn. case_decide as E; [done|]. by intros [= <- <-].
Qed.

Lemma skip_delims_length s : (length (skip_delims s) <= length s)%nat.
Proof. induction s as [|c s IH]; [done|]. cbn. case_decide; cbn; lia. Qed.

Lemma search_loop_spec ex fuel lib_name s :
  (length s < fuel)%nat → search_loop ex fuel lib_name s = Some (first_found ex lib_name (dirs s)).
Proof.
  revert s. induction fuel as [|fuel IH]; intros s Hf; [lia|]. cbn [search_loop]. unfold strtok.
  rewrite <- dirs_skip. pose proof (skip_delims_length s).
  destruct (skip_delims s) as [|c s'] eqn:E; [done|]. pose proof (skip_delims_head _ _ _ E) as Hc.
  pose proof (take_token_fields (c :: s')) as Ht.
  assert (∃ t r, take_token (c :: s') = (c :: t, r) ∧ (length r <= length s')%nat) as (t & r & Htok & Hr).
  { cbn [take_token]. rewrite decide_False by done. pose proof (take_token_fields s') as H'.
    destruct (take_token s') as [t r]. exists t, r. by split; [|apply H']. }
  rewrite Htok in Ht |- *. destruct Ht as (_ & fs & Hfs & Hrest).
  assert (dirs (c :: s') = (c :: t) :: dirs r) as ->.
  { unfold dirs at 1. rewrite Hfs, filter_cons_True by done. by rewrite Hrest. }
  unfold first_found. rewrite fmap_cons, filter_cons.
  destruct (ex (full_path (c :: t) lib_name)) eqn:Ee.
  - by rewrite decide_True by done.
  - rewrite decide_False by (intros H0; done). apply IH. cbn in *. lia.
Qed.

Lemma resolve_path_spec ex lib_name s :
  resolve_path ex lib_name s = Some (first_found ex lib_name (dirs_of s)).
Proof. destruct s as [s|]; [|done]. apply search_loop_spec. lia. Qed.

Lemma first_found_app ex n d1 d2 :
  first_found ex n (d1 ++ d2) =
    match first_found ex n d1 with Some p => Some p | None => first_found ex n d2 end.
Proof. unfold first_found. rewrite fmap_app, filter_app. by destruct (filter _ (_ <$> d1)). Qed.

Definition search_path (runpath env : option chars) : list chars :=
  dirs_of runpath ++ dirs_of env ++ dirs STD_PATHS.

Lemma find_library_spec ex runpath env n :
  find_library ex runpath env n = Some (first_found ex n (search_path runpath env)).
Proof.
  unfold find_library, search_path. rewrite !resolve_path_spec, !first_found_app.
  destruct (first_found ex n (dirs_of runpath)); [done|]. by destruct (first_found ex n (dirs_of env)).
Qed.

(** ** The passes over the file *)

(** The dynamic entries of a section, those of the file with their section. *)
Definition entries (s : scn) : list (Z * Z) :=
  if sc_type s =? SHT_DYNAMIC then take (Z.to_nat (i32 (sc_size s / sc_entsize s))) (sc_dyn s) else [].
Definition all_entries (ss : list scn) : list (scn * (Z * Z)) := ss ≫= λ s, (s,.) <$> entries s.

(** The header describes the section, and the libraries have names. *)
Definition scn_ok (s : scn) : Prop :=
  (sc_type s = SHT_DYNAMIC → sc_entsize s ≠ 0 ∧ (Z.to_nat (i32 (sc_size s / sc_entsize s)) <= length (sc_dyn s))%nat) ∧
  ∀ v, (DT_NEEDED, v) ∈ entries s → is_Some (sc_str s v).

(** The last run path of the file, and the names of the libraries it needs. *)
Definition runpath_of (ss : list scn) : option chars :=
  foldl (λ r e, if is_runpath e.2.1 then sc_str e.1 e.2.2 else r) None (all_entries ss).
Definition needed (ss : list scn) : list chars :=
  omap (λ e, if e.2.1 =? DT_NEEDED then sc_str e.1 e.2.2 else None) (all_entries ss).

Lemma dyn_entries_run s out : scn_ok s → dyn_entries s out = Done (entries s) out.
Proof.
  intros [H _]. unfold dyn_entries, entries. destruct (Z.eqb_spec (sc_type s) SHT_DYNAMIC) as [E|]; [|done].
  destruct (H E) as [H0 Hl]. rewrite (proj2 (Z.eqb_neq _ _) H0). by rewrite (proj2 (Nat.leb_le _ _) Hl).
Qed.

Lemma find_runpath_foldl s l r :
  find_runpath s l r =
    foldl (λ r e, if is_runpath e.2.1 then sc_str e.1 e.2.2 else r) r ((s,.) <$> l).
Proof. revert r. induction l as [|[tag v] l IH]; intros r; [done|]. cbn. by rewrite IH. Qed.

Lemma first_pass_run ss r out :
  Forall scn_ok ss →
  first_pass ss r out =
    Done (foldl (λ r e, if is_runpath e.2.1 then sc_str e.1 e.2.2 else r) r (all_entries ss)) out.
Proof.
  intros Hok. revert r. induction Hok as [|s ss Hs Hok IH]; intros r; [done|]. cbn [first_pass].
  step_by (dyn_entries_run s out Hs). rewrite IH. unfold all_entries. rewrite bind_cons, foldl_app.
  by rewrite find_runpath_foldl.
Qed.

Section passes.
Context (ex : chars → bool) (rp env : option chars).

Definition line (n : chars) : chars * option chars := (n, first_found ex n (search_path rp env)).

Lemma print_needed_run s l out :
(∀ v, (DT_NEEDED, v) ∈ l → is_Some (sc_str s v)) →
print_needed ex rp env s l out =
  Done tt (out ++ (line <$> omap (λ e, if e.2.1 =? DT_NEEDED then sc_str e.1 e.2.2 else None) ((s,.) <$> l))).
Proof.
revert out. induction l as [|[tag v] l IH]; intros out H; [cbn; by rewrite app_nil_r|]. cbn [print_needed].
rewrite fmap_cons. cbn [omap list_omap fst snd]. destruct (Z.eqb_spec tag DT_NEEDED) as [->|Hne].
- destruct (H v ltac:(left)) as [n Hn]. rewrite Hn.
  erewrite bind_done by (step; rewrite find_library_spec; by step).
  rewrite IH by (intros v' ?; apply H; by right). by rewrite <- app_assoc.
- step. apply IH. intros v' ?. apply H. by right.
Qed.

Lemma second_pass_run ss out :
Forall scn_ok ss → second_pass ex rp env ss out = Done tt (out ++ (line <$> needed ss)).
Proof.
intros Hok. revert out. induction Hok as [|s ss Hs Hok IH]; intros out; [cbn; by rewrite app_nil_r|].
cbn [second_pass]. step_by (dyn_entries_run s out Hs).
step_by (print_needed_run s (entries s) out (proj2 Hs)). rewrite IH, <- app_assoc.
unfold needed, all_entries. by rewrite bind_cons, omap_app, fmap_app.
Qed.
End passes.

Lemma libs_run ex env ss out :
  Forall scn_ok ss →
  libs ex env (Some ss) out = Done tt (out ++ (line ex (runpath_of ss) env <$> needed ss)).
Proof.
  intros Hok. unfold libs. step_by (first_pass_run ss None out Hok). by apply second_pass_run.
Qed.

(** The files before the first that cannot be read. *)
Fixpoint readable (files : list (option (list scn))) : list (list scn) :=
  match files with Some ss :: files => ss :: readable files | _ => [] end.
Definition file_lines (ex : chars → bool) (env : option chars) (ss : list scn) : list (chars * option chars) :=
  line ex (runpath_of ss) env <$> needed ss.

Lemma libs_loop_run ex env files out :
  Forall (Forall scn_ok) (readable files) →
  libs_loop ex env files out =
    (if existsb (λ f, negb (bool_decide (is_Some f))) files then Exited 1 else Done tt) (out ++ (readable files ≫= file_lines ex env)).
Proof.
  revert out. induction files as [|[ss|] files IH]; intros out Hok; cbn [libs_loop readable] in *.
  - cbn. by rewrite app_nil_r.
  - apply Forall_cons in Hok as [Hs Hok]. step_by (libs_run ex env ss out Hs). rewrite IH by done.
    by rewrite bind_cons, app_assoc.
  - cbn. by rewrite app_nil_r.
Qed.
