(* ===== verification/StackTest.v ===== *)
(** * The stack fault test ([kcuttest/mmap_stack_test.c])

    The test maps memory, finds three pages that are not resident, moves the stack
    pointer into the second one and writes to the third; a handler catches the
    fault and jumps back. The state is what the test holds: descriptors, the
    mapping, the vector, the signal handler, the stack pointer. What the system
    calls answer, and whether the write faults, is data. *)
From S2P Require Import Prelude.

Open Scope Z_scope.

Definition PAGE_SIZE : Z := 4096.
Definition map_size : Z := 2 * 1024 * 1024.
Definition num_pages : nat := Z.to_nat (map_size / PAGE_SIZE).

Inductive disposition := SIG_DFL | segv_handler.

Record stw := Stw {
  st_fds : gset Z;
  st_map : option Z;
  st_vec : option (list Z);
  st_segv : disposition;
  st_rsp : Z;
  st_writes : list Z;            (* addresses the test has written to *)
  fault_caught : Z;
}.

Definition set_fds (f : gset Z → gset Z) (s : stw) : stw :=
  Stw (f (st_fds s)) (st_map s) (st_vec s) (st_segv s) (st_rsp s) (st_writes s) (fault_caught s).
Definition set_map (m : option Z) (s : stw) : stw :=
  Stw (st_fds s) m (st_vec s) (st_segv s) (st_rsp s) (st_writes s) (fault_caught s).
Definition set_vec (v : option (list Z)) (s : stw) : stw :=
  Stw (st_fds s) (st_map s) v (st_segv s) (st_rsp s) (st_writes s) (fault_caught s).
Definition set_segv (d : disposition) (s : stw) : stw :=
  Stw (st_fds s) (st_map s) (st_vec s) d (st_rsp s) (st_writes s) (fault_caught s).
Definition set_rsp (v : Z) (s : stw) : stw :=
  Stw (st_fds s) (st_map s) (st_vec s) (st_segv s) v (st_writes s) (fault_caught s).
Definition wrote_to (p : Z) (s : stw) : stw :=
  Stw (st_fds s) (st_map s) (st_vec s) (st_segv s) (st_rsp s) (st_writes s ++ [p]) (fault_caught s).
Definition caught (s : stw) : stw :=
  Stw (st_fds s) (st_map s) (st_vec s) (st_segv s) (st_rsp s) (st_writes s) 1.

(** What the system answers: [None] and [false] are failures. [a_resident] is what
    [mincore] stores, [a_fault] whether the access ends in the signal handler. *)
Record answers := Answers {
  a_sigaction : bool;
  a_mkstemp : bool;
  a_ftruncate : bool;
  a_mmap : option Z;
  a_malloc : bool;
  a_mincore : option (list Z);
  a_fault : bool;
}.

(** [for (i = num_pages - 3; i > 0; i--)] *)
Fixpoint find_pages (vec : list Z) (i : nat) : M stw (option nat) :=
  match i with
  | O => mret None
  | S j =>
      a ← derefM (vec !! i);
      if negb (Z.land a 1 =? 0) then find_pages vec j else
      b ← derefM (vec !! S i);
      if negb (Z.land b 1 =? 0) then find_pages vec j else
      c ← derefM (vec !! S (S i));
      if negb (Z.land c 1 =? 0) then find_pages vec j else mret (Some i)
  end.

(** The label [cleanup]. *)
Definition cleanup (fd ret : Z) : M stw Z :=
  _ ← modifyM (set_vec None);
  _ ← modifyM (set_map None);
  _ ← (if 0 <=? fd then modifyM (set_fds (λ f, f ∖ {[fd]})) else mret tt);
  _ ← modifyM (set_segv SIG_DFL);
  mret ret.

(** From [sigsetjmp] on: the access on the moved stack; the handler jumps back, which
    restores the stack pointer. A fault without the handler ends the process. *)
Definition access (x : answers) (operation new_stack_ptr page_C : Z) : M stw unit :=
  s ← getM;
  let saved_rsp := st_rsp s in
  _ ← modifyM (set_rsp new_stack_ptr);
  if a_fault x then
    match st_segv s with
    | segv_handler => _ ← modifyM caught; modifyM (set_rsp saved_rsp)
    | SIG_DFL => exitM 139
    end
  else
    _ ← (if operation =? 0 then modifyM (wrote_to page_C) else mret tt);
    modifyM (set_rsp saved_rsp).

(** What follows when the pages are found: [i] is page A. *)
Definition run_test (x : answers) (operation mapped_area : Z) (i : nat) (fd : Z) : M stw Z :=
  let page_B := mapped_area + Z.of_nat (S i) * PAGE_SIZE in
  let page_C := mapped_area + Z.of_nat (S (S i)) * PAGE_SIZE in
  _ ← modifyM (wrote_to page_B);
  let new_stack_ptr := if operation =? 2 then page_B + 0x40 else page_B + 16 in
  _ ← access x operation new_stack_ptr page_C;
  cleanup fd 0.

Definition mmap_stack_test (x : answers) (operation : Z) : M stw Z :=
  if negb (a_sigaction x) then mret (-1) else
  _ ← modifyM (set_segv segv_handler);
  if negb (a_mkstemp x) then mret (-1) else
  fd ← getsM (λ s, lowest_fd (st_fds s));
  _ ← modifyM (set_fds (λ f, {[fd]} ∪ f));
  if negb (a_ftruncate x) then _ ← modifyM (set_fds (λ f, f ∖ {[fd]})); mret (-1) else
  match a_mmap x with
  | None => _ ← modifyM (set_fds (λ f, f ∖ {[fd]})); mret (-1)
  | Some mapped_area =>
      _ ← modifyM (set_map (Some mapped_area));
      if negb (a_malloc x) then cleanup fd (-1) else
      _ ← modifyM (set_vec (Some []));
      match a_mincore x with
      | None => cleanup fd (-1)
      | Some vec =>
          _ ← modifyM (set_vec (Some vec));
          r ← find_pages vec (num_pages - 3);
          match r with
          | None => cleanup fd (-1)
          | Some i => run_test x operation mapped_area i fd
          end
      end
  end.

(** ** The search *)
Definition absent (vec : list Z) (i : nat) : bool :=
  match vec !! i with Some v => Z.land v 1 =? 0 | None => false end.
Definition absent3 (vec : list Z) (i : nat) : bool :=
  absent vec i && absent vec (S i) && absent vec (S (S i)).

(** The highest of the indices 1 to [n]. *)
Fixpoint highest (p : nat → bool) (n : nat) : option nat :=
  match n with O => None | S j => if p n then Some n else highest p j end.

Lemma highest_spec p n :
  match highest p n with
  | Some i => (1 <= i <= n)%nat ∧ p i = true ∧ ∀ j, (i < j <= n)%nat → p j = false
  | None => ∀ j, (1 <= j <= n)%nat → p j = false
  end.
Proof.
  induction n as [|n IH]; [intros j Hj; lia|]. cbn. destruct (p (S n)) eqn:E.
  - split_and!; [lia|lia|done|]. intros j Hj. lia.
  - destruct (highest p n) as [i|].
    + destruct IH as (Hi & Hp & Hj). split_and!; [lia..|done|]. intros j Hij.
      destruct (decide (j = S n)) as [->|]; [done|]. apply Hj. lia.
    + intros j Hj. destruct (decide (j = S n)) as [->|]; [done|]. apply IH. lia.
Qed.

Lemma find_pages_run vec n s :
  (n + 2 < length vec)%nat → find_pages vec n s = Done (highest (absent3 vec) n) s.
Proof.
  induction n as [|n IH]; intros Hl; [done|]. cbn [find_pages highest].
  specialize (IH ltac:(lia)). unfold absent3 at 1, absent at 1 2 3.
  destruct (lookup_lt_is_Some_2 vec (S n)) as [a Ha]; [lia|].
  destruct (lookup_lt_is_Some_2 vec (S (S n))) as [b Hb]; [lia|].
  destruct (lookup_lt_is_Some_2 vec (S (S (S n)))) as [c Hc]; [lia|].
  rewrite Ha, Hb, Hc. step. destruct (Z.land a 1 =? 0); cbn [negb andb]; [|exact IH].
  step. destruct (Z.land b 1 =? 0); cbn [negb andb]; [|exact IH].
  step. destruct (Z.land c 1 =? 0); cbn [negb andb]; [done|exact IH].
Qed.

(** ** The whole test *)
Definition set_up (x : answers) : bool :=
  a_mkstemp x && a_ftruncate x && bool_decide (is_Some (a_mmap x)).

(** The addresses a test that found page A at index [i] has written to. *)
Definition test_writes (x : answers) (operation area : Z) (i : nat) : list Z :=
  (area + Z.of_nat (S i) * PAGE_SIZE) ::
  (if negb (a_fault x) && (operation =? 0) then [area + Z.of_nat (S (S i)) * PAGE_SIZE] else []).

(** What the test returns and writes. *)
Definition verdict (x : answers) (operation : Z) : Z * list Z :=
  if a_sigaction x && set_up x && a_malloc x then
    match a_mmap x, a_mincore x with
    | Some area, Some vec =>
        match highest (absent3 vec) (num_pages - 3) with
        | Some i => (0, test_writes x operation area i)
        | None => (-1, [])
        end
    | _, _ => (-1, [])
    end
  else (-1, []).

(** The same resources, the same stack pointer; [d] handles the signal. *)
Definition held_as (d : disposition) (ws : list Z) (s s' : stw) : Prop :=
  st_fds s' = st_fds s ∧ st_map s' = None ∧ st_vec s' = None ∧ st_rsp s' = st_rsp s ∧
  st_segv s' = d ∧ st_writes s' = st_writes s ++ ws.

Lemma lowest_gone (f : gset Z) : ({[lowest_fd f]} ∪ f) ∖ {[lowest_fd f]} = f.
Proof. pose proof (proj1 (lowest_fd_spec f)). set_solver. Qed.

Lemma cleanup_run fd r s0 s ws :
  0 <= fd → st_fds s ∖ {[fd]} = st_fds s0 → st_rsp s = st_rsp s0 → st_writes s = st_writes s0 ++ ws →
  ∃ s', cleanup fd r s = Done r s' ∧ held_as SIG_DFL ws s0 s'.
Proof.
  intros Hfd Hf Hr Hw. unfold cleanup. step. step. rewrite (proj2 (Z.leb_le _ _) Hfd). step. step.
  eexists. split; [done|]. by split_and!.
Qed.

Lemma run_test_run x op area i fd s0 s :
  0 <= fd → st_fds s ∖ {[fd]} = st_fds s0 → st_rsp s = st_rsp s0 → st_writes s = st_writes s0 →
  st_segv s = segv_handler →
  ∃ s', run_test x op area i fd s = Done 0 s' ∧ held_as SIG_DFL (test_writes x op area i) s0 s'.
Proof.
  intros Hfd Hf Hr Hw Hh. unfold run_test, access. step.
  set (s1 := wrote_to _ s).
  set (sp := if op =? 2 then _ else _).
  assert (∃ s2, (s ← getM; let saved_rsp := st_rsp s in
    _ ← modifyM (set_rsp sp);
    if a_fault x then
      match st_segv s with
      | segv_handler => _ ← modifyM caught; modifyM (set_rsp saved_rsp)
      | SIG_DFL => exitM 139
      end
    else
      _ ← (if op =? 0 then modifyM (wrote_to (area + Z.of_nat (S (S i)) * PAGE_SIZE)) else mret tt);
      modifyM (set_rsp saved_rsp)) s1 = Done tt s2 ∧
    st_fds s2 = st_fds s ∧ st_rsp s2 = st_rsp s ∧
    st_writes s2 = st_writes s ++ test_writes x op area i) as (s2 & Hrun & F2 & R2 & W2).
  { unfold test_writes. step. step. change (st_segv s1) with (st_segv s). rewrite Hh.
    destruct (a_fault x); cbn [negb andb]; [step; eexists; split; [done|]; by split_and!|].
    destruct (op =? 0); step; eexists; (split; [done|]); split_and!; try done.
    cbn. by rewrite <- app_assoc. }
  step_by Hrun. apply cleanup_run; [done|by rewrite F2|by rewrite R2|by rewrite W2, Hw].
Qed.

Lemma mmap_stack_test_run x op s :
  st_map s = None → st_vec s = None → (∀ v, a_mincore x = Some v → length v = num_pages) →
  ∃ s', mmap_stack_test x op s = Done (verdict x op).1 s' ∧
    held_as (if a_sigaction x then if set_up x then SIG_DFL else segv_handler else st_segv s)
      (verdict x op).2 s s'.
Proof.
  intros Hm Hv Hlen. unfold mmap_stack_test, verdict, set_up.
  assert (∀ d (r : Z), ∃ s', Done r (set_segv d s) = Done r s' ∧ held_as d [] s s') as Hearly.
  { intros d r. eexists. split; [done|]. unfold held_as. rewrite app_nil_r. by split_and!. }
  destruct (a_sigaction x); cbn [negb andb].
  2:{ destruct (Hearly (st_segv s) (-1)) as (s' & E & H). exists s'. split; [|done].
      injection E as <-. unfold mret, M_ret. f_equal. by destruct s. }
  step. destruct (a_mkstemp x); cbn [negb andb]; [|apply Hearly].
  step. step. cbn [st_fds set_segv]. set (fd := lowest_fd (st_fds s)).
  assert (0 <= fd) as Hfd by apply lowest_fd_spec.
  assert (({[fd]} ∪ st_fds s) ∖ {[fd]} = st_fds s) as Hgone by apply lowest_gone.
  assert (∃ s', Done (-1) (set_fds (λ f, f ∖ {[fd]}) (set_fds (λ f, {[fd]} ∪ f) (set_segv segv_handler s)))
    = Done (-1) s' ∧ held_as segv_handler [] s s') as Hclosed.
  { eexists. split; [done|]. unfold held_as. rewrite app_nil_r. by split_and!. }
  destruct (a_ftruncate x); cbn [negb andb]; [|step; exact Hclosed].
  destruct (a_mmap x) as [area|]; [|step; exact Hclosed].
  rewrite bool_decide_eq_true_2 by done. cbn [andb]. step.
  assert (∀ s1, st_fds s1 = {[fd]} ∪ st_fds s → st_rsp s1 = st_rsp s → st_writes s1 = st_writes s →
    ∃ s', cleanup fd (-1) s1 = Done (-1) s' ∧ held_as SIG_DFL [] s s') as Hclean.
  { intros s1 F R W. apply cleanup_run; [done|by rewrite F|done|by rewrite app_nil_r]. }
  destruct (a_malloc x); cbn [negb]; [|by apply Hclean]. step.
  destruct (a_mincore x) as [vec|]; [|by apply Hclean]. step.
  specialize (Hlen vec eq_refl).
  assert (num_pages - 3 + 2 < length vec)%nat as Hn by (rewrite Hlen; unfold num_pages; vm_compute; lia).
  step_by (find_pages_run vec _ _ Hn). destruct (highest _ _) as [i|]; [|by apply Hclean].
  by apply run_test_run.
Qed.
