(* ===== verification/CpuMigration.v ===== *)
(** * The migration demonstration ([cpu_migration/main.c])

    The program reads the processor's state from the kernel a hundred times while it
    is elevated and sleeps, computes or does input and output in between. Kernel
    data read by a thread that is not elevated is a fault. The prime count of the
    computation and the file of the input and output are modelled; the contents of
    the file are not. *)
From Stdlib Require Import Znumtheory.
From S2P Require Import Prelude.

Open Scope Z_scope.

Inductive mode := MODE_SLEEP | MODE_BUSY | MODE_IO.
#[export] Instance mode_eq_dec : EqDecision mode.
Proof. solve_decision. Defined.

(** The inner loop of [busy_work]: [for (i = 2; i * i <= num; i++)] with the break. *)
Fixpoint is_prime_loop (fuel : nat) (num i : Z) : option bool :=
  match fuel with
  | O => None
  | S fuel =>
      if u64 (i * i) <=? num then
        if num mod i =? 0 then Some false else is_prime_loop fuel num (u64 (i + 1))
      else Some true
  end.

(** Enough for every number below [LIMIT]: the loop ends at the root of [num]. *)
Definition LIMIT : Z := 10000000.
Definition root_fuel : nat := Z.to_nat 3162.

(** The outer loop, [n] numbers from [num] on. *)
Fixpoint count_primes (n : nat) (num count : Z) : option Z :=
  match n with
  | O => Some count
  | S n =>
      is_prime ← is_prime_loop root_fuel num 2;
      count_primes n (u64 (num + 1)) (if is_prime : bool then u64 (count + 1) else count)
  end.
Definition busy_work (limit : Z) : option Z := count_primes (Z.to_nat (limit - 2)) 2 0.

(** *** The program *)
Inductive event :=
| KernelState (sym_elev sym_mig : Z)
| Slept
| Counted (primes : Z)
| Io (wrote read : bool).

(** What the system answers in one iteration: the word [get_current_symbi_state]
    returns, and whether [open] for writing and for reading succeeds. *)
Record iteration := Iteration { symbi_state : Z; opens_w : bool; opens_r : bool }.

Record migw := Migw { mg_elevated : bool; mg_file : bool; mg_fds : gset Z; mg_log : list event }.
Definition set_elev (b : bool) (w : migw) : migw := Migw b (mg_file w) (mg_fds w) (mg_log w).
Definition set_file (b : bool) (w : migw) : migw := Migw (mg_elevated w) b (mg_fds w) (mg_log w).
Definition set_fds (f : gset Z → gset Z) (w : migw) : migw := Migw (mg_elevated w) (mg_file w) (f (mg_fds w)) (mg_log w).
Definition note (e : event) (w : migw) : migw := Migw (mg_elevated w) (mg_file w) (mg_fds w) (mg_log w ++ [e]).

(** [argv[1]], if there is one; an unknown mode is the first. *)
Definition get_mode (arg : option string) : mode :=
  match arg with
  | Some s => if decide (s = "busy")%string then MODE_BUSY
              else if decide (s = "io")%string then MODE_IO else MODE_SLEEP
  | None => MODE_SLEEP
  end.

(** [io_work]: whether [open] for writing and for reading succeeds. *)
Definition io_work (ok_w ok_r : bool) : M migw unit :=
  _ ← (if ok_w then
         _ ← modifyM (set_file true);
         fd ← getsM (λ w, lowest_fd (mg_fds w));
         _ ← modifyM (set_fds (λ f, {[fd]} ∪ f));
         modifyM (set_fds (λ f, f ∖ {[fd]}))
       else mret tt);
  w ← getM;
  let ok := ok_r && mg_file w in
  _ ← (if ok then
         fd ← getsM (λ w, lowest_fd (mg_fds w));
         _ ← modifyM (set_fds (λ f, {[fd]} ∪ f));
         modifyM (set_fds (λ f, f ∖ {[fd]}))
       else mret tt);
  modifyM (note (Io ok_w ok)).

(** Reading the state of the kernel and printing it there. *)
Definition sym_elev (st : Z) : Z := Z.land (Z.shiftr st 1) 1.
Definition sym_mig (st : Z) : Z := Z.land st 1.
Definition kernel_state (st : Z) : M migw unit :=
  w ← getM; if mg_elevated w then modifyM (note (KernelState (sym_elev st) (sym_mig st))) else faultM.

Definition count_step (limit : Z) : M migw unit :=
  match busy_work limit with Some c => modifyM (note (Counted c)) | None => nofuelM end.

Definition work (m : mode) (ok_w ok_r : bool) : M migw unit :=
  match m with
  | MODE_SLEEP => modifyM (note Slept)
  | MODE_BUSY => count_step LIMIT
  | MODE_IO => io_work ok_w ok_r
  end.

(** The loop from iteration [i] on. *)
Fixpoint iterate (n i : nat) (m : mode) (ok : nat → iteration) : M migw unit :=
  match n with
  | O => mret tt
  | S n =>
      _ ← kernel_state (symbi_state (ok i));
      _ ← work m (opens_w (ok i)) (opens_r (ok i));
      iterate n (S i) m ok
  end.

Definition main (arg : option string) (ok : nat → iteration) : M migw Z :=
  let m := get_mode arg in
  _ ← modifyM (set_elev true);
  _ ← iterate 100 0 m ok;
  _ ← modifyM (set_elev false);
  _ ← (if decide (m = MODE_IO) then modifyM (set_file false) else mret tt);
  mret 0.

(** ** The computation counts primes *)
#[export] Instance prime_decision n : Decision (prime n) := prime_dec n.
Definition primes_below (limit : Z) : list Z := filter prime (seqZ 2 (limit - 2)).

Lemma prime_no_divisor num i :
  2 <= num → 2 <= i → num < i * i → (∀ d, 2 <= d < i → ¬ (d | num)) → prime num.
Proof.
  intros Hn Hi Hsq Hd. apply prime_alt. split; [lia|]. intros n Hr [q Hq].
  destruct (decide (n < i)) as [Hlt|Hge]; [apply (Hd n); [lia|by exists q]|].
  apply (Hd q); [nia|]. exists n. lia.
Qed.

Lemma is_prime_loop_spec fuel num i :
  2 <= num < 2 ^ 32 → 2 <= i <= 2 ^ 16 → (∀ d, 2 <= d < i → ¬ (d | num)) →
  num < (i + Z.of_nat fuel - 1) * (i + Z.of_nat fuel - 1) → (0 < fuel)%nat →
  is_prime_loop fuel num i = Some (bool_decide (prime num)).
Proof.
  revert i. induction fuel as [|fuel IH]; intros i Hn Hi Hd Hf H0; [lia|]. cbn [is_prime_loop].
  unfold u64. rewrite Z.mod_small by nia. destruct (Z.leb_spec (i * i) num) as [Hle|Hgt].
  2:{ rewrite bool_decide_eq_true_2; [done|]. apply (prime_no_divisor num i); [lia|lia|lia|done]. }
  destruct (Z.eqb_spec (num mod i) 0) as [E|E].
  - rewrite bool_decide_eq_false_2; [done|]. intros [_ Hp]%prime_alt.
    apply (Hp i); [nia|]. apply Z.mod_divide; [lia|done].
  - rewrite Z.mod_small by nia. apply IH; [done|nia| |lia|nia].
    intros d Hdr. destruct (decide (d = i)) as [->|]; [|apply Hd; lia].
    intros Hdiv%Z.mod_divide; lia.
Qed.

Lemma count_primes_spec n num count :
  2 <= num → num + Z.of_nat n <= LIMIT → 0 <= count <= num →
  count_primes n num count = Some (count + Z.of_nat (length (filter prime (seqZ num (Z.of_nat n))))).
Proof.
  revert num count. induction n as [|n IH]; intros num count Hn Hl Hc; unfold LIMIT in *.
  { cbn [count_primes]. rewrite seqZ_nil by lia. f_equal. cbn. lia. }
  cbn [count_primes].
  rewrite is_prime_loop_spec;
    [|lia|lia|intros d Hd; lia|change (Z.of_nat root_fuel) with 3162; lia|unfold root_fuel; lia].
  cbn [mbind option_bind]. rewrite seqZ_cons, filter_cons by lia.
  replace (Z.pred (Z.of_nat (S n))) with (Z.of_nat n) by lia.
  unfold u64. rewrite !Z.mod_small by lia.
  case_bool_decide as Hp; [rewrite decide_True by done|rewrite decide_False by done]; rewrite IH by lia;
    f_equal; cbn [length]; change (Z.succ num) with (num + 1); lia.
Qed.

Lemma busy_work_spec limit :
  2 <= limit <= LIMIT → busy_work limit = Some (Z.of_nat (length (primes_below limit))).
Proof.
  intros H. unfold busy_work, primes_below. rewrite count_primes_spec by lia. rewrite Z2Nat.id by lia. done.
Qed.

(** ** The program *)

(** Whether the file is there after the first [n] iterations. *)
Definition file_after (m : mode) (file : bool) (ok : nat → iteration) (n : nat) : bool :=
  match m with MODE_IO => file || existsb (λ j, opens_w (ok j)) (seq 0 n) | _ => file end.
Definition work_event (m : mode) (file : bool) (ok : nat → iteration) (i : nat) : event :=
  match m with
  | MODE_SLEEP => Slept
  | MODE_BUSY => Counted (Z.of_nat (length (primes_below LIMIT)))
  | MODE_IO => Io (opens_w (ok i)) (opens_r (ok i) && file_after m file ok (S i))
  end.
Definition trace (m : mode) (file : bool) (ok : nat → iteration) (i n : nat) : list event :=
  seq i n ≫= λ i, [KernelState (sym_elev (symbi_state (ok i))) (sym_mig (symbi_state (ok i))); work_event m file ok i].

Lemma io_work_run a b w :
  io_work a b w = Done tt (note (Io a (b && (mg_file w || a))) (set_file (mg_file w || a) w)).
Proof.
  assert (∀ f : gset Z, ({[lowest_fd f]} ∪ f) ∖ {[lowest_fd f]} = f) as Hgone.
  { intros f. pose proof (proj1 (lowest_fd_spec f)). set_solver. }
  unfold io_work, mbind, M_bind, modifyM, getsM, getM, mret, M_ret, note, set_file, set_fds.
  destruct w as [e f d l], a, b, f; cbn; by rewrite ?Hgone.
Qed.

Lemma work_run m file ok i w :
  mg_file w = file_after m file ok i →
  work m (opens_w (ok i)) (opens_r (ok i)) w =
    Done tt (note (work_event m file ok i) (set_file (file_after m file ok (S i)) w)).
Proof.
  intros Hf. destruct m; cbn [work work_event file_after] in *.
  - rewrite <- Hf. by destruct w.
  - unfold count_step. rewrite busy_work_spec by (unfold LIMIT; lia). rewrite <- Hf. by destruct w.
  - rewrite io_work_run, Hf, seq_S, existsb_app. cbn. by rewrite orb_false_r, orb_assoc.
Qed.

Lemma iterate_run n i m file ok w :
  mg_elevated w = true → mg_file w = file_after m file ok i →
  iterate n i m ok w =
    Done tt (Migw true (file_after m file ok (i + n)) (mg_fds w) (mg_log w ++ trace m file ok i n)).
Proof.
  revert i w. induction n as [|n IH]; intros i w He Hf.
  - cbn. rewrite app_nil_r, Nat.add_0_r, <- Hf, <- He. by destruct w.
  - cbn [iterate]. erewrite bind_done.
    2:{ unfold kernel_state. step. by rewrite He. }
    erewrite bind_done by (apply (work_run m file); done).
    rewrite IH by done. cbn. unfold trace. rewrite <- !app_assoc. by rewrite Nat.add_succ_r.
Qed.

Lemma main_run arg ok w :
  main arg ok w = Done 0 (Migw false (if decide (get_mode arg = MODE_IO) then false else mg_file w)
    (mg_fds w) (mg_log w ++ trace (get_mode arg) (mg_file w) ok 0 100)).
Proof.
  unfold main. set (m := get_mode arg). step.
  erewrite bind_done.
  2:{ apply (iterate_run 100 0 m (mg_file w)); [done|]. cbn. destruct m; try done. cbn. by rewrite orb_false_r. }
  step. destruct m; reflexivity.
Qed.
