(* ===== verification/SigLoad.v ===== *)
(** * The signal test ([src/tests/signals/load_mod.c], [ifunc_elevate.c])

    The program copies the kernel module embedded in it to kernel memory in chunks,
    has the kernel load it, resolves two functions of it and waits for a signal whose
    handler reads kernel memory. Kernel functions and kernel memory are for an
    elevated thread; elsewhere they are a fault. Kernel allocations are cells of a
    heap, bytes that were never written are [None], and freeing what is not allocated
    is a fault. What the allocator, the copies, the loader and the symbol lookup
    answer is data. *)
From stdpp Require Import pretty.
From S2P Require Import Prelude.

Open Scope Z_scope.

Definition ENOMEM : Z := 12.
Definition EFAULT : Z := 14.
Definition COPY_CHUNK_SIZE : Z := 16 * 2 ^ 12.

(** [struct load_info] as far as the program uses it, or a buffer. *)
Inductive cell := CInfo (hdr len : Z) | CBuf (bytes : list (option Z)).

Record sgw := Sgw {
  sg_heap : gmap Z cell;
  sg_next : Z;                                        (* the next allocation *)
  sg_elevated : bool;
  module_loaded : bool;
  sig_received : bool;
  sg_modules : list (list (option Z) * string);       (* what the kernel was given to load *)
}.
Definition set_heap (f : gmap Z cell → gmap Z cell) (w : sgw) : sgw :=
  Sgw (f (sg_heap w)) (sg_next w) (sg_elevated w) (module_loaded w) (sig_received w) (sg_modules w).
Definition set_elevated (b : bool) (w : sgw) : sgw :=
  Sgw (sg_heap w) (sg_next w) b (module_loaded w) (sig_received w) (sg_modules w).
Definition set_loaded (w : sgw) : sgw :=
  Sgw (sg_heap w) (sg_next w) (sg_elevated w) true (sig_received w) (sg_modules w).
Definition set_received (w : sgw) : sgw :=
  Sgw (sg_heap w) (sg_next w) (sg_elevated w) (module_loaded w) true (sg_modules w).

(** *** The kernel *)
Definition need_elevated : M sgw unit := w ← getM; if sg_elevated w then mret tt else faultM.

Definition alloc (c : cell) : M sgw Z := λ w,
  Done (sg_next w) (Sgw (<[sg_next w := c]> (sg_heap w)) (sg_next w + 1) (sg_elevated w)
                      (module_loaded w) (sig_received w) (sg_modules w)).
Definition vmalloc (ok : bool) (c : cell) : M sgw Z :=
  _ ← need_elevated; if ok then alloc c else mret 0.

Definition vfree (p : Z) : M sgw unit :=
  _ ← need_elevated;
  if p =? 0 then mret tt
  else w ← getM; _ ← derefM (sg_heap w !! p); modifyM (set_heap (delete p)).

Definition load_buf (p : Z) : M sgw (list (option Z)) :=
  w ← getM; match sg_heap w !! p with Some (CBuf b) => mret b | _ => faultM end.
Definition load_infoM (p : Z) : M sgw (Z * Z) :=
  w ← getM; match sg_heap w !! p with Some (CInfo h l) => mret (h, l) | _ => faultM end.
Definition store (p : Z) (c : cell) : M sgw unit := modifyM (set_heap (<[p := c]>)).

(** The bytes from [off] on are replaced. *)
Definition overwrite (b : list (option Z)) (off : nat) (l : list (option Z)) : list (option Z) :=
  take off b ++ l ++ drop (off + length l) b.

(** [_copy_from_user(dst, usrc, n)], both pointers at the same offset: a failed copy
    leaves the chunk in an unknown state. *)
Definition _copy_from_user (p : Z) (umod : list Z) (off n : Z) (ok : bool) : M sgw bool :=
  _ ← need_elevated;
  b ← load_buf p;
  let o := Z.to_nat off in
  let k := Z.to_nat n in
  if (o + k <=? length b)%nat && (o + k <=? length umod)%nat then
    _ ← store p (CBuf (overwrite b o (if ok then Some <$> take k (drop o umod) else replicate k None)));
    mret ok
  else faultM.

(** [load_module] takes the copy over and frees it. *)
Definition load_module (info : Z) (uargs : string) (ret : Z) : M sgw Z :=
  _ ← need_elevated;
  i ← load_infoM info;
  b ← load_buf i.1;
  _ ← modifyM (λ w, Sgw (delete i.1 (sg_heap w)) (sg_next w) (sg_elevated w) (module_loaded w)
                     (sig_received w) (sg_modules w ++ [(b, uargs)]));
  mret ret.

Record answers := Answers {
  a_info : bool;              (* the allocations *)
  a_hdr : bool;
  a_copy : nat → bool;        (* the copies in order *)
  a_pid : Z;
  a_load : Z;                 (* what load_module returns *)
  a_lookup : string → Z;
}.

(** *** [load_mod.c] *)

(** The loop of [copy_chunked_from_user], from offset [off] on. *)
Fixpoint copy_loop (fuel : nat) (p : Z) (umod : list Z) (off len : Z) (k : nat) (ok : nat → bool) : M sgw Z :=
  match fuel with
  | O => nofuelM
  | S fuel =>
      let n := if len <? COPY_CHUNK_SIZE then len else COPY_CHUNK_SIZE in
      r ← _copy_from_user p umod off n (ok k);
      if negb r then mret (- EFAULT)
      else
        let len := u64 (len - n) in
        if len =? 0 then mret 0 else copy_loop fuel p umod (off + n) len (S k) ok
  end.
Definition copy_chunked_from_user (p : Z) (umod : list Z) (len : Z) (ok : nat → bool) : M sgw Z :=
  copy_loop (S (Z.to_nat (len / COPY_CHUNK_SIZE))) p umod 0 len 0 ok.

Definition copy_module_from_user (x : answers) (umod : list Z) (len info : Z) : M sgw Z :=
  hdr ← vmalloc (a_hdr x) (CBuf (replicate (Z.to_nat len) None));
  _ ← load_infoM info;
  _ ← store info (CInfo hdr len);
  if hdr =? 0 then mret (- ENOMEM) else
  r ← copy_chunked_from_user hdr umod len (a_copy x);
  let err := if negb (r =? 0) then - EFAULT else 0 in
  _ ← (if negb (err =? 0) then vfree hdr else mret tt);
  mret err.

(** [snprintf(argbuf, sizeof(argbuf), "name=Hansi arg_pid=%d", pid)] *)
Definition module_args (pid : Z) : string := ("name=Hansi arg_pid=" +:+ pretty pid)%string.
Definition ARGBUF_SIZE : Z := 64.

Definition load_included_module (x : answers) (umod : list Z) : M sgw Z :=
  let size := Z.of_nat (length umod) in
  info ← vmalloc (a_info x) (CInfo 0 0);
  if info =? 0 then mret 1 else
  err ← copy_module_from_user x umod size info;
  if negb (err =? 0) then i ← load_infoM info; _ ← vfree i.1; mret 1 else
  let an := Z.of_nat (String.length (module_args (a_pid x))) in
  if ARGBUF_SIZE <=? an then i ← load_infoM info; _ ← vfree i.1; mret 1 else
  load_module info (module_args (a_pid x)) (a_load x).

(** *** [ifunc_elevate.c] *)
Definition base_resolver (x : answers) (umod : list Z) (symbol_name : string) : M sgw Z :=
  _ ← modifyM (set_elevated true);
  w ← getM;
  _ ← (if module_loaded w then mret tt
       else
         rc ← load_included_module x umod;
         if negb (rc =? 0) then _ ← modifyM (set_elevated false); exitM 1
         else modifyM set_loaded);
  _ ← need_elevated;
  let addr := a_lookup x symbol_name in
  _ ← modifyM (set_elevated false);
  if addr =? 0 then exitM 1 else mret addr.

(** The handler; [kptr] is the pointer that comes with the signal. *)
Definition sigusr1_handler (kptr : Z) : M sgw unit :=
  if kptr =? 0 then mret tt else
  _ ← modifyM (set_elevated true);
  _ ← need_elevated;
  _ ← modifyM (set_elevated false);
  modifyM set_received.

(** A point at which the signals [ks] are delivered. *)
Fixpoint signals (ks : list Z) : M sgw unit :=
  match ks with [] => mret tt | k :: ks => _ ← sigusr1_handler k; signals ks end.

(** A call of a function of the module. *)
Definition kernel_call : M sgw unit := need_elevated.

(** [strcpy_generic]: the characters up to the terminator; [None] is an access outside
    a buffer. *)
Fixpoint strcpy_generic (dest src : list Z) : option (list Z) :=
  match dest, src with
  | _ :: dest, c :: src => if c =? 0 then Some (0 :: dest) else (c ::.) <$> strcpy_generic dest src
  | _, _ => None
  end.

(** [strcpy_resolver]: the optimised version is the C library's. *)
Inductive strcpy_version := strcpy_optimized | strcpy_generic_version.
Definition strcpy_resolver (get_cpuid : option Z) : strcpy_version :=
  match get_cpuid with
  | Some edx => if negb (Z.land edx (Z.shiftl 1 26) =? 0) then strcpy_optimized else strcpy_generic_version
  | None => strcpy_generic_version
  end.

(** The loop at the end. *)
Definition await_signal : M sgw Z := w ← getM; if sig_received w then mret 0 else nofuelM.

(** [main] once the handler is installed. [ks i] are the signals delivered at point
    [i], the last ones while it waits. *)
Definition main (ks : nat → list Z) : M sgw Z :=
  _ ← signals (ks 0%nat);
  _ ← modifyM (set_elevated true);
  _ ← signals (ks 1%nat);
  _ ← kernel_call;
  _ ← signals (ks 2%nat);
  _ ← kernel_call;
  _ ← signals (ks 3%nat);
  _ ← modifyM (set_elevated false);
  _ ← signals (ks 4%nat);
  await_signal.

(** ** Decimal numbers *)
Lemma pretty_N_go_length k x s :
  (x < 10 ^ N.of_nat k)%N → (String.length (pretty_N_go x s) <= k + String.length s)%nat.
Proof.
  revert x s. induction k as [|k IH]; intros x s Hx.
  - assert (x = 0)%N as -> by (cbn in Hx; lia). by rewrite pretty_N_go_0.
  - destruct (decide (x = 0)%N) as [->|Hne]; [rewrite pretty_N_go_0; lia|].
    rewrite pretty_N_go_step by lia. etrans; [apply IH|cbn; lia].
    apply N.Div0.div_lt_upper_bound. rewrite Nat2N.inj_succ, N.pow_succ_r' in Hx. lia.
Qed.

Lemma module_args_fit pid : - 2 ^ 31 <= pid < 2 ^ 31 → Z.of_nat (String.length (module_args pid)) < ARGBUF_SIZE.
Proof.
  intros Hp. unfold module_args, ARGBUF_SIZE.
  change (String.length _) with (19 + String.length (pretty pid))%nat.
  assert (∀ p, Z.pos p <= 2 ^ 31 → (String.length (pretty p) <= 11)%nat) as Hn.
  { intros p Hb. change (pretty p) with (pretty (N.pos p)). unfold pretty, pretty_N.
    case_decide; [cbn; lia|]. pose proof (pretty_N_go_length 10 (N.pos p) "") as Hl.
    change (10 ^ N.of_nat 10)%N with 10000000000%N in Hl. cbn [String.length] in Hl. lia. }
  assert (String.length (pretty pid) <= 12)%nat; [|lia].
  destruct pid as [|p|p]; [cbn; lia|pose proof (Hn p); unfold pretty, pretty_Z; lia|].
  change (String.length (pretty (Z.neg p))) with (S (String.length (pretty p))). pose proof (Hn p). lia.
Qed.

(** ** Copying in chunks *)

(** How many copies [len] bytes take; there is always one. *)
Definition copies (len : Z) : nat := S (Z.to_nat ((len - 1) / COPY_CHUNK_SIZE)).
Definition all_ok (ok : nat → bool) (k n : nat) : bool := forallb ok (seq k n).

Lemma copy_run p umod off n ok w b :
  sg_elevated w = true → sg_heap w !! p = Some (CBuf b) → length b = length umod →
  0 <= off → 0 <= n → off + n <= Z.of_nat (length umod) →
  _copy_from_user p umod off n ok w =
    Done ok (set_heap (<[p := CBuf (overwrite b (Z.to_nat off)
      (if ok then Some <$> take (Z.to_nat n) (drop (Z.to_nat off) umod) else replicate (Z.to_nat n) None))]>) w).
Proof.
  intros He Hb Hl Ho Hn Hle. unfold _copy_from_user, load_buf.
  erewrite bind_done by (unfold need_elevated; step; by rewrite He).
  erewrite bind_done by (step; by rewrite Hb).
  rewrite Hl, !(proj2 (Nat.leb_le _ _)) by lia. done.
Qed.

Lemma length_overwrite b o l : (o + length l <= length b)%nat → length (overwrite b o l) = length b.
Proof. intros H. unfold overwrite. rewrite !length_app, length_take, length_drop. lia. Qed.

Lemma overwrite_prefix b (umod : list Z) o k :
  take o b = Some <$> take o umod → (o + k <= length umod)%nat → length b = length umod →
  take (o + k) (overwrite b o (Some <$> take k (drop o umod))) = Some <$> take (o + k) umod.
Proof.
  intros Hp Hk Hl. unfold overwrite. rewrite Hp.
  assert (length (Some <$> take o umod) = o) as L1 by (rewrite length_fmap, length_take; lia).
  assert (length (Some <$> take k (drop o umod)) = k) as L2 by (rewrite length_fmap, length_take, length_drop; lia).
  rewrite (assoc_L (++)), take_app_length' by (rewrite length_app, L1, L2; lia).
  rewrite <- fmap_app. f_equal. by rewrite take_take_drop.
Qed.

Lemma set_heap_twice p c1 c2 w : set_heap (<[p := c2]>) (set_heap (<[p := c1]>) w) = set_heap (<[p := c2]>) w.
Proof. unfold set_heap. cbn. by rewrite insert_insert_eq. Qed.

Lemma copies_step len :
  COPY_CHUNK_SIZE < len → copies len = S (copies (len - COPY_CHUNK_SIZE)).
Proof.
  unfold copies, COPY_CHUNK_SIZE. intros H. f_equal.
  replace (len - 16 * 2 ^ 12 - 1) with ((len - 1) + (-1) * (16 * 2 ^ 12)) by lia.
  rewrite Z.div_add by lia. assert (1 <= (len - 1) / (16 * 2 ^ 12)) by (apply Z.div_le_lower_bound; lia). lia.
Qed.

Lemma copies_one len : 0 <= len <= COPY_CHUNK_SIZE → copies len = 1%nat.
Proof.
  unfold copies, COPY_CHUNK_SIZE. intros H. f_equal.
  destruct (decide (len = 0)) as [->|]; [done|]. rewrite Z.div_small by lia. done.
Qed.

Lemma copy_loop_spec fuel p umod off len k ok w b :
  sg_elevated w = true → sg_heap w !! p = Some (CBuf b) → length b = length umod →
  0 <= off → 0 <= len < 2 ^ 64 → off + len = Z.of_nat (length umod) →
  take (Z.to_nat off) b = Some <$> take (Z.to_nat off) umod → len / COPY_CHUNK_SIZE < Z.of_nat fuel →
  ∃ b', copy_loop fuel p umod off len k ok w =
      Done (if all_ok ok k (copies len) then 0 else - EFAULT) (set_heap (<[p := CBuf b']>) w) ∧
    (all_ok ok k (copies len) = true → b' = Some <$> umod).
Proof.
  revert off len k w b. induction fuel as [|fuel IH]; intros off len k w b He Hb Hl Ho Hlen Hoff Hp Hf.
  { pose proof (Z.div_pos len COPY_CHUNK_SIZE ltac:(lia) ltac:(done)). lia. }
  cbn [copy_loop]. set (n := if len <? COPY_CHUNK_SIZE then len else COPY_CHUNK_SIZE).
  assert (0 <= n <= len ∧ (n = len ∨ n = COPY_CHUNK_SIZE ∧ n < len ∨ n = len)) as [Hn Hn'].
  { unfold n, COPY_CHUNK_SIZE. destruct (Z.ltb_spec len (16 * 2 ^ 12)); lia. }
  step_by (copy_run p umod off n (ok k) w b He Hb Hl Ho (proj1 Hn) ltac:(lia)).
  assert (∃ c, copies len = S c ∧ (n = len → c = 0%nat) ∧ (n < len → c = copies (len - n))) as (c & Hc & Hc0 & Hc1).
  { destruct (decide (n = len)) as [E|E].
    - exists 0%nat. rewrite copies_one; [split_and!; lia|]. unfold n, COPY_CHUNK_SIZE in *.
      destruct (Z.ltb_spec len (16 * 2 ^ 12)); lia.
    - assert (n = COPY_CHUNK_SIZE) as En by lia. exists (copies (len - n)). rewrite En.
      split_and!; [apply copies_step; lia|lia|done]. }
  rewrite Hc. unfold all_ok. cbn [seq forallb]. fold (all_ok ok (S k) c).
  destruct (ok k); cbn [negb andb]; [|eexists; split; [done|done]].
  unfold u64. rewrite Z.mod_small by lia. destruct (Z.eqb_spec (len - n) 0) as [E|E].
  - rewrite Hc0 by lia. cbn. eexists. split; [done|]. intros _.
    pose proof (overwrite_prefix b umod (Z.to_nat off) (Z.to_nat n) Hp ltac:(lia) Hl) as Ht.
    rewrite !(take_ge _ (Z.to_nat off + Z.to_nat n)) in Ht;
      [done|lia|rewrite length_overwrite; rewrite ?length_fmap, ?length_take, ?length_drop; lia].
  - assert (n = COPY_CHUNK_SIZE) as En by lia. rewrite Hc1 by lia.
    set (b1 := overwrite _ _ _).
    destruct (IH (off + n) (len - n) (S k) (set_heap (<[p := CBuf b1]>) w) b1) as (b' & Hrun & Hb').
    + done.
    + cbn. by rewrite lookup_insert_eq.
    + unfold b1. rewrite length_overwrite; [done|]. rewrite length_fmap, length_take, length_drop. lia.
    + lia.
    + lia.
    + lia.
    + rewrite Z2Nat.inj_add by lia. apply overwrite_prefix; [done|lia|done].
    + rewrite En. replace (len - COPY_CHUNK_SIZE) with (len + (-1) * COPY_CHUNK_SIZE) by lia.
      rewrite Z.div_add by done. lia.
    + rewrite set_heap_twice in Hrun. by exists b'.
Qed.

(** ** Loading *)
Definition fresh (w : sgw) : Prop := 0 < sg_next w ∧ ∀ p, sg_next w <= p → sg_heap w !! p = None.

(** A state in which [n] more allocations have been made. *)
Definition grown (h : gmap Z cell) (n : Z) (ms : list (list (option Z) * string)) (w : sgw) : sgw :=
  Sgw h (sg_next w + n) (sg_elevated w) (module_loaded w) (sig_received w) (sg_modules w ++ ms).

Section loading.
Context (x : answers) (umod : list Z) (w : sgw).
Context (He : sg_elevated w = true) (Hf : fresh w).

Notation n := (sg_next w).
Notation len := (Z.of_nat (length umod)).
Let wi : sgw := grown (<[n := CInfo 0 0]> (sg_heap w)) 1 [] w.
Let wn : sgw := grown (<[n := CInfo 0 len]> (sg_heap w)) 1 [] w.
Let wh (b : list (option Z)) : sgw :=
  grown (<[n + 1 := CBuf b]> (<[n := CInfo (n + 1) len]> (sg_heap w))) 2 [] w.

Lemma need_run s : sg_elevated s = true → need_elevated s = Done tt s.
Proof. intros E. unfold need_elevated. step. by rewrite E. Qed.

Lemma info_run : vmalloc (a_info x) (CInfo 0 0) w = if a_info x then Done n wi else Done 0 w.
Proof using He.
unfold vmalloc. step_by (need_run w He). destruct (a_info x); [|done].
unfold alloc, wi, grown. by rewrite app_nil_r.
Qed.

Lemma next_ne : n ≠ 0 ∧ n + 1 ≠ 0.
Proof using Hf. destruct Hf. lia. Qed.

Lemma copy_module_run :
len < 2 ^ 64 →
copy_module_from_user x umod len n wi =
  if a_hdr x then
    if all_ok (a_copy x) 0 (copies len) then Done 0 (wh (Some <$> umod))
    else Done (- EFAULT) (grown (<[n := CInfo (n + 1) len]> (sg_heap w)) 2 [] w)
  else Done (- ENOMEM) wn.
Proof using He Hf.
intros Hlen. destruct next_ne as [Hn Hn1]. unfold copy_module_from_user, vmalloc.
destruct (a_hdr x).
2:{ erewrite bind_done by (step_by (need_run wi He); reflexivity).
    erewrite bind_done by (unfold load_infoM; step; cbn; by rewrite lookup_insert_eq).
    step. unfold wn, wi, set_heap, grown, mret, M_ret. cbn. by rewrite insert_insert_eq. }
erewrite bind_done by (step_by (need_run wi He); reflexivity).
erewrite bind_done.
2:{ unfold load_infoM. step. cbn. rewrite lookup_insert_ne by lia. by rewrite lookup_insert_eq. }
step. set (w1 := set_heap _ _).
assert (w1 = wh (replicate (Z.to_nat len) None)) as E1.
{ unfold w1, wh, set_heap, grown, wi. cbn. f_equal; [|lia].
  rewrite insert_insert_ne by lia. by rewrite insert_insert_eq. }
cbn [sg_next wi grown]. rewrite (proj2 (Z.eqb_neq _ _) Hn1).
destruct (copy_loop_spec (S (Z.to_nat (len / COPY_CHUNK_SIZE))) (n + 1) umod 0 len 0 (a_copy x)
  w1 (replicate (Z.to_nat len) None)) as (b' & Hrun & Hb'); try done; try lia.
{ rewrite E1. cbn. by rewrite lookup_insert_eq. }
{ rewrite length_replicate. lia. }
unfold copy_chunked_from_user. step_by Hrun.
assert (set_heap (<[n + 1 := CBuf b']>) w1 = wh b') as E2.
{ rewrite E1. unfold wh, set_heap, grown. cbn. by rewrite insert_insert_eq. }
rewrite E2. destruct (all_ok _ _ _); cbn [negb Z.eqb].
{ step. rewrite Hb' by done. done. }
erewrite bind_done.
2:{ change (negb _) with true. cbn match. unfold vfree. step_by (need_run (wh b') He).
    rewrite (proj2 (Z.eqb_neq _ _) Hn1). step.
    erewrite bind_done by (cbn; rewrite lookup_insert_eq; reflexivity). reflexivity. }
unfold mret, M_ret, wh, set_heap, grown. cbn. rewrite delete_insert_id; [done|].
rewrite lookup_insert_ne by lia. apply Hf. lia.
Qed.

(** Every outcome: the copy is freed twice when it fails. *)
Lemma load_run :
len < 2 ^ 64 → - 2 ^ 31 <= a_pid x < 2 ^ 31 →
load_included_module x umod w =
  if a_info x then
    if a_hdr x then
      if all_ok (a_copy x) 0 (copies len) then
        Done (a_load x) (grown (<[n := CInfo (n + 1) len]> (sg_heap w)) 2
                           [(Some <$> umod, module_args (a_pid x))] w)
      else Fault
    else Done 1 wn
  else Done 1 w.
Proof using He Hf.
intros Hlen Hpid. destruct next_ne as [Hn Hn1]. unfold load_included_module.
pose proof info_run as Hi. destruct (a_info x); step_by Hi; [|done].
rewrite (proj2 (Z.eqb_neq _ _) Hn).
pose proof (copy_module_run Hlen) as Hc. destruct (a_hdr x); [destruct (all_ok _ _ _)|]; step_by Hc.
- cbn [negb Z.eqb]. rewrite (proj2 (Z.leb_gt _ _) (module_args_fit _ Hpid)). unfold load_module.
  step_by (need_run (wh (Some <$> umod)) He).
  erewrite bind_done.
  2:{ unfold load_infoM. step. cbn. rewrite lookup_insert_ne by lia. by rewrite lookup_insert_eq. }
  erewrite bind_done by (unfold load_buf; step; cbn; by rewrite lookup_insert_eq).
  step. unfold mret, M_ret, grown. cbn. do 2 f_equal; [|by rewrite app_nil_r].
  rewrite delete_insert_id; [done|]. rewrite lookup_insert_ne by lia. apply Hf. lia.
- change (negb (- EFAULT =? 0)) with true. cbn match. erewrite bind_done by (unfold load_infoM; step; cbn; by rewrite lookup_insert_eq).
  unfold mbind at 1, M_bind at 1, vfree. step_by (need_run (grown _ _ _ w) He). cbn [fst].
  rewrite (proj2 (Z.eqb_neq _ _) Hn1). step. cbn. rewrite lookup_insert_ne by lia.
  by rewrite (proj2 Hf) by lia.
- change (negb (- ENOMEM =? 0)) with true. cbn match. erewrite bind_done by (unfold load_infoM; step; cbn; by rewrite lookup_insert_eq).
  unfold vfree. erewrite bind_done by (by step_by (need_run wn He)). done.
Qed.
End loading.

(** ** Resolution *)

(** The first resolution loads the module, once; the thread ends lowered. *)
Lemma base_resolver_run x umod w sym :
  fresh w → Z.of_nat (length umod) < 2 ^ 64 → - 2 ^ 31 <= a_pid x < 2 ^ 31 →
  a_info x = true → a_hdr x = true → (∀ k, a_copy x k = true) → a_load x = 0 → a_lookup x sym ≠ 0 →
  ∃ w', base_resolver x umod sym w = Done (a_lookup x sym) w' ∧ sg_elevated w' = false ∧
    module_loaded w' = true ∧ fresh w' ∧
    sg_modules w' = sg_modules w ++
      if module_loaded w then [] else [(Some <$> umod, module_args (a_pid x))].
Proof.
  intros Hf Hlen Hpid Hi Hh Hc Hl Hs. unfold base_resolver. step. step.
  assert (∀ k n, all_ok (a_copy x) k n = true) as Hall.
  { intros k n. revert k. induction n as [|n IH]; intros k; [done|]. unfold all_ok in *. cbn. by rewrite Hc, IH. }
  cbn [module_loaded set_elevated]. destruct (module_loaded w) eqn:El.
  - step. step_by (need_run (set_elevated true w) eq_refl). step.
    rewrite (proj2 (Z.eqb_neq _ _) Hs). eexists. split; [done|]. by split_and!; rewrite ?app_nil_r.
  - pose proof (load_run x umod (set_elevated true w) eq_refl Hf Hlen Hpid) as Hrun.
    rewrite Hi, Hh, Hall, Hl in Hrun.
    erewrite bind_done by (step_by Hrun; reflexivity). erewrite bind_done by (apply need_run; reflexivity). step.
    rewrite (proj2 (Z.eqb_neq _ _) Hs). eexists. split; [done|]. split_and!; [done|done| |done].
    destruct Hf as [H0 Hf]. split; cbn; [lia|]. intros p Hp. rewrite lookup_insert_ne by lia. apply Hf. lia.
Qed.

(** ** The program and its signals *)
Definition relevant (ks : list Z) : bool := existsb (λ k, negb (k =? 0)) ks.

Lemma signals_run ks w :
  signals ks w = Done tt (if relevant ks then set_received (set_elevated false w) else w).
Proof.
  revert w. induction ks as [|k ks IH]; intros w; [done|]. cbn [signals relevant existsb]. fold (relevant ks).
  unfold sigusr1_handler. destruct (Z.eqb_spec k 0) as [->|Hk]; cbn [negb orb]; [step; apply IH|].
  erewrite bind_done.
  2:{ step. step_by (need_run (set_elevated true w) eq_refl). step. reflexivity. }
  rewrite IH. by destruct (relevant ks).
Qed.

(** A signal between raising and lowering the privilege lowers it: the next call into
    the kernel faults. *)
Lemma main_signals ks w :
  main ks w =
    if relevant (ks 1%nat) || relevant (ks 2%nat) then Fault
    else if relevant (ks 0%nat) || relevant (ks 3%nat) || relevant (ks 4%nat) || sig_received w
         then Done 0 (set_received (set_elevated false w)) else NoFuel.
Proof.
  unfold main. step_by (signals_run (ks 0%nat) w). step. step_by (signals_run (ks 1%nat) _).
  unfold kernel_call.
  destruct (relevant (ks 1%nat)); cbn [orb]; [by destruct (relevant (ks 0%nat))|].
  set (w1 := set_elevated true _). assert (sg_elevated w1 = true) as E1 by done.
  step_by (need_run w1 E1). step_by (signals_run (ks 2%nat) _).
  destruct (relevant (ks 2%nat)); cbn [orb]; [done|].
  step_by (need_run w1 E1). step_by (signals_run (ks 3%nat) _). step. step_by (signals_run (ks 4%nat) _). unfold await_signal. step.
  unfold w1. destruct w as [h n e m r l].
  destruct (relevant (ks 0%nat)), (relevant (ks 3%nat)), (relevant (ks 4%nat)), r; done.
Qed.

(** ** The string copy *)
Lemma strcpy_generic_spec dest s rest :
  0 ∉ s → (length s < length dest)%nat →
  strcpy_generic dest (s ++ 0 :: rest) = Some (s ++ 0 :: drop (S (length s)) dest).
Proof.
  revert dest. induction s as [|c s IH]; intros [|d dest] Hs Hl; cbn in Hl; try lia; [done|].
  apply not_elem_of_cons in Hs as [Hc Hs]. cbn [app strcpy_generic]. rewrite (proj2 (Z.eqb_neq c 0)) by done.
  rewrite IH by (done || lia). done.
Qed.
