(* ===== verification/ReadSymTbl.v ===== *)
(** * The symbol listing ([kld/readsymtbl.c])

    A program in the manner of [nm]: it prints a line for every symbol of an ELF
    file, the letter of the line by the section the symbol is defined in. The file
    is an [elf_image] of [KldElf], read through libelf; [None] is undefined behaviour
    on a malformed file. The listing is related to what [kld] itself reads from the
    file. *)
From Stdlib Require Import Ascii.
From S2P Require Import Prelude.
From S2P Require Import KoSpec.
From S2P Require Import KldElf.

Definition SHT_NOBITS : Z := 8.
Definition SHF_WRITE : Z := 1.
Definition SHF_EXECINSTR : Z := 4.
Definition SHN_COMMON : Z := 0xfff2.
Definition STB_LOCAL : Z := 0.
Definition GELF_ST_BIND (info : Z) : Z := Z.shiftr info 4.

(** [tolower] of the letters in use. *)
Definition tolower (c : ascii) : ascii :=
  let n := nat_of_ascii c in
  if (65 <=? n) && (n <=? 90) then ascii_of_nat (n + 32) else c.

(** [elf_getscn]; sections are numbered from 1. *)
Definition elf_getscn (f : elf_image) (i : Z) : option section :=
  if (0 <? i)%Z then e_sections f !! Z.to_nat (i - 1) else None.

Definition has_flag (s : section) (fl : Z) : bool := negb (Z.land (sh_flags s) fl =? 0)%Z.

Definition get_symbol_type (f : elf_image) (sym : gsym) : ascii :=
  if decide (st_shndx sym = SHN_UNDEF) then "U"%char
  else if decide (st_shndx sym = SHN_ABS) then "A"%char
  else if decide (st_shndx sym = SHN_COMMON) then "C"%char
  else
    match elf_getscn f (st_shndx sym) with
    | None => "?"%char
    | Some shdr =>
        let type :=
          if decide (sh_type shdr = SHT_NOBITS) then "B"%char
          else if has_flag shdr SHF_EXECINSTR then "T"%char
          else if has_flag shdr SHF_WRITE then "D"%char
          else if has_flag shdr SHF_ALLOC then "R"%char
          else "N"%char in
        if decide (GELF_ST_BIND (st_info sym) = STB_WEAK)
        then (if decide (st_shndx sym = SHN_UNDEF) then "w"%char else "W"%char)
        else if decide (GELF_ST_BIND (st_info sym) = STB_LOCAL) then tolower type
        else type
    end.

(** A printed line; an undefined symbol has no address. *)
Record symline := SymLine { sl_addr : option Z; sl_type : ascii; sl_name : chars }.

Definition symbol_line (f : elf_image) (s : section) (sym : gsym) : option symline :=
  name ← elf_strptr f (sh_link s) (st_name sym);
  Some (SymLine (if decide (st_shndx sym = SHN_UNDEF) then None else Some (st_value sym))
          (get_symbol_type f sym) name).

(** The loop over the symbols of a section, [count] of them. *)
Fixpoint list_section (f : elf_image) (s : section) (syms : list gsym) (count : nat) {struct count}
  : option (list symline) :=
  match count with
  | 0 => Some []
  | S count =>
      match syms with
      | [] => None
      | sym :: syms =>
          if bool_decide (st_name sym = 0%Z) && bool_decide (st_value sym = 0%Z)
          then list_section f s syms count
          else l ← symbol_line f s sym; ls ← list_section f s syms count; Some (l :: ls)
      end
  end.

Fixpoint list_sections (f : elf_image) (ss : list section) : option (list symline) :=
  match ss with
  | [] => Some []
  | s :: ss =>
      if bool_decide (sh_type s = SHT_SYMTAB) || bool_decide (sh_type s = SHT_DYNSYM) then
        syms ← match sh_data s with Some (DSyms l) => Some l | _ => None end;
        if decide (sh_entsize s = 0) then None
        else ls ← list_section f s syms (sh_size s / sh_entsize s); ls' ← list_sections f ss; Some (ls ++ ls')
      else list_sections f ss
  end.

(** [main]: [file] is what is found under the argument, if it can be opened. *)
Definition readsymtbl_main (argc : Z) (file : option elf_kind) : option (Z * list symline) :=
  if negb (argc =? 2)%Z then Some (1%Z, []) else
  match file with
  | None | Some NotElf | Some OtherKind => Some ((-1)%Z, [])
  | Some (IsElf f) => ls ← list_sections f (e_sections f); Some (0%Z, ls)
  end.

(** ** The listing and the tool read the same symbols *)
Definition entry_key (e : SymbolEntry) : chars * Z := (se_name e, se_addr e).
Definition line_key (l : symline) : chars * Z := (sl_name l, default 0%Z (sl_addr l)).

Lemma vec_push_items {A} k (v v' : vec A) x : vec_push k v x = Some v' → v_items v' = v_items v ++ [x].
Proof. unfold vec_push. destruct (_ <? _); [|done]. by intros [= <-]. Qed.

Lemma list_section_reads f s syms count acc acc' :
  read_section f s syms count acc = Some acc' →
  ∃ ls, list_section f s syms count = Some ls ∧
    entry_key <$> v_items (sa_ents acc') = (entry_key <$> v_items (sa_ents acc)) ++ (line_key <$> ls).
Proof.
  revert syms acc. induction count as [|count IH]; intros syms acc H.
  { injection H as <-. exists []. split; [done|]. cbn. by rewrite app_nil_r. }
  destruct syms as [|sym syms]; [done|]. cbn [read_section list_section] in *.
  destruct (bool_decide _ && bool_decide _); [apply IH; exact H|]. apply bind_Some in H as (e & He & H). apply bind_Some in H as (v & Hv & H).
  apply IH in H as (ls & Hls & Hk). unfold seInit in He. apply bind_Some in He as (name & Hn & [= <-]).
  eexists (SymLine _ _ name :: ls). unfold symbol_line. rewrite Hn. cbn. rewrite Hls. split; [done|].
  rewrite Hk. cbn [sa_ents]. rewrite (vec_push_items _ _ _ _ Hv), fmap_app, <- app_assoc. cbn. do 2 f_equal.
  unfold entry_key, line_key. cbn. by case_decide.
Qed.

Lemma list_sections_reads f ss acc acc' :
  read_sections f ss acc = Some acc' →
  ∃ ls, list_sections f ss = Some ls ∧
    entry_key <$> v_items (sa_ents acc') = (entry_key <$> v_items (sa_ents acc)) ++ (line_key <$> ls).
Proof.
  revert acc. induction ss as [|s ss IH]; intros acc H.
  { injection H as <-. exists []. split; [done|]. cbn. by rewrite app_nil_r. }
  cbn [read_sections list_sections] in *. destruct (bool_decide _ || bool_decide _); [|apply IH; exact H].
  apply bind_Some in H as (syms & Hs & H). rewrite Hs. cbn [mbind option_bind]. case_decide; [done|].
  apply bind_Some in H as (a1 & H1 & H2). apply list_section_reads in H1 as (ls & Hls & Hk).
  apply IH in H2 as (ls' & Hls' & Hk'). exists (ls ++ ls'). rewrite Hls. cbn. rewrite Hls'. split; [done|].
  by rewrite Hk', Hk, fmap_app, app_assoc.
Qed.

(** Every file the tool can read is listed, and the lines are the entries the tool
    reads, in order and with the same addresses. *)
Theorem listing_agrees f ents n :
  elf_read_syms (IsElf f) = Some (0%Z, ents, n) →
  ∃ ls, readsymtbl_main 2 (Some (IsElf f)) = Some (0%Z, ls) ∧ entry_key <$> ents = line_key <$> ls.
Proof.
  unfold elf_read_syms. intros H. apply bind_Some in H as (acc & Hr & H). injection H as <- _.
  apply list_sections_reads in Hr as (ls & Hls & Hk). exists ls. unfold readsymtbl_main. cbn. by rewrite Hls.
Qed.

(** The letter of an undefined weak symbol is never printed: the test for undefined
    symbols comes first. *)
Theorem undefined_weak_is_U f sym :
  get_symbol_type f sym ≠ "w"%char ∧ (st_shndx sym = SHN_UNDEF → get_symbol_type f sym = "U"%char).
Proof.
  split; [|intros E; unfold get_symbol_type; by rewrite decide_True].
  unfold get_symbol_type. do 3 (case_decide; [done|]). destruct (elf_getscn f (st_shndx sym)) as [shdr|]; [|done].
  destruct (decide (sh_type shdr = SHT_NOBITS)), (has_flag shdr SHF_EXECINSTR), (has_flag shdr SHF_WRITE),
    (has_flag shdr SHF_ALLOC); by repeat case_decide.
Qed.
