(* ===== verification/PageSwap.v ===== *)
(** * Exchanging two pages ([swap_phys_pages/kmod/greeter.c], [main.c])

    The kernel function exchanges the page table entries of two virtual pages and
    flushes their translations. A virtual page is named by its number; the walk
    through the upper levels is the kernel's and leads to the entry of that page. The
    processor may have a translation cached, and uses it until it is flushed, whatever
    the page table says by then. *)
From S2P Require Import Prelude.

Open Scope Z_scope.

Definition PAGE_SIZE : Z := 4096.

(** [ptes]: the last level entries; [tlb]: cached entries; [phys]: physical memory. *)
Record pgw := Pgw { ptes : gmap Z Z; tlb : gmap Z Z; phys : Z → Z; pg_elevated : bool }.
Definition set_ptes (f : gmap Z Z → gmap Z Z) (w : pgw) : pgw := Pgw (f (ptes w)) (tlb w) (phys w) (pg_elevated w).
Definition set_tlb (f : gmap Z Z → gmap Z Z) (w : pgw) : pgw := Pgw (ptes w) (f (tlb w)) (phys w) (pg_elevated w).
Definition set_elevated (b : bool) (w : pgw) : pgw := Pgw (ptes w) (tlb w) (phys w) b.

Definition page_of (v : Z) : Z := v / PAGE_SIZE.

(** The byte an access to [v] reads, through the cache when it has the page; the
    frame is in the bits above the offset and below the software bits. *)
Definition entry_of (w : pgw) (p : Z) : option Z :=
  match tlb w !! p with Some e => Some e | None => ptes w !! p end.
Definition frame_of (e : Z) : Z := Z.land e 0xffffffffff000.
Definition view (w : pgw) (v : Z) : option Z :=
  e ← entry_of w (page_of v); Some (phys w (frame_of e + v mod PAGE_SIZE)).

(** [pgd_offset] to [pte_offset_kernel]: the entry of the page. *)
Definition pte_at (v : Z) : M pgw Z :=
  w ← getM; if pg_elevated w then derefM (ptes w !! page_of v) else faultM.
Definition invlpg (v : Z) : M pgw unit := modifyM (set_tlb (delete (page_of v))).

Definition swap_phys_pages (vaddr1 vaddr2 : Z) : M pgw unit :=
  pte1 ← pte_at vaddr1;
  pte2 ← pte_at vaddr2;
  _ ← modifyM (set_ptes (<[page_of vaddr1 := pte2]>));
  _ ← modifyM (set_ptes (<[page_of vaddr2 := pte1]>));
  _ ← invlpg vaddr1;
  invlpg vaddr2.

(** A string of at most a page, as [printf] reads it. *)
Fixpoint string_at (n : nat) (w : pgw) (v : Z) : list (option Z) :=
  match n with
  | O => []
  | S n => match view w v with
           | Some 0 => []
           | b => b :: string_at n w (v + 1)
           end
  end.

(** [main] from the first print on: what it prints of the two buffers before and
    after. *)
Definition swap_main (str1 str2 : Z)
  : M pgw (list (option Z) * list (option Z) * (list (option Z) * list (option Z))) :=
  w ← getM;
  let n := Z.to_nat PAGE_SIZE in
  _ ← modifyM (set_elevated true);
  _ ← swap_phys_pages str1 str2;
  w' ← getM;
  _ ← modifyM (set_elevated false);
  mret (string_at n w str1, string_at n w str2, (string_at n w' str1, string_at n w' str2)).

(** ** What the exchange does *)

(** Cached translations are those of the page table. *)
Definition coherent (w : pgw) : Prop := ∀ p e, tlb w !! p = Some e → ptes w !! p = Some e.

(** The address with the pages of [a] and [b] exchanged. *)
Definition exchange (a b v : Z) : Z :=
  if decide (page_of v = page_of a) then page_of b * PAGE_SIZE + v mod PAGE_SIZE
  else if decide (page_of v = page_of b) then page_of a * PAGE_SIZE + v mod PAGE_SIZE
  else v.

Lemma coherent_entry w p : coherent w → entry_of w p = ptes w !! p.
Proof. intros H. unfold entry_of. destruct (tlb w !! p) as [e|] eqn:E; [|done]. symmetry. by apply H. Qed.

Lemma page_of_at p v : page_of (p * PAGE_SIZE + v mod PAGE_SIZE) = p ∧ (p * PAGE_SIZE + v mod PAGE_SIZE) mod PAGE_SIZE = v mod PAGE_SIZE.
Proof.
  unfold page_of, PAGE_SIZE. pose proof (Z.mod_pos_bound v 4096 ltac:(lia)). split.
  - rewrite Z.div_add_l by lia. rewrite Z.div_small by lia. lia.
  - rewrite Z.add_comm, Z.mod_add by lia. by rewrite Z.mod_mod.
Qed.

Lemma swap_run a b w e1 e2 :
  pg_elevated w = true → ptes w !! page_of a = Some e1 → ptes w !! page_of b = Some e2 →
  swap_phys_pages a b w =
    Done tt (Pgw (<[page_of b := e1]> (<[page_of a := e2]> (ptes w)))
               (delete (page_of b) (delete (page_of a) (tlb w))) (phys w) (pg_elevated w)).
Proof.
  intros He H1 H2. unfold swap_phys_pages.
  assert (∀ v e, ptes w !! page_of v = Some e → pte_at v w = Done e w) as Hp.
  { intros v e H. unfold pte_at. step. by rewrite He, H. }
  step_by (Hp a e1 H1). by step_by (Hp b e2 H2).
Qed.

Lemma swap_spec a b w :
  pg_elevated w = true → coherent w → is_Some (ptes w !! page_of a) → is_Some (ptes w !! page_of b) →
  ∃ w', swap_phys_pages a b w = Done tt w' ∧ coherent w' ∧ pg_elevated w' = true ∧
    ∀ v, view w' v = view w (exchange a b v).
Proof.
  intros He Hc [e1 H1] [e2 H2]. eexists. split; [by apply swap_run|].
  match goal with |- coherent ?x ∧ _ => set (w' := x) end.
  assert (coherent w') as Hc'.
  { intros p e Hp. cbn in *. apply lookup_delete_Some in Hp as [Hb Hp]. apply lookup_delete_Some in Hp as [Ha Hp].
    rewrite !lookup_insert_ne by done. by apply Hc. }
  split_and!; [done|done|]. intros v. unfold view. rewrite !coherent_entry by done. unfold exchange.
  destruct (decide (page_of v = page_of a)) as [Ea|Ea]; [|destruct (decide (page_of v = page_of b)) as [Eb|Eb]].
  - destruct (page_of_at (page_of b) v) as [-> ->]. rewrite H2, Ea. cbn.
    destruct (decide (page_of a = page_of b)) as [E|E].
    + rewrite E, lookup_insert_eq. rewrite E in H1. simplify_eq. done.
    + rewrite lookup_insert_ne by done. by rewrite lookup_insert_eq.
  - destruct (page_of_at (page_of a) v) as [-> ->]. rewrite H1, Eb. cbn. by rewrite lookup_insert_eq.
  - cbn. by rewrite !lookup_insert_ne by congruence.
Qed.

(** Exchanging twice gives back the memory as it was. *)
Lemma exchange_twice a b v : exchange a b (exchange a b v) = v.
Proof.
  unfold exchange at 2. pose proof (Z.div_mod v PAGE_SIZE ltac:(done)).
  destruct (decide (page_of v = page_of a)) as [Ea|Ea]; [|destruct (decide (page_of v = page_of b)) as [Eb|Eb]].
  - unfold exchange. destruct (page_of_at (page_of b) v) as [-> ->].
    destruct (decide (page_of b = page_of a)) as [E|E]; [|rewrite decide_True by done]; rewrite ?E, <- Ea; unfold page_of; lia.
  - unfold exchange. destruct (page_of_at (page_of a) v) as [-> ->]. rewrite decide_True by done.
    rewrite <- Eb. unfold page_of. lia.
  - unfold exchange. by rewrite !decide_False.
Qed.

Lemma string_at_views n w w' a b :
  (∀ i, 0 <= i < Z.of_nat n → view w' (a + i) = view w (b + i)) → string_at n w' a = string_at n w b.
Proof.
  revert a b. induction n as [|n IH]; intros a b H; [done|]. cbn [string_at].
  pose proof (H 0 ltac:(lia)) as H0. rewrite !Z.add_0_r in H0. rewrite H0.
  rewrite (IH (a + 1) (b + 1)); [done|]. intros i Hi. rewrite <- !Z.add_assoc. apply H. lia.
Qed.

(** With page aligned buffers the program prints each string where the other was. *)
Lemma swap_main_run a b w :
  coherent w → is_Some (ptes w !! page_of a) → is_Some (ptes w !! page_of b) →
  a mod PAGE_SIZE = 0 → b mod PAGE_SIZE = 0 →
  let s := string_at (Z.to_nat PAGE_SIZE) w in
  ∃ w', swap_main a b w = Done (s a, s b, (s b, s a)) w' ∧ pg_elevated w' = false ∧
    ∀ v, view w' v = view w (exchange a b v).
Proof.
  intros Hc Ha Hb Aa Ab s. unfold swap_main. step. step.
  destruct (swap_spec a b (set_elevated true w) eq_refl Hc Ha Hb) as (w' & Hrun & _ & _ & Hv).
  step_by Hrun. step. step. exists (set_elevated false w'). split; [|split; [done|exact Hv]].
  assert (∀ x i, x mod PAGE_SIZE = 0 → 0 <= i < 4096 → page_of (x + i) = page_of x ∧ (x + i) mod PAGE_SIZE = i) as Hpg.
  { intros x i Hx Hi. unfold page_of, PAGE_SIZE in *. split.
    - rewrite (Z.div_mod x 4096) at 1 by lia. rewrite Hx, Z.add_0_r, Z.mul_comm, Z.div_add_l by lia.
      rewrite (Z.div_small i) by lia. lia.
    - rewrite <- Z.add_mod_idemp_l, Hx by lia. apply Z.mod_small. lia. }
  assert (∀ x, x mod PAGE_SIZE = 0 → page_of x * PAGE_SIZE = x) as Hal.
  { intros x Hx. unfold page_of, PAGE_SIZE in *. pose proof (Z.div_mod x 4096). lia. }
  unfold mret, M_ret. do 2 f_equal. f_equal; apply string_at_views; intros i Hi;
    change (Z.of_nat (Z.to_nat PAGE_SIZE)) with 4096 in Hi; rewrite Hv; f_equal; unfold exchange.
  - destruct (Hpg a i Aa Hi) as [-> ->]. rewrite decide_True by done. by rewrite Hal.
  - destruct (Hpg b i Ab Hi) as [-> ->]. destruct (decide (page_of b = page_of a)) as [E|E].
    + rewrite E, (Hal a) by done. rewrite <- (Hal a), <- E, Hal by done. done.
    + rewrite decide_True by done. by rewrite Hal.
Qed.
