(* ===== verification/BackLink.v ===== *)
(** * Linking back to the program ([back_linkage/greeter.kc])

    A kernel extension that calls functions of the program: [resolve_app_symbols] walks
    the symbol table of the module and stores, at the address of every symbol with
    the marking prefix, what the program's [dlsym] returns for the rest of the name.
    The symbol table and its strings are those the kernel keeps for the module;
    [dlsym] is a parameter. *)
From Stdlib Require Import Ascii.
From S2P Require Import Prelude.
From S2P Require Import KoSpec.
From S2P Require Import KldElf.

Open Scope Z_scope.

Definition user_sym : chars := chr "__user_sym__".
Definition PREFIX_LEN : nat := 11.

(** [strncmp(a, b, n) == 0] for strings without terminators in them. *)
Fixpoint strncmp_eq (n : nat) (a b : chars) : bool :=
  match n, a, b with
  | O, _, _ => true
  | S n, c :: a, d :: b => if decide (c = d) then strncmp_eq n a b else false
  | S n, [], [] => true
  | _, _, _ => false
  end.

(** [int] addition in the kernel and, through the link, in the program. *)
Definition kernel_add (a b : Z) : Z := i32 (a + b).
Definition kernel_user_add (user_add : Z → Z → Z) (a b : Z) : Z := user_add a b.

Section resolve.
Context (dlsym : chars → Z).

(** The state is the memory of the module, word by word. *)
Definition resolve_symbol (strtab : chars) (sym : Z * Z) : M (gmap Z Z) unit :=
let '(st_name, st_value) := sym in
let name := if st_name =? 0 then [] else cstr_at strtab (Z.to_nat st_name) in
if strncmp_eq PREFIX_LEN name user_sym then
  if st_value =? 0 then mret tt
  else
    m ← getM;
    _ ← derefM (m !! st_value);
    modifyM (<[st_value := dlsym (drop PREFIX_LEN name)]>)
else mret tt.

Fixpoint resolve_app_symbols (strtab : chars) (symtab : list (Z * Z)) : M (gmap Z Z) unit :=
match symtab with
| [] => mret tt
| sym :: symtab => _ ← resolve_symbol strtab sym; resolve_app_symbols strtab symtab
end.

(** ** What is stored *)
Definition name_of (strtab : chars) (sym : Z * Z) : chars :=
if sym.1 =? 0 then [] else cstr_at strtab (Z.to_nat sym.1).
Definition marked (strtab : chars) (sym : Z * Z) : bool :=
strncmp_eq PREFIX_LEN (name_of strtab sym) user_sym && negb (sym.2 =? 0).

(** The stores of a symbol table, in order. *)
Definition stores (strtab : chars) (symtab : list (Z * Z)) : list (Z * Z) :=
(λ s, (s.2, dlsym (drop PREFIX_LEN (name_of strtab s)))) <$> filter (λ s, marked strtab s) symtab.

Lemma resolve_run strtab symtab m :
Forall (λ s, marked strtab s → is_Some (m !! s.2)) symtab →
resolve_app_symbols strtab symtab m =
  Done tt (foldl (λ m st, <[st.1 := st.2]> m) m (stores strtab symtab)).
Proof.
revert m. induction symtab as [|[n v] l IH]; intros m Hok; [done|].
apply Forall_cons in Hok as [Hs Hok]. cbn [resolve_app_symbols]. unfold stores. rewrite filter_cons.
unfold marked, name_of in Hs |- *. cbn [fst snd] in *. unfold resolve_symbol.
destruct (strncmp_eq _ _ _) eqn:E; cbn [andb] in *.
2:{ step. rewrite decide_False by (intros []). by apply IH. }
destruct (v =? 0) eqn:Ev; cbn [negb] in *.
{ step. rewrite decide_False by (intros []). by apply IH. }
rewrite decide_True by done. destruct (Hs I) as [w Hw].
erewrite bind_done.
2:{ step. rewrite Hw. step. reflexivity. }
rewrite IH; [done|]. eapply Forall_impl; [exact Hok|]. cbn. intros s H Hm.
destruct (decide (s.2 = v)) as [->|]; [rewrite lookup_insert_eq; by eexists|].
rewrite lookup_insert_ne by done. by apply H.
Qed.

Lemma resolve_one strtab off v name m :
off ≠ 0 → v ≠ 0 → cstr_at strtab (Z.to_nat off) = name → strncmp_eq PREFIX_LEN name user_sym = true →
is_Some (m !! v) →
resolve_app_symbols strtab [(off, v)] m = Done tt (<[v := dlsym (drop PREFIX_LEN name)]> m).
Proof.
intros Ho Hv Hn Hp Hm. rewrite resolve_run by (by repeat constructor).
assert (name_of strtab (off, v) = name) as En.
{ unfold name_of. cbn. by rewrite (proj2 (Z.eqb_neq _ _) Ho). }
unfold stores. rewrite filter_cons_True.
- rewrite fmap_cons. cbn [foldl fst snd]. by rewrite En.
- unfold marked. rewrite En, Hp. cbn [snd]. by rewrite (proj2 (Z.eqb_neq _ _) Hv).
Qed.

(** Only eleven of the twelve characters of the prefix are taken off: the function
    [f] of the program is looked up as [_f]. *)
Theorem underscore_left strtab off v f m :
off ≠ 0 → v ≠ 0 → cstr_at strtab (Z.to_nat off) = user_sym ++ f → is_Some (m !! v) →
resolve_app_symbols strtab [(off, v)] m = Done tt (<[v := dlsym ("_"%char :: f)]> m).
Proof. intros Ho Hv Hn Hm. by rewrite (resolve_one _ _ _ _ _ Ho Hv Hn eq_refl Hm). Qed.

(** A name that merely begins with eleven of the characters is taken too. *)
Theorem shorter_prefix_taken strtab off v m :
off ≠ 0 → v ≠ 0 → cstr_at strtab (Z.to_nat off) = chr "__user_sym_table" → is_Some (m !! v) →
resolve_app_symbols strtab [(off, v)] m = Done tt (<[v := dlsym (chr "table")]> m).
Proof. intros Ho Hv Hn Hm. by rewrite (resolve_one _ _ _ _ _ Ho Hv Hn eq_refl Hm). Qed.
End resolve.

(** ** The program ([back_linkage/main.c]) *)

(** Whether the thread is elevated, and what [_printk] was given. *)
Record blw := Blw { bl_elevated : bool; bl_printk : list Z }.
Definition bl_set (b : bool) (w : blw) : blw := Blw b (bl_printk w).
Definition in_kernel_code {A} (m : M blw A) : M blw A := w ← getM; if bl_elevated w then m else faultM.

Definition user_add (a b : Z) : Z := i32 (a + b).
(** The numbers it prints; [pid]: what [current_pid] answers. *)
Definition back_main (pid : Z) : M blw (list Z) :=
  _ ← modifyM (bl_set true);
  sum ← in_kernel_code (mret (kernel_add 3 4));
  pid ← in_kernel_code (mret pid);
  user_sum ← in_kernel_code (mret (kernel_user_add user_add 10 15));
  _ ← in_kernel_code (modifyM (λ w, Blw (bl_elevated w) (bl_printk w ++ [user_sum])));
  _ ← modifyM (bl_set false);
  mret [sum; pid; user_sum].

Lemma back_main_run pid w :
  back_main pid w = Done [7; pid; 25] (Blw false (bl_printk w ++ [25])).
Proof. done. Qed.
