(* ===== verification/ModLoad.v ===== *)
(** * Programs that carry a kernel module ([load_mod.c] of [examples/printk],
    [examples/read_idtr], [examples/swap_phys_pages], [tests/fork], [tests/ifuncs],
    and [tests/ko_in_elf/main.c])

    Functions of the module are indirect functions of the program: when the program
    is started, the resolver of each loads the module, once, and asks the kernel for
    the address. The module is loaded by calling the entry of the system call
    [init_module], which finds its arguments in a [struct pt_regs]; [do_load_module]
    builds the part of it that is read, on its stack. The programs have the same
    text up to [main]; [K] is the part of the kernel that the functions of a program's
    module work on.

    [SYM_ON_KERN_STACK_DO] is a macro of the privilege library and a parameter. *)
From S2P Require Import Prelude.

Open Scope Z_scope.

(** The state: words of the stack by address, whether the thread is elevated,
    [module_loaded], the arguments of the calls of [init_module], the functions that
    have been resolved, and the kernel. *)
Record lmw (K : Type) := Lmw {
  lm_mem : gmap Z Z; lm_elevated : bool; lm_loaded : bool; lm_calls : list (Z * Z * Z);
  lm_got : gmap string Z; lm_kernel : K }.
Arguments Lmw {K} _ _ _ _ _ _.
Arguments lm_mem {K} _.
Arguments lm_elevated {K} _.
Arguments lm_loaded {K} _.
Arguments lm_calls {K} _.
Arguments lm_got {K} _.
Arguments lm_kernel {K} _.

(** The module in the program ([_binary_greeter_ko_start], [_size]), the address of
    the string of its arguments, and the address of [args] in [do_load_module]. *)
Record image := Image { ko_start : Z; ko_size : Z; ko_uargs : Z; ko_args : Z }.

(** What the kernel answers: the result of [init_module], and the addresses of
    [kallsyms_lookup_name] once modules have been loaded. *)
Record kern := Kern { kn_init : Z → Z → Z → Z; kn_lookup : list (Z * Z * Z) → string → Z }.

Section loader.
Context {K : Type}.

Definition set_mem (f : gmap Z Z → gmap Z Z) (w : lmw K) : lmw K :=
Lmw (f (lm_mem w)) (lm_elevated w) (lm_loaded w) (lm_calls w) (lm_got w) (lm_kernel w).
Definition set_priv (b : bool) (w : lmw K) : lmw K :=
Lmw (lm_mem w) b (lm_loaded w) (lm_calls w) (lm_got w) (lm_kernel w).
Definition set_module_loaded (w : lmw K) : lmw K :=
Lmw (lm_mem w) (lm_elevated w) true (lm_calls w) (lm_got w) (lm_kernel w).
Definition add_call (c : Z * Z * Z) (w : lmw K) : lmw K :=
Lmw (lm_mem w) (lm_elevated w) (lm_loaded w) (lm_calls w ++ [c]) (lm_got w) (lm_kernel w).
Definition set_got (name : string) (addr : Z) (w : lmw K) : lmw K :=
Lmw (lm_mem w) (lm_elevated w) (lm_loaded w) (lm_calls w) (<[name := addr]> (lm_got w)) (lm_kernel w).
Definition set_kernel (k : K) (w : lmw K) : lmw K :=
Lmw (lm_mem w) (lm_elevated w) (lm_loaded w) (lm_calls w) (lm_got w) k.

Definition sym_elevate : M (lmw K) unit := modifyM (set_priv true).
Definition sym_lower : M (lmw K) unit := modifyM (set_priv false).
Definition elevated_only {A} (m : M (lmw K) A) : M (lmw K) A :=
w ← getM; if lm_elevated w then m else faultM.

(** What the macro promises: the work is done with privilege, and the thread has none
  afterwards. *)
Class OnKernStack (on : M (lmw K) Z → M (lmw K) Z) := on_kern_stack_run : ∀ (m : M (lmw K) Z) w a w',
lm_elevated w = false → m (set_priv true w) = Done a w' → on m w = Done a (set_priv false w').

Context (kn : kern) (im : image) (on : M (lmw K) Z → M (lmw K) Z).

(** The entry of the system call takes its arguments out of [struct pt_regs], at the
  offsets of the registers [rdx], [rsi] and [rdi]. *)
Definition load_word (a : Z) : M (lmw K) Z := w ← getM; derefM (lm_mem w !! u64 a).
Definition x64_sys_init_module (regs : Z) : M (lmw K) Z :=
elevated_only (
  rdx ← load_word (regs + 0x60);
  rsi ← load_word (regs + 0x68);
  rdi ← load_word (regs + 0x70);
  _ ← modifyM (add_call (rdi, rsi, rdx));
  mret (i32 (kn_init kn rdi rsi rdx))).

Definition do_load_module (umod len uargs : Z) : M (lmw K) Z :=
let args := ko_args im in
_ ← modifyM (set_mem (<[u64 args := uargs]>));
_ ← modifyM (set_mem (<[u64 (args + 8) := len]>));
_ ← modifyM (set_mem (<[u64 (args + 16) := umod]>));
x64_sys_init_module (u64 (args - 0x60)).

Definition load_included_module : M (lmw K) Z :=
on (do_load_module (ko_start im) (ko_size im) (ko_uargs im)).

Definition base_resolver (symbol_name : string) : M (lmw K) Z :=
w ← getM;
_ ← (if lm_loaded w then mret tt
     else rc ← load_included_module;
          if negb (rc =? 0) then exitM 1 else modifyM set_module_loaded);
_ ← sym_elevate;
addr ← elevated_only (getsM (λ w, kn_lookup kn (lm_calls w) symbol_name));
_ ← sym_lower;
if addr =? 0 then exitM 1 else mret addr.

(** [DECLARE_IFUNC]: at the start of the program the resolvers run in turn. *)
Fixpoint resolve_ifuncs (resolver : string → M (lmw K) Z) (names : list string) : M (lmw K) unit :=
match names with
| [] => mret tt
| name :: names => addr ← resolver name; _ ← modifyM (set_got name addr); resolve_ifuncs resolver names
end.

(** A call of a function of the module, from the program. *)
Definition kcall {A} (name : string) (f : M K A) : M (lmw K) A := λ w,
if lm_elevated w then
  match lm_got w !! name, f (lm_kernel w) with
  | None, _ => Fault
  | Some _, Done a k => Done a (set_kernel k w)
  | Some _, Exited c k => Exited c (set_kernel k w)
  | Some _, Aborted => Aborted
  | Some _, Fault => Fault
  | Some _, NoFuel => NoFuel
  end
else Fault.
(** A kernel function the loader has linked. *)
Definition native {A} (f : M K A) : M (lmw K) A := λ w,
if lm_elevated w then
  match f (lm_kernel w) with
  | Done a k => Done a (set_kernel k w)
  | Exited c k => Exited c (set_kernel k w)
  | Aborted => Aborted
  | Fault => Fault
  | NoFuel => NoFuel
  end
else Fault.

Lemma kcall_done {A} name (f : M K A) w v a k :
lm_elevated w = true → lm_got w !! name = Some v → f (lm_kernel w) = Done a k →
kcall name f w = Done a (set_kernel k w).
Proof. intros He Hg Hf. unfold kcall. by rewrite He, Hg, Hf. Qed.

(** ** Loading *)
Definition request : Z * Z * Z := (ko_start im, ko_size im, ko_uargs im).
Definition load_rc : Z := i32 (kn_init kn (ko_start im) (ko_size im) (ko_uargs im)).

(** The stack with [args] on it. *)
Definition args_on_stack (m : gmap Z Z) : gmap Z Z :=
<[u64 (ko_args im + 16) := ko_start im]> (<[u64 (ko_args im + 8) := ko_size im]>
  (<[u64 (ko_args im) := ko_uargs im]> m)).

Lemma u64_distinct a i j : 0 <= i < 2 ^ 64 → 0 <= j < 2 ^ 64 → i ≠ j → u64 (a + i) ≠ u64 (a + j).
Proof.
intros Hi Hj Hij H. unfold u64 in H. apply Hij.
assert ((a + i - (a + j)) mod 2 ^ 64 = 0) as Hm by (rewrite Zminus_mod, H, Z.sub_diag; done).
replace (a + i - (a + j)) with (i - j) in Hm by lia. apply Z.mod_divide in Hm as [q Hq]; [|lia].
destruct (decide (q = 0)) as [->|Hq0]; [lia|]. nia.
Qed.
Lemma u64_back a i : u64 (u64 (a - 0x60) + (0x60 + i)) = u64 (a + i).
Proof. unfold u64. rewrite Zplus_mod_idemp_l. f_equal. lia. Qed.

(** The entry reads back the three arguments, wherever the stack is. *)
Lemma do_load_module_run w :
lm_elevated w = true →
do_load_module (ko_start im) (ko_size im) (ko_uargs im) w =
  Done load_rc (add_call request (set_mem args_on_stack w)).
Proof.
intros He. unfold do_load_module. do 3 step. unfold x64_sys_init_module, elevated_only. step. cbn [lm_elevated set_mem].
rewrite He. unfold load_word.
assert (u64 (ko_args im) ≠ u64 (ko_args im + 8)) as H1 by (rewrite <- (Z.add_0_r (ko_args im)) at 1; apply u64_distinct; lia).
assert (u64 (ko_args im) ≠ u64 (ko_args im + 16)) as H2 by (rewrite <- (Z.add_0_r (ko_args im)) at 1; apply u64_distinct; lia).
assert (u64 (ko_args im + 8) ≠ u64 (ko_args im + 16)) as H3 by (apply u64_distinct; lia).
erewrite bind_done; [|step; cbn [lm_mem set_mem]; rewrite (u64_back _ 0), Z.add_0_r;
  simplify_map_eq; reflexivity].
erewrite bind_done; [|step; cbn [lm_mem set_mem]; rewrite (u64_back _ 8); simplify_map_eq; reflexivity].
erewrite bind_done; [|step; cbn [lm_mem set_mem]; rewrite (u64_back _ 16); simplify_map_eq; reflexivity].
step. done.
Qed.

Context `{!OnKernStack on}.

Definition requested (w : lmw K) : lmw K := set_priv false (add_call request (set_mem args_on_stack (set_priv true w))).

Lemma load_included_module_run w :
lm_elevated w = false → load_included_module w = Done load_rc (requested w).
Proof.
intros He. unfold load_included_module, requested. apply on_kern_stack_run; [done|]. by apply do_load_module_run.
Qed.

(** The state after a successful resolution of the first function, and of a later
  one. *)
Definition module_in (w : lmw K) : lmw K := set_priv false (set_module_loaded (requested w)).

Lemma base_resolver_loads name w :
lm_elevated w = false → lm_loaded w = false →
base_resolver name w =
  if negb (load_rc =? 0) then Exited 1 (requested w)
  else let addr := kn_lookup kn (lm_calls w ++ [request]) name in
       if addr =? 0 then Exited 1 (module_in w) else Done addr (module_in w).
Proof.
intros He Hl. unfold base_resolver. step. rewrite Hl.
destruct (load_rc =? 0) eqn:E; cbn [negb].
- erewrite bind_done; [|step_by (load_included_module_run w He); rewrite E; reflexivity].
  step. step. step. cbn. by destruct (kn_lookup _ _ _ =? 0).
- apply bind_exited. step_by (load_included_module_run w He). by rewrite E.
Qed.

Lemma base_resolver_again name w :
lm_elevated w = false → lm_loaded w = true →
base_resolver name w =
  let addr := kn_lookup kn (lm_calls w) name in if addr =? 0 then Exited 1 w else Done addr w.
Proof.
intros He Hl. unfold base_resolver. step. rewrite Hl. step. step. step. step. cbn.
assert (set_priv false (set_priv true w) = w) as -> by (destruct w; cbn in *; by subst).
by destruct (kn_lookup _ _ _ =? 0).
Qed.

(** Whether a list of functions can all be found, once the module is in. *)
Definition all_found (calls : list (Z * Z * Z)) (names : list string) : bool :=
forallb (λ name, negb (kn_lookup kn calls name =? 0)) names.

(** What holds whenever the resolvers stop, normally or not: the module has been
  given to the kernel once, and the thread has no privilege. *)
Definition settled (calls : list (Z * Z * Z)) (w : lmw K) : Prop := lm_elevated w = false ∧ lm_calls w = calls.

Lemma resolve_again names w :
lm_elevated w = false → lm_loaded w = true →
∃ w', settled (lm_calls w) w' ∧ lm_kernel w' = lm_kernel w ∧
  if all_found (lm_calls w) names
  then resolve_ifuncs base_resolver names w = Done tt w' ∧ lm_loaded w' = true ∧
       ∀ name, lm_got w' !! name =
         if bool_decide (name ∈ names) then Some (kn_lookup kn (lm_calls w) name) else lm_got w !! name
  else resolve_ifuncs base_resolver names w = Exited 1 w'.
Proof.
revert w. induction names as [|name names IH]; intros w He Hl; cbn [resolve_ifuncs all_found forallb].
{ exists w. do 2 (split; [done|]). split; [done|]. split; [done|]. intros name. by rewrite bool_decide_false by set_solver. }
pose proof (base_resolver_again name w He Hl) as Hb. cbn zeta in Hb.
destruct (kn_lookup kn (lm_calls w) name =? 0) eqn:E; cbn [negb andb].
{ exists w. do 2 (split; [done|]). by apply bind_exited. }
set (w1 := set_got name (kn_lookup kn (lm_calls w) name) w).
assert (∀ r, resolve_ifuncs base_resolver names w1 = r →
  (addr ← base_resolver name; _ ← modifyM (set_got name addr); resolve_ifuncs base_resolver names) w = r) as Hstep.
{ intros r <-. step_by Hb. step. done. }
destruct (IH w1 He Hl) as (w' & Hs & Hk & Hcase). exists w'. do 2 (split; [done|]). fold (all_found (lm_calls w) names).
change (lm_calls w1) with (lm_calls w) in Hcase. destruct (all_found (lm_calls w) names); [|by apply Hstep].
destruct Hcase as (Hr & Hl' & Hg). split; [by apply Hstep|]. split; [done|]. intros n. rewrite Hg.
case_bool_decide as H1; [by rewrite bool_decide_true by set_solver|]. cbn.
destruct (decide (n = name)) as [->|Hn].
- rewrite lookup_insert_eq. by rewrite bool_decide_true by set_solver.
- rewrite lookup_insert_ne by done. by rewrite bool_decide_false by set_solver.
Qed.

(** A program with at least one function of the module. *)
Lemma resolve_first name names w :
lm_elevated w = false → lm_loaded w = false → lm_calls w = [] →
∃ w', settled [request] w' ∧ lm_kernel w' = lm_kernel w ∧
  if (load_rc =? 0) && all_found [request] (name :: names)
  then resolve_ifuncs base_resolver (name :: names) w = Done tt w' ∧
       ∀ n, n ∈ name :: names → lm_got w' !! n = Some (kn_lookup kn [request] n)
  else resolve_ifuncs base_resolver (name :: names) w = Exited 1 w'.
Proof.
intros He Hl Hc. pose proof (base_resolver_loads name w He Hl) as Hb. rewrite Hc in Hb. cbn [app] in Hb.
cbn [resolve_ifuncs all_found forallb].
destruct (load_rc =? 0); cbn [negb andb] in *.
2:{ exists (requested w). split; [split; [done|]; cbn; by rewrite Hc|]. split; [done|]. by apply bind_exited. }
cbn zeta in Hb. destruct (kn_lookup kn [request] name =? 0) eqn:E; cbn [negb andb].
{ exists (module_in w). split; [split; [done|]; cbn; by rewrite Hc|]. split; [done|]. by apply bind_exited. }
set (w1 := set_got name (kn_lookup kn [request] name) (module_in w)).
assert (lm_calls w1 = [request]) as Hc1 by (cbn; by rewrite Hc).
destruct (resolve_again names w1 eq_refl eq_refl) as (w' & Hs & Hk & Hcase). rewrite Hc1 in Hs, Hcase.
exists w'. do 2 (split; [done|]). fold (all_found [request] names).
assert (∀ r, resolve_ifuncs base_resolver names w1 = r →
  (addr ← base_resolver name; _ ← modifyM (set_got name addr); resolve_ifuncs base_resolver names) w = r) as Hstep.
{ intros r <-. step_by Hb. step. done. }
destruct (all_found [request] names); [|by apply Hstep]. destruct Hcase as (Hr & _ & Hg).
split; [by apply Hstep|]. intros n Hn. rewrite Hg. case_bool_decide; [done|].
assert (n = name) as -> by set_solver. cbn. by rewrite lookup_insert_eq.
Qed.
End loader.
