(* ===== verification/ModPrograms.v ===== *)
(** * The programs around the loader

    [examples/printk], [examples/read_idtr] with its kernel module (the module of
    [tests/fork] has the same text), [examples/swap_phys_pages] (start only, its
    [main] is in [PageSwap]), [tests/fork] and [tests/ko_in_elf]. Each program has
    its own copy of [load_mod.c], the text of which is that of [ModLoad]. *)
From S2P Require Import X86 Idt ModLoad Prelude.

Open Scope Z_scope.
Open Scope list_scope.

(** ** [examples/printk] *)
Module Printk.
Section printk.
Context (kn : kern) (im : image) (pid : Z).

(** The kernel: what [_printk] was given. *)
Notation K := (list Z).
Context (on : M (lmw K) Z → M (lmw K) Z).

(** [kmod/greeter.c] *)
Definition printk_kernel_add (a b : Z) : M K Z :=
if (- 2 ^ 31 <=? a + b) && (a + b <? 2 ^ 31) then mret (a + b) else faultM.
Definition printk_current_pid : M K Z := mret pid.
Definition printk_number (n : Z) : M K unit := modifyM (λ l, l ++ [n]).

Definition printk_ifuncs : list string := ["kernel_add"; "current_pid"]%string.
Definition printk_main : M (lmw K) Z :=
_ ← sym_elevate;
sum ← kcall "kernel_add" (printk_kernel_add 3 4);
_ ← native (printk_number sum);
pid ← kcall "current_pid" printk_current_pid;
_ ← native (printk_number pid);
_ ← sym_lower;
mret 0.
Definition printk_run : M (lmw K) Z := _ ← resolve_ifuncs (base_resolver kn im on) printk_ifuncs; printk_main.

Lemma printk_main_run w v1 v2 :
lm_got w !! "kernel_add"%string = Some v1 → lm_got w !! "current_pid"%string = Some v2 →
printk_main w = Done 0 (set_priv false (set_kernel (lm_kernel w ++ [7; pid]) w)).
Proof.
intros H1 H2. destruct w as [mem el lo ca got k]. unfold printk_main. step.
erewrite bind_done by (by eapply kcall_done). erewrite bind_done by reflexivity.
erewrite bind_done by (by eapply kcall_done). erewrite bind_done by reflexivity. step.
cbn. by rewrite <- app_assoc.
Qed.
End printk.
End Printk.

(** ** [examples/read_idtr] *)
Module ReadIdtr.

(** Bytes of memory, the ten bytes [sidt] stores, and the lines printed. *)
Record idtmem := IdtMem { im_bytes : gmap Z Z; im_idtr : list Z; im_lines : list idt_line }.

(** Little endian. *)
Definition le (l : list Z) : Z := foldr (λ b acc, b + 256 * acc) 0 l.
Definition bytes_at (a : Z) (n : nat) : M idtmem (list Z) :=
  w ← getM; derefM (mapM (λ i, im_bytes w !! (a + Z.of_nat i)) (seq 0 n)).

(** [struct idt_entry] in memory: three words, one of them of bit fields, and two
    double words. *)
Definition field (x lo n : Z) : Z := Z.land (Z.shiftr x lo) (Z.ones n).
Definition entry_of_bytes (b : list Z) : idt_entry :=
  let bits := le (take 2 (drop 4 b)) in
  IdtEntry (le (take 2 b)) (le (take 2 (drop 2 b))) (field bits 0 3) (field bits 8 4) (field bits 13 2)
    (field bits 15 1) (le (take 2 (drop 6 b))) (le (take 4 (drop 8 b))) (le (take 4 (drop 12 b))).

Fixpoint print_from (n i : nat) (idt : Z) : M idtmem unit :=
  match n with
  | O => mret tt
  | S n =>
      b ← bytes_at (idt + 16 * Z.of_nat i) 16;
      _ ← modifyM (λ w, IdtMem (im_bytes w) (im_idtr w) (im_lines w ++ [entry_line i (entry_of_bytes b)]));
      print_from n (S i) idt
  end.
Definition print_idt_entries : M idtmem unit :=
  idtr ← getsM im_idtr;
  print_from 256 0 (le (take 8 (drop 2 idtr))).

Section program.
Context (kn : kern) (im : image) (on : M (lmw idtmem) Z → M (lmw idtmem) Z).

(** The copy of [load_mod.c]. *)
Definition read_idtr_resolver : string → M (lmw idtmem) Z := ModLoad.base_resolver kn im on.
Definition read_idtr_ifuncs : list string := ["print_idt_entries"%string].
Definition read_idtr_main : M (lmw idtmem) Z :=
_ ← sym_elevate;
_ ← kcall "print_idt_entries" print_idt_entries;
_ ← sym_lower;
mret 0.
Definition read_idtr_program : M (lmw idtmem) Z := _ ← resolve_ifuncs read_idtr_resolver read_idtr_ifuncs; read_idtr_main.
End program.

(** *** What is printed *)

(** A gate as the processor defines it, and its sixteen bytes. *)
Record gate := Gate { g_offset : Z; g_selector : Z; g_ist : Z; g_attr : Z }.
Definition gate_ok (g : gate) : Prop :=
  0 <= g_offset g < 2 ^ 64 ∧ 0 <= g_selector g < 2 ^ 16 ∧ 0 <= g_ist g < 8 ∧ 0 <= g_attr g < 256.
Definition byte_of (x : Z) (k : Z) : Z := (x / 256 ^ k) mod 256.
Definition gate_bytes (g : gate) : list Z :=
  let o := g_offset g in
  [byte_of o 0; byte_of o 1; byte_of (g_selector g) 0; byte_of (g_selector g) 1; g_ist g; g_attr g;
   byte_of o 2; byte_of o 3; byte_of o 4; byte_of o 5; byte_of o 6; byte_of o 7; 0; 0; 0; 0].
(** The line for a gate: everything but bit 4 of the attributes. *)
Definition gate_line (i : nat) (g : gate) : idt_line :=
  IdtLine i (g_offset g) (g_selector g) (g_ist g) (Z.land (g_attr g) 0xef).

Definition attr_check (ist attr : Z) : bool :=
  let bits := ist + 256 * attr in
  let e := IdtEntry 0 0 (field bits 0 3) (field bits 8 4) (field bits 13 2) (field bits 15 1) 0 0 0 in
  (l_ist (entry_line 0 e) =? ist) && (l_type_attr (entry_line 0 e) =? Z.land attr 0xef).
Lemma attr_checks :
  forallb (λ i, forallb (λ a, attr_check (Z.of_nat i) (Z.of_nat a)) (seq 0 256)) (seq 0 8) = true.
Proof. by vm_compute. Qed.
Lemma attr_decoded i a : 0 <= i < 8 → 0 <= a < 256 → attr_check i a = true.
Proof.
  intros Hi Ha. pose proof attr_checks as H. rewrite forallb_forall in H.
  specialize (H (Z.to_nat i) ltac:(apply in_seq; lia)). rewrite forallb_forall in H.
  specialize (H (Z.to_nat a) ltac:(apply in_seq; lia)). by rewrite !Z2Nat.id in H by lia.
Qed.

Lemma le_bytes2 x k : 0 <= k → byte_of x k + 256 * (byte_of x (k + 1) + 256 * 0) = (x / 256 ^ k) mod 2 ^ 16.
Proof.
  intros Hk. unfold byte_of. rewrite Z.pow_add_r, <- Z.div_div by lia. change (256 ^ 1) with 256.
  generalize (x / 256 ^ k). intros y. change (2 ^ 16) with (256 * 256). rewrite Z.rem_mul_r by lia. lia.
Qed.
Lemma le_bytes4 x k : 0 <= k →
  byte_of x k + 256 * (byte_of x (k + 1) + 256 * (byte_of x (k + 2) + 256 * (byte_of x (k + 3) + 256 * 0)))
  = (x / 256 ^ k) mod 2 ^ 32.
Proof.
  intros Hk. pose proof (le_bytes2 x k Hk) as H1. pose proof (le_bytes2 x (k + 2) ltac:(lia)) as H2.
  replace (k + 2 + 1) with (k + 3) in H2 by lia. rewrite Z.pow_add_r, <- Z.div_div in H2 by lia.
  change (256 ^ 2) with (2 ^ 16) in H2. change (2 ^ 32) with (2 ^ 16 * 2 ^ 16). rewrite Z.rem_mul_r by lia.
  rewrite <- H1, <- H2. lia.
Qed.

Lemma split_offset o e :
  0 <= o → set_offset o e = IdtEntry (o mod 2 ^ 16) (selector e) (ist e) (type e) (dpl e) (p e)
    ((o / 2 ^ 16) mod 2 ^ 16) ((o / 2 ^ 32) mod 2 ^ 32) (reserved e).
Proof.
  intros H. unfold set_offset. change 0xFFFF with (Z.ones 16). change 0xFFFFFFFF with (Z.ones 32).
  by rewrite !Z.land_ones, !Z.shiftr_div_pow2 by lia.
Qed.

Lemma gate_printed i g : gate_ok g → entry_line i (entry_of_bytes (gate_bytes g)) = gate_line i g.
Proof.
  intros (Ho & Hs & Hi & Ha). pose proof (attr_decoded _ _ Hi Ha) as Hc.
  unfold attr_check in Hc. apply andb_true_iff in Hc as [H1 H2]. apply Z.eqb_eq in H1, H2.
  unfold entry_of_bytes. cbn [gate_bytes take drop]. unfold le. cbn [foldr].
  pose proof (le_bytes2 (g_offset g) 0 ltac:(lia)) as E0. pose proof (le_bytes2 (g_offset g) 2 ltac:(lia)) as E2.
  pose proof (le_bytes2 (g_selector g) 0 ltac:(lia)) as Es. pose proof (le_bytes4 (g_offset g) 4 ltac:(lia)) as E4.
  change (0 + 1) with 1 in *. change (2 + 1) with 3 in *. change (4 + 1) with 5 in *. change (4 + 2) with 6 in *. change (4 + 3) with 7 in *. rewrite E0, E2, Es, E4.
  change (256 ^ 0) with 1. change (256 ^ 2) with (2 ^ 16). change (256 ^ 4) with (2 ^ 32).
  rewrite !Z.div_1_r, (Z.mod_small (g_selector g)), Z.mul_0_r, Z.add_0_r by lia.
  match goal with |- entry_line i ?e = _ =>
    pose proof (split_offset (g_offset g) e ltac:(lia)) as Hsp; pose proof (offset_roundtrip e (g_offset g) Ho) as Hr end.
  rewrite Hsp in Hr. unfold entry_line, gate_line in *. cbn in H1, H2, Hr |- *. f_equal; done.
Qed.

(** The table of 256 gates lies in memory at the address in the register. *)
Definition table_at (a : Z) (gs : list gate) (w : idtmem) : Prop :=
  ∀ i g, gs !! i = Some g → ∀ j b, gate_bytes g !! j = Some b → im_bytes w !! (a + 16 * Z.of_nat i + Z.of_nat j) = Some b.

Lemma table_bytes_run a l w :
  (∀ j b, l !! j = Some b → im_bytes w !! (a + Z.of_nat j) = Some b) → bytes_at a (length l) w = Done l w.
Proof.
  intros H. unfold bytes_at. step.
  assert (mapM (λ i, im_bytes w !! (a + Z.of_nat i)) (seq 0 (length l)) = Some l) as ->; [|done].
  apply mapM_Some, Forall2_same_length_lookup_2; [by rewrite length_seq|].
  intros i k b Hk Hb. apply lookup_seq in Hk as [-> _]. by apply H.
Qed.

Lemma print_from_run n i a gs w :
  table_at a gs w → Forall gate_ok gs → (i + n = length gs)%nat →
  print_from n i a w = Done tt (IdtMem (im_bytes w) (im_idtr w)
    (im_lines w ++ imap (λ k g, gate_line (i + k) g) (drop i gs))).
Proof.
  revert i w. induction n as [|n IH]; intros i w Ht Hg Hn; cbn [print_from].
  { rewrite drop_ge by lia. cbn. rewrite app_nil_r. by destruct w. }
  destruct (lookup_lt_is_Some_2 gs i) as [g Hi]; [lia|].
  assert (bytes_at (a + 16 * Z.of_nat i) 16 w = Done (gate_bytes g) w) as Hb by (apply (table_bytes_run _ (gate_bytes g)); by apply Ht).
  step_by Hb. step. rewrite (IH (S i)) by (done || lia). cbn. f_equal. f_equal.
  rewrite (drop_S gs g i Hi). cbn. rewrite <- app_assoc. f_equal. cbn. rewrite gate_printed, Nat.add_0_r.
  - f_equal. apply imap_ext. intros k x Hx. cbn. f_equal. lia.
  - rewrite Forall_lookup in Hg. by eapply Hg.
Qed.

Lemma print_idt_entries_run gs w :
  length gs = 256%nat → Forall gate_ok gs → table_at (le (take 8 (drop 2 (im_idtr w)))) gs w →
  print_idt_entries w = Done tt (IdtMem (im_bytes w) (im_idtr w) (im_lines w ++ imap gate_line gs)).
Proof. intros Hl Hg Ht. unfold print_idt_entries. step. by rewrite (print_from_run _ _ _ gs). Qed.
End ReadIdtr.

(** ** [examples/swap_phys_pages], the start *)
Module SwapPages.
Section program.
Context {K : Type} (kn : kern) (im : image) (on : M (lmw K) Z → M (lmw K) Z).

(** The copy of [load_mod.c]. *)
Definition swap_resolver : string → M (lmw K) Z := ModLoad.base_resolver kn im on.
Definition swap_ifuncs : list string := ["swap_phys_pages"%string].
Definition swap_start : M (lmw K) unit := resolve_ifuncs swap_resolver swap_ifuncs.
End program.
End SwapPages.

(** ** [tests/fork] *)
Module Fork.
Section fork.
Context (kn : kern) (im : image).

(** The messages this process gave to [_printk]. *)
Notation K := (list string).
Context (on : M (lmw K) Z → M (lmw K) Z).

(** A program that forks: the ends of all its processes. *)
Definition procs : Type := lmw K → list (outcome (lmw K) Z).
Definition process (m : M (lmw K) Z) : procs := λ w, [m w].
Definition and_then (m : M (lmw K) unit) (p : procs) : procs := λ w,
match m w with
| Done _ w' => p w'
| Exited c w' => [Exited c w']
| Aborted => [Aborted]
| Fault => [Fault]
| NoFuel => [NoFuel]
end.
(** The child has the memory and the privilege of its parent. *)
Definition fork (ok : bool) (failed child parent : procs) : procs := λ w,
if ok then child w ++ parent w else failed w.

Definition fork_printk (s : string) : M K unit := modifyM (λ l, l ++ [s]).

(** The copy of [load_mod.c]. *)
Definition fork_resolver : string → M (lmw K) Z := ModLoad.base_resolver kn im on.
Definition fork_ifuncs : list string := ["print_idt_entries"%string].

(** [ok1], [ok2], [ok3]: whether the three calls of [fork] succeed. *)
Definition fork_main (ok1 ok2 ok3 : bool) : procs :=
fork ok1 (process (mret 1)) (process (mret 0))
  (and_then sym_elevate
    (fork ok2 (process (mret 1))
      (process (_ ← native (fork_printk "printk: hello from elevated child process!"); _ ← sym_lower; mret 0))
      (and_then sym_lower
        (fork ok3 (process (mret 1)) (process (mret 0)) (process (mret 0)))))).
Definition fork_program (ok1 ok2 ok3 : bool) : procs :=
and_then (resolve_ifuncs fork_resolver fork_ifuncs) (fork_main ok1 ok2 ok3).

(** How a process ended: its exit code, whether it still had privilege, and what it
  printed through the kernel. *)
Definition ended (o : outcome (lmw K) Z) : option (Z * bool * K) :=
match o with
| Done c w | Exited c w => Some (c, lm_elevated w, lm_kernel w)
| _ => None
end.

(** The processes in the order in which they were started, the first one last. *)
Definition fork_ends (ok1 ok2 ok3 : bool) : list (Z * bool * K) :=
if negb ok1 then [(1, false, [])] else
(0, false, []) ::
if negb ok2 then [(1, true, [])] else
(0, false, ["printk: hello from elevated child process!"%string]) ::
if negb ok3 then [(1, false, [])] else [(0, false, []); (0, false, [])].

Lemma fork_main_ends ok1 ok2 ok3 w :
lm_elevated w = false → lm_kernel w = [] →
ended <$> fork_main ok1 ok2 ok3 w = Some <$> fork_ends ok1 ok2 ok3.
Proof. destruct w; cbn. intros -> ->. by destruct ok1, ok2, ok3. Qed.
End fork.
End Fork.

(** ** [tests/ko_in_elf] *)
Module KoInElf.
Section program.
Context {K : Type} (kn : kern) (im : image) (on : M (lmw K) Z → M (lmw K) Z).

(** [for (size_t i = 0; i < 8 && i < size; i++)]: the bytes that are shown. *)
Fixpoint first_bytes (n i : nat) (size : Z) (blob : list Z) : option (list Z) :=
match n with
| O => Some []
| S n => if Z.of_nat i <? size then b ← blob !! i; l ← first_bytes n (S i) size blob; Some (b :: l) else Some []
end.

(** The result of loading and the bytes shown before it. *)
Definition greet_from_blob (blob : list Z) : M (lmw K) (Z * list Z) :=
shown ← derefM (first_bytes 8 0 (ko_size im) blob);
ret ← load_included_module kn im on;
mret (ret, shown).
(** [main] when the kernel's symbols are linked dynamically. *)
Definition ko_main (blob : list Z) : M (lmw K) Z :=
_ ← sym_elevate;
_ ← sym_lower;
r ← greet_from_blob blob;
mret r.1.

Lemma first_bytes_run n i size blob :
Z.of_nat (length blob) = size → first_bytes n i size blob = Some (take n (drop i blob)).
Proof.
intros Hs. revert i. induction n as [|n IH]; intros i; cbn [first_bytes]; [done|].
destruct (Z.ltb_spec (Z.of_nat i) size).
- destruct (lookup_lt_is_Some_2 blob i) as [b Hb]; [lia|]. rewrite Hb, (drop_S blob b i Hb). cbn. by rewrite IH.
- by rewrite drop_ge by lia.
Qed.

Context `{!OnKernStack on}.

(** The exit status is what the kernel answered; the module was offered once. *)
Lemma ko_main_run blob w :
Z.of_nat (length blob) = ko_size im → lm_calls w = [] →
∃ w', ko_main blob w = Done (load_rc kn im) w' ∧ settled [request im] w'.
Proof.
intros Hb Hc. unfold ko_main, greet_from_blob. step. step. rewrite (first_bytes_run 8 0 _ blob Hb).
assert (load_included_module kn im on (set_priv false (set_priv true w)) =
  Done (load_rc kn im) (requested im (set_priv false (set_priv true w)))) as Hl by by apply load_included_module_run.
erewrite bind_done by (step; step_by Hl; reflexivity). eexists. split; [done|].
split; [done|]. cbn. by rewrite Hc.
Qed.
End program.
End KoInElf.

(** ** [tests/ifuncs/ifunc_elevate.c] *)
Module Ifuncs.
Section program.
Context {K : Type} (kn : kern) (im : image) (on : M (lmw K) Z → M (lmw K) Z).

(** The functions of the module, which is built elsewhere, and [strcmp]. *)
Context (kernel_add : Z → Z → M K Z) (current_pid : M K Z) (strcmp : string → string → Z).

(** The copies of [load_mod.c] and of the resolver. *)
Definition ifuncs_load : M (lmw K) Z := ModLoad.load_included_module kn im on.
Definition ifuncs_resolver : string → M (lmw K) Z := ModLoad.base_resolver kn im on.
Definition ifuncs_names : list string := ["kernel_add"; "current_pid"]%string.

(** [main]: the numbers it prints. Both names of the comparison lead to the C library. *)
Definition ifuncs_main : M (lmw K) (list Z) :=
_ ← sym_elevate;
sum ← kcall "kernel_add" (kernel_add 3 4);
pid ← kcall "current_pid" current_pid;
let cmp := strcmp "abc" "abd" in
let cmp' := strcmp "abc" "abd" in
_ ← sym_lower;
mret [sum; pid; cmp; cmp'].
Definition ifuncs_program : M (lmw K) (list Z) := _ ← resolve_ifuncs ifuncs_resolver ifuncs_names; ifuncs_main.

Context `{!OnKernStack on}.

(** The program prints what the functions of the module answer, in that order, when the
  kernel takes the module and knows them. *)
Lemma ifuncs_program_run w sum pid k1 k2 :
lm_elevated w = false → lm_loaded w = false → lm_calls w = [] →
load_rc kn im = 0 → all_found kn [request im] ifuncs_names = true →
kernel_add 3 4 (lm_kernel w) = Done sum k1 → current_pid k1 = Done pid k2 →
∃ w', ifuncs_program w = Done [sum; pid; strcmp "abc" "abd"; strcmp "abc" "abd"] w' ∧
  settled [request im] w' ∧ lm_kernel w' = k2.
Proof.
intros He Hl Hc Hrc Hf Hadd Hpid.
destruct (resolve_first kn im on "kernel_add" ["current_pid"%string] w He Hl Hc) as (w1 & [He1 Hc1] & Hk1 & Hcase).
unfold ifuncs_names in Hf. rewrite Hrc, Hf in Hcase. destruct Hcase as [Hrun Hgot]. rewrite <- Hk1 in Hadd.
pose proof (Hgot "kernel_add"%string ltac:(set_solver)) as G1. pose proof (Hgot "current_pid"%string ltac:(set_solver)) as G2.
unfold ifuncs_program, ifuncs_names. step_by Hrun. unfold ifuncs_main. step.
erewrite bind_done by (by eapply kcall_done). erewrite bind_done by (by eapply kcall_done).
step. by eexists.
Qed.
End program.
End Ifuncs.
