(* ===== verification/CStrings.v ===== *)
(** * The string functions of the tests ([tests/ifuncs/ifunc_example.c], [mylib.c];
    [tests/signals/ifunc_example.c] has the same text as the former)

    [my_strcpy] is an indirect function: at the start of the program a resolver chooses
    between a loop and the function of the C library, by a feature of the processor.
    [my_strcmp] compares strings byte by byte. Memory is a map from addresses to
    bytes; an access to an address that it does not have is a fault. *)
From S2P Require Import Prelude.

Open Scope Z_scope.
Open Scope list_scope.

Notation mem := (gmap Z Z).

Definition load (a : Z) : M mem Z := m ← getM; derefM (m !! a).
Definition store (a b : Z) : M mem unit := _ ← load a; modifyM (<[a := b]>).

(** ** Copying *)

(** [while ( *dest++ = *src++)] *)
Fixpoint copy_loop (fuel : nat) (dest src : Z) : M mem unit :=
  match fuel with
  | O => nofuelM
  | S fuel => b ← load src; _ ← store dest b; if b =? 0 then mret tt else copy_loop fuel (dest + 1) (src + 1)
  end.
Definition strcpy_generic (fuel : nat) (dest src : Z) : M mem Z := _ ← copy_loop fuel dest src; mret dest.

(** [strcpy] of the library: the string is read, then written with its terminator. *)
Fixpoint read_string (fuel : nat) (src : Z) : M mem (list Z) :=
  match fuel with
  | O => nofuelM
  | S fuel => b ← load src; if b =? 0 then mret [] else l ← read_string fuel (src + 1); mret (b :: l)
  end.
Fixpoint write_bytes (dest : Z) (l : list Z) : M mem unit :=
  match l with [] => mret tt | b :: l => _ ← store dest b; write_bytes (dest + 1) l end.
Definition strcpy (fuel : nat) (dest src : Z) : M mem Z :=
  l ← read_string fuel src; _ ← write_bytes dest (l ++ [0]); mret dest.
Definition strcpy_optimized (fuel : nat) (dest src : Z) : M mem Z := strcpy fuel dest src.

(** The answer of [__get_cpuid(1, ...)], the register [edx] if it is supported; bit 26
    is SSE2. *)
Definition strcpy_resolver (cpuid : option Z) : nat → Z → Z → M mem Z :=
  match cpuid with
  | Some edx => if negb (Z.land edx (Z.shiftl 1 26) =? 0) then strcpy_optimized else strcpy_generic
  | None => strcpy_generic
  end.

(** [main]: what is printed of the buffer after each copy. *)
Definition main (fuel : nat) (cpuid : option Z) (buffer source second : Z) : M mem (list Z * list Z) :=
  let my_strcpy := strcpy_resolver cpuid in
  _ ← my_strcpy fuel buffer source;
  first ← read_string fuel buffer;
  _ ← my_strcpy fuel buffer second;
  again ← read_string fuel buffer;
  mret (first, again).

(** ** Comparing *)

(** The lists are the strings without their terminators, bytes as [unsigned char]. *)
Fixpoint my_strcmp (s1 s2 : list Z) : Z :=
  match s1, s2 with
  | [], [] => 0
  | [], b :: _ => 0 - b
  | a :: _, [] => a - 0
  | a :: s1, b :: s2 => if a =? b then my_strcmp s1 s2 else a - b
  end.

(** ** Memory with strings *)
Definition bytes_at (m : mem) (a : Z) (l : list Z) : Prop := ∀ i b, l !! i = Some b → m !! (a + Z.of_nat i) = Some b.
Definition string_in (m : mem) (a : Z) (l : list Z) : Prop := Forall (λ b, b ≠ 0) l ∧ bytes_at m a (l ++ [0]).
Definition room (m : mem) (a : Z) (n : nat) : Prop := ∀ i, (i < n)%nat → is_Some (m !! (a + Z.of_nat i)).
(** The areas of [n] bytes do not overlap. *)
Definition apart (a b : Z) (n : nat) : Prop := a + Z.of_nat n <= b ∨ b + Z.of_nat n <= a.

Fixpoint written (a : Z) (l : list Z) (m : mem) : mem :=
  match l with [] => m | b :: l => written (a + 1) l (<[a := b]> m) end.

Lemma bytes_at_cons m a b l : bytes_at m a (b :: l) ↔ m !! a = Some b ∧ bytes_at m (a + 1) l.
Proof.
  split.
  - intros H. split; [rewrite <- (Z.add_0_r a); by apply (H O)|]. intros i c Hi.
    replace (a + 1 + Z.of_nat i) with (a + Z.of_nat (S i)) by lia. by apply H.
  - intros [H0 H] [|i] c Hi; cbn in Hi; simplify_eq; [by rewrite Z.add_0_r|].
    replace (a + Z.of_nat (S i)) with (a + 1 + Z.of_nat i) by lia. by apply H.
Qed.
Lemma room_S m a n : room m a (S n) → is_Some (m !! a) ∧ room m (a + 1) n.
Proof.
  intros H. split; [rewrite <- (Z.add_0_r a); by apply (H O); lia|]. intros i Hi.
  replace (a + 1 + Z.of_nat i) with (a + Z.of_nat (S i)) by lia. apply H. lia.
Qed.
Lemma room_insert m a n k b : room m a n → room (<[k := b]> m) a n.
Proof.
  intros H i Hi. destruct (decide (k = a + Z.of_nat i)) as [->|]; [rewrite lookup_insert_eq; by eexists|].
  rewrite lookup_insert_ne by done. by apply H.
Qed.
Lemma bytes_at_insert m a l k b :
  (k < a ∨ a + Z.of_nat (length l) <= k) → bytes_at m a l → bytes_at (<[k := b]> m) a l.
Proof. intros Hk H i c Hi. apply lookup_lt_Some in Hi as Hlt. rewrite lookup_insert_ne by lia. by apply H. Qed.

Lemma written_lookup_other a l m k :
  (k < a ∨ a + Z.of_nat (length l) <= k) → written a l m !! k = m !! k.
Proof.
  revert a m. induction l as [|b l IH]; intros a m Hk; cbn [written]; [done|]. cbn [length] in Hk.
  rewrite IH by lia. by rewrite lookup_insert_ne by lia.
Qed.
Lemma written_bytes a l m : bytes_at (written a l m) a l.
Proof.
  revert a m. induction l as [|b l IH]; intros a m; [done|]. apply bytes_at_cons. cbn [written]. split; [|apply IH].
  rewrite written_lookup_other by lia. by rewrite lookup_insert_eq.
Qed.
Lemma written_room a l m c n : room m c n → room (written a l m) c n.
Proof. revert a m. induction l as [|b l IH]; intros a m H; cbn [written]; [done|]. by apply IH, room_insert. Qed.

Lemma load_byte_run a b m : m !! a = Some b → load a m = Done b m.
Proof. intros H. unfold load. step. by rewrite H. Qed.
Lemma store_run a b m : is_Some (m !! a) → store a b m = Done tt (<[a := b]> m).
Proof. intros [x H]. unfold store. by step_by (load_byte_run a x m H). Qed.

Lemma read_string_run fuel a l m : string_in m a l → (length l < fuel)%nat → read_string fuel a m = Done l m.
Proof.
  intros [Hl Hb]. revert a fuel Hb. induction Hl as [|b l H0 Hl IH]; intros a [|fuel] Hb Hf; cbn in Hf; try lia;
    apply bytes_at_cons in Hb as [Hb Hr]; cbn [read_string]; step_by (load_byte_run _ _ _ Hb).
  - done.
  - rewrite (proj2 (Z.eqb_neq _ _) H0). step_by (IH (a + 1) fuel Hr ltac:(lia)). done.
Qed.

Lemma write_bytes_run a l m : room m a (length l) → write_bytes a l m = Done tt (written a l m).
Proof.
  revert a m. induction l as [|b l IH]; intros a m Hr; [done|]. apply room_S in Hr as [H0 Hr]. cbn [write_bytes written].
  step_by (store_run a b m H0). apply IH. by apply room_insert.
Qed.

(** A string that lies apart from where it is copied to. *)
Record copyable (m : mem) (dest src : Z) (l : list Z) : Prop := {
  cp_string : string_in m src l;
  cp_room : room m dest (S (length l));
  cp_apart : apart dest src (S (length l)) }.

Lemma copy_loop_run fuel dest src l m :
  copyable m dest src l → (length l < fuel)%nat → copy_loop fuel dest src m = Done tt (written dest (l ++ [0]) m).
Proof.
  intros [[Hl Hb] Hr Ha]. revert dest src fuel m Hb Hr Ha.
  induction Hl as [|b l H0 Hl IH]; intros dest src [|fuel] m Hb Hr Ha Hf; cbn in Hf; try lia;
    apply bytes_at_cons in Hb as [Hb Hrest]; apply room_S in Hr as [Hd Hr];
    cbn [copy_loop]; step_by (load_byte_run _ _ _ Hb); step_by (store_run dest _ m Hd).
  - done.
  - rewrite (proj2 (Z.eqb_neq _ _) H0). unfold apart in *. cbn [length] in Ha. apply IH; [|by apply room_insert| |lia].
    + apply bytes_at_insert; [|done]. rewrite length_app. cbn. lia.
    + lia.
Qed.

(** Both implementations leave the same memory. *)
Lemma strcpy_generic_run fuel dest src l m :
  copyable m dest src l → (length l < fuel)%nat → strcpy_generic fuel dest src m = Done dest (written dest (l ++ [0]) m).
Proof. intros Hc Hf. unfold strcpy_generic. by step_by (copy_loop_run fuel dest src l m Hc Hf). Qed.
Lemma strcpy_run fuel dest src l m :
  copyable m dest src l → (length l < fuel)%nat → strcpy fuel dest src m = Done dest (written dest (l ++ [0]) m).
Proof.
  intros [Hs Hr _] Hf. unfold strcpy. step_by (read_string_run fuel src l m Hs Hf).
  erewrite bind_done; [done|]. apply write_bytes_run. rewrite length_app. cbn. by rewrite Nat.add_1_r.
Qed.
Lemma strcpy_resolver_run cpuid fuel dest src l m :
  copyable m dest src l → (length l < fuel)%nat →
  strcpy_resolver cpuid fuel dest src m = Done dest (written dest (l ++ [0]) m).
Proof.
  intros Hc Hf. unfold strcpy_resolver, strcpy_optimized.
  repeat case_match; first [by apply strcpy_run | by apply strcpy_generic_run].
Qed.

Lemma string_written dest l m : Forall (λ b, b ≠ 0) l → string_in (written dest (l ++ [0]) m) dest l.
Proof. intros Hl. split; [done|]. apply written_bytes. Qed.

Lemma example_main_run fuel cpuid buffer source second l1 l2 m :
  copyable m buffer source l1 → copyable m buffer second l2 → apart buffer second (S (max (length l1) (length l2))) →
  (length l1 < fuel)%nat → (length l2 < fuel)%nat →
  ∃ m', main fuel cpuid buffer source second m = Done (l1, l2) m'.
Proof.
  intros H1 H2 Ha Hf1 Hf2. unfold main. step_by (strcpy_resolver_run cpuid fuel buffer source l1 m H1 Hf1).
  destruct H1 as [[Hn1 _] _ _], H2 as [[Hn2 Hb2] Hr2 Ha2]. set (m1 := written buffer (l1 ++ [0]) m).
  step_by (read_string_run fuel buffer l1 m1 (string_written _ _ _ Hn1) Hf1).
  assert (copyable m1 buffer second l2) as H2'.
  { split; [split; [done|]|by apply written_room|done]. intros i b Hi. apply lookup_lt_Some in Hi as Hlt.
    unfold m1. rewrite length_app in Hlt. cbn in Hlt. unfold apart in Ha.
    rewrite written_lookup_other; [by apply Hb2|]. rewrite length_app. cbn. lia. }
  step_by (strcpy_resolver_run cpuid fuel buffer second l2 m1 H2' Hf2).
  step_by (read_string_run fuel buffer l2 _ (string_written _ _ m1 Hn2) Hf2). by eexists.
Qed.

(** ** Order *)
Definition is_byte (b : Z) : Prop := 0 < b < 256.

(** The order of strings that [strcmp] promises: the first difference decides, and a
    prefix comes first. *)
Fixpoint lex (s1 s2 : list Z) : comparison :=
  match s1, s2 with
  | [], [] => Eq
  | [], _ :: _ => Lt
  | _ :: _, [] => Gt
  | a :: s1, b :: s2 => match a ?= b with Eq => lex s1 s2 | c => c end
  end.

Lemma my_strcmp_lex s1 s2 :
  Forall is_byte s1 → Forall is_byte s2 → (my_strcmp s1 s2 ?= 0) = lex s1 s2 ∧ -256 < my_strcmp s1 s2 < 256.
Proof.
  intros H1. revert s2. induction H1 as [|a s1 Ha H1 IH]; intros s2 H2; destruct H2 as [|b s2 Hb H2]; cbn; [done|..];
    unfold is_byte in *.
  - split; [apply Z.compare_lt_iff; lia|lia].
  - split; [apply Z.compare_gt_iff; lia|lia].
  - destruct (Z.compare_spec a b) as [->|H|H].
    + rewrite Z.eqb_refl. by apply IH.
    + rewrite (proj2 (Z.eqb_neq a b)) by lia. split; [apply Z.compare_lt_iff; lia|lia].
    + rewrite (proj2 (Z.eqb_neq a b)) by lia. split; [apply Z.compare_gt_iff; lia|lia].
Qed.
