(* ===== verification/ToolProps.v ===== *)
(** * What the stand-alone programs guarantee

    The properties of [ListLibs], [StackTest], [CpuMigration], [SigLoad] and
    [PageSwap], proved from the lemmas of those components, each with a hypothesis followed by an instance at a
    concrete input. *)
From Stdlib Require Import Ascii Znumtheory.
From S2P Require Import StackTest CpuMigration SigLoad PageSwap.
From S2P Require Import Prelude KoSpec KldElf ListLibs.

Open Scope Z_scope.

(** ** The listing of libraries *)

(** C36: for every file up to the first that cannot be read, and for every library
    such a file needs, in order, the listing names the first file that exists along
    the directories of the file's last run path, of the environment's library path
    and of the four standard directories, empty directory names skipped; a file
    that cannot be read ends the program with status 1 after what came before it. *)
Theorem libraries_listed ex env files out :
  files ≠ [] → Forall (Forall scn_ok) (readable files) →
  listlibs_main ex env files out =
    (if existsb (λ f, negb (bool_decide (is_Some f))) files then Exited 1 else Done 0)
      (out ++ (readable files ≫= λ ss,
         (λ n, (n, first_found ex n (dirs_of (runpath_of ss) ++ dirs_of env ++ dirs STD_PATHS))) <$> needed ss)).
Proof.
  intros Hne Hok. destruct files as [|f files]; [done|]. unfold listlibs_main, mbind, M_bind.
  rewrite libs_loop_run by done. by destruct (existsb _ _).
Qed.

(** One dynamic section with a run path and two libraries. *)
Definition demo_strings (v : Z) : option chars :=
  if v =? 1 then Some (chr "/opt::/srv") else if v =? 2 then Some (chr "libm.so")
  else if v =? 3 then Some (chr "libz.so") else None.
Definition demo_section : scn :=
  Scn SHT_DYNAMIC 64 16 [(DT_NEEDED, 2); (DT_RUNPATH, 1); (DT_NEEDED, 3); (0, 0)] demo_strings.
Definition demo_files (p : chars) : bool :=
  bool_decide (p ∈ [chr "/srv/libm.so"; chr "/usr/lib/libm.so"]).

Lemma demo_section_ok : scn_ok demo_section.
Proof.
  split; [intros _; split; [done|vm_compute; lia]|].
  intros v Hv. apply list_elem_of_lookup in Hv as [i Hi].
  destruct i as [|[|[|[|i]]]]; vm_compute in Hi; try done; injection Hi as <-; vm_compute; by eexists.
Qed.

Lemma libraries_listed_witness :
  listlibs_main demo_files None [Some [demo_section]; None; Some []] [] =
    Exited 1 [(chr "libm.so", Some (chr "/srv/libm.so")); (chr "libz.so", None)].
Proof.
  rewrite (libraries_listed demo_files None [Some [demo_section]; None; Some []] []).
  - vm_compute. reflexivity.
  - discriminate.
  - constructor; [|constructor]. constructor; [apply demo_section_ok|constructor].
Defined.

(** ** The stack fault test *)
Section stack_test.
Import StackTest.

Lemma test_writes_inside x op area n i :
(1 <= i <= n)%nat → (n + 3 <= num_pages)%nat →
Forall (λ p, area <= p < area + map_size) (test_writes x op area i).
Proof.
intros Hi Hn. assert (Z.of_nat num_pages * PAGE_SIZE = map_size) as Hm by done.
unfold test_writes, PAGE_SIZE in *. repeat constructor; [lia..|]. destruct (_ && _); repeat constructor; lia.
Qed.

(** C37: whichever calls fail and whether or not the access faults, the test returns
    with its descriptor closed, its mapping and its vector released and the stack
    pointer where it was. It returns 0 exactly when it was set up and three adjacent
    pages (the first page of the mapping not counted) were absent; every address it
    writes is inside the mapping. The signal handler is reset to the default, but
    stays installed when the file or the mapping cannot be had. *)
Theorem stack_test_releases x op s :
st_map s = None → st_vec s = None → (∀ v, a_mincore x = Some v → length v = num_pages) →
∃ r ws s', mmap_stack_test x op s = Done r s' ∧
  st_fds s' = st_fds s ∧ st_map s' = None ∧ st_vec s' = None ∧ st_rsp s' = st_rsp s ∧
  st_segv s' = (if a_sigaction x then if set_up x then SIG_DFL else segv_handler else st_segv s) ∧
  st_writes s' = st_writes s ++ ws ∧
  (∀ area, a_mmap x = Some area → Forall (λ p, area <= p < area + map_size) ws) ∧
  (r = 0 ∨ r = -1) ∧
  (r = 0 ↔ a_sigaction x && set_up x && a_malloc x = true ∧
    ∃ vec i, a_mincore x = Some vec ∧ (1 <= i <= num_pages - 3)%nat ∧ absent3 vec i = true).
Proof.
intros Hm Hv Hl. destruct (mmap_stack_test_run x op s Hm Hv Hl) as (s' & Hrun & Hf & Hmap & Hvec & Hr & Hd & Hw).
exists (verdict x op).1, (verdict x op).2, s'. split; [done|].
do 6 (split; [done|]). clear -x. unfold verdict.
destruct (a_sigaction x && set_up x && a_malloc x) eqn:E.
2:{ split; [by constructor|]. split; [by right|]. split; [done|by intros []]. }
apply andb_true_iff in E as [[_ [_ Hmm%bool_decide_eq_true]%andb_true_iff]%andb_true_iff _].
destruct Hmm as [area Ha]. rewrite Ha. destruct (a_mincore x) as [vec|].
2:{ split; [by constructor|]. split; [by right|]. split; [done|]. by intros (_ & ? & ? & [=] & _). }
pose proof (highest_spec (absent3 vec) (num_pages - 3)) as Hh.
destruct (highest (absent3 vec) (num_pages - 3)) as [i|].
- destruct Hh as (Hi & Hp & _). split_and!; [|by left|].
  + intros a [= <-]. apply (test_writes_inside x op area (num_pages - 3)); [done|]. unfold num_pages. vm_compute. lia.
  + split; [intros _; split; [done|by eexists _, _]|done].
- split; [by constructor|]. split; [by right|]. split; [done|].
  intros (_ & ? & i & [= <-] & Hi & Hp). by rewrite Hh in Hp.
Qed.

Lemma stack_test_releases_witness :
let x := Answers true true true (Some 0x7f0000000000) true (Some (replicate num_pages 0)) true in
let s := Stw {[0; 1; 2]} None None SIG_DFL 0x7ffd0000 [] 0 in
∃ r ws s', mmap_stack_test x 0 s = Done r s' ∧
  st_fds s' = st_fds s ∧ st_map s' = None ∧ st_vec s' = None ∧ st_rsp s' = st_rsp s ∧
  st_segv s' = SIG_DFL ∧ st_writes s' = ws ∧
  (∀ area, Some 0x7f0000000000 = Some area → Forall (λ p, area <= p < area + map_size) ws) ∧
  (r = 0 ∨ r = -1) ∧
  (r = 0 ↔ true = true ∧ ∃ vec i, Some (replicate num_pages 0) = Some vec ∧
     (1 <= i <= num_pages - 3)%nat ∧ absent3 vec i = true).
Proof.
intros x s. apply (stack_test_releases x 0 s); [reflexivity|reflexivity|].
intros v [= <-]. vm_compute. reflexivity.
Defined.
End stack_test.

(** ** The migration demonstration *)
Section migration.
Import CpuMigration.

(** the program reads the state of the kernel a hundred times, always while it is
    elevated, splits its word into the two flags, and does the work of its mode after each: in busy mode it counts the
    primes below ten million exactly, in file mode it reads whenever the file was
    there or has been written. It ends lowered with status 0, with the descriptors
    it started with and, in file mode, without the file. *)
Theorem migration_demo arg ok w :
main arg ok w =
  Done 0 (Migw false (if decide (get_mode arg = MODE_IO) then false else mg_file w) (mg_fds w)
    (mg_log w ++ (seq 0 100 ≫= λ i,
       [KernelState (Z.land (Z.shiftr (symbi_state (ok i)) 1) 1) (Z.land (symbi_state (ok i)) 1);
        match get_mode arg with
        | MODE_SLEEP => Slept
        | MODE_BUSY => Counted (Z.of_nat (length (filter prime (seqZ 2 (10000000 - 2)))))
        | MODE_IO => Io (opens_w (ok i)) (opens_r (ok i) && (mg_file w || existsb (λ j, opens_w (ok j)) (seq 0 (S i))))
        end]))).
Proof.
rewrite main_run. unfold trace, work_event, primes_below, LIMIT, file_after. by destruct (get_mode arg).
Qed.
End migration.

(** ** The module embedded in a test *)
Section module.
Import SigLoad.

(** C38: the outcome of loading the embedded module, for every answer of the kernel:
    when every chunk can be copied the loader is handed exactly the bytes of the
    module and the arguments with the process number, its result is returned, and only
    the descriptor of the load is left allocated; without memory the result is 1; a
    chunk that cannot be copied makes the copy be freed twice. *)
Theorem module_loading x umod w :
sg_elevated w = true → fresh w → Z.of_nat (length umod) < 2 ^ 64 → - 2 ^ 31 <= a_pid x < 2 ^ 31 →
let n := sg_next w in
let len := Z.of_nat (length umod) in
load_included_module x umod w =
  if a_info x then
    if a_hdr x then
      if forallb (a_copy x) (seq 0 (S (Z.to_nat ((len - 1) / COPY_CHUNK_SIZE)))) then
        Done (a_load x) (grown (<[n := CInfo (n + 1) len]> (sg_heap w)) 2
                           [(Some <$> umod, module_args (a_pid x))] w)
      else Fault
    else Done 1 (grown (<[n := CInfo 0 len]> (sg_heap w)) 1 [] w)
  else Done 1 w.
Proof. intros He Hf Hl Hp n len. by apply load_run. Qed.

Lemma module_loading_witness :
let x := Answers true true (λ _, true) 4711 0 (λ _, 0) in
let w := Sgw ∅ 16 true false false [] in
load_included_module x [0x7f; 0x45; 0x4c; 0x46] w =
  Done 0 (Sgw {[16 := CInfo 17 4]} 18 true false false
            [([Some 0x7f; Some 0x45; Some 0x4c; Some 0x46], "name=Hansi arg_pid=4711"%string)]).
Proof.
intros x w. rewrite (module_loading x [0x7f; 0x45; 0x4c; 0x46] w).
- vm_compute. reflexivity.
- reflexivity.
- split; [reflexivity|]. intros p _. apply lookup_empty.
- reflexivity.
- split; discriminate || reflexivity.
Defined.
End module.

(** ** Exchanged pages *)
Section pages.
Import PageSwap.

(** C39: when the cached translations agree with the page table, the program prints
    each of its two page aligned strings where the other was; afterwards every access
    to one of the two pages sees the other's memory, at the same offset, every other
    access what it saw before, and exchanging again undoes it. *)
Theorem pages_exchanged a b w :
coherent w → is_Some (ptes w !! page_of a) → is_Some (ptes w !! page_of b) →
a mod PageSwap.PAGE_SIZE = 0 → b mod PageSwap.PAGE_SIZE = 0 →
let s := string_at (Z.to_nat PageSwap.PAGE_SIZE) w in
(∃ w', swap_main a b w = Done (s a, s b, (s b, s a)) w' ∧ pg_elevated w' = false ∧
   ∀ v, view w' v = view w (exchange a b v)) ∧
∀ v, exchange a b (exchange a b v) = v.
Proof. intros Hc Ha Hb Aa Ab s. split; [by apply swap_main_run|]. apply exchange_twice. Qed.

Lemma pages_exchanged_witness :
let w := Pgw {[1 := 0x5067; 2 := 0x6067]} {[2 := 0x6067]} (λ p, if p =? 0x5000 then 65 else if p =? 0x6000 then 66 else 0) false in
(∃ w', swap_main 4096 8192 w = Done ([Some 65], [Some 66], ([Some 66], [Some 65])) w' ∧ pg_elevated w' = false ∧
   ∀ v, view w' v = view w (exchange 4096 8192 v)) ∧
∀ v, exchange 4096 8192 (exchange 4096 8192 v) = v.
Proof.
intros w. apply (pages_exchanged 4096 8192 w); [|by eexists|by eexists|reflexivity|reflexivity].
intros p e Hp. cbn in *. apply lookup_singleton_Some in Hp as [<- <-]. reflexivity.
Defined.
End pages.
