(* ===== verification/DemoProps.v ===== *)
(** * What the client, the second driver and the demonstrations guarantee

    The properties of [ClientStats], [NewDriver], [ModLoad], [ModPrograms] and
    [CStrings], proved from the lemmas of those components, each followed by an
    instance at a concrete input. *)
From Stdlib Require Import Ascii String Floats.SpecFloat.
From S2P Require Import X86 Idt CStrings ModLoad ModPrograms Double EchoClient ClientStats.
From S2P Require Import Cli Kcut Evacuate EvacuateSpec KcutEvac KcutThreads KcutDriver NewDriver Prelude.

Open Scope Z_scope.
Open Scope list_scope.

(** ** The benchmark client *)
Module Report.

(** C26: given options it accepts, calls of [write] and [read] that return, buffers that
    are allocated and readings of the clock that are valid, the client without a
    connection ends with status 1 and prints nothing. With one it ends with status 0
    after it has closed the connection. Its array then holds, first in order, the round
    trip times of the transactions it completed, no more than [-n] asks for; without any
    it says so, and else it prints the figures of exactly these: their number, the shortest and the longest, mean
    and standard deviation, rate and throughput by their formulas, and the percentiles
    50, 75, 90, 95, 99 and 99.9, each interpolated in the sorted samples. *)
Theorem client_reports sys host l o now now' warm xs ck c :
  settings l = Some o → normal now' → run_ends o warm xs →
  Forall (λ x, valid_ts (x_before x) ∧ valid_ts (x_after x)) xs →
  ∃ r c', client_main sys host l true true now now' warm xs ck c = Done r c' ∧ cl_fds c' = cl_fds c ∧
    if ns_socket sys && ns_inet_pton sys host && ns_connect sys host (u16 (port o))
    then r = 0 ∧ let n := b_n (cl_bench c') in
         0 <= n <= sample_cap o ∧ (0 < max_txns o → n <= max_txns o) ∧
         let samples := x_rtt <$> take (Z.to_nat n) xs in
         take (Z.to_nat n) (b_lat (cl_bench c')) = Some <$> samples ∧ Z.of_nat (length samples) = n ∧
         if n =? 0 then cl_report c' = Some None
         else ∃ st, cl_report c' = Some (Some st) ∧ reports (elapsed_of ck) (pkt_size o) (rate o) samples st
    else r = 1 ∧ cl_report c' = cl_report c.
Proof. apply client_main_run. Qed.

Definition demo_sys : netsys := NetSys true (λ _, true) (λ _ _, true).
Definition demo_clocks : clocks := Clocks (Timespec 4 0) (Timespec 6 0).
Definition demo_txn (rtt : Z) : txn := Txn false false [2] [RBytes [66; 66]] (Timespec 5 10) (Timespec 5 (10 + rtt)).
Definition demo_run : list txn := [demo_txn 700; demo_txn 900; Txn true false [2] [RBytes [66; 66]] (Timespec 6 0) (Timespec 6 8)].

Lemma client_reports_witness :
  ∃ r c', client_main demo_sys "127.0.0.1" [OptS 2; OptN 2; OptW 0] true true (Timespec 0 0) (Timespec 0 0) []
      demo_run demo_clocks
      (Client ∅ (Bench (EchoClient.Conn [] []) (Timespec 0 0) [] 0) None) = Done r c' ∧ cl_fds c' = ∅ ∧ r = 0.
Proof.
  destruct (client_reports demo_sys "127.0.0.1" [OptS 2; OptN 2; OptW 0] (Opts 8080 2 100 10 2 0 false)
    (Timespec 0 0) (Timespec 0 0) [] demo_run demo_clocks
    (Client ∅ (Bench (EchoClient.Conn [] []) (Timespec 0 0) [] 0) None)) as (r & c' & H1 & H2 & H3).
  - reflexivity.
  - unfold normal. cbn. lia.
  - split; [cbn; lia|]. split; [reflexivity|left; reflexivity].
  - repeat (apply Forall_cons; split; [unfold valid_ts, normal; cbn; lia|]). apply Forall_nil_2.
  - exists r, c'. split; [exact H1|]. split; [exact H2|]. exact (proj1 H3).
Defined.
End Report.

(** ** The second driver *)
Module Second.

(** C27: [newmain.c], read with its misspelt [struct] corrected. It exits with status -1,
    having done nothing, exactly when an option is not [-I], [-S], [-b] or a [-U] with a number. With [-U]
    it never gets past the first test, whatever the other arguments are, unless the conversion of the delay is undefined.
    Otherwise, when the counts of yields and loops are not negative, the test of the page fault code,
    which is declared nowhere, is not asked for, and the schedule of the threads is complete:
    without evacuation it makes the tests in order, the counter of the threads having the value it should
    have, returns 0, has given its privilege up, and the tasks are those that were there and the
    children that have not ended; with evacuation, on a machine where the processor can be acquired and
    [getcpu] succeeds, it ends in undefined behaviour, although the processor was acquired and released: the result
    it then checks was never set. *)
Theorem new_driver_outcomes mc ks strtod on test_pfasm `{!KernStack on} args x nanosleep v d :
  kw_elevated (dv_k d) = false → is_Some (tasks (dv_ev d) !! current mc) →
  let run fuel := new_main mc ks strtod on test_pfasm args x nanosleep fuel d in
  match processArgs strtod args with
  | None => forallb (accepted strtod) (getopt new_optstring None args).1 = false ∧ ∀ fuel, run fuel = Exited (-1) d
  | Some a =>
      forallb (accepted strtod) (getopt new_optstring None args).1 = true ∧
      (usflg a ≠ 0 → (∀ fuel, run fuel = NoFuel) ∨ (∀ fuel, run fuel = Fault)) ∧
      ∀ fuel, usflg a = 0 → args_ok (shared_args a) fuel → do_test_pfasm a = 0 →
        complete (c_num_spawns a) (c_num_increments a) (w_schedule x) →
        (c_evac a = 0 → ∃ d', run fuel = Done 0 d' ∧ dv_log d' = dv_log d ++ new_tests_log a x ∧
           kw_elevated (dv_k d') = false ∧
           with_children mc (left_over (Z.to_nat (c_num_forks a)) 0 (w_fork x)) (dv_ev d) (dv_ev d')) ∧
        (c_evac a ≠ 0 → w_getcpu x = true → k_dlsym_tos ks = Some v →
         can_acquire mc (dv_ev d) → (∀ t k, tasks (dv_ev d) !! t = Some k → runnable mc k) → setattr_rc mc = 0 →
         run fuel = Fault)
  end.
Proof.
  intros Hel Hsome. cbn zeta. unfold new_main.
  pose proof (processArgs_accepted strtod args) as Hacc.
  destruct (processArgs strtod args) as [a|] eqn:Epa.
  2:{ split; [|done]. destruct (forallb _ _); [|done]. destruct (proj2 Hacc eq_refl) as [? [=]]. }
  split; [by apply Hacc|]. split.
  - intros Hus. rewrite (proj2 (Z.eqb_neq _ _) Hus).
    destruct (userstab_diverges nanosleep (usdelay a) d); [left; intros; by apply bind_nofuel|right; intros; by apply bind_fault].
  - intros fuel -> Hok Hp Hcs. cbn [Z.eqb].
    assert (threads_ok (shared_args a) x) as Hth by (destruct (processArgs_range _ _ _ Epa); split; [done|by split]).
    split.
    + intros ->. cbn [Z.eqb]. step. step. set (d1 := Drv (dv_ev d) (kset_elevated true (dv_k d)) (dv_log d)).
      rewrite (bind_done _ _ _ tt d1) by reflexivity.
      destruct (new_elevated_tests_run mc test_pfasm a x fuel d1 eq_refl Hsome Hok Hth Hp) as (d2 & Htests & Hl & Hk & Hw).
      step_by Htests. erewrite bind_done by (unfold on_k, ksymbi_fast_lower, modifyM; rewrite Hk; reflexivity).
      step. eexists. split; [done|]. by split_and!.
    + intros Hev Hcpu Hv Hca Hrn Hrc. rewrite (proj2 (Z.eqb_neq _ _) Hev), Hcpu. step.
      destruct (acquire_ok mc (dv_ev d) (w_cpu x) EVAC_KILL_NICELY Hca Hrc) as (e1 & Hacq & Ha).
      destruct (new_evacuate_acquire mc ks on (w_cpu x) d e1 v Hel Hv Hacq) as (t1 & Hev1).
      step_by Hev1. set (d1 := Drv e1 (kset_elevated true (kset_tos t1 (dv_k d))) (dv_log d)).
      rewrite (bind_done _ _ _ tt d1) by reflexivity.
      assert (is_Some (tasks (dv_ev d1) !! current mc)) as Hs1.
      { destruct Ha as (_ & Hc & _). cbn. rewrite Hc. destruct Hsome as [k ->]. done. }
      destruct (new_elevated_tests_run mc test_pfasm a x fuel d1 eq_refl Hs1 Hok Hth Hp) as (d2 & Htests & Hl & Hk & Hw).
      destruct (children_release mc _ _ e1 (dv_ev d2) Hca Hrn Ha Hw) as (e3 & Hrel & _).
      step_by Htests. set (d3 := Drv (dv_ev d2) (kset_elevated false (dv_k d2)) (dv_log d2)).
      rewrite (bind_done _ _ _ tt d3) by (unfold on_k, ksymbi_fast_lower, modifyM, d3; by rewrite Hk).
      apply bind_fault. by apply (new_evacuate_release mc ks on (w_cpu x) d3 e3 v 0).
Qed.

(** The work between raising and lowering privilege. *)
Definition around (tos : Z) (m : M drv Z) : M drv Z :=
  _ ← on_k ksym_elevate; r ← m; _ ← on_k ksymbi_fast_lower; mret r.
#[export] Instance around_kern_stack : KernStack around.
Proof.
  intros tos m d a d' Hel Hm Hup. unfold around.
  rewrite (bind_done _ _ d tt (Drv (dv_ev d) (kset_elevated true (dv_k d)) (dv_log d))) by reflexivity.
  step_by Hm. erewrite bind_done by (unfold on_k, ksymbi_fast_lower, modifyM; rewrite Hup; reflexivity). done.
Qed.

Definition task0 (n : Z) : task := Task n false {[0; 1]} None true n true 1 (SCHED_NORMAL, 0).
Definition machine0 : machine := Machine 10 0 {[0; 1]} 2 [10%nat; 11%nat] (λ _, true) true true 0.
Definition start0 : drv := Drv (Evw {[10%nat := task0 100; 11%nat := task0 101]} [] [] NoMask NoMask unlocked) kcutw0 [].

Lemma start0_can_acquire : can_acquire machine0 (dv_ev start0).
Proof.
  split; [cbn; lia|apply (bool_decide_unpack _); by vm_compute|by vm_compute|done|done|by eexists| |done|done].
  split; [apply (bool_decide_unpack _); by vm_compute|]. intros t Ht.
  repeat (apply elem_of_cons in Ht as [->|Ht]; [by eexists|]). by apply elem_of_nil in Ht.
Qed.
Lemma start0_runnable t k : tasks (dv_ev start0) !! t = Some k → runnable machine0 k.
Proof.
  intros H. assert (map_Forall (λ _ k, runnable machine0 k) (tasks (dv_ev start0))) as Hall.
  { unfold runnable. apply (bool_decide_unpack _). by vm_compute. }
  by eapply Hall.
Qed.

Definition no_pfasm (a b : Z) : M drv unit := mret tt.
Definition no_strtod (s : string) : double * string := (d_of_Z 0, s).
Definition ks0 : ksys :=
  Ksys (λ _, false) (λ _ n, n) (λ _ n, n) (λ _ n, n) (λ _ n, n) (λ _ n, n) (λ _ n, n) (Some 0x1fb8) None.

(** Two yields, a busy loop of 3, no threads, without evacuation; then with; and an
    option that is not known. *)
Lemma new_driver_outcomes_witness :
  (∃ d', new_main machine0 ks0 no_strtod around no_pfasm ["0"; "3"; "2"; "0"]%string
           (World true 0 (λ _, None) []) (λ _, None) 10 start0 = Done 0 d' ∧ kw_elevated (dv_k d') = false) ∧
  new_main machine0 ks0 no_strtod around no_pfasm ["0"; "3"; "2"; "1"]%string
           (World true 0 (λ _, None) []) (λ _, None) 10 start0 = Fault ∧
  new_main machine0 ks0 no_strtod around no_pfasm ["-y"]%string
           (World true 0 (λ _, None) []) (λ _, None) 10 start0 = Exited (-1) start0.
Proof.
  pose proof (λ args, new_driver_outcomes machine0 ks0 no_strtod around no_pfasm args
    (World true 0 (λ _, None) []) (λ _, None) 0x1fb8 start0 eq_refl (ex_intro _ (task0 100) eq_refl)) as H.
  assert (complete 0 0 []) as Hc.
  { split; [apply not_elem_of_nil|]. eexists. split; [reflexivity|]. intros [ok|t] _; reflexivity. }
  split; [|split].
  - destruct (H ["0"; "3"; "2"; "0"]%string) as (_ & _ & H').
    destruct (H' 10%nat eq_refl) as [H1 _]; [split_and!; vm_compute; try intros E; (discriminate E || reflexivity)|reflexivity|exact Hc|].
    destruct (H1 eq_refl) as (d' & Hrun & _ & Hp & _). exists d'. split; [exact Hrun|exact Hp].
  - destruct (H ["0"; "3"; "2"; "1"]%string) as (_ & _ & H').
    destruct (H' 10%nat eq_refl) as [_ H2]; [split_and!; vm_compute; try intros E; (discriminate E || reflexivity)|reflexivity|exact Hc|].
    apply H2; [vm_compute; intros E; discriminate E|reflexivity|reflexivity|exact start0_can_acquire|exact start0_runnable|reflexivity].
  - destruct (H ["-y"]%string) as [_ H']. apply H'.
Defined.
End Second.

(** ** Programs with a kernel module *)
Module Modules.
(** [SYM_ON_KERN_STACK_DO] as raising privilege, the work, and lowering it. *)
Definition bracket {K} (m : M (lmw K) Z) : M (lmw K) Z :=
  _ ← ModLoad.sym_elevate; r ← m; _ ← ModLoad.sym_lower; mret r.
#[export] Instance bracket_on {K} : OnKernStack (@bracket K).
Proof.
  intros m w a w' He Hm. unfold bracket. rewrite (bind_done _ _ w tt (set_priv true w)) by reflexivity. by step_by Hm.
Qed.

(** A kernel that accepts every module and then knows every name but the empty one. *)
Definition demo_kern : kern := Kern (λ _ _ _, 0) (λ calls n, if bool_decide (n = ""%string ∨ calls = []) then 0 else 4096).
Definition demo_image : image := Image 0x404000 5000 0x403000 0x7ffc0000.
Definition fresh {K} (k : K) : lmw K := Lmw ∅ false false [] ∅ k.

(** C28: [printk] offers its module to the kernel exactly once, with the start, size and
    arguments of the module where the system call looks for them. When the kernel
    refuses it, or does not know one of the functions, the program ends with status 1
    before [main]; otherwise it returns 0 and the kernel has printed the sum and the
    process number. In no case is the thread left with privilege. *)
Theorem printk_program kn im pid on `{!OnKernStack on} w :
  lm_elevated w = false → lm_loaded w = false → lm_calls w = [] → lm_kernel w = [] →
  ∃ w', lm_elevated w' = false ∧ lm_calls w' = [(ko_start im, ko_size im, ko_uargs im)] ∧
    if (i32 (kn_init kn (ko_start im) (ko_size im) (ko_uargs im)) =? 0) && all_found kn (lm_calls w') Printk.printk_ifuncs
    then Printk.printk_run kn im pid on w = Done 0 w' ∧ lm_kernel w' = [7; pid]
    else Printk.printk_run kn im pid on w = Exited 1 w' ∧ lm_kernel w' = [].
Proof.
  intros He Hl Hc Hk. destruct (resolve_first kn im on "kernel_add" ["current_pid"%string] w He Hl Hc) as (w1 & [He1 Hc1] & Hk1 & Hcase).
  unfold load_rc, request in *. unfold Printk.printk_run, Printk.printk_ifuncs.
  destruct ((i32 _ =? 0) && all_found _ _ _) eqn:E.
  - destruct Hcase as [Hrun Hgot]. exists (set_priv false (set_kernel (lm_kernel w1 ++ [7; pid]) w1)).
    split; [done|]. split; [done|]. cbn [lm_calls set_priv set_kernel lm_kernel]. rewrite Hc1, E. split; [|by rewrite Hk1, Hk].
    step_by Hrun. eapply Printk.printk_main_run; apply Hgot; set_solver.
  - exists w1. do 2 (split; [done|]). rewrite Hc1, E. split; [by apply bind_exited|by rewrite Hk1].
Qed.

Lemma printk_program_witness :
  ∃ w', Printk.printk_run demo_kern demo_image 1234 bracket (fresh []) = Done 0 w' ∧ lm_kernel w' = [7; 1234].
Proof.
  destruct (printk_program demo_kern demo_image 1234 bracket (fresh []) eq_refl eq_refl eq_refl eq_refl)
    as (w' & _ & Hc & H). rewrite Hc in H. exists w'. exact H.
Defined.

(** C29: [read_idtr] prints, for each of the 256 gates of the table the processor uses, the
    address, the selector, the stack number and the attributes that the sixteen bytes
    of the gate encode (the attributes without bit 4, which is not read); it returns 0
    and gives its privilege up. *)
Theorem idt_printed kn im on `{!OnKernStack on} gs w :
  lm_elevated w = false → lm_loaded w = false → lm_calls w = [] →
  load_rc kn im = 0 → all_found kn [request im] ReadIdtr.read_idtr_ifuncs = true →
  length gs = 256%nat → Forall ReadIdtr.gate_ok gs →
  ReadIdtr.table_at (ReadIdtr.le (take 8 (drop 2 (ReadIdtr.im_idtr (lm_kernel w))))) gs (lm_kernel w) →
  ∃ w', ReadIdtr.read_idtr_program kn im on w = Done 0 w' ∧ lm_elevated w' = false ∧ lm_calls w' = [request im] ∧
    ReadIdtr.im_lines (lm_kernel w') = ReadIdtr.im_lines (lm_kernel w) ++ imap ReadIdtr.gate_line gs.
Proof.
  intros He Hl Hc Hrc Hf Hlen Hg Ht.
  destruct (resolve_first kn im on "print_idt_entries" [] w He Hl Hc) as (w1 & [He1 Hc1] & Hk1 & Hcase).
  unfold ReadIdtr.read_idtr_ifuncs in Hf. rewrite Hrc, Hf in Hcase. cbn [Z.eqb andb] in Hcase. destruct Hcase as [Hrun Hgot].
  unfold ReadIdtr.read_idtr_program, ReadIdtr.read_idtr_ifuncs. step_by Hrun. unfold ReadIdtr.read_idtr_main. step.
  pose proof (Hgot "print_idt_entries"%string ltac:(set_solver)) as Hn. rewrite <- Hk1 in Ht.
  pose proof (ReadIdtr.print_idt_entries_run gs (lm_kernel w1) Hlen Hg Ht) as Hp.
  erewrite bind_done by (by eapply kcall_done).
  step. eexists. split; [done|]. cbn. by rewrite Hk1.
Qed.

Definition demo_gates : list ReadIdtr.gate := replicate 256 (ReadIdtr.Gate 0xffffffff81000a20 0x10 2 0x8e).
Definition demo_table : ReadIdtr.idtmem :=
  ReadIdtr.IdtMem (list_to_map (imap (λ i b, (Z.of_nat i, b)) (demo_gates ≫= ReadIdtr.gate_bytes)))
    [255; 15; 0; 0; 0; 0; 0; 0; 0; 0] [].
Definition demo_check : bool :=
  forallb (λ i, forallb (λ j,
    bool_decide (ReadIdtr.im_bytes demo_table !! (16 * Z.of_nat i + Z.of_nat j) =
                 (g ← demo_gates !! i; ReadIdtr.gate_bytes g !! j))) (seq 0 16)) (seq 0 256).
Lemma demo_checked : demo_check = true.
Proof. by vm_compute. Qed.
Lemma demo_table_at : ReadIdtr.table_at 0 demo_gates demo_table.
Proof.
  intros i g Hi j b Hj. pose proof demo_checked as H. unfold demo_check in H. rewrite forallb_forall in H.
  apply lookup_lt_Some in Hi as Hi'. apply lookup_lt_Some in Hj as Hj'.
  specialize (H i ltac:(apply in_seq; split; [lia|exact Hi'])). rewrite forallb_forall in H.
  specialize (H j ltac:(apply in_seq; split; [lia|exact Hj'])).
  apply bool_decide_eq_true in H. rewrite Hi in H. cbn [mbind option_bind] in H. by rewrite Hj in H.
Qed.

Lemma idt_printed_witness :
  ∃ w', ReadIdtr.read_idtr_program demo_kern demo_image bracket (fresh demo_table) = Done 0 w' ∧
    ReadIdtr.im_lines (lm_kernel w') = imap ReadIdtr.gate_line demo_gates.
Proof.
  destruct (idt_printed demo_kern demo_image bracket demo_gates (fresh demo_table)) as (w' & H1 & _ & _ & H2).
  - reflexivity.
  - reflexivity.
  - reflexivity.
  - reflexivity.
  - reflexivity.
  - reflexivity.
  - apply Forall_replicate. unfold ReadIdtr.gate_ok. cbn. lia.
  - exact demo_table_at.
  - exists w'. split; [exact H1|exact H2].
Defined.

(** every process of the fork test ends, with the status its branch returns; the child
    that was started by an elevated process prints through the kernel and gives its
    privilege up. A process has privilege at its end only when the second fork fails:
    [main] then returns without lowering. *)
Theorem fork_processes kn im on `{!OnKernStack on} ok1 ok2 ok3 w :
  lm_elevated w = false → lm_loaded w = false → lm_calls w = [] → lm_kernel w = [] →
  Fork.ended <$> Fork.fork_program kn im on ok1 ok2 ok3 w =
    Some <$> if (load_rc kn im =? 0) && all_found kn [request im] Fork.fork_ifuncs
             then Fork.fork_ends ok1 ok2 ok3 else [(1, false, [])].
Proof.
  intros He Hl Hc Hk. destruct (resolve_first kn im on "print_idt_entries" [] w He Hl Hc) as (w1 & [He1 Hc1] & Hk1 & Hcase).
  unfold Fork.fork_program, Fork.and_then, Fork.fork_ifuncs, Fork.fork_resolver. destruct ((load_rc kn im =? 0) && _).
  - destruct Hcase as [-> _]. by apply Fork.fork_main_ends; [|rewrite Hk1].
  - rewrite Hcase. cbn. by rewrite He1, Hk1, Hk.
Qed.
End Modules.

(** ** Strings *)
Module Copies.

(** the two implementations of [my_strcpy] do the same to memory and return the same
    pointer, so it does not matter which of them the resolver chooses: the string and
    its terminator are at the destination and the rest of memory is unchanged. *)
Theorem strcpy_implementations_agree cpuid fuel dest src l m :
  copyable m dest src l → (length l < fuel)%nat →
  strcpy_resolver cpuid fuel dest src m = CStrings.strcpy fuel dest src m ∧
  ∃ m', strcpy_generic fuel dest src m = Done dest m' ∧ CStrings.strcpy fuel dest src m = Done dest m' ∧
    string_in m' dest l ∧ ∀ a, (a < dest ∨ dest + Z.of_nat (length l) < a) → m' !! a = m !! a.
Proof.
  intros Hc Hf. split; [by rewrite (strcpy_resolver_run cpuid _ _ _ l), (strcpy_run _ _ _ l)|].
  exists (written dest (l ++ [0]) m). split_and!; [by apply strcpy_generic_run|by apply strcpy_run| |].
  - apply string_written. apply (cp_string _ _ _ _ Hc).
  - intros a Ha. apply written_lookup_other. rewrite length_app. cbn. lia.
Qed.

Lemma strcpy_implementations_agree_witness :
  let m : gmap Z Z := {[10 := 72; 11 := 105; 12 := 0; 20 := 1; 21 := 1; 22 := 1]} in
  ∃ m', strcpy_generic 5 20 10 m = Done 20 m' ∧ CStrings.strcpy 5 20 10 m = Done 20 m'.
Proof.
  destruct (strcpy_implementations_agree None 5 20 10 [72; 105]
    {[10 := 72; 11 := 105; 12 := 0; 20 := 1; 21 := 1; 22 := 1]}) as (_ & m' & H1 & H2 & _).
  - split.
    + split; [repeat constructor; discriminate|].
      intros [|[|[|i]]] b Hb; cbn in Hb; try discriminate Hb; injection Hb as <-; reflexivity.
    + intros [|[|[|i]]] Hi; cbn in Hi; try lia; eexists; reflexivity.
    + right. cbn. lia.
  - cbn. lia.
  - exists m'. split; [exact H1|exact H2].
Defined.

(** [my_strcmp] has the sign of the order of strings. *)
Theorem my_strcmp_order s1 s2 :
  Forall is_byte s1 → Forall is_byte s2 →
  (my_strcmp s1 s2 = 0 ↔ s1 = s2) ∧ (my_strcmp s1 s2 ?= 0) = lex s1 s2.
Proof.
  intros H1 H2. pose proof (my_strcmp_lex s1 s2 H1 H2) as [Hl _]. split; [|done]. split.
  - intros H0. rewrite H0 in Hl. clear H0 H1 H2. revert s2 Hl. induction s1 as [|a s1 IH]; intros [|b s2] Hl; cbn in Hl; try done.
    destruct (Z.compare_spec a b) as [->|?|?]; try done. by rewrite (IH s2).
  - intros ->. clear. induction s2 as [|a s IH]; cbn; [done|]. by rewrite Z.eqb_refl.
Qed.
End Copies.
